(** * Classification smoothing (megadetector/postprocessing/classification_postprocessing.py)

    A shallow embedding of the rule-based post-processor that smooths
    per-detection species classifications within an image or a sequence,
    together with the properties of its three passes.

    Conventions of the embedding.
    - Python ints that count detections are [nat]; configured thresholds are [Z].
    - Confidences and confidence thresholds are Python numbers ([number]): a
      rational or NaN.  [a >= b] is [num_ge a b] and [a < b] is [num_lt a b];
      both are false as soon as one side is NaN.  The infinities compare
      like numbers beyond every other one and are not set apart.
    - A Python dict is an association list in insertion order ([dict]); the
      category tally relies on that order.
    - Detection objects are mutated in place by the source.  They live in a
      [store] (address -> detection); a smoothing unit is a list of addresses.
    - A raised exception is a value of [exn]; stateful code returns the store
      it reached together with the exception or the result. *)

From Stdlib Require Import List String Ascii ZArith QArith Lia Bool Arith PeanoNat.
From Stdlib Require Import DecimalString Permutation Sorted.
From Stdlib Require OrderedTypeEx.
Import ListNotations.

Local Open Scope nat_scope.
Local Open Scope string_scope.
Local Open Scope list_scope.

(** ** Exceptions and fallible results *)

Inductive exn : Type :=
| AssertionError
| KeyError
| IndexError
| TypeError
| ValueError.

Definition result (A : Type) : Type := (exn + A)%type.

Definition ok {A : Type} (a : A) : result A := inr a.
Definition throw {A : Type} (e : exn) : result A := inl e.

Definition rbind {A B : Type} (m : result A) (f : A -> result B) : result B :=
  match m with
  | inl e => inl e
  | inr a => f a
  end.

Notation "x <- m ;; k" := (rbind m (fun x => k))
  (at level 61, m at next level, right associativity).

(** ** Python containers *)

(** [x in l] for a list of strings. *)
Definition str_mem (x : string) (l : list string) : bool :=
  existsb (String.eqb x) l.

(** A dict with string keys, in insertion order. *)
Definition dict (V : Type) : Type := list (string * V).

(** [d.get(k)]: the value of the first entry whose key is [k]. *)
Fixpoint dict_find {V : Type} (d : dict V) (k : string) : option V :=
  match d with
  | [] => None
  | (k', v) :: d' => if String.eqb k' k then Some v else dict_find d' k
  end.

(** [d[k]], raising KeyError when [k] is absent. *)
Definition dict_get {V : Type} (d : dict V) (k : string) : result V :=
  match dict_find d k with
  | Some v => ok v
  | None => throw KeyError
  end.

(** [k in d]. *)
Definition dict_mem {V : Type} (d : dict V) (k : string) : bool :=
  match dict_find d k with
  | Some _ => true
  | None => false
  end.

(** [list(d.keys())]. *)
Definition dict_keys {V : Type} (d : dict V) : list string := map fst d.

(** [l[i]], raising IndexError out of range. *)
Definition list_get {A : Type} (l : list A) (i : nat) : result A :=
  match nth_error l i with
  | Some a => ok a
  | None => throw IndexError
  end.

(** [a in b] for strings: [a] occurs in [b] as a contiguous substring. *)
Fixpoint str_in (a b : string) : bool :=
  if String.prefix a b then true
  else match b with
       | EmptyString => false
       | String _ b' => str_in a b'
       end.

(** ** Data model *)

(** A Python number as the code compares it: an int or a float, which may
    be NaN (json.load reads the literal NaN as a float). *)
Inductive number : Type :=
| Num (q : Q)
| NaN.

(** [a >= b] *)
Definition num_ge (a b : number) : bool :=
  match a, b with
  | Num x, Num y => Qle_bool y x
  | _, _ => false
  end.

(** [a < b] *)
Definition num_lt (a b : number) : bool :=
  match a, b with
  | Num x, Num y => negb (Qle_bool y x)
  | _, _ => false
  end.

(** One entry of a detection's 'classifications' list: [category_id, confidence]. *)
Definition classification : Type := (string * number)%type.

(** A detection dict, restricted to the keys the smoothing code reads:
    'conf' and the optional 'classifications'. *)
Record detection : Type := mkDetection {
  conf : number;
  classifications : option (list classification)
}.

(** class ClassificationSmoothingOptions.  The source never reads
    [propagate_classifications_through_taxonomy]: pass 3 runs whenever
    cleaned descriptions are at hand. *)
Record ClassificationSmoothingOptions : Type := mkOptions {
  min_detections_to_overwrite_secondary : Z;
  max_detections_nondominant_class : Z;
  min_detections_to_overwrite_other : Z;
  other_category_names : list string;
  classification_confidence_threshold : number;
  detection_confidence_threshold : number;
  propagate_classifications_through_taxonomy : bool;
  add_pre_smoothing_description : bool;
  modify_in_place : bool
}.

(** ClassificationSmoothingOptions.__init__ *)
Definition default_options : ClassificationSmoothingOptions := {|
  min_detections_to_overwrite_secondary := 4;
  max_detections_nondominant_class := 1;
  min_detections_to_overwrite_other := 2;
  other_category_names :=
    ["other"; "unknown"; "no cv result"; "animal"; "blank"; "mammal"];
  classification_confidence_threshold := Num (1 # 2);
  detection_confidence_threshold := Num (15 # 100);
  propagate_classifications_through_taxonomy := true;
  add_pre_smoothing_description := true;
  modify_in_place := false
|}.

(** [c[0] = x] where [c = det['classifications'][0]]. *)
Definition set_category (det : detection) (x : string) : detection :=
  {| conf := conf det;
     classifications :=
       match classifications det with
       | Some (c :: rest) => Some ((x, snd c) :: rest)
       | other => other
       end |}.

(** ** Category tally: _count_detections_by_category *)

(** [category_to_count[k] += 1] on a defaultdict(int): a new key is appended. *)
Fixpoint incr_count (k : string) (d : dict nat) : dict nat :=
  match d with
  | [] => [(k, 1)]
  | (k', n) :: d' =>
      if String.eqb k' k then (k', S n) :: d' else (k', n) :: incr_count k d'
  end.

(** The counting loop of _count_detections_by_category, with the defaultdict
    as accumulator. *)
Fixpoint count_loop (options : ClassificationSmoothingOptions)
    (detections : list detection) (category_to_count : dict nat)
    : result (dict nat) :=
  match detections with
  | [] => ok category_to_count
  | det :: rest =>
      match classifications det with
      | Some cs =>
          if num_ge (conf det) (detection_confidence_threshold options) then
            match cs with
            | [c] =>
                if num_ge (snd c) (classification_confidence_threshold options)
                then count_loop options rest (incr_count (fst c) category_to_count)
                else count_loop options rest category_to_count
            | _ => throw AssertionError
            end
          else count_loop options rest category_to_count
      | None => count_loop options rest category_to_count
      end
  end.

(** [sorted(items, key=count, reverse=True)] is a stable sort: entries with
    equal counts keep their relative order. *)
Fixpoint insert_desc (x : string * nat) (l : dict nat) : dict nat :=
  match l with
  | [] => [x]
  | y :: l' => if (snd y <=? snd x)%nat then x :: y :: l' else y :: insert_desc x l'
  end.

Definition sort_desc (l : dict nat) : dict nat := fold_right insert_desc [] l.

Definition _count_detections_by_category (detections : list detection)
    (options : ClassificationSmoothingOptions) : result (dict nat) :=
  category_to_count <- count_loop options detections [] ;;
  ok (sort_desc category_to_count).

(** ** The detection store and in-place mutation *)

(** Detection objects by address.  A list of detections handed to the smoother
    is a list of addresses; two equal addresses are one shared object. *)
Definition store : Type := nat -> detection.

(** Rebinding the object at address [r]. *)
Definition upd (st : store) (r : nat) (d : detection) : store :=
  fun r' => if Nat.eqb r' r then d else st r'.

(** The detections a list of addresses denotes in a store. *)
Definition view (st : store) (refs : list nat) : list detection := map st refs.

(** Stateful, fallible computations: the store reached is returned also when
    an exception is raised (mutations made before it persist). *)
Definition M (A : Type) : Type := store -> store * result A.

Definition ret {A : Type} (a : A) : M A := fun st => (st, ok a).

Definition lift {A : Type} (r : result A) : M A := fun st => (st, r).

Definition bind {A B : Type} (m : M A) (f : A -> M B) : M B :=
  fun st =>
    match m st with
    | (st', inl e) => (st', inl e)
    | (st', inr a) => f a st'
    end.

Notation "x <~ m ;; k" := (bind m (fun x => k))
  (at level 61, m at next level, right associativity).

(** Reading the current value of every detection of the unit. *)
Definition read_all (refs : list nat) : M (list detection) :=
  fun st => (st, ok (view st refs)).

(** [for det in detections: body], where the body may rewrite [det] and
    updates a loop-carried value (a change counter).  The body returns the
    detection as it leaves it, also when it raises. *)
Fixpoint for_each {S : Type} (body : detection -> S -> detection * result S)
    (refs : list nat) (s : S) : M S :=
  fun st =>
    match refs with
    | [] => (st, ok s)
    | r :: rest =>
        match body (st r) s with
        | (d', inl e) => (upd st r d', inl e)
        | (d', inr s') => for_each body rest s' (upd st r d')
        end
    end.

(** ** Group Smoother: _smooth_classifications_for_list_of_detections *)

(** The dict returned by the smoother. *)
Record summary : Type := mkSummary {
  n_other_classifications_changed_this_image : nat;
  n_detections_flipped_this_image : nat;
  n_taxonomic_changes_this_image : nat
}.

Section GroupSmoother.

Variable options : ClassificationSmoothingOptions.
Variable other_category_ids : list string.
Variable classification_descriptions_clean : option (dict string).

(** Lines 292-300: the "quirky special case" swapping a tied leading "other"
    category with the second category. *)
Definition tie_break (category_to_count : dict nat) (keys : list string)
    : result (list string) :=
  if (1 <? List.length keys)%nat then
    k0 <- list_get keys 0 ;;
    if str_mem k0 other_category_ids then
      k1 <- list_get keys 1 ;;
      if negb (str_mem k1 other_category_ids) then
        n0 <- dict_get category_to_count k0 ;;
        n1 <- dict_get category_to_count k1 ;;
        if (n0 =? n1)%nat then ok (k1 :: k0 :: skipn 2 keys) else ok keys
      else ok keys
    else ok keys
  else ok keys.

(** Lines 302-303, 344-345, 386-387: [max_count = category_to_count[keys[0]]]
    and [most_common_category = keys[0]]. *)
Definition dominant (category_to_count : dict nat) (keys : list string)
    : result (string * nat) :=
  most_common_category <- list_get keys 0 ;;
  max_count <- dict_get category_to_count most_common_category ;;
  ok (most_common_category, max_count).

(** Lines 318-330: body of the pass-1 loop. *)
Definition other_body (most_common_category : string)
    (det : detection) (n : nat) : detection * result nat :=
  match classifications det with
  | Some cs =>
      if num_ge (conf det) (detection_confidence_threshold options) then
        match cs with
        | [c] =>
            if num_ge (snd c) (classification_confidence_threshold options)
               && str_mem (fst c) other_category_ids
            then (set_category det most_common_category, ok (S n))
            else (det, ok n)
        | _ => (det, throw AssertionError)
        end
      else (det, ok n)
  | None => (det, ok n)
  end.

(** Lines 357-372: body of the pass-2 loop. *)
Definition flip_body (category_to_count : dict nat)
    (most_common_category : string) (max_count : nat)
    (det : detection) (n : nat) : detection * result nat :=
  match classifications det with
  | Some cs =>
      if num_ge (conf det) (detection_confidence_threshold options) then
        match cs with
        | [c] =>
            if num_ge (snd c) (classification_confidence_threshold options)
               && negb (String.eqb (fst c) most_common_category)
            then
              match dict_get category_to_count (fst c) with
              | inl e => (det, inl e)
              | inr count_c =>
                  if (count_c <? max_count)%nat
                     && (min_detections_to_overwrite_secondary options
                           <? Z.of_nat max_count)%Z
                     && (Z.of_nat count_c
                           <=? max_detections_nondominant_class options)%Z
                  then (set_category det most_common_category, ok (S n))
                  else (det, ok n)
              end
            else (det, ok n)
        | _ => (det, throw AssertionError)
        end
      else (det, ok n)
  | None => (det, ok n)
  end.

(** Lines 423-444: one iteration of the scan over candidate children.
    [this], its description and its count were read before the scan and are
    not re-read after a relabel. *)
Definition child_step (descriptions : dict string)
    (category_to_count : dict nat)
    (category_id_this_classification : string)
    (category_description_this_classification : string)
    (count_this_category : nat)
    (category_id_of_candidate_child : string)
    (det : detection) (n : nat) : detection * result nat :=
  if String.eqb category_id_of_candidate_child category_id_this_classification
  then (det, ok n)
  else
    match dict_get descriptions category_id_of_candidate_child with
    | inl e => (det, inl e)
    | inr category_description_candidate_child =>
        if (String.length category_description_candidate_child =? 0)%nat
        then (det, ok n)
        else if negb (str_in category_description_this_classification
                             category_description_candidate_child)
        then (det, ok n)
        else
          match dict_get category_to_count category_id_of_candidate_child with
          | inl e => (det, inl e)
          | inr child_category_count =>
              if (count_this_category <? child_category_count)%nat
              then (set_category det category_id_of_candidate_child, ok (S n))
              else (det, ok n)
          end
    end.

(** Line 421: [for category_id_of_candidate_child in category_to_count.keys()]. *)
Fixpoint scan_children (descriptions : dict string)
    (category_to_count : dict nat)
    (category_id_this_classification : string)
    (category_description_this_classification : string)
    (count_this_category : nat)
    (candidates : list string)
    (det : detection) (n : nat) : detection * result nat :=
  match candidates with
  | [] => (det, ok n)
  | category_id_of_candidate_child :: rest =>
      match child_step descriptions category_to_count
              category_id_this_classification
              category_description_this_classification
              count_this_category category_id_of_candidate_child det n with
      | (det', inl e) => (det', inl e)
      | (det', inr n') =>
          scan_children descriptions category_to_count
            category_id_this_classification
            category_description_this_classification
            count_this_category rest det' n'
      end
  end.

(** Lines 400-444: body of the pass-3 loop. *)
Definition taxonomy_body (descriptions : dict string)
    (category_to_count : dict nat)
    (det : detection) (n : nat) : detection * result nat :=
  match classifications det with
  | Some cs =>
      if num_ge (conf det) (detection_confidence_threshold options) then
        match cs with
        | [c] =>
            if num_lt (snd c) (classification_confidence_threshold options)
            then (det, ok n)
            else
              let category_id_this_classification := fst c in
              if negb (dict_mem category_to_count
                                category_id_this_classification)
              then (det, throw AssertionError)
              else
                match dict_get descriptions
                               category_id_this_classification with
                | inl e => (det, inl e)
                | inr category_description_this_classification =>
                    match dict_get category_to_count
                                   category_id_this_classification with
                    | inl e => (det, inl e)
                    | inr count_this_category =>
                        scan_children descriptions category_to_count
                          category_id_this_classification
                          category_description_this_classification
                          count_this_category
                          (dict_keys category_to_count) det n
                    end
                end
        | _ => (det, throw AssertionError)
        end
      else (det, ok n)
  | None => (det, ok n)
  end.

(** Pass 1 (lines 285-336), after the early return. *)
Definition other_pass (detections : list nat) (category_to_count : dict nat)
    : M nat :=
  keys <~ lift (tie_break category_to_count (dict_keys category_to_count)) ;;
  dom <~ lift (dominant category_to_count keys) ;;
  let '(most_common_category, max_count) := dom in
  if (min_detections_to_overwrite_other options <=? Z.of_nat max_count)%Z
     && negb (str_mem most_common_category other_category_ids)
  then for_each (other_body most_common_category) detections 0
  else ret 0.

(** Pass 2 (lines 341-378). *)
Definition flip_pass (detections : list nat) : M nat :=
  dets <~ read_all detections ;;
  category_to_count <~ lift (_count_detections_by_category dets options) ;;
  dom <~ lift (dominant category_to_count (dict_keys category_to_count)) ;;
  let '(most_common_category, max_count) := dom in
  if negb (str_mem most_common_category other_category_ids)
  then for_each (flip_body category_to_count most_common_category max_count)
                detections 0
  else ret 0.

(** Pass 3 (lines 383-452). *)
Definition taxonomy_pass (detections : list nat) : M nat :=
  dets <~ read_all detections ;;
  category_to_count <~ lift (_count_detections_by_category dets options) ;;
  dom <~ lift (dominant category_to_count (dict_keys category_to_count)) ;;
  match classification_descriptions_clean with
  | Some descriptions =>
      if (0 <? List.length descriptions)%nat
         && (1 <? List.length category_to_count)%nat
      then for_each (taxonomy_body descriptions category_to_count) detections 0
      else ret 0
  | None => ret 0
  end.

(** The [classification_descriptions] argument of the source is only used in
    commented-out debugging code and is left out. *)
Definition _smooth_classifications_for_list_of_detections
    (detections : list nat) : M (option summary) :=
  dets <~ read_all detections ;;
  category_to_count <~ lift (_count_detections_by_category dets options) ;;
  if (List.length category_to_count <=? 1)%nat then ret None
  else
    n_other <~ other_pass detections category_to_count ;;
    n_flipped <~ flip_pass detections ;;
    n_taxonomic <~ taxonomy_pass detections ;;
    ret (Some {| n_other_classifications_changed_this_image := n_other;
                 n_detections_flipped_this_image := n_flipped;
                 n_taxonomic_changes_this_image := n_taxonomic |}).

End GroupSmoother.

(** ** Running the smoother on a list of distinct detection objects *)

Definition empty_detection : detection :=
  {| conf := Num 0; classifications := None |}.

(** A store holding [dets] at addresses [0 .. length dets - 1]. *)
Definition store_of (dets : list detection) : store :=
  fun r => nth r dets empty_detection.

Definition addresses (dets : list detection) : list nat :=
  seq 0 (List.length dets).

(** The smoother applied to a list of pairwise distinct detection objects:
    the detections as it leaves them, and what it returns or raises. *)
Definition smooth_list (options : ClassificationSmoothingOptions)
    (other_category_ids : list string)
    (classification_descriptions_clean : option (dict string))
    (dets : list detection) : list detection * result (option summary) :=
  let '(st, r) :=
    _smooth_classifications_for_list_of_detections options other_category_ids
      classification_descriptions_clean (addresses dets) (store_of dets) in
  (view st (addresses dets), r).

(** ** Vocabulary of the specification *)

Section Vocabulary.

Variable options : ClassificationSmoothingOptions.

(** A qualifying detection: it carries exactly one classification entry and
    passes both confidence thresholds.  These are the detections the tally
    counts. *)
Definition visible (d : detection) : bool :=
  match classifications d with
  | Some [c] =>
      num_ge (conf d) (detection_confidence_threshold options)
      && num_ge (snd c) (classification_confidence_threshold options)
  | _ => false
  end.

(** A detection below a threshold: no classification entry, or a detection
    confidence below the detection threshold, or a leading classification
    confidence below the classification threshold.  A NaN confidence is not
    below a threshold, nor at or above it. *)
Definition below_threshold (d : detection) : bool :=
  match classifications d with
  | None => true
  | Some cs =>
      num_lt (conf d) (detection_confidence_threshold options)
      || match cs with
         | c :: _ =>
             num_lt (snd c) (classification_confidence_threshold options)
         | [] => true
         end
  end.

(** The leading classification confidence of a detection compares with the
    classification threshold: it is at or above the threshold, or below it.
    It does not when it is NaN (or the threshold is). *)
Definition comparable (d : detection) : bool :=
  match classifications d with
  | Some (c :: _) =>
      num_ge (snd c) (classification_confidence_threshold options)
      || num_lt (snd c) (classification_confidence_threshold options)
  | _ => true
  end.

(** The shape the smoother assumes: an above-threshold detection that has a
    'classifications' field has exactly one entry in it. *)
Definition well_formed (d : detection) : bool :=
  match classifications d with
  | None => true
  | Some cs =>
      negb (num_ge (conf d) (detection_confidence_threshold options))
      || (List.length cs =? 1)%nat
  end.

(** The category id of the leading classification entry. *)
Definition category_id (d : detection) : option string :=
  match classifications d with
  | Some (c :: _) => Some (fst c)
  | _ => None
  end.

(** The categories the tally counts, one per qualifying detection, in
    encounter order. *)
Definition counted (dets : list detection) : list string :=
  flat_map (fun d =>
              if visible d
              then match category_id d with Some k => [k] | None => [] end
              else []) dets.

End Vocabulary.

(** [d'] is [d] up to the category id of a single classification entry. *)
Definition relabel_of (d d' : detection) : Prop :=
  d' = d \/
  exists x c, classifications d = Some [c] /\
              d' = {| conf := conf d; classifications := Some [(x, snd c)] |}.

(** ** Results structure *)

(** One entry of [d['images']].  [im_detections = None] stands for a missing
    'detections' key as well as for a null value: the source treats both
    alike. *)
Record image : Type := mkImage {
  im_file : string;
  im_detections : option (list detection);
  im_pre_smoothing_description : option string
}.

(** The results dict [d].  It is a JSON tree: no two images share a detection
    object. *)
Record results : Type := mkResults {
  classification_categories : dict string;
  classification_category_descriptions : option (dict string);
  images : list image
}.

(** What _prepare_results_for_smoothing returns; ['d'] is the address of the
    working dict. *)
Record prepared : Type := mkPrepared {
  prep_d : nat;
  prep_other_category_ids : list string;
  prep_classification_descriptions_clean : option (dict string);
  prep_classification_descriptions : option (dict string)
}.

(** ** String helpers used by the normalizer *)

(** [s.split(sep)] for a one-character separator. *)
Fixpoint split_on (sep : ascii) (s : string) : list string :=
  match s with
  | EmptyString => [EmptyString]
  | String c s' =>
      if Ascii.eqb c sep then EmptyString :: split_on sep s'
      else match split_on sep s' with
           | t :: ts => String c t :: ts
           | [] => [String c EmptyString]
           end
  end.

Fixpoint lstrip (ch : ascii) (s : string) : string :=
  match s with
  | String c s' => if Ascii.eqb c ch then lstrip ch s' else s
  | EmptyString => EmptyString
  end.

Fixpoint rstrip (ch : ascii) (s : string) : string :=
  match s with
  | String c s' =>
      match rstrip ch s' with
      | EmptyString => if Ascii.eqb c ch then EmptyString
                       else String c EmptyString
      | t => String c t
      end
  | EmptyString => EmptyString
  end.

(** [s.strip(ch)] *)
Definition strip (ch : ascii) (s : string) : string := rstrip ch (lstrip ch s).

(** [s.lower()] on ASCII letters. *)
Definition lower_ascii (c : ascii) : ascii :=
  let n := nat_of_ascii c in
  if ((65 <=? n) && (n <=? 90))%nat then ascii_of_nat (n + 32) else c.

Fixpoint lower (s : string) : string :=
  match s with
  | EmptyString => EmptyString
  | String c s' => String (lower_ascii c) (lower s')
  end.

(** [str(n)] for a count. *)
Definition str_of_nat (n : nat) : string :=
  NilEmpty.string_of_uint (Nat.to_uint n).

(** [d[k] = v]: an existing key keeps its position. *)
Fixpoint dict_set {V : Type} (d : dict V) (k : string) (v : V) : dict V :=
  match d with
  | [] => [(k, v)]
  | (k', v') :: d' =>
      if String.eqb k' k then (k', v) :: d' else (k', v') :: dict_set d' k v
  end.

(** Modelled from the spec: is_list_sorted of megadetector.utils.ct_utils,
    which is not part of the sources at hand.  The spec's "sorted by
    descending confidence" is read as: with [reverse], every element is [>=]
    its successor; without it, every element is [<=] its successor.  A NaN
    fails both comparisons. *)
Fixpoint is_list_sorted (L : list number) (reverse : bool) : bool :=
  match L with
  | x :: (y :: _) as t =>
      (if reverse then num_ge x y else num_ge y x)
      && is_list_sorted t reverse
  | _ => true
  end.

(** ** _get_description_string *)

Fixpoint description_strings (category_to_count : dict nat)
    (classification_descriptions : option (dict string))
    (keys : list string) : result (list string) :=
  match keys with
  | [] => ok []
  | category_id :: rest =>
      match classification_descriptions with
      | None => throw TypeError
      | Some descriptions =>
          category_description <- dict_get descriptions category_id ;;
          let tokens := split_on ";"%char category_description in
          if negb (List.length tokens =? 7)%nat then throw AssertionError
          else
            let category_name := last tokens EmptyString in
            let category_name :=
              if (String.length category_name =? 0)%nat
              then "undefined category" else category_name in
            count <- dict_get category_to_count category_id ;;
            let category_string :=
              (category_name ++ " (" ++ str_of_nat count ++ ")")%string in
            category_strings <-
              description_strings category_to_count
                classification_descriptions rest ;;
            ok (category_string :: category_strings)
      end
  end.

Definition _get_description_string (category_to_count : dict nat)
    (classification_descriptions : option (dict string)) : result string :=
  category_strings <-
    description_strings category_to_count classification_descriptions
      (dict_keys category_to_count) ;;
  ok (String.concat ", " category_strings).

(** ** Result Normalizer: _prepare_results_for_smoothing *)

(** Computations on the working dict [d]: it is mutated in place, and what
    was written before an exception stays written. *)
Definition W (A : Type) : Type := results -> results * result A.

(** Lines 209-217: one detection of the normalization loop. *)
Definition normalize_detection (det : detection) : detection * result unit :=
  match classifications det with
  | None => (det, ok tt)
  | Some [] => ({| conf := conf det; classifications := None |}, ok tt)
  | Some (c :: cs) =>
      let classification_confidence_values := map snd (c :: cs) in
      if is_list_sorted classification_confidence_values true
      then ({| conf := conf det; classifications := Some [c] |}, ok tt)
      else (det, throw AssertionError)
  end.

(** Lines 207-217: [for det in detections]. *)
Fixpoint normalize_detections (detections : list detection)
    : list detection * result unit :=
  match detections with
  | [] => ([], ok tt)
  | det :: rest =>
      match normalize_detection det with
      | (det', inl e) => (det' :: rest, inl e)
      | (det', inr _) =>
          let '(rest', r) := normalize_detections rest in (det' :: rest', r)
      end
  end.

(** Lines 200-217: [for im in d['images']]. *)
Fixpoint normalize_images (ims : list image) : list image * result unit :=
  match ims with
  | [] => ([], ok tt)
  | im :: rest =>
      match im_detections im with
      | None | Some [] =>
          let '(rest', r) := normalize_images rest in (im :: rest', r)
      | Some detections =>
          match normalize_detections detections with
          | (detections', inl e) =>
              ({| im_file := im_file im;
                  im_detections := Some detections';
                  im_pre_smoothing_description :=
                    im_pre_smoothing_description im |} :: rest, inl e)
          | (detections', inr _) =>
              let '(rest', r) := normalize_images rest in
              ({| im_file := im_file im;
                  im_detections := Some detections';
                  im_pre_smoothing_description :=
                    im_pre_smoothing_description im |} :: rest', r)
          end
      end
  end.

(** Lines 243-252: attaching the pre-smoothing descriptions. *)
Fixpoint describe_images (options : ClassificationSmoothingOptions)
    (classification_descriptions : option (dict string))
    (ims : list image) : list image * result unit :=
  match ims with
  | [] => ([], ok tt)
  | im :: rest =>
      match im_detections im with
      | None | Some [] =>
          let '(rest', r) :=
            describe_images options classification_descriptions rest in
          (im :: rest', r)
      | Some detections =>
          match (category_to_count <-
                   _count_detections_by_category detections options ;;
                 _get_description_string category_to_count
                   classification_descriptions) with
          | inl e => (im :: rest, inl e)
          | inr s =>
              let '(rest', r) :=
                describe_images options classification_descriptions rest in
              ({| im_file := im_file im;
                  im_detections := im_detections im;
                  im_pre_smoothing_description := Some s |} :: rest', r)
          end
      end
  end.

Definition set_images (d : results) (ims : list image) : results :=
  {| classification_categories := classification_categories d;
     classification_category_descriptions :=
       classification_category_descriptions d;
     images := ims |}.

Section Normalizer.

(** clean_taxonomy_string of megadetector.utils.wi_utils is not part of the
    sources at hand; the normalizer is parameterized by it.  It returns a
    string or raises (ValueError, on a string it does not take for a
    taxonomy string). *)
Variable clean_taxonomy_string : string -> result string.

Variable options : ClassificationSmoothingOptions.

(** Lines 191-195 *)
Definition other_ids (d : results) : list string :=
  let category_name_to_id :=
    fold_left (fun acc kv => dict_set acc (snd kv) (fst kv))
              (classification_categories d) [] in
  flat_map (fun s => match dict_find category_name_to_id s with
                     | Some k => [k]
                     | None => []
                     end)
           (other_category_names options).

(** Lines 234-236: [for category_id in classification_descriptions]. *)
Fixpoint clean_loop (classification_descriptions : dict string)
    (classification_descriptions_clean : dict string)
    : result (dict string) :=
  match classification_descriptions with
  | [] => ok classification_descriptions_clean
  | (category_id, description) :: rest =>
      cleaned <- clean_taxonomy_string description ;;
      clean_loop rest
        (dict_set classification_descriptions_clean category_id
           (lower (strip ";"%char cleaned)))
  end.

(** Lines 227-236 *)
Definition clean_descriptions (d : results) : result (option (dict string)) :=
  match classification_category_descriptions d with
  | None => ok None
  | Some classification_descriptions =>
      classification_descriptions_clean <-
        clean_loop classification_descriptions [] ;;
      ok (Some classification_descriptions_clean)
  end.

(** Lines 189-260, on the working dict at address [loc]. *)
Definition prepare_body (loc : nat) : W prepared :=
  fun d =>
    let other_category_ids := other_ids d in
    match normalize_images (images d) with
    | (ims, inl e) => (set_images d ims, inl e)
    | (ims, inr _) =>
        let d := set_images d ims in
        match clean_descriptions d with
        | inl e => (d, inl e)
        | inr classification_descriptions_clean =>
            let classification_descriptions :=
              classification_category_descriptions d in
            let r := {| prep_d := loc;
                        prep_other_category_ids := other_category_ids;
                        prep_classification_descriptions_clean :=
                          classification_descriptions_clean;
                        prep_classification_descriptions :=
                          classification_descriptions |} in
            if add_pre_smoothing_description options then
              match describe_images options classification_descriptions
                      (images d) with
              | (ims, inl e) => (set_images d ims, inl e)
              | (ims, inr _) => (set_images d ims, ok r)
              end
            else (d, ok r)
        end
    end.

End Normalizer.

(** ** The heap of results dicts *)

(** Results dicts by address.  The caller's already-loaded dict lives at some
    allocated address; [copy.deepcopy] allocates a new one. *)
Record heap : Type := mkHeap {
  next_loc : nat;
  objects : nat -> results
}.

Definition H (A : Type) : Type := heap -> heap * result A.

Definition hret {A : Type} (a : A) : H A := fun h => (h, ok a).

Definition hbind {A B : Type} (m : H A) (f : A -> H B) : H B :=
  fun h =>
    match m h with
    | (h', inl e) => (h', inl e)
    | (h', inr a) => f a h'
    end.

Notation "x <<- m ;; k" := (hbind m (fun x => k))
  (at level 61, m at next level, right associativity).

Definition set_object (h : heap) (loc : nat) (d : results) : heap :=
  {| next_loc := next_loc h;
     objects := fun l => if Nat.eqb l loc then d else objects h l |}.

(** [copy.deepcopy(input_file)]: a fresh dict with the same contents, sharing
    nothing with the original. *)
Definition deepcopy (loc : nat) : H nat :=
  fun h =>
    ({| next_loc := S (next_loc h);
        objects := fun l => if Nat.eqb l (next_loc h) then objects h loc
                            else objects h l |},
     ok (next_loc h)).

(** Running a computation on the dict at [loc], in place. *)
Definition at_loc {A : Type} (loc : nat) (w : W A) : H A :=
  fun h => let '(d', r) := w (objects h loc) in (set_object h loc d', r).

(** ** Drivers *)

(** An entry of the COCO Camera Traps 'images' list, restricted to the keys
    the sequence driver reads. *)
Record cct_image : Type := mkCct {
  file_name : string;
  seq_id : string
}.

(** [d[k].append(v)] on a defaultdict(list). *)
Fixpoint dict_append (d : dict (list string)) (k v : string)
    : dict (list string) :=
  match d with
  | [] => [(k, [v])]
  | (k', l) :: d' =>
      if String.eqb k' k then (k', l ++ [v]) :: d'
      else (k', l) :: dict_append d' k v
  end.

Definition image_dets (im : image) : list detection :=
  match im_detections im with
  | Some l => l
  | None => []
  end.

Definition set_detections (im : image) (dets : option (list detection))
    : image :=
  {| im_file := im_file im;
     im_detections := dets;
     im_pre_smoothing_description := im_pre_smoothing_description im |}.

(** Lines 665-669: image_fn_to_classification_results.  An image object is
    represented by the addresses of its detections in the store that holds
    the detections of all images one after the other ([None]: the image has
    no 'detections'). *)
Fixpoint index_images (ims : list image) (base : nat)
    (image_fn_to_classification_results : dict (option (list nat)))
    : result (dict (option (list nat))) :=
  match ims with
  | [] => ok image_fn_to_classification_results
  | im :: rest =>
      if dict_mem image_fn_to_classification_results (im_file im)
      then throw AssertionError
      else index_images rest (base + List.length (image_dets im))
             (image_fn_to_classification_results
                ++ [(im_file im,
                     option_map (fun l => seq base (List.length l))
                                (im_detections im))])
  end.

(** The images as they read once the store has been mutated. *)
Fixpoint read_back (ims : list image) (base : nat) (st : store)
    : list image :=
  match ims with
  | [] => []
  | im :: rest =>
      set_detections im
        (option_map (fun l => view st (seq base (List.length l)))
                    (im_detections im))
      :: read_back rest (base + List.length (image_dets im)) st
  end.

(** Lines 687-692: the detections of a sequence, shared with the images. *)
Fixpoint gather (image_fn_to_classification_results : dict (option (list nat)))
    (image_filenames_this_sequence : list string) : result (list nat) :=
  match image_filenames_this_sequence with
  | [] => ok []
  | image_filename :: rest =>
      im <- dict_get image_fn_to_classification_results image_filename ;;
      detections_rest <- gather image_fn_to_classification_results rest ;;
      ok (match im with
          | None => detections_rest
          | Some dets => dets ++ detections_rest
          end)
  end.

Section Drivers.

Variable clean_taxonomy_string : string -> result string.

(** Lines 176-186, for an already-loaded dict, followed by the rest of
    _prepare_results_for_smoothing on [d]. *)
Definition _prepare_results_for_smoothing (input_file : nat)
    (options : ClassificationSmoothingOptions) : H prepared :=
  d <<- (if modify_in_place options then hret input_file
         else deepcopy input_file) ;;
  at_loc d (prepare_body clean_taxonomy_string options d).

(** _smooth_single_image *)
Definition _smooth_single_image (im : image)
    (options : ClassificationSmoothingOptions)
    (other_category_ids : list string)
    (classification_descriptions_clean : option (dict string))
    : image * result (option summary) :=
  match im_detections im with
  | None | Some [] => (im, ok None)
  | Some detections =>
      let '(detections', r) :=
        smooth_list options other_category_ids
          classification_descriptions_clean detections in
      (set_detections im (Some detections'), r)
  end.

(** Lines 554-579: [for im in d['images']].  The counters the loop adds up
    are only printed and are left out. *)
Fixpoint smooth_images (options : ClassificationSmoothingOptions)
    (other_category_ids : list string)
    (classification_descriptions_clean : option (dict string))
    (ims : list image) : list image * result unit :=
  match ims with
  | [] => ([], ok tt)
  | im :: rest =>
      match _smooth_single_image im options other_category_ids
              classification_descriptions_clean with
      | (im', inl e) => (im' :: rest, inl e)
      | (im', inr _) =>
          let '(rest', r) :=
            smooth_images options other_category_ids
              classification_descriptions_clean rest in
          (im' :: rest', r)
      end
  end.

(** smooth_classification_results_image_level, for an already-loaded dict
    and [output_file = None]; returns the address of [d]. *)
Definition smooth_classification_results_image_level (input_file : nat)
    (options : option ClassificationSmoothingOptions) : H nat :=
  let options := match options with
                 | None => default_options
                 | Some o => o
                 end in
  r <<- _prepare_results_for_smoothing input_file options ;;
  _ <<- at_loc (prep_d r)
          (fun d =>
             let '(ims, res) :=
               smooth_images options (prep_other_category_ids r)
                 (prep_classification_descriptions_clean r) (images d) in
             (set_images d ims, res)) ;;
  hret (prep_d r).

(** Lines 658-663: sequence_to_image_filenames. *)
Definition sequence_to_image_filenames (image_info : list cct_image)
    : dict (list string) :=
  fold_left (fun acc im => dict_append acc (seq_id im) (file_name im))
            image_info [].

(** Lines 683-721: [for sequence_id in sequence_to_image_filenames.keys()]. *)
Fixpoint smooth_sequences (options : ClassificationSmoothingOptions)
    (other_category_ids : list string)
    (classification_descriptions_clean : option (dict string))
    (image_fn_to_classification_results : dict (option (list nat)))
    (sequences : dict (list string)) : M unit :=
  match sequences with
  | [] => ret tt
  | (sequence_id, image_filenames_this_sequence) :: rest =>
      detections_this_sequence <~
        lift (gather image_fn_to_classification_results
                     image_filenames_this_sequence) ;;
      if (List.length detections_this_sequence =? 0)%nat
      then smooth_sequences options other_category_ids
             classification_descriptions_clean
             image_fn_to_classification_results rest
      else
        r <~ _smooth_classifications_for_list_of_detections options
               other_category_ids classification_descriptions_clean
               detections_this_sequence ;;
        smooth_sequences options other_category_ids
          classification_descriptions_clean
          image_fn_to_classification_results rest
  end.

(** smooth_classification_results_sequence_level, for an already-loaded dict,
    sequence information given as a list and [output_file = None]; returns
    the address of [d]. *)
Definition smooth_classification_results_sequence_level (input_file : nat)
    (cct_sequence_information : list cct_image)
    (options : option ClassificationSmoothingOptions) : H nat :=
  let options := match options with
                 | None => default_options
                 | Some o => o
                 end in
  r <<- _prepare_results_for_smoothing input_file options ;;
  _ <<- at_loc (prep_d r)
          (fun d =>
             let sequences :=
               sequence_to_image_filenames cct_sequence_information in
             match index_images (images d) 0 [] with
             | inl e => (d, inl e)
             | inr image_fn_to_classification_results =>
                 let '(st, res) :=
                   smooth_sequences options (prep_other_category_ids r)
                     (prep_classification_descriptions_clean r)
                     image_fn_to_classification_results sequences
                     (store_of (flat_map image_dets (images d))) in
                 (set_images d (read_back (images d) 0 st), res)
             end) ;;
  hret (prep_d r).

End Drivers.

(** ** Vocabulary of the statements *)

(** A computation keeps a relation between what every address holds before
    and after it. *)
Definition keeps {A : Type} (R : detection -> detection -> Prop) (m : M A)
    : Prop :=
  forall st a, R (st a) (fst (m st) a).

(** A computation depends only on what the addresses hold. *)
Definition extensional {A : Type} (m : M A) : Prop :=
  forall st st', (forall a, st a = st' a) ->
    snd (m st) = snd (m st') /\ forall a, fst (m st) a = fst (m st') a.

(** A body counts its changes: the counter never decreases, and if it stays
    the same the detection does too. *)
Definition counting (body : detection -> nat -> detection * result nat)
    : Prop :=
  forall d n d' n', body d n = (d', ok n') -> n <= n' /\ (n' = n -> d' = d).

(** Occurrences of [k] in a list of category ids. *)
Definition occurrences (k : string) (ks : list string) : nat :=
  List.length (filter (String.eqb k) ks).

(** The defaultdict after counting the category ids [ks] on top of [acc]. *)
Definition tally_of (ks : list string) (acc : dict nat) : dict nat :=
  fold_left (fun a k => incr_count k a) ks acc.

(** Counts in descending order. *)
Fixpoint descending (l : dict nat) : Prop :=
  match l with
  | x :: (y :: _) as t => snd y <= snd x /\ descending t
  | _ => True
  end.

(** What an address holds is left alone if it is below a threshold. *)
Definition gated (options : ClassificationSmoothingOptions)
    (d d' : detection) : Prop :=
  below_threshold options d = true -> d' = d.

(** A detection is in order for a set [K] of category ids: it is well formed
    and, if it qualifies, its category is in [K]. *)
Definition in_order (options : ClassificationSmoothingOptions)
    (K : list string) (d : detection) : Prop :=
  well_formed options d = true /\
  (visible options d = true ->
   exists k, category_id d = Some k /\ In k K).

(** The detections pass 1 relabels once it fires: the qualifying detections
    classified into an "other" category. *)
Definition in_other (options : ClassificationSmoothingOptions)
    (other_category_ids : list string) (d : detection) : bool :=
  visible options d
  && match category_id d with
     | Some k => str_mem k other_category_ids
     | None => false
     end.

(** The three conditions of pass 2 on the count of a detection's category. *)
Definition flip_counts (options : ClassificationSmoothingOptions)
    (max_count count_c : nat) : bool :=
  (count_c <? max_count)%nat
  && (min_detections_to_overwrite_secondary options <? Z.of_nat max_count)%Z
  && (Z.of_nat count_c <=? max_detections_nondominant_class options)%Z.

(** The detections pass 2 relabels when the dominant category is not an
    "other" category. *)
Definition flips (options : ClassificationSmoothingOptions)
    (t : dict nat) (dom : string) (max_count : nat)
    (d : detection) : bool :=
  visible options d
  && match category_id d with
     | Some k =>
         negb (String.eqb k dom)
         && match dict_find t k with
            | Some count_c => flip_counts options max_count count_c
            | None => false
            end
     | None => false
     end.

(** [cand] is a strictly more common child of a category with cleaned
    description [desc_this] and count [count_this]: its cleaned description is
    not empty and contains [desc_this], and its count in the frozen tally [t]
    is larger. *)
Definition is_child (descriptions : dict string) (t : dict nat)
    (desc_this : string) (count_this : nat) (cand : string) : bool :=
  match dict_find descriptions cand, dict_find t cand with
  | Some desc_cand, Some count_cand =>
      negb (String.length desc_cand =? 0)%nat
      && str_in desc_this desc_cand
      && (count_this <? count_cand)%nat
  | _, _ => false
  end.

(** The candidates that relabel a detection during the scan of pass 3, in the
    order of the tally. *)
Definition children_of (options : ClassificationSmoothingOptions)
    (descriptions : dict string) (t : dict nat) (d : detection)
    : list string :=
  if visible options d then
    match category_id d with
    | Some k =>
        match dict_find descriptions k, dict_find t k with
        | Some desc_this, Some count_this =>
            filter (is_child descriptions t desc_this count_this)
                   (dict_keys t)
        | _, _ => []
        end
    | None => []
    end
  else [].

(** The three passes, run after the early return. *)
Definition three_passes (options : ClassificationSmoothingOptions)
    (other_category_ids : list string)
    (descriptions_clean : option (dict string))
    (refs : list nat) (t : dict nat) : M (option summary) :=
  n_other <~ other_pass options other_category_ids refs t ;;
  n_flipped <~ flip_pass options other_category_ids refs ;;
  n_taxonomic <~ taxonomy_pass options descriptions_clean refs ;;
  ret (Some {| n_other_classifications_changed_this_image := n_other;
               n_detections_flipped_this_image := n_flipped;
               n_taxonomic_changes_this_image := n_taxonomic |}).

(** Pass 2 as a function on a detection: flip it to [dom] if [hit]. *)
Definition flip_to (options : ClassificationSmoothingOptions)
    (other_category_ids : list string) (t : dict nat) (dom : string)
    (max_count : nat) (d : detection) : detection :=
  if negb (str_mem dom other_category_ids) && flips options t dom max_count d
  then set_category d dom else d.

(** Pass 2 as a function on a category id. *)
Definition flip_key (options : ClassificationSmoothingOptions)
    (other_category_ids : list string) (t : dict nat) (dom : string)
    (max_count : nat) (k : string) : string :=
  if negb (str_mem dom other_category_ids)
     && negb (String.eqb k dom)
     && match dict_find t k with
        | Some count_c => flip_counts options max_count count_c
        | None => false
        end
  then dom else k.

(** A summary reporting no change at all. *)
Definition no_changes : summary :=
  {| n_other_classifications_changed_this_image := 0;
     n_detections_flipped_this_image := 0;
     n_taxonomic_changes_this_image := 0 |}.

(** The classification confidences of a detection are not in descending
    order. *)
Definition unsorted (d : detection) : bool :=
  match classifications d with
  | Some (c :: cs) => negb (is_list_sorted (map snd (c :: cs)) true)
  | _ => false
  end.

(** A detection reduced to its top classification; an empty 'classifications'
    field is dropped. *)
Definition top_only (d : detection) : detection :=
  {| conf := conf d;
     classifications := match classifications d with
                        | Some (c :: _) => Some [c]
                        | _ => None
                        end |}.

Definition top_only_image (im : image) : image :=
  match im_detections im with
  | None | Some [] => im
  | Some dets => set_detections im (Some (map top_only dets))
  end.

Definition all_sorted (ims : list image) : bool :=
  forallb (fun im => forallb (fun d => negb (unsorted d)) (image_dets im)) ims.

Definition options_or_default
    (options : option ClassificationSmoothingOptions)
    : ClassificationSmoothingOptions :=
  match options with
  | None => default_options
  | Some o => o
  end.

(** ** Example units *)

(** The default options with other count thresholds. *)
Definition with_thresholds
    (overwrite_secondary nondominant overwrite_other : Z)
    : ClassificationSmoothingOptions :=
  {| min_detections_to_overwrite_secondary := overwrite_secondary;
     max_detections_nondominant_class := nondominant;
     min_detections_to_overwrite_other := overwrite_other;
     other_category_names := other_category_names default_options;
     classification_confidence_threshold := Num (1 # 2);
     detection_confidence_threshold := Num (15 # 100);
     propagate_classifications_through_taxonomy := true;
     add_pre_smoothing_description := true;
     modify_in_place := false |}.

(** A detection of category [k] with both confidences at 0.9. *)
Definition sure (k : string) : detection :=
  {| conf := Num (9 # 10); classifications := Some [(k, Num (9 # 10))] |}.

(** Cleaned descriptions in which "b" and "c" are both children of "a". *)
Definition fox_descriptions : dict string :=
  [("a", "fox"); ("b", "fox;red fox"); ("c", "fox;arctic fox")].

Definition fox_unit : list detection :=
  [sure "a"; sure "b"; sure "b"; sure "c"; sure "c"].

(** Cleaned descriptions in which "b" is a child of "a", and "c" unrelated. *)
Definition deer_descriptions : dict string :=
  [("a", "fox"); ("b", "fox;red fox"); ("c", "deer")].

Definition deer_unit : list detection :=
  [sure "a"; sure "a"; sure "b"; sure "b"; sure "b"; sure "c"].

Definition cow_unit : list detection :=
  [sure "cow"; sure "cow"; sure "other"].

Definition deer_elk_unit : list detection :=
  [sure "deer"; sure "deer"; sure "deer"; sure "elk";
   sure "deer"; sure "deer"].

(** A detection like [sure k] whose classification confidence is NaN. *)
Definition unsure (k : string) : detection :=
  {| conf := Num (9 # 10); classifications := Some [(k, NaN)] |}.

(** A unit whose category "c" has no cleaned description. *)
Definition orphan_descriptions : dict string :=
  [("a", "fox"); ("b", "fox;red fox")].

Definition orphan_unit : list detection :=
  [sure "a"; sure "b"; sure "b"; sure "c"].

(** A unit whose first detection has a NaN classification confidence. *)
Definition nan_unit : list detection :=
  [unsure "z"; sure "a"; sure "b"; sure "b"].

(** A detection of an "other" category below the detection threshold, at
    address 0 of a unit in which pass 1 fires. *)
Definition faint_other_unit : list detection :=
  [ {| conf := Num (1 # 10);
       classifications := Some [("other", Num (9 # 10))] |};
    sure "cow"; sure "cow"; sure "other" ].

(** A results dict with two cows and one "other" detection in one image. *)
Definition cow_results : results :=
  {| classification_categories := [("1", "cow"); ("2", "other")];
     classification_category_descriptions := None;
     images := [ {| im_file := "a.jpg";
                    im_detections := Some [sure "1"; sure "1"; sure "2"];
                    im_pre_smoothing_description := None |} ] |}.

(** An image whose detections carry an empty 'classifications' list, two
    entries in descending order of confidence, one entry, and no
    'classifications' field. *)
Definition mixed_results : results :=
  {| classification_categories := [("1", "cow"); ("2", "other")];
     classification_category_descriptions := None;
     images :=
       [ {| im_file := "a.jpg";
            im_detections :=
              Some [ {| conf := Num (9 # 10); classifications := Some [] |};
                     {| conf := Num (9 # 10);
                        classifications :=
                          Some [("1", Num (8 # 10)); ("2", Num (1 # 10))] |};
                     sure "1";
                     {| conf := Num (9 # 10); classifications := None |} ];
            im_pre_smoothing_description := None |} ] |}.

Definition mixed_heap : heap :=
  {| next_loc := 1; objects := fun _ => mixed_results |}.

(** An image with a detection whose two classification entries are in
    ascending order of confidence, after a detection with an empty list. *)
Definition unsorted_results : results :=
  {| classification_categories := [("1", "cow"); ("2", "other")];
     classification_category_descriptions := None;
     images :=
       [ {| im_file := "a.jpg";
            im_detections :=
              Some [ {| conf := Num (9 # 10); classifications := Some [] |};
                     {| conf := Num (9 # 10);
                        classifications :=
                          Some [("2", Num (1 # 10)); ("1", Num (8 # 10))] |};
                     sure "1" ];
            im_pre_smoothing_description := None |} ] |}.

Definition unsorted_heap : heap :=
  {| next_loc := 1; objects := fun _ => unsorted_results |}.

Definition cow_heap : heap :=
  {| next_loc := 1; objects := fun _ => cow_results |}.

Definition in_place_options : ClassificationSmoothingOptions :=
  {| min_detections_to_overwrite_secondary := 4;
     max_detections_nondominant_class := 1;
     min_detections_to_overwrite_other := 2;
     other_category_names := ["other"];
     classification_confidence_threshold := Num (1 # 2);
     detection_confidence_threshold := Num (15 # 100);
     propagate_classifications_through_taxonomy := true;
     add_pre_smoothing_description := false;
     modify_in_place := true |}.

(** Results with two images of one sequence: two cows and one "other". *)
Definition herd_results : results :=
  {| classification_categories := [("1", "cow"); ("2", "other")];
     classification_category_descriptions := None;
     images := [ {| im_file := "a.jpg";
                    im_detections := Some [sure "1"; sure "2"];
                    im_pre_smoothing_description := None |};
                 {| im_file := "b.jpg";
                    im_detections := Some [sure "1"];
                    im_pre_smoothing_description := None |} ] |}.

Definition herd_heap : heap :=
  {| next_loc := 1; objects := fun _ => herd_results |}.

(** The same two images, in results whose categories have taxonomy
    descriptions. *)
Definition described_results : results :=
  {| classification_categories := [("1", "cow"); ("2", "other")];
     classification_category_descriptions :=
       Some [("1", "c1;mammalia;artiodactyla;bovidae;bos;taurus;cow");
             ("2", "c2;;;;;;other")];
     images := images herd_results |}.

Definition described_heap : heap :=
  {| next_loc := 1; objects := fun _ => described_results |}.

(** The two images of the herd and a third one, c.jpg, which the sequence
    information [herd_sequence] does not list. *)
Definition stray_results : results :=
  {| classification_categories := [("1", "cow"); ("2", "other")];
     classification_category_descriptions := None;
     images :=
       images herd_results
       ++ [ {| im_file := "c.jpg";
               im_detections := Some [sure "1"; sure "1"; sure "2"];
               im_pre_smoothing_description := None |} ] |}.

Definition stray_heap : heap :=
  {| next_loc := 1; objects := fun _ => stray_results |}.

Definition herd_sequence : list cct_image :=
  [ {| file_name := "a.jpg"; seq_id := "s" |};
    {| file_name := "b.jpg"; seq_id := "s" |} ].

(** ** Utility functions: _results_for_sequence, _sort_images_by_time *)

(** Lines 87-99.  [filename_to_results] maps file names to image dicts of
    the results, so the isinstance assertion holds by typing. *)
Fixpoint _results_for_sequence (images_this_sequence : list cct_image)
    (filename_to_results : dict image) : result (list image) :=
  match images_this_sequence with
  | [] => ok []
  | im :: rest =>
      results_this_image <- dict_get filename_to_results (file_name im) ;;
      results_rest <- _results_for_sequence rest filename_to_results ;;
      ok (results_this_image :: results_rest)
  end.

(** An entry of a COCO Camera Traps 'images' list with its 'datetime', a
    date string; Python compares strings character by character, as
    [String.compare] does. *)
Record dated_image : Type := mkDated {
  dated_file_name : string;
  datetime : string
}.

(** [sorted(images, key=lambda im: im['datetime'])] is a stable ascending
    sort: it builds a new list, and images with equal keys keep their
    relative order. *)
Fixpoint insert_by_time (im : dated_image) (l : list dated_image)
    : list dated_image :=
  match l with
  | [] => [im]
  | y :: l' =>
      if String.ltb (datetime y) (datetime im)
      then y :: insert_by_time im l'
      else im :: y :: l'
  end.

(** Lines 102-106 *)
Definition _sort_images_by_time (images : list dated_image)
    : list dated_image :=
  fold_right insert_by_time [] images.

(** ** Vocabulary of the further properties *)

(** The sum of the counts of a tally. *)
Definition total_count (t : dict nat) : nat := list_sum (map snd t).

(** The distinct category ids of a list, in the order in which they are
    first met. *)
Definition encounter_order (ks : list string) : list string :=
  fold_left (fun seen k => if str_mem k seen then seen else seen ++ [k])
            ks [].

(** The entries of a tally whose count is [n]. *)
Definition with_count (n : nat) (t : dict nat) : dict nat :=
  filter (fun kv => (snd kv =? n)%nat) t.

(** The number of occurrences of a character in a string. *)
Fixpoint count_char (ch : ascii) (s : string) : nat :=
  match s with
  | EmptyString => 0
  | String c s' => (if Ascii.eqb c ch then 1 else 0) + count_char ch s'
  end.

(** A taxonomy description the description string accepts: seven fields,
    that is six semicolons. *)
Definition seven_fields (description : string) : bool :=
  (count_char ";"%char description =? 6)%nat.

(** Some detection of some image qualifies. *)
Definition some_qualifying (options : ClassificationSmoothingOptions)
    (ims : list image) : bool :=
  existsb (fun im => existsb (visible options) (image_dets im)) ims.

(** What pass 3 can raise: KeyError, for a tallied category without a
    cleaned description. *)
Definition missing_description (ds : dict string) (t : dict nat) (e : exn)
    : Prop :=
  e = KeyError /\ exists k, In k (dict_keys t) /\ dict_find ds k = None.

(** An image as the description loop leaves it when it describes its tally
    as [s]: an image without detections is passed over. *)
Definition described (s : string) (im : image) : image :=
  match im_detections im with
  | None | Some [] => im
  | Some _ =>
      {| im_file := im_file im;
         im_detections := im_detections im;
         im_pre_smoothing_description := Some s |}
  end.

(** What preparation may do to a detection: nothing, or reduce it to its top
    classification. *)
Definition normalized_or_same (d d' : detection) : Prop :=
  d' = d \/ d' = top_only d.

(** What preparation may do to an image: the file name stays, a missing
    'detections' field stays missing, and the detections stay in place,
    each one as it was or reduced to its top classification. *)
Definition prepared_image (im im' : image) : Prop :=
  im_file im' = im_file im /\
  (im_detections im' = None <-> im_detections im = None) /\
  Forall2 normalized_or_same (image_dets im) (image_dets im').

(** Lines 249-252: the description string of the tally of [detections]. *)
Definition description_of (options : ClassificationSmoothingOptions)
    (classification_descriptions : option (dict string))
    (detections : list detection) : result string :=
  category_to_count <- _count_detections_by_category detections options ;;
  _get_description_string category_to_count classification_descriptions.

(** An image as the description loop leaves it when it does not raise. *)
Definition describe_image (options : ClassificationSmoothingOptions)
    (classification_descriptions : option (dict string)) (im : image)
    : image :=
  match im_detections im with
  | None | Some [] => im
  | Some detections =>
      match description_of options classification_descriptions detections with
      | inr s => {| im_file := im_file im;
                    im_detections := im_detections im;
                    im_pre_smoothing_description := Some s |}
      | inl _ => im
      end
  end.

(** The index of lines 665-669 when no file name repeats: every image with
    the addresses of its detections. *)
Fixpoint layout (ims : list image) (base : nat)
    : dict (option (list nat)) :=
  match ims with
  | [] => []
  | im :: rest =>
      (im_file im,
       option_map (fun l => seq base (List.length l)) (im_detections im))
      :: layout rest (base + List.length (image_dets im))
  end.

(** The addresses of the detections of the images whose file name
    satisfies [p]. *)
Fixpoint addresses_where (p : string -> bool) (ims : list image)
    (base : nat) : list nat :=
  match ims with
  | [] => []
  | im :: rest =>
      (if p (im_file im) then seq base (List.length (image_dets im)) else [])
      ++ addresses_where p rest (base + List.length (image_dets im))
  end.

(** The file names a sequence information lists. *)
Definition listed (image_info : list cct_image) (f : string) : bool :=
  str_mem f (map file_name image_info).

(** The file names the sequence information gives for sequence [s], in its
    order. *)
Definition files_of (s : string) (image_info : list cct_image)
    : list string :=
  map file_name (filter (fun im => String.eqb (seq_id im) s) image_info).

(** [m'] does at the addresses [i] of [dom] what [m] does at the addresses
    [phi i]: started in stores that hold the same there, they return or
    raise the same and leave the same there. *)
Definition renamed {A : Type} (phi : nat -> nat) (dom : list nat)
    (m m' : M A) : Prop :=
  forall st st',
    (forall i, In i dom -> st' i = st (phi i)) ->
    snd (m st) = snd (m' st') /\
    forall i, In i dom -> fst (m' st') i = fst (m st) (phi i).

(** The detections of the image named [f]: none if there is no such image
    or if it has no detections. *)
Definition detections_of (ims : list image) (f : string) : list detection :=
  match find (fun im => String.eqb (im_file im) f) ims with
  | Some im => image_dets im
  | None => []
  end.

(** The category of the top classification of a detection has a description
    of seven fields. *)
Definition covered (descriptions : dict string) (d : detection) : bool :=
  match category_id d with
  | Some k => match dict_find descriptions k with
              | Some description => seven_fields description
              | None => false
              end
  | None => true
  end.

(** Results the drivers can describe: the category of every top
    classification has a description of seven fields; or, if the results
    have no descriptions, no pre-smoothing description is asked for. *)
Definition describable (options : ClassificationSmoothingOptions)
    (d : results) : bool :=
  match classification_category_descriptions d with
  | Some descriptions =>
      forallb (fun im => forallb (covered descriptions) (image_dets im))
              (images d)
  | None => negb (add_pre_smoothing_description options)
  end.

(** Every leading classification confidence of the results compares with
    the classification threshold: none is NaN. *)
Definition all_comparable (options : ClassificationSmoothingOptions)
    (ims : list image) : bool :=
  forallb (fun im => forallb (comparable options) (image_dets im)) ims.

(** clean_taxonomy_string takes every category description of the results:
    it returns on each of them. *)
Definition cleanable (clean_taxonomy_string : string -> result string)
    (d : results) : Prop :=
  forall ds k description,
    classification_category_descriptions d = Some ds ->
    In (k, description) ds ->
    exists s, clean_taxonomy_string description = ok s.

(** The category ids of the top classifications of a list of detections. *)
Definition categories_of (dets : list detection) : list string :=
  flat_map (fun d => match category_id d with
                     | Some k => [k]
                     | None => []
                     end) dets.

(** [options] with propagate_classifications_through_taxonomy set to [b]. *)
Definition with_propagate (b : bool)
    (options : ClassificationSmoothingOptions)
    : ClassificationSmoothingOptions :=
  {| min_detections_to_overwrite_secondary :=
       min_detections_to_overwrite_secondary options;
     max_detections_nondominant_class :=
       max_detections_nondominant_class options;
     min_detections_to_overwrite_other :=
       min_detections_to_overwrite_other options;
     other_category_names := other_category_names options;
     classification_confidence_threshold :=
       classification_confidence_threshold options;
     detection_confidence_threshold := detection_confidence_threshold options;
     propagate_classifications_through_taxonomy := b;
     add_pre_smoothing_description := add_pre_smoothing_description options;
     modify_in_place := modify_in_place options |}.

(** [options] with modify_in_place set to [b]. *)
Definition with_modify_in_place (b : bool)
    (options : ClassificationSmoothingOptions)
    : ClassificationSmoothingOptions :=
  {| min_detections_to_overwrite_secondary :=
       min_detections_to_overwrite_secondary options;
     max_detections_nondominant_class :=
       max_detections_nondominant_class options;
     min_detections_to_overwrite_other :=
       min_detections_to_overwrite_other options;
     other_category_names := other_category_names options;
     classification_confidence_threshold :=
       classification_confidence_threshold options;
     detection_confidence_threshold := detection_confidence_threshold options;
     propagate_classifications_through_taxonomy :=
       propagate_classifications_through_taxonomy options;
     add_pre_smoothing_description := add_pre_smoothing_description options;
     modify_in_place := b |}.

(** Two option objects that agree on every field but
    propagate_classifications_through_taxonomy and modify_in_place. *)
Definition same_settings (o o' : ClassificationSmoothingOptions) : Prop :=
  min_detections_to_overwrite_secondary o
  = min_detections_to_overwrite_secondary o' /\
  max_detections_nondominant_class o = max_detections_nondominant_class o' /\
  min_detections_to_overwrite_other o = min_detections_to_overwrite_other o' /\
  other_category_names o = other_category_names o' /\
  classification_confidence_threshold o
  = classification_confidence_threshold o' /\
  detection_confidence_threshold o = detection_confidence_threshold o' /\
  add_pre_smoothing_description o = add_pre_smoothing_description o'.

(** The images taken at time [t]. *)
Definition taken_at (t : string) (l : list dated_image) : list dated_image :=
  filter (fun im => String.eqb (datetime im) t) l.

(** Not later than: the order of 'datetime' strings. *)
Definition not_later (a b : dated_image) : Prop :=
  String.leb (datetime a) (datetime b) = true.

(** The file names of all sequences. *)
Definition all_filenames (sequences : dict (list string)) : list string :=
  List.concat (map snd sequences).

(** A computation writes no address outside [refs]. *)
Definition frames {A : Type} (refs : list nat) (m : M A) : Prop :=
  forall st a, ~ In a refs -> fst (m st) a = st a.

(** A computation reads no address outside [refs]: started in two stores
    that agree on [refs], it returns or raises the same and leaves the same
    at every address of [refs]. *)
Definition reads_only {A : Type} (refs : list nat) (m : M A) : Prop :=
  forall st st',
    (forall a, In a refs -> st a = st' a) ->
    snd (m st) = snd (m st') /\
    forall a, In a refs -> fst (m st) a = fst (m st') a.


(** * Properties *)

(** ** Comparing numbers *)

Lemma num_lt_not_ge (a b : number) : num_lt a b = true -> num_ge a b = false.
Proof.
  destruct a as [x |], b as [y |]; simpl; try discriminate.
  now destruct (Qle_bool y x).
Qed.

Lemma num_ge_not_lt (a b : number) : num_ge a b = true -> num_lt a b = false.
Proof.
  destruct a as [x |], b as [y |]; simpl; try discriminate.
  now intros ->.
Qed.

(** ** Stores and loops *)

Lemma upd_same (st : store) (r : nat) (d : detection) : upd st r d r = d.
Proof. unfold upd. now rewrite Nat.eqb_refl. Qed.

Lemma upd_other (st : store) (r a : nat) (d : detection) :
  a <> r -> upd st r d a = st a.
Proof. intros Hne. unfold upd. now apply Nat.eqb_neq in Hne as ->. Qed.

Section Keeps.

Variable R : detection -> detection -> Prop.
Hypothesis R_refl : forall d, R d d.
Hypothesis R_trans : forall d1 d2 d3, R d1 d2 -> R d2 d3 -> R d1 d3.

Lemma keeps_ret {A : Type} (a : A) : keeps R (ret a).
Proof. intros st a'. apply R_refl. Qed.

Lemma keeps_lift {A : Type} (r : result A) : keeps R (lift r).
Proof. intros st a'. apply R_refl. Qed.

Lemma keeps_read_all (refs : list nat) : keeps R (read_all refs).
Proof. intros st a'. apply R_refl. Qed.

Lemma keeps_bind {A B : Type} (m : M A) (f : A -> M B) :
  keeps R m -> (forall a, keeps R (f a)) -> keeps R (bind m f).
Proof.
  intros Hm Hf st a. unfold bind.
  specialize (Hm st a). destruct (m st) as [st' [e | x]]; simpl in *.
  - exact Hm.
  - eapply R_trans; [exact Hm | apply Hf].
Qed.

Lemma keeps_for_each {S : Type}
    (body : detection -> S -> detection * result S) :
  (forall d s, R d (fst (body d s))) ->
  forall refs s, keeps R (for_each body refs s).
Proof.
  intros Hbody refs. induction refs as [| r rest IH]; intros s st a; simpl.
  - apply R_refl.
  - specialize (Hbody (st r) s).
    destruct (body (st r) s) as [d' [e | s']]; simpl in *.
    + unfold upd. destruct (Nat.eqb a r) eqn:E.
      * apply Nat.eqb_eq in E. now subst.
      * apply R_refl.
    + eapply R_trans; [| apply IH].
      unfold upd. destruct (Nat.eqb a r) eqn:E.
      * apply Nat.eqb_eq in E. now subst.
      * apply R_refl.
  Qed.

End Keeps.

(** Addresses outside the unit are never written. *)
Lemma for_each_frame {S : Type}
    (body : detection -> S -> detection * result S) :
  forall refs s st a, ~ In a refs -> fst (for_each body refs s st) a = st a.
Proof.
  induction refs as [| r rest IH]; intros s st a Hin; simpl; [reflexivity |].
  assert (Ha : a <> r) by (intros ->; apply Hin; now left).
  assert (Hrest : ~ In a rest) by (intros Hr; apply Hin; now right).
  destruct (body (st r) s) as [d' [e | s']]; simpl.
  - now apply upd_other.
  - rewrite IH by assumption. now apply upd_other.
Qed.

(** ** What a loop body may do to a detection *)

Lemma relabel_of_refl (d : detection) : relabel_of d d.
Proof. now left. Qed.

Lemma relabel_of_trans (d1 d2 d3 : detection) :
  relabel_of d1 d2 -> relabel_of d2 d3 -> relabel_of d1 d3.
Proof.
  intros [-> | (x & c & Hc & ->)] H23; [exact H23 |].
  destruct H23 as [-> | (y & c' & Hc' & ->)].
  - right. now exists x, c.
  - right. exists y, c. split; [exact Hc |].
    simpl in *. now inversion Hc'.
Qed.

Lemma relabel_of_set_category (d : detection) (c : classification)
    (x : string) :
  classifications d = Some [c] -> relabel_of d (set_category d x).
Proof.
  intros Hc. right. exists x, c. split; [exact Hc |].
  unfold set_category. now rewrite Hc.
Qed.

Lemma set_category_single (d : detection) (c : classification) (x : string) :
  classifications d = Some [c] ->
  set_category d x = {| conf := conf d; classifications := Some [(x, snd c)] |}.
Proof. intros Hc. unfold set_category. now rewrite Hc. Qed.

Ltac case_detection d :=
  let cs := fresh "cs" in
  let c := fresh "c" in
  let Hc := fresh "Hc" in
  destruct (classifications d) as [cs |] eqn:Hc;
  [ destruct cs as [| c [| ? ?]] | ].

Ltac by_cases :=
  repeat match goal with
         | |- context [if ?b then _ else _] => destruct b eqn:?
         | |- context [match ?r with inl _ => _ | inr _ => _ end] =>
             destruct r eqn:?
         end.

Section BodyFacts.

Variable options : ClassificationSmoothingOptions.
Variable other_category_ids : list string.

Lemma other_body_relabel (k : string) (d : detection) (n : nat) :
  relabel_of d (fst (other_body options other_category_ids k d n)).
Proof.
  unfold other_body. case_detection d; by_cases; simpl;
    try apply relabel_of_refl.
  now apply relabel_of_set_category with (c := c).
Qed.

Lemma flip_body_relabel (t : dict nat) (k : string) (m : nat)
    (d : detection) (n : nat) :
  relabel_of d (fst (flip_body options t k m d n)).
Proof.
  unfold flip_body. case_detection d; by_cases; simpl;
    try apply relabel_of_refl.
  now apply relabel_of_set_category with (c := c).
Qed.

Lemma child_step_relabel (descs : dict string) (t : dict nat)
    (this desc : string) (cnt : nat) (k : string) (c : classification)
    (d : detection) (n : nat) :
  classifications d = Some [c] ->
  relabel_of d (fst (child_step descs t this desc cnt k d n)) /\
  exists c', classifications (fst (child_step descs t this desc cnt k d n))
             = Some [c'].
Proof.
  intros Hc. unfold child_step. by_cases; simpl;
    try (split; [apply relabel_of_refl | now exists c]).
  split; [now apply relabel_of_set_category with (c := c) |].
  unfold set_category. rewrite Hc. simpl. eauto.
Qed.

Lemma scan_children_relabel (descs : dict string) (t : dict nat)
    (this desc : string) (cnt : nat) :
  forall cands (c : classification) (d : detection) (n : nat),
    classifications d = Some [c] ->
    relabel_of d (fst (scan_children descs t this desc cnt cands d n)).
Proof.
  induction cands as [| k rest IH]; intros c d n Hc; simpl.
  - apply relabel_of_refl.
  - destruct (child_step_relabel descs t this desc cnt k c d n Hc)
      as [Hrel [c' Hc']].
    destruct (child_step descs t this desc cnt k d n) as [d' [e | n']];
      simpl in *; [exact Hrel |].
    eapply relabel_of_trans; [exact Hrel | now apply IH with (c := c')].
Qed.

Lemma taxonomy_body_relabel (descs : dict string) (t : dict nat)
    (d : detection) (n : nat) :
  relabel_of d (fst (taxonomy_body options descs t d n)).
Proof.
  unfold taxonomy_body. case_detection d; by_cases; simpl;
    try apply relabel_of_refl.
  now apply scan_children_relabel with (c := c).
Qed.

End BodyFacts.

(** ** Dicts *)

Lemma dict_find_In {V : Type} (d : dict V) (k : string) (v : V) :
  dict_find d k = Some v -> In (k, v) d.
Proof.
  induction d as [| [k' v'] d IH]; simpl; [discriminate |].
  destruct (String.eqb k' k) eqn:E.
  - apply String.eqb_eq in E. intros [= ->]. subst. now left.
  - intros Hf. right. now apply IH.
Qed.

Lemma In_dict_find {V : Type} (d : dict V) (k : string) (v : V) :
  NoDup (dict_keys d) -> In (k, v) d -> dict_find d k = Some v.
Proof.
  induction d as [| [k' v'] d IH]; simpl; [contradiction |].
  intros Hnd [Heq | Hin].
  - inversion Heq; subst. now rewrite String.eqb_refl.
  - inversion Hnd as [| ? ? Hnotin Hnd']; subst.
    destruct (String.eqb k' k) eqn:E.
    + apply String.eqb_eq in E. subst. exfalso. apply Hnotin.
      unfold dict_keys. now apply (in_map fst) in Hin.
    + now apply IH.
Qed.

Lemma dict_find_keys {V : Type} (d : dict V) (k : string) :
  In k (dict_keys d) <-> dict_find d k <> None.
Proof.
  induction d as [| [k' v'] d IH]; simpl.
  - split; [contradiction | congruence].
  - destruct (String.eqb k' k) eqn:E.
    + apply String.eqb_eq in E. split; [discriminate | now left].
    + apply String.eqb_neq in E. rewrite <- IH. split.
      * intros [? | ?]; [contradiction | assumption].
      * now right.
Qed.

Lemma dict_get_keys {V : Type} (d : dict V) (k : string) :
  In k (dict_keys d) -> exists v, dict_get d k = ok v /\ dict_find d k = Some v.
Proof.
  intros Hin. apply dict_find_keys in Hin. unfold dict_get.
  destruct (dict_find d k) as [v |]; [now exists v | congruence].
Qed.

Lemma str_mem_In (x : string) (l : list string) :
  str_mem x l = true <-> In x l.
Proof.
  unfold str_mem. rewrite existsb_exists. split.
  - intros (y & Hin & Heq). apply String.eqb_eq in Heq. now subst.
  - intros Hin. exists x. split; [exact Hin | apply String.eqb_refl].
Qed.

(** ** Substrings *)



(** ** The tally *)

Lemma incr_count_find (k k' : string) (d : dict nat) :
  dict_find (incr_count k d) k' =
  if String.eqb k k'
  then Some (S (match dict_find d k' with Some n => n | None => 0 end))
  else dict_find d k'.
Proof.
  induction d as [| [k0 n0] d IH]; simpl.
  - destruct (String.eqb k k'); reflexivity.
  - destruct (String.eqb k0 k) eqn:E0; simpl.
    + apply String.eqb_eq in E0. subst k0.
      destruct (String.eqb k k'); reflexivity.
    + destruct (String.eqb k0 k') eqn:E1.
      * apply String.eqb_eq in E1. subst k0.
        rewrite String.eqb_sym in E0. now rewrite E0.
      * exact IH.
Qed.

Lemma incr_count_keys (k : string) (d : dict nat) :
  dict_keys (incr_count k d) =
  if dict_mem d k then dict_keys d else dict_keys d ++ [k].
Proof.
  unfold dict_mem. induction d as [| [k0 n0] d IH]; simpl; [reflexivity |].
  destruct (String.eqb k0 k) eqn:E0; simpl; [reflexivity |].
  rewrite IH. now destruct (dict_find d k).
Qed.

Lemma incr_count_NoDup (k : string) (d : dict nat) :
  NoDup (dict_keys d) -> NoDup (dict_keys (incr_count k d)).
Proof.
  intros Hnd. rewrite incr_count_keys. unfold dict_mem.
  destruct (dict_find d k) eqn:E; [exact Hnd |].
  apply NoDup_app; [exact Hnd | repeat constructor; intros [] |].
  intros x Hx [<- | []]. apply dict_find_keys in Hx. congruence.
Qed.

Lemma tally_of_NoDup (ks : list string) :
  forall acc, NoDup (dict_keys acc) -> NoDup (dict_keys (tally_of ks acc)).
Proof.
  induction ks as [| k ks IH]; intros acc Hnd; simpl; [exact Hnd |].
  apply IH. now apply incr_count_NoDup.
Qed.

Lemma tally_of_find (ks : list string) :
  forall acc k,
    match dict_find (tally_of ks acc) k with
    | Some n => n
    | None => 0
    end
    = match dict_find acc k with Some n => n | None => 0 end
      + occurrences k ks.
Proof.
  unfold occurrences.
  induction ks as [| k0 ks IH]; intros acc k; simpl; [lia |].
  rewrite IH, incr_count_find. rewrite (String.eqb_sym k k0).
  destruct (String.eqb k0 k); simpl; lia.
Qed.

Lemma tally_of_find_None (ks : list string) :
  forall acc k,
    dict_find (tally_of ks acc) k = None <->
    dict_find acc k = None /\ occurrences k ks = 0.
Proof.
  unfold occurrences.
  induction ks as [| k0 ks IH]; intros acc k; simpl.
  - intuition.
  - rewrite IH, incr_count_find. rewrite (String.eqb_sym k k0).
    destruct (String.eqb k0 k); simpl; intuition (try discriminate; try lia).
Qed.

Lemma occurrences_In (k : string) (ks : list string) :
  In k ks <-> occurrences k ks <> 0.
Proof.
  unfold occurrences. induction ks as [| k0 ks IH]; simpl.
  - split; [contradiction | congruence].
  - destruct (String.eqb k k0) eqn:E; simpl.
    + apply String.eqb_eq in E. subst. split; [discriminate | now left].
    + apply String.eqb_neq in E. rewrite <- IH. split.
      * intros [? | ?]; [congruence | assumption].
      * now right.
Qed.

(** The tally of an empty accumulator holds exactly the categories met, each
    with its number of occurrences. *)
Lemma tally_of_spec (ks : list string) (k : string) (n : nat) :
  dict_find (tally_of ks []) k = Some n <->
  n = occurrences k ks /\ In k ks.
Proof.
  pose proof (tally_of_find ks [] k) as Hf.
  pose proof (tally_of_find_None ks [] k) as Hn.
  simpl in *. rewrite occurrences_In.
  destruct (dict_find (tally_of ks []) k) as [m |].
  - split.
    + intros [= <-]. split; [exact Hf |]. intros H0.
      destruct Hn as [_ Hn]. specialize (Hn (conj eq_refl H0)). discriminate.
    + intros [-> _]. now f_equal.
  - split; [discriminate |]. intros [_ Hne]. exfalso. apply Hne.
    now apply Hn.
Qed.

(** *** Sorting *)

Lemma insert_desc_perm (x : string * nat) (l : dict nat) :
  Permutation (insert_desc x l) (x :: l).
Proof.
  induction l as [| y l IH]; simpl; [reflexivity |].
  destruct (snd y <=? snd x)%nat; [reflexivity |].
  rewrite IH. apply perm_swap.
Qed.

Lemma sort_desc_perm (l : dict nat) : Permutation (sort_desc l) l.
Proof.
  induction l as [| x l IH]; simpl; [reflexivity |].
  rewrite insert_desc_perm. now constructor.
Qed.

Lemma sort_desc_length (l : dict nat) :
  List.length (sort_desc l) = List.length l.
Proof. apply Permutation_length, sort_desc_perm. Qed.

Lemma sort_desc_NoDup (l : dict nat) :
  NoDup (dict_keys l) -> NoDup (dict_keys (sort_desc l)).
Proof.
  intros Hnd. eapply Permutation_NoDup; [| exact Hnd].
  unfold dict_keys. apply Permutation_map. symmetry. apply sort_desc_perm.
Qed.

Lemma sort_desc_keys (l : dict nat) (k : string) :
  In k (dict_keys (sort_desc l)) <-> In k (dict_keys l).
Proof.
  unfold dict_keys. split; apply Permutation_in, Permutation_map.
  - apply sort_desc_perm.
  - symmetry. apply sort_desc_perm.
Qed.

Lemma sort_desc_find (l : dict nat) (k : string) :
  NoDup (dict_keys l) -> dict_find (sort_desc l) k = dict_find l k.
Proof.
  intros Hnd. destruct (dict_find l k) as [n |] eqn:E.
  - apply In_dict_find; [now apply sort_desc_NoDup |].
    eapply Permutation_in; [symmetry; apply sort_desc_perm |].
    now apply dict_find_In.
  - destruct (dict_find (sort_desc l) k) as [m |] eqn:E'; [| reflexivity].
    assert (Hin : In k (dict_keys l)).
    { apply sort_desc_keys. apply dict_find_keys. congruence. }
    apply dict_find_keys in Hin. congruence.
Qed.

Lemma insert_desc_descending (x : string * nat) (l : dict nat) :
  descending l -> descending (insert_desc x l).
Proof.
  induction l as [| y l IH]; simpl; [trivial |].
  intros Hd. destruct (snd y <=? snd x)%nat eqn:E.
  - apply Nat.leb_le in E. simpl. split; assumption.
  - apply Nat.leb_gt in E.
    destruct l as [| z l]; simpl in *.
    + split; [lia | trivial].
    + destruct Hd as [Hzy Hd]. specialize (IH Hd).
      destruct (snd z <=? snd x)%nat; simpl in *; split; try lia; assumption.
Qed.

Lemma sort_desc_descending (l : dict nat) : descending (sort_desc l).
Proof.
  induction l as [| x l IH]; simpl; [trivial |].
  now apply insert_desc_descending.
Qed.

(** *** The tally in closed form *)

Section TallyFacts.

Variable options : ClassificationSmoothingOptions.

Lemma visible_inv (d : detection) :
  visible options d = true ->
  exists c, classifications d = Some [c] /\
            num_ge (conf d) (detection_confidence_threshold options) = true /\
            num_ge (snd c) (classification_confidence_threshold options)
              = true /\
            category_id d = Some (fst c).
Proof.
  unfold visible, category_id. case_detection d; try discriminate.
  intros Hv. apply andb_true_iff in Hv as [H1 H2]. now exists c.
Qed.

Lemma visible_well_formed (d : detection) :
  visible options d = true -> well_formed options d = true.
Proof.
  intros Hv. apply visible_inv in Hv as (c & Hc & _).
  unfold well_formed. rewrite Hc. simpl. apply orb_true_r.
Qed.

Lemma visible_not_below (d : detection) :
  visible options d = true -> below_threshold options d = false.
Proof.
  intros Hv. apply visible_inv in Hv as (c & Hc & H1 & H2 & _).
  unfold below_threshold.
  now rewrite Hc, (num_ge_not_lt _ _ H1), (num_ge_not_lt _ _ H2).
Qed.

Lemma below_not_visible (d : detection) :
  below_threshold options d = true -> visible options d = false.
Proof.
  intros Hb. destruct (visible options d) eqn:E; [| reflexivity].
  apply visible_not_below in E. congruence.
Qed.

Lemma count_loop_closed (dets : list detection) :
  forall acc,
    count_loop options dets acc =
    if forallb (well_formed options) dets
    then ok (tally_of (counted options dets) acc)
    else throw AssertionError.
Proof.
  induction dets as [| d dets IH]; intros acc; simpl; [reflexivity |].
  unfold well_formed at 1, visible, category_id.
  case_detection d; simpl;
    destruct (num_ge (conf d) (detection_confidence_threshold options));
    simpl; try apply IH; try reflexivity.
  destruct (num_ge (snd c) (classification_confidence_threshold options));
    simpl; apply IH.
Qed.

Lemma tally_closed (dets : list detection) :
  _count_detections_by_category dets options =
  if forallb (well_formed options) dets
  then ok (sort_desc (tally_of (counted options dets) []))
  else throw AssertionError.
Proof.
  unfold _count_detections_by_category. rewrite count_loop_closed.
  now destruct (forallb (well_formed options) dets).
Qed.

Lemma tally_ok_inv (dets : list detection) (t : dict nat) :
  _count_detections_by_category dets options = ok t ->
  forallb (well_formed options) dets = true /\
  t = sort_desc (tally_of (counted options dets) []).
Proof.
  rewrite tally_closed.
  destruct (forallb (well_formed options) dets); [| discriminate].
  unfold ok. intros [= <-]. now split.
Qed.

Lemma tally_NoDup (dets : list detection) (t : dict nat) :
  _count_detections_by_category dets options = ok t -> NoDup (dict_keys t).
Proof.
  intros Ht. apply tally_ok_inv in Ht as [_ ->].
  apply sort_desc_NoDup, tally_of_NoDup. constructor.
Qed.

(** An entry of the tally is the number of qualifying detections of that
    category, and there is one for each category that has any. *)
Lemma tally_find (dets : list detection) (t : dict nat) (k : string)
    (n : nat) :
  _count_detections_by_category dets options = ok t ->
  (dict_find t k = Some n <->
   n = occurrences k (counted options dets) /\ In k (counted options dets)).
Proof.
  intros Ht. apply tally_ok_inv in Ht as [_ ->].
  rewrite sort_desc_find by (apply tally_of_NoDup; constructor).
  apply tally_of_spec.
Qed.

Lemma tally_keys (dets : list detection) (t : dict nat) (k : string) :
  _count_detections_by_category dets options = ok t ->
  (In k (dict_keys t) <-> In k (counted options dets)).
Proof.
  intros Ht. rewrite dict_find_keys. split.
  - intros Hne. destruct (dict_find t k) as [n |] eqn:E; [| congruence].
    now apply (tally_find dets t k n Ht) in E.
  - intros Hin.
    assert (dict_find t k = Some (occurrences k (counted options dets)))
      as -> by now apply (tally_find dets t k _ Ht).
    discriminate.
Qed.

Lemma counted_In (dets : list detection) (k : string) :
  In k (counted options dets) <->
  exists d, In d dets /\ visible options d = true /\ category_id d = Some k.
Proof.
  unfold counted. rewrite in_flat_map. split.
  - intros (d & Hin & Hk). exists d. split; [exact Hin |].
    destruct (visible options d); [| contradiction].
    destruct (category_id d) as [k' |]; [| contradiction].
    destruct Hk as [-> | []]. now split.
  - intros (d & Hin & Hv & Hk). exists d. split; [exact Hin |].
    rewrite Hv, Hk. now left.
Qed.

Lemma tally_well_formed (dets : list detection) (t : dict nat) (d : detection) :
  _count_detections_by_category dets options = ok t ->
  In d dets -> well_formed options d = true.
Proof.
  intros Ht Hin. apply tally_ok_inv in Ht as [Hwf _].
  rewrite forallb_forall in Hwf. now apply Hwf.
Qed.

(** Whether a detection qualifies, and whether it is well formed, does not
    depend on its category id. *)
Lemma relabel_of_visible (d d' : detection) :
  relabel_of d d' -> visible options d' = visible options d.
Proof.
  intros [-> | (x & c & Hc & ->)]; [reflexivity |].
  unfold visible. simpl. now rewrite Hc.
Qed.

Lemma relabel_of_well_formed (d d' : detection) :
  relabel_of d d' -> well_formed options d' = well_formed options d.
Proof.
  intros [-> | (x & c & Hc & ->)]; [reflexivity |].
  unfold well_formed. simpl. now rewrite Hc.
Qed.

Lemma relabel_of_below (d d' : detection) :
  relabel_of d d' -> below_threshold options d' = below_threshold options d.
Proof.
  intros [-> | (x & c & Hc & ->)]; [reflexivity |].
  unfold below_threshold. simpl. now rewrite Hc.
Qed.

Lemma relabel_of_comparable (d d' : detection) :
  relabel_of d d' -> comparable options d' = comparable options d.
Proof.
  intros [-> | (x & c & Hc & ->)]; [reflexivity |].
  unfold comparable. simpl. now rewrite Hc.
Qed.

End TallyFacts.

(** ** Relations every run keeps *)

Section RunKeeps.

Variable options : ClassificationSmoothingOptions.
Variable other_category_ids : list string.
Variable descriptions_clean : option (dict string).

Variable R : detection -> detection -> Prop.
Hypothesis R_refl : forall d, R d d.
Hypothesis R_trans : forall d1 d2 d3, R d1 d2 -> R d2 d3 -> R d1 d3.
Hypothesis R_other : forall k d n,
  R d (fst (other_body options other_category_ids k d n)).
Hypothesis R_flip : forall t k m d n,
  R d (fst (flip_body options t k m d n)).
Hypothesis R_taxonomy : forall ds t d n,
  R d (fst (taxonomy_body options ds t d n)).

Lemma other_pass_keeps (refs : list nat) (t : dict nat) :
  keeps R (other_pass options other_category_ids refs t).
Proof.
  unfold other_pass.
  apply keeps_bind; [assumption | now apply keeps_lift | intros keys].
  apply keeps_bind; [assumption | now apply keeps_lift | intros [k m]].
  destruct (_ && _); [now apply keeps_for_each | now apply keeps_ret].
Qed.

Lemma flip_pass_keeps (refs : list nat) :
  keeps R (flip_pass options other_category_ids refs).
Proof.
  unfold flip_pass.
  apply keeps_bind; [assumption | now apply keeps_read_all | intros dets].
  apply keeps_bind; [assumption | now apply keeps_lift | intros t].
  apply keeps_bind; [assumption | now apply keeps_lift | intros [k m]].
  destruct (negb _); [now apply keeps_for_each | now apply keeps_ret].
Qed.

Lemma taxonomy_pass_keeps (refs : list nat) :
  keeps R (taxonomy_pass options descriptions_clean refs).
Proof.
  unfold taxonomy_pass.
  apply keeps_bind; [assumption | now apply keeps_read_all | intros dets].
  apply keeps_bind; [assumption | now apply keeps_lift | intros t].
  apply keeps_bind; [assumption | now apply keeps_lift | intros dom].
  destruct descriptions_clean as [ds |]; [| now apply keeps_ret].
  destruct (_ && _); [now apply keeps_for_each | now apply keeps_ret].
Qed.

Lemma smooth_keeps (refs : list nat) :
  keeps R (_smooth_classifications_for_list_of_detections options
             other_category_ids descriptions_clean refs).
Proof.
  unfold _smooth_classifications_for_list_of_detections.
  apply keeps_bind; [assumption | now apply keeps_read_all | intros dets].
  apply keeps_bind; [assumption | now apply keeps_lift | intros t].
  destruct (_ <=? _)%nat; [now apply keeps_ret |].
  apply keeps_bind; [assumption | apply other_pass_keeps | intros n1].
  apply keeps_bind; [assumption | apply flip_pass_keeps | intros n2].
  apply keeps_bind; [assumption | apply taxonomy_pass_keeps | intros n3].
  now apply keeps_ret.
Qed.

End RunKeeps.

Lemma view_store_of_shift (pre dets : list detection) :
  view (store_of (pre ++ dets)) (seq (List.length pre) (List.length dets))
  = dets.
Proof.
  revert pre. induction dets as [| d dets IH]; intros pre; simpl;
    [reflexivity |].
  f_equal.
  - unfold store_of. rewrite app_nth2 by lia. now rewrite Nat.sub_diag.
  - specialize (IH (pre ++ [d])). rewrite <- app_assoc in IH. simpl in IH.
    rewrite length_app in IH. simpl in IH.
    now rewrite Nat.add_1_r in IH.
Qed.

Lemma view_store_of (dets : list detection) :
  view (store_of dets) (addresses dets) = dets.
Proof. exact (view_store_of_shift [] dets). Qed.

Lemma view_Forall2 (R : detection -> detection -> Prop) (st st' : store)
    (refs : list nat) :
  (forall a, R (st a) (st' a)) -> Forall2 R (view st refs) (view st' refs).
Proof.
  intros HR. induction refs as [| r refs IH]; simpl; constructor; auto.
Qed.

Lemma relabel_of_facts (d d' : detection) :
  relabel_of d d' ->
  conf d' = conf d /\
  option_map (map snd) (classifications d')
    = option_map (map snd) (classifications d) /\
  option_map (@List.length classification) (classifications d')
    = option_map (@List.length classification) (classifications d).
Proof.
  intros [-> | (x & c & Hc & ->)]; [now repeat split |].
  simpl. rewrite Hc. now repeat split.
Qed.

(** C8.  A Group Smoother run (whether it returns or raises) leaves the list
    of detections as long as it was, and what every address holds afterwards
    is what it held before up to the category id of a single classification
    entry: every 'conf', every classification confidence and the number of
    classification entries are unchanged.  This holds for units with shared
    detection objects as well, and in particular for a list of distinct
    detections. *)
Theorem smoother_rewrites_only_category_ids :
  forall options other_category_ids descriptions_clean,
    (forall refs st,
        let st' := fst (_smooth_classifications_for_list_of_detections options
                          other_category_ids descriptions_clean refs st) in
        List.length (view st' refs) = List.length (view st refs) /\
        forall a,
          relabel_of (st a) (st' a) /\
          conf (st' a) = conf (st a) /\
          option_map (map snd) (classifications (st' a))
            = option_map (map snd) (classifications (st a)) /\
          option_map (@List.length classification) (classifications (st' a))
            = option_map (@List.length classification)
                         (classifications (st a))) /\
    (forall dets,
        let dets' := fst (smooth_list options other_category_ids
                            descriptions_clean dets) in
        List.length dets' = List.length dets /\
        Forall2 relabel_of dets dets' /\
        map conf dets' = map conf dets).
Proof.
  intros options other_category_ids descriptions_clean.
  assert (Hkeep : forall refs,
             keeps relabel_of
               (_smooth_classifications_for_list_of_detections options
                  other_category_ids descriptions_clean refs)).
  { intros refs. apply smooth_keeps.
    - apply relabel_of_refl.
    - apply relabel_of_trans.
    - intros. apply other_body_relabel.
    - intros. apply flip_body_relabel.
    - intros. apply taxonomy_body_relabel. }
  split.
  - intros refs st st'. split.
    + unfold view. now rewrite !length_map.
    + intros a. pose proof (Hkeep refs st a) as Hrel. fold st' in Hrel.
      split; [exact Hrel | now apply relabel_of_facts].
  - intros dets. unfold smooth_list.
    pose proof (Hkeep (addresses dets) (store_of dets)) as Hrel.
    destruct (_smooth_classifications_for_list_of_detections options
                other_category_ids descriptions_clean (addresses dets)
                (store_of dets)) as [st' r]. simpl in *.
    assert (HF : Forall2 relabel_of dets (view st' (addresses dets))).
    { rewrite <- (view_store_of dets) at 1. now apply view_Forall2. }
    repeat split.
    + unfold view, addresses. now rewrite length_map, length_seq.
    + exact HF.
    + clear Hrel. induction HF as [| d d' l l' Hd _ IH]; simpl;
        [reflexivity |].
      f_equal; [now apply relabel_of_facts | exact IH].
Qed.

(** ** Threshold gating *)

Section Gating.

Variable options : ClassificationSmoothingOptions.
Variable other_category_ids : list string.

Lemma gated_refl (d : detection) : gated options d d.
Proof. now intros _. Qed.

Lemma gated_trans (d1 d2 d3 : detection) :
  gated options d1 d2 -> gated options d2 d3 -> gated options d1 d3.
Proof.
  unfold gated. intros H12 H23 Hb. specialize (H12 Hb). subst d2. auto.
Qed.

Ltac gated_body d :=
  let Hge := fresh "Hge" in
  intros Hb; unfold below_threshold in Hb;
  case_detection d; simpl in *; try reflexivity;
  destruct (num_ge (conf d) (detection_confidence_threshold options))
    eqn:Hge;
  simpl; try reflexivity;
  rewrite (num_ge_not_lt _ _ Hge) in Hb; simpl in Hb; try discriminate;
  rewrite ?Hb, ?(num_lt_not_ge _ _ Hb); reflexivity.

Lemma other_body_gated (k : string) (d : detection) (n : nat) :
  gated options d (fst (other_body options other_category_ids k d n)).
Proof. unfold gated, other_body. gated_body d. Qed.

Lemma flip_body_gated (t : dict nat) (k : string) (m : nat)
    (d : detection) (n : nat) :
  gated options d (fst (flip_body options t k m d n)).
Proof. unfold gated, flip_body. gated_body d. Qed.

Lemma taxonomy_body_gated (ds : dict string) (t : dict nat)
    (d : detection) (n : nat) :
  gated options d (fst (taxonomy_body options ds t d n)).
Proof. unfold gated, taxonomy_body. gated_body d. Qed.

Lemma counted_filter_below (dets : list detection) :
  counted options
    (filter (fun d => negb (below_threshold options d)) dets)
  = counted options dets.
Proof.
  induction dets as [| d dets IH]; simpl; [reflexivity |].
  destruct (below_threshold options d) eqn:Hb; simpl.
  - rewrite (below_not_visible options d Hb). exact IH.
  - unfold counted in *. simpl. now rewrite IH.
Qed.

Lemma forallb_filter {A : Type} (p q : A -> bool) (l : list A) :
  forallb p l = true -> forallb p (filter q l) = true.
Proof.
  rewrite !forallb_forall. intros Hp x Hin.
  apply filter_In in Hin as [Hin _]. now apply Hp.
Qed.

Lemma tally_filter_below (dets : list detection) (t : dict nat) :
  _count_detections_by_category dets options = ok t ->
  _count_detections_by_category
    (filter (fun d => negb (below_threshold options d)) dets) options = ok t.
Proof.
  intros Ht. apply tally_ok_inv in Ht as [Hwf ->].
  rewrite tally_closed, counted_filter_below.
  now rewrite forallb_filter.
Qed.

End Gating.

(** C5.  A detection below the detection threshold or the classification
    threshold, or without a classification entry, contributes nothing to a
    tally (the tally of a unit is the tally of the unit without its
    below-threshold detections, and has no entry or count owed to them), and
    no pass - at whatever store it is started, with whatever dominant
    category - nor the whole run rewrites what its address holds.  Below is
    [<], as pass 3 tests it: a NaN confidence is not below a threshold (see
    [nan_is_not_counted_yet_relabeled]). *)
Theorem below_threshold_never_counted_never_rewritten :
  forall options other_category_ids descriptions_clean
         (dets : list detection) (t : dict nat)
         (refs : list nat) (st : store) (a : nat) (c2c : dict nat),
    _count_detections_by_category dets options = ok t ->
    below_threshold options (st a) = true ->
    _count_detections_by_category
      (filter (fun d => negb (below_threshold options d)) dets) options
      = ok t /\
    (forall k n, dict_find t k = Some n ->
       n = List.length
             (filter (fun d => visible options d
                               && match category_id d with
                                  | Some k' => String.eqb k k'
                                  | None => false
                                  end) dets)) /\
    fst (other_pass options other_category_ids refs c2c st) a = st a /\
    fst (flip_pass options other_category_ids refs st) a = st a /\
    fst (taxonomy_pass options descriptions_clean refs st) a = st a /\
    fst (_smooth_classifications_for_list_of_detections options
           other_category_ids descriptions_clean refs st) a = st a.
Proof.
  intros options other_category_ids descriptions_clean dets t refs st a c2c
         Ht Hb.
  split; [now apply tally_filter_below |].
  split.
  { intros k n Hf. apply (tally_find options dets t k n Ht) in Hf as [-> _].
    unfold occurrences, counted. clear.
    induction dets as [| d dets IH]; simpl; [reflexivity |].
    rewrite filter_app, length_app, IH.
    destruct (visible options d); simpl; [| reflexivity].
    destruct (category_id d) as [k' |]; simpl; [| reflexivity].
    destruct (String.eqb k k'); reflexivity. }
  assert (Hrefl := gated_refl options).
  assert (Htrans := gated_trans options).
  assert (H1 := other_body_gated options other_category_ids).
  assert (H2 := flip_body_gated options).
  assert (H3 := taxonomy_body_gated options).
  repeat split.
  - now apply (other_pass_keeps options other_category_ids (gated options)).
  - now apply (flip_pass_keeps options other_category_ids (gated options)).
  - now apply (taxonomy_pass_keeps options descriptions_clean
                 (gated options)).
  - now apply (smooth_keeps options other_category_ids descriptions_clean
                 (gated options)).
Qed.

(** A classification confidence that is NaN is neither at or above the
    threshold nor below it.  The tally, which tests [>=], does not count the
    detection; pass 3, which skips what is [<] the threshold, does not skip
    it: here it relabels the first detection from "a" to its more common
    child "b", although the tally never counted it. *)
Example nan_is_not_counted_yet_relabeled :
  let unit := [unsure "a"; sure "a"; sure "b"; sure "b"] in
  visible default_options (unsure "a") = false /\
  below_threshold default_options (unsure "a") = false /\
  _count_detections_by_category unit default_options
  = ok [("b", 2); ("a", 1)] /\
  smooth_list default_options [] (Some fox_descriptions) unit
  = ([unsure "b"; sure "b"; sure "b"; sure "b"],
     ok (Some {| n_other_classifications_changed_this_image := 0;
                 n_detections_flipped_this_image := 0;
                 n_taxonomic_changes_this_image := 2 |})).
Proof. repeat split. Qed.

(** ** Loops over units without shared objects *)

(** When no address occurs twice, a loop whose body acts on each detection as
    a function [f], adding [q] to the counter, maps [f] over the unit. *)
Lemma for_each_pure (body : detection -> nat -> detection * result nat)
    (f : detection -> detection) (q : detection -> nat) :
  forall refs s st,
    NoDup refs ->
    (forall r, In r refs ->
       forall n, body (st r) n = (f (st r), ok (n + q (st r)))) ->
    exists st',
      for_each body refs s st
        = (st', ok (s + list_sum (map q (view st refs)))) /\
      (forall r, In r refs -> st' r = f (st r)) /\
      (forall a, ~ In a refs -> st' a = st a).
Proof.
  induction refs as [| r rest IH]; intros s st Hnd Hbody; simpl.
  - exists st. rewrite Nat.add_0_r. repeat split; auto. contradiction.
  - inversion Hnd as [| ? ? Hnotin Hnd']; subst.
    rewrite (Hbody r (or_introl eq_refl) s).
    destruct (IH (s + q (st r)) (upd st r (f (st r))) Hnd') as
      (st' & Hrun & Hin & Hout).
    { intros r' Hr' n.
      assert (r' <> r) by (intros ->; contradiction).
      rewrite upd_other by assumption. apply Hbody. now right. }
    exists st'. split; [| split].
    + assert (Hview : view (upd st r (f (st r))) rest = view st rest).
      { unfold view. apply map_ext_in. intros r' Hr'.
        apply upd_other. intros ->. contradiction. }
      unfold ok in *. rewrite Hrun, Hview. now rewrite Nat.add_assoc.
    + intros r' [<- | Hr'].
      * rewrite Hout by assumption. apply upd_same.
      * rewrite Hin by assumption. f_equal. apply upd_other.
        intros ->. contradiction.
    + intros a Ha. rewrite Hout by (intros ?; apply Ha; now right).
      apply upd_other. intros ->. apply Ha. now left.
Qed.

(** A loop whose body neither raises on detections satisfying [P] nor leaves
    [P], run on a unit inside a set of addresses that all satisfy [P], does
    not raise and keeps [P] on that set - shared objects or not. *)
Lemma for_each_good {S : Type}
    (body : detection -> S -> detection * result S)
    (P : detection -> Prop) (scope : list nat) :
  (forall d s, P d -> exists d' s', body d s = (d', ok s') /\ P d') ->
  forall refs s st,
    incl refs scope ->
    (forall r, In r scope -> P (st r)) ->
    exists st' s',
      for_each body refs s st = (st', ok s') /\
      (forall r, In r scope -> P (st' r)).
Proof.
  intros Hbody. induction refs as [| r rest IH]; intros s st Hincl HP; simpl.
  - now exists st, s.
  - assert (Hr : In r scope) by (apply Hincl; now left).
    destruct (Hbody (st r) s (HP r Hr)) as (d' & s' & -> & Hd').
    apply IH.
    + intros x Hx. apply Hincl. now right.
    + intros r' Hr'. unfold upd. destruct (Nat.eqb r' r); auto.
Qed.

Lemma category_id_set_category (options : ClassificationSmoothingOptions)
    (d : detection) (x : string) :
  visible options d = true -> category_id (set_category d x) = Some x.
Proof.
  intros Hv. apply visible_inv in Hv as (c & Hc & _).
  unfold category_id, set_category. now rewrite Hc.
Qed.

(** ** Pass 1: the "other" override *)

Lemma list_sum_indicator {A : Type} (p : A -> bool) (l : list A) :
  list_sum (map (fun x => if p x then 1 else 0) l) = List.length (filter p l).
Proof.
  induction l as [| x l IH]; simpl; [reflexivity |].
  destruct (p x); simpl; now rewrite IH.
Qed.

Lemma view_well_formed (options : ClassificationSmoothingOptions)
    (st : store) (refs : list nat) (t : dict nat) (r : nat) :
  _count_detections_by_category (view st refs) options = ok t ->
  In r refs -> well_formed options (st r) = true.
Proof.
  intros Ht Hr. eapply tally_well_formed; [exact Ht |].
  unfold view. now apply in_map.
Qed.

Section Pass1.

Variable options : ClassificationSmoothingOptions.
Variable other_category_ids : list string.

Lemma other_body_pure (dom : string) (d : detection) (n : nat) :
  well_formed options d = true ->
  other_body options other_category_ids dom d n
  = (if in_other options other_category_ids d then set_category d dom else d,
     ok (n + (if in_other options other_category_ids d then 1 else 0))).
Proof.
  unfold well_formed, other_body, in_other, visible, category_id.
  case_detection d; simpl;
    destruct (num_ge (conf d) (detection_confidence_threshold options));
    simpl; try discriminate; intros _;
    rewrite ?Nat.add_0_r; try reflexivity.
  destruct (num_ge (snd c) (classification_confidence_threshold options));
    simpl; rewrite ?Nat.add_0_r; try reflexivity.
  destruct (str_mem (fst c) other_category_ids);
    rewrite ?Nat.add_0_r, ?Nat.add_1_r; reflexivity.
Qed.

Lemma tie_break_dominant (k0 k1 : string) (n0 n1 : nat) (rest : dict nat) :
  NoDup (dict_keys ((k0, n0) :: (k1, n1) :: rest)) ->
  let t := (k0, n0) :: (k1, n1) :: rest in
  let tied := str_mem k0 other_category_ids
              && negb (str_mem k1 other_category_ids)
              && (n0 =? n1)%nat in
  exists keys,
    tie_break other_category_ids t (dict_keys t) = ok keys /\
    dominant t keys = ok (if tied then k1 else k0, if tied then n1 else n0).
Proof.
  intros Hnd t tied. subst t tied.
  assert (Hne : String.eqb k0 k1 = false).
  { apply String.eqb_neq. intros ->. simpl in Hnd.
    inversion Hnd as [| ? ? Hnotin _]. apply Hnotin. now left. }
  unfold tie_break, dominant, dict_get. simpl.
  rewrite String.eqb_refl, Hne, String.eqb_refl. simpl.
  destruct (str_mem k0 other_category_ids); simpl.
  - destruct (str_mem k1 other_category_ids); simpl.
    + eexists. split; [reflexivity |]. simpl.
      now rewrite String.eqb_refl.
    + destruct (n0 =? n1)%nat; simpl.
      * eexists. split; [reflexivity |]. simpl.
        now rewrite Hne, String.eqb_refl.
      * eexists. split; [reflexivity |]. simpl.
        now rewrite String.eqb_refl.
  - eexists. split; [reflexivity |]. simpl. now rewrite String.eqb_refl.
Qed.

End Pass1.

(** What pass 1 does on a unit of distinct detections, by its tally. *)
Lemma other_pass_spec :
  forall options other_category_ids (refs : list nat) (st : store)
         (k0 k1 : string) (n0 n1 : nat) (rest : dict nat),
    NoDup refs ->
    _count_detections_by_category (view st refs) options
      = ok ((k0, n0) :: (k1, n1) :: rest) ->
    let tied := str_mem k0 other_category_ids
                && negb (str_mem k1 other_category_ids)
                && (n0 =? n1)%nat in
    let dom := if tied then k1 else k0 in
    let max_count := if tied then n1 else n0 in
    let fires :=
      (min_detections_to_overwrite_other options <=? Z.of_nat max_count)%Z
      && negb (str_mem dom other_category_ids) in
    let hit d := fires && in_other options other_category_ids d in
    exists st',
      other_pass options other_category_ids refs
        ((k0, n0) :: (k1, n1) :: rest) st
      = (st', ok (List.length (filter hit (view st refs)))) /\
      (forall r, In r refs ->
         st' r = if hit (st r) then set_category (st r) dom else st r) /\
      (forall a, ~ In a refs -> st' a = st a).
Proof.
  intros options other_category_ids refs st k0 k1 n0 n1 rest Hnd Ht
         tied dom max_count fires hit.
  destruct (tie_break_dominant other_category_ids k0 k1 n0 n1 rest
              (tally_NoDup options _ _ Ht)) as (keys & Hkeys & Hdom).
  fold tied in Hdom. fold dom max_count in Hdom.
  unfold other_pass, bind, lift. rewrite Hkeys. unfold ok at 1.
  cbv beta iota. rewrite Hdom. unfold ok at 1. cbv beta iota. fold fires.
  assert (Hhit : forall d,
             hit d = fires && in_other options other_category_ids d)
    by reflexivity.
  clearbody hit fires. destruct fires; simpl in Hhit.
  - destruct (for_each_pure (other_body options other_category_ids dom)
                (fun d => if in_other options other_category_ids d
                          then set_category d dom else d)
                (fun d => if in_other options other_category_ids d
                          then 1 else 0)
                refs 0 st Hnd) as (st' & Hrun & Hin & Hout).
    { intros r Hr n. apply other_body_pure.
      now apply (view_well_formed options st refs _ r Ht). }
    exists st'. split; [| split].
    + rewrite Hrun. simpl. unfold view. rewrite map_map.
      rewrite <- (map_map st
                    (fun d => if in_other options other_category_ids d
                              then 1 else 0)).
      rewrite list_sum_indicator. do 3 f_equal.
      apply filter_ext. intros d. now rewrite Hhit.
    + intros r Hr. now rewrite Hin, Hhit.
    + exact Hout.
  - exists st. split; [| split].
    + unfold ret. do 2 f_equal.
      clear Ht. induction (view st refs) as [| d l IH]; simpl;
        [reflexivity |].
      rewrite Hhit. exact IH.
    + intros r _. now rewrite Hhit.
    + reflexivity.
Qed.

(** C3.  Pass 1, started on a unit of distinct detections whose tally is
    [(k0, n0) :: (k1, n1) :: rest]: the dominant category is [k1] when [k0]
    is an "other" category, [k1] is not, and their counts are equal, and [k0]
    otherwise; if the dominant count is at least
    min_detections_to_overwrite_other and the dominant category is not an
    "other" category, exactly the qualifying detections classified into an
    "other" category are relabeled to the dominant category, and the pass
    returns their number; under any other condition nothing is relabeled and
    0 is returned.  Nothing outside the unit is touched. *)
Theorem pass1_other_override :
  forall options other_category_ids (refs : list nat) (st : store)
         (k0 k1 : string) (n0 n1 : nat) (rest : dict nat),
    NoDup refs ->
    _count_detections_by_category (view st refs) options
      = ok ((k0, n0) :: (k1, n1) :: rest) ->
    let tied := str_mem k0 other_category_ids
                && negb (str_mem k1 other_category_ids)
                && (n0 =? n1)%nat in
    let dom := if tied then k1 else k0 in
    let max_count := if tied then n1 else n0 in
    let fires :=
      (min_detections_to_overwrite_other options <=? Z.of_nat max_count)%Z
      && negb (str_mem dom other_category_ids) in
    let hit d := fires && in_other options other_category_ids d in
    exists st',
      other_pass options other_category_ids refs
        ((k0, n0) :: (k1, n1) :: rest) st
      = (st', ok (List.length (filter hit (view st refs)))) /\
      (forall r, In r refs ->
         st' r = if hit (st r) then set_category (st r) dom else st r) /\
      (forall a, ~ In a refs -> st' a = st a) /\
      (fires = false -> forall a, st' a = st a) /\
      (fires = true ->
       forall r k, In r refs -> visible options (st r) = true ->
         category_id (st r) = Some k ->
         (str_mem k other_category_ids = true ->
          category_id (st' r) = Some dom) /\
         (str_mem k other_category_ids = false -> st' r = st r)).
Proof.
  intros options other_category_ids refs st k0 k1 n0 n1 rest Hnd Ht
         tied dom max_count fires hit.
  destruct (other_pass_spec options other_category_ids refs st k0 k1 n0 n1
              rest Hnd Ht) as (st' & Hrun & Hin & Hout).
  fold tied in Hrun, Hin. fold dom max_count in Hrun, Hin.
  fold fires in Hrun, Hin. fold hit in Hrun, Hin.
  exists st'. split; [exact Hrun |]. split; [exact Hin |].
  split; [exact Hout |]. split.
  - intros Hfires a. destruct (in_dec Nat.eq_dec a refs) as [Ha | Ha].
    + rewrite (Hin a Ha). unfold hit. now rewrite Hfires.
    + now apply Hout.
  - intros Hfires r k Hr Hv Hk. rewrite (Hin r Hr). unfold hit, in_other.
    rewrite Hfires, Hv, Hk. simpl. split; intros ->; [| reflexivity].
    now apply (category_id_set_category options).
Qed.

(** ** Pass 2: the dominant flip *)

Section Pass2.

Variable options : ClassificationSmoothingOptions.

Lemma flip_body_pure (t : dict nat) (dom : string) (max_count : nat)
    (d : detection) (n : nat) :
  well_formed options d = true ->
  (forall k, visible options d = true -> category_id d = Some k ->
             dict_find t k <> None) ->
  flip_body options t dom max_count d n
  = (if flips options t dom max_count d then set_category d dom else d,
     ok (n + (if flips options t dom max_count d then 1 else 0))).
Proof.
  unfold well_formed, flip_body, flips, flip_counts, visible, category_id,
    dict_get.
  case_detection d; simpl;
    destruct (num_ge (conf d) (detection_confidence_threshold options));
    simpl; try discriminate; intros _ Hkey;
    rewrite ?Nat.add_0_r; try reflexivity.
  destruct (num_ge (snd c) (classification_confidence_threshold options));
    simpl; rewrite ?Nat.add_0_r; try reflexivity.
  destruct (String.eqb (fst c) dom); simpl; rewrite ?Nat.add_0_r;
    try reflexivity.
  specialize (Hkey (fst c) eq_refl eq_refl).
  destruct (dict_find t (fst c)) as [count_c |]; [| congruence]. simpl.
  destruct (_ && _ && _); rewrite ?Nat.add_0_r, ?Nat.add_1_r; reflexivity.
Qed.

Lemma view_category_tallied (st : store) (refs : list nat) (t : dict nat)
    (r : nat) (k : string) :
  _count_detections_by_category (view st refs) options = ok t ->
  In r refs -> visible options (st r) = true -> category_id (st r) = Some k ->
  dict_find t k = Some (occurrences k (counted options (view st refs))).
Proof.
  intros Ht Hr Hv Hk. apply (tally_find options _ t k _ Ht).
  split; [reflexivity |]. apply counted_In. exists (st r).
  repeat split; try assumption. unfold view. now apply in_map.
Qed.

Lemma dominant_head (dom : string) (max_count : nat) (rest : dict nat) :
  dominant ((dom, max_count) :: rest) (dict_keys ((dom, max_count) :: rest))
  = ok (dom, max_count).
Proof.
  unfold dominant, dict_get. simpl. now rewrite String.eqb_refl.
Qed.

End Pass2.

(** What pass 2 does on a unit of distinct detections, by its re-tally. *)
Lemma flip_pass_spec :
  forall options other_category_ids (refs : list nat) (st : store)
         (dom : string) (max_count : nat) (rest : dict nat),
    NoDup refs ->
    _count_detections_by_category (view st refs) options
      = ok ((dom, max_count) :: rest) ->
    let t := (dom, max_count) :: rest in
    let hit d := negb (str_mem dom other_category_ids)
                 && flips options t dom max_count d in
    exists st',
      flip_pass options other_category_ids refs st
      = (st', ok (List.length (filter hit (view st refs)))) /\
      (forall r, In r refs ->
         st' r = if hit (st r) then set_category (st r) dom else st r) /\
      (forall a, ~ In a refs -> st' a = st a).
Proof.
  intros options other_category_ids refs st dom max_count rest Hnd Ht t hit.
  assert (Hhit : forall d,
             hit d = negb (str_mem dom other_category_ids)
                     && flips options t dom max_count d) by reflexivity.
  clearbody hit.
  unfold flip_pass, bind, lift, read_all. unfold ok at 1. cbv beta iota.
  rewrite Ht. unfold ok at 1. cbv beta iota.
  rewrite dominant_head. unfold ok at 1. cbv beta iota.
  destruct (str_mem dom other_category_ids); simpl in Hhit; cbn [negb];
    cbv iota.
  - exists st. split; [| split].
    + unfold ret. do 2 f_equal. clear Ht.
      induction (view st refs) as [| d l IH]; simpl; [reflexivity |].
      rewrite Hhit. exact IH.
    + intros r _. now rewrite Hhit.
    + reflexivity.
  - destruct (for_each_pure (flip_body options t dom max_count)
                (fun d => if flips options t dom max_count d
                          then set_category d dom else d)
                (fun d => if flips options t dom max_count d
                          then 1 else 0)
                refs 0 st Hnd) as (st' & Hrun & Hin & Hout).
    { intros r Hr n. apply flip_body_pure.
      - now apply (view_well_formed options st refs _ r Ht).
      - intros k Hv Hk.
        rewrite (view_category_tallied options st refs t r k Ht Hr Hv Hk).
        discriminate. }
    exists st'. split; [| split].
    + unfold t in Hrun. rewrite Hrun. fold t. simpl. unfold view.
      rewrite map_map.
      rewrite <- (map_map st
                    (fun d => if flips options t dom max_count d
                              then 1 else 0)).
      rewrite list_sum_indicator. do 3 f_equal.
      apply filter_ext. intros d. now rewrite Hhit.
    + intros r Hr. now rewrite Hin, Hhit.
    + exact Hout.
Qed.

(** C2.  Pass 2, started on a unit of distinct detections whose re-tally is
    [(dom, max_count) :: rest].  If [dom] is an "other" category nothing is
    relabeled.  Otherwise a qualifying detection whose category [k] differs
    from [dom] is relabeled to [dom] if and only if
    [max_count > count k], [max_count > min_detections_to_overwrite_secondary]
    and [count k <= max_detections_nondominant_class], where [count k] is
    the tally's entry for [k]; so a detection whose category has more than
    max_detections_nondominant_class detections is never flipped.  No other
    detection changes, and the pass returns the number of detections it
    relabeled. *)
Theorem pass2_dominant_flip :
  forall options other_category_ids (refs : list nat) (st : store)
         (dom : string) (max_count : nat) (rest : dict nat),
    NoDup refs ->
    _count_detections_by_category (view st refs) options
      = ok ((dom, max_count) :: rest) ->
    let t := (dom, max_count) :: rest in
    let hit d := negb (str_mem dom other_category_ids)
                 && flips options t dom max_count d in
    exists st',
      flip_pass options other_category_ids refs st
      = (st', ok (List.length (filter hit (view st refs)))) /\
      (forall r, In r refs ->
         st' r = if hit (st r) then set_category (st r) dom else st r) /\
      (forall a, ~ In a refs -> st' a = st a) /\
      (str_mem dom other_category_ids = true -> forall a, st' a = st a) /\
      (str_mem dom other_category_ids = false ->
       forall r k, In r refs -> visible options (st r) = true ->
         category_id (st r) = Some k -> k <> dom ->
         exists count_k,
           dict_find t k = Some count_k /\
           (category_id (st' r) = Some dom <->
            (count_k < max_count /\
             (min_detections_to_overwrite_secondary options
                < Z.of_nat max_count)%Z /\
             (Z.of_nat count_k
                <= max_detections_nondominant_class options)%Z)) /\
           (category_id (st' r) <> Some dom -> st' r = st r) /\
           ((max_detections_nondominant_class options < Z.of_nat count_k)%Z ->
            st' r = st r)).
Proof.
  intros options other_category_ids refs st dom max_count rest Hnd Ht t hit.
  assert (Hhit : forall d,
             hit d = negb (str_mem dom other_category_ids)
                     && flips options t dom max_count d) by reflexivity.
  clearbody hit.
  pose proof (flip_pass_spec options other_category_ids refs st dom
                max_count rest Hnd Ht) as Hrun.
  cbv zeta in Hrun.
  assert (Hrun' : exists st',
             flip_pass options other_category_ids refs st
             = (st', ok (List.length (filter hit (view st refs)))) /\
             (forall r, In r refs ->
                st' r = if hit (st r) then set_category (st r) dom
                        else st r) /\
             (forall a, ~ In a refs -> st' a = st a)).
  { destruct Hrun as (st' & Hrun & Hin & Hout). exists st'.
    split; [| split; [| exact Hout]].
    - rewrite Hrun. do 3 f_equal. apply filter_ext. intros d.
      now rewrite Hhit.
    - intros r Hr. now rewrite (Hin r Hr), Hhit. }
  clear Hrun. destruct Hrun' as (st' & Hrun & Hin & Hout).
  exists st'. repeat split; try assumption.
  - intros Hother a. destruct (in_dec Nat.eq_dec a refs) as [Ha | Ha].
    + rewrite (Hin a Ha), Hhit, Hother. reflexivity.
    + now apply Hout.
  - intros Hother r k Hr Hv Hk Hne.
    pose proof (view_category_tallied options st refs t r k Ht Hr Hv Hk)
      as Hfind.
    exists (occurrences k (counted options (view st refs))).
    split; [exact Hfind |].
    assert (Hflip : hit (st r)
                    = flip_counts options max_count
                        (occurrences k (counted options (view st refs)))).
    { rewrite Hhit, Hother. unfold flips. rewrite Hv, Hk, Hfind.
      apply String.eqb_neq in Hne. now rewrite Hne. }
    rewrite (Hin r Hr), Hflip.
    destruct (visible_inv options (st r) Hv) as (c & Hc & _).
    unfold flip_counts.
    assert (Hset : category_id (set_category (st r) dom) = Some dom).
    { unfold set_category, category_id. now rewrite Hc. }
    destruct (Nat.ltb_spec (occurrences k (counted options (view st refs)))
                max_count) as [E1 | E1];
      destruct (Z.ltb_spec (min_detections_to_overwrite_secondary options)
                  (Z.of_nat max_count)) as [E2 | E2];
      destruct (Z.leb_spec
                  (Z.of_nat (occurrences k (counted options (view st refs))))
                  (max_detections_nondominant_class options)) as [E3 | E3];
      simpl; (split; [| split]);
      try (intros; reflexivity);
      try (intros; lia);
      try (rewrite Hk; split; [intros [= ->]; congruence | intros; lia]).
    + rewrite Hset. split; [intros _; repeat split; assumption | reflexivity].
    + rewrite Hset. congruence.
Qed.

(** ** Pass 3: the taxonomic collapse *)

Section Pass3.

Variable options : ClassificationSmoothingOptions.
Variable descriptions : dict string.
Variable t : dict nat.

Lemma set_category_twice (d : detection) (x y : string) :
  set_category (set_category d x) y = set_category d y.
Proof.
  unfold set_category. simpl.
  destruct (classifications d) as [[| c cs] |]; reflexivity.
Qed.

Lemma fold_set_category (l : list string) (d : detection) :
  fold_left set_category l d
  = match l with
    | [] => d
    | _ => set_category d (last l EmptyString)
    end.
Proof.
  revert d. induction l as [| x l IH]; intros d; [reflexivity |].
  simpl fold_left. rewrite IH. destruct l as [| y l]; [reflexivity |].
  now rewrite set_category_twice.
Qed.

Lemma child_step_pure (this desc_this : string) (count_this : nat)
    (cand : string) (d : detection) (n : nat) :
  dict_find t this = Some count_this ->
  dict_find descriptions cand <> None ->
  dict_find t cand <> None ->
  child_step descriptions t this desc_this count_this cand d n
  = if is_child descriptions t desc_this count_this cand
    then (set_category d cand, ok (S n))
    else (d, ok n).
Proof.
  intros Hthis Hdesc Hcount. unfold child_step, is_child, dict_get.
  destruct (String.eqb cand this) eqn:E.
  - apply String.eqb_eq in E. subst cand. rewrite Hthis.
    destruct (dict_find descriptions this); [| reflexivity].
    rewrite Nat.ltb_irrefl. now rewrite andb_false_r.
  - destruct (dict_find descriptions cand) as [desc_cand |]; [| congruence].
    destruct (dict_find t cand) as [count_cand |]; [| congruence].
    simpl.
    destruct (String.length desc_cand =? 0)%nat; simpl; [reflexivity |].
    destruct (str_in desc_this desc_cand); simpl; [| reflexivity].
    destruct (count_this <? count_cand)%nat; reflexivity.
Qed.

Lemma scan_children_pure (this desc_this : string) (count_this : nat) :
  dict_find t this = Some count_this ->
  forall cands d n,
    (forall cand, In cand cands ->
       dict_find descriptions cand <> None /\ dict_find t cand <> None) ->
    scan_children descriptions t this desc_this count_this cands d n
    = (fold_left set_category (filter (is_child descriptions t desc_this count_this) cands) d,
       ok (n + List.length (filter (is_child descriptions t desc_this count_this) cands))).
Proof.
  intros Hthis. induction cands as [| cand rest IH]; intros d n Hcov; simpl.
  - now rewrite Nat.add_0_r.
  - destruct (Hcov cand (or_introl eq_refl)) as [Hd Hc].
    rewrite (child_step_pure this desc_this count_this cand d n Hthis Hd Hc).
    destruct (is_child descriptions t desc_this count_this cand); simpl.
    + rewrite IH by (intros; apply Hcov; now right).
      now rewrite Nat.add_succ_r.
    + apply IH. intros. apply Hcov. now right.
Qed.

Lemma taxonomy_body_pure (d : detection) (n : nat) :
  well_formed options d = true ->
  comparable options d = true ->
  (forall k, visible options d = true -> category_id d = Some k ->
             In k (dict_keys t)) ->
  (forall k, In k (dict_keys t) -> dict_find descriptions k <> None) ->
  taxonomy_body options descriptions t d n
  = (fold_left set_category (children_of options descriptions t d) d,
     ok (n + List.length (children_of options descriptions t d))).
Proof.
  unfold well_formed, comparable, taxonomy_body, children_of, visible,
    category_id.
  case_detection d; simpl;
    destruct (num_ge (conf d) (detection_confidence_threshold options));
    simpl; try discriminate; intros _ Hcmp Hkey Hcov;
    rewrite ?Nat.add_0_r; try reflexivity.
  destruct (num_ge (snd c) (classification_confidence_threshold options))
    eqn:Hge; simpl in *;
    [rewrite (num_ge_not_lt _ _ Hge)
    | rewrite Hcmp, ?Nat.add_0_r; reflexivity].
  specialize (Hkey (fst c) eq_refl eq_refl).
  pose proof (Hcov _ Hkey) as Hdesc.
  apply dict_find_keys in Hkey.
  unfold dict_mem, dict_get.
  destruct (dict_find t (fst c)) as [count_this |] eqn:Ecount;
    [| congruence].
  destruct (dict_find descriptions (fst c)) as [desc_this |]; [| congruence].
  simpl. apply scan_children_pure; [exact Ecount |].
  intros cand Hcand. split; [now apply Hcov |].
  now apply dict_find_keys.
Qed.


End Pass3.


Lemma filter_none {A : Type} (p : A -> bool) (l : list A) :
  (forall x, In x l -> p x = false) -> filter p l = [].
Proof.
  induction l as [| x l IH]; intros Hnone; [reflexivity |]. simpl.
  rewrite Hnone by now left. apply IH. intros. apply Hnone. now right.
Qed.

Lemma last_In {A : Type} (l : list A) (d : A) : l <> [] -> In (last l d) l.
Proof.
  induction l as [| x l IH]; [congruence |]. intros _.
  destruct l as [| y l]; [now left |].
  right. apply IH. discriminate.
Qed.




(** ** Runs that do not raise *)

Section Totality.

Variable options : ClassificationSmoothingOptions.
Variable other_category_ids : list string.

Lemma in_order_incl (K K' : list string) (d : detection) :
  incl K K' -> in_order options K d -> in_order options K' d.
Proof.
  intros Hincl [Hwf Hcat]. split; [exact Hwf |].
  intros Hv. destruct (Hcat Hv) as (k & Hk & Hin). exists k. auto.
Qed.

Lemma in_order_relabel (K : list string) (d : detection) (x : string) :
  In x K -> in_order options K d -> in_order options K (set_category d x).
Proof.
  intros Hx [Hwf Hcat].
  destruct (classifications d) as [[| c [| c' cs]] |] eqn:Hc;
    try (unfold set_category; rewrite Hc;
         replace {| conf := conf d; classifications := _ |} with d
           by (destruct d; simpl in *; now subst);
         now split).
  - pose proof (relabel_of_set_category d c x Hc) as Hrel. split.
    + now rewrite (relabel_of_well_formed options _ _ Hrel).
    + intros _. exists x. split; [| exact Hx].
      unfold category_id, set_category. now rewrite Hc.
  - split.
    + unfold well_formed in *. unfold set_category. now rewrite Hc in *.
    + intros Hv. unfold visible, set_category in Hv. rewrite Hc in Hv.
      discriminate.
Qed.

Lemma in_order_of_tally (st : store) (refs : list nat) (t : dict nat) :
  _count_detections_by_category (view st refs) options = ok t ->
  forall r, In r refs -> in_order options (dict_keys t) (st r).
Proof.
  intros Ht r Hr. split.
  - now apply (view_well_formed options st refs t r Ht).
  - intros Hv. destruct (visible_inv options _ Hv) as (c & _ & _ & _ & Hk).
    exists (fst c). split; [exact Hk |]. apply dict_find_keys.
    rewrite (view_category_tallied options st refs t r _ Ht Hr Hv Hk).
    discriminate.
Qed.

Lemma tally_total (st : store) (refs : list nat) (K : list string) :
  (forall r, In r refs -> in_order options K (st r)) ->
  exists t, _count_detections_by_category (view st refs) options = ok t /\
            incl (dict_keys t) K.
Proof.
  intros Hord. rewrite tally_closed.
  assert (forallb (well_formed options) (view st refs) = true) as ->.
  { apply forallb_forall. intros d Hd. unfold view in Hd.
    apply in_map_iff in Hd as (r & <- & Hr). now apply Hord. }
  eexists. split; [reflexivity |].
  intros k Hk. apply (proj1 (sort_desc_keys _ _)) in Hk.
  apply (proj1 (dict_find_keys _ _)) in Hk.
  destruct (dict_find (tally_of (counted options (view st refs)) []) k)
    as [n |] eqn:E; [| congruence].
  apply tally_of_spec in E as [_ Hin].
  apply counted_In in Hin as (d & Hd & Hv & Hcat).
  unfold view in Hd. apply in_map_iff in Hd as (r & <- & Hr).
  destruct (Hord r Hr) as [_ Hcat']. destruct (Hcat' Hv) as (k' & Hk' & HK).
  assert (k' = k) by congruence. now subst.
Qed.

Lemma tally_nonempty (st : store) (refs : list nat) (t : dict nat) (r : nat) :
  _count_detections_by_category (view st refs) options = ok t ->
  In r refs -> visible options (st r) = true ->
  exists dom max_count rest, t = (dom, max_count) :: rest.
Proof.
  intros Ht Hr Hv.
  destruct (visible_inv options _ Hv) as (c & _ & _ & _ & Hk).
  pose proof (view_category_tallied options st refs t r _ Ht Hr Hv Hk) as Hf.
  destruct t as [| [dom max_count] rest]; [discriminate |].
  now exists dom, max_count, rest.
Qed.

Lemma tally_visible (st : store) (refs : list nat) (t : dict nat) :
  _count_detections_by_category (view st refs) options = ok t ->
  t <> [] ->
  exists r, In r refs /\ visible options (st r) = true.
Proof.
  intros Ht Hne. destruct t as [| [k n] rest]; [congruence |].
  assert (Hk : In k (counted options (view st refs))).
  { apply (tally_keys options _ _ k Ht). now left. }
  apply counted_In in Hk as (d & Hd & Hv & _).
  unfold view in Hd. apply in_map_iff in Hd as (r & <- & Hr). now exists r.
Qed.

Lemma other_body_total (K : list string) (dom : string) (d : detection)
    (n : nat) :
  In dom K -> in_order options K d ->
  exists d' n', other_body options other_category_ids dom d n = (d', ok n')
                /\ in_order options K d'.
Proof.
  intros Hdom Hord. rewrite other_body_pure by apply Hord.
  do 2 eexists. split; [reflexivity |].
  destruct (in_other options other_category_ids d);
    [now apply in_order_relabel | exact Hord].
Qed.

Lemma flip_body_total (t : dict nat) (dom : string) (max_count : nat)
    (d : detection) (n : nat) :
  In dom (dict_keys t) -> in_order options (dict_keys t) d ->
  exists d' n', flip_body options t dom max_count d n = (d', ok n')
                /\ in_order options (dict_keys t) d'.
Proof.
  intros Hdom Hord. rewrite flip_body_pure.
  - do 2 eexists. split; [reflexivity |].
    destruct (flips options t dom max_count d);
      [now apply in_order_relabel | exact Hord].
  - apply Hord.
  - intros k Hv Hk. destruct Hord as [_ Hcat].
    destruct (Hcat Hv) as (k' & Hk' & Hin). apply dict_find_keys. congruence.
Qed.

Lemma taxonomy_body_total (ds : dict string) (t : dict nat) (d : detection)
    (n : nat) :
  (forall k, In k (dict_keys t) -> dict_find ds k <> None) ->
  in_order options (dict_keys t) d /\ comparable options d = true ->
  exists d' n', taxonomy_body options ds t d n = (d', ok n')
                /\ in_order options (dict_keys t) d'
                /\ comparable options d' = true.
Proof.
  intros Hcov [Hord Hcmp].
  pose proof (taxonomy_body_relabel options ds t d n) as Hrel.
  assert (Hkey : forall k, visible options d = true ->
                           category_id d = Some k -> In k (dict_keys t)).
  { intros k Hv Hk. destruct Hord as [_ Hcat].
    destruct (Hcat Hv) as (k' & Hk' & Hin). congruence. }
  rewrite (taxonomy_body_pure options ds t d n (proj1 Hord) Hcmp Hkey Hcov)
    in *.
  do 2 eexists. split; [reflexivity |].
  split; [| simpl in Hrel;
            now rewrite (relabel_of_comparable options _ _ Hrel)].
  rewrite fold_set_category.
  destruct (children_of options ds t d) as [| x l] eqn:E; [exact Hord |].
  apply in_order_relabel; [| exact Hord].
  assert (Hlast : In (last (x :: l) EmptyString) (x :: l))
    by (apply last_In; discriminate).
  rewrite <- E in Hlast at 2. unfold children_of in Hlast.
  destruct (visible options d); [| contradiction].
  destruct (category_id d); [| contradiction].
  destruct (dict_find ds s); [| contradiction].
  destruct (dict_find t s); [| contradiction].
  now apply filter_In in Hlast.
Qed.

Lemma other_pass_total (refs : list nat) (st : store) (t : dict nat) :
  _count_detections_by_category (view st refs) options = ok t ->
  2 <= List.length t ->
  exists st' n,
    other_pass options other_category_ids refs t st = (st', ok n) /\
    (forall r, In r refs -> in_order options (dict_keys t) (st' r)).
Proof.
  intros Ht Hlen.
  destruct t as [| [k0 n0] [| [k1 n1] rest]]; simpl in Hlen; try lia.
  destruct (tie_break_dominant other_category_ids k0 k1 n0 n1 rest
              (tally_NoDup options _ _ Ht)) as (keys & Hkeys & Hdom).
  unfold other_pass, bind, lift. rewrite Hkeys. unfold ok at 1.
  cbv beta iota. rewrite Hdom. unfold ok at 1. cbv beta iota.
  match goal with
  | |- context [if ?b then _ else _] => destruct b
  end.
  - apply (for_each_good _ (in_order options (dict_keys ((k0, n0) :: (k1, n1) :: rest)))
             refs).
    + intros d s. apply other_body_total.
      destruct (_ && _ && _); simpl; auto.
    + apply incl_refl.
    + now apply in_order_of_tally.
  - exists st, 0. split; [reflexivity |]. now apply in_order_of_tally.
Qed.

Lemma flip_pass_total (refs : list nat) (st : store) (K : list string) :
  (forall r, In r refs -> in_order options K (st r)) ->
  (exists r, In r refs /\ visible options (st r) = true) ->
  exists st' n,
    flip_pass options other_category_ids refs st = (st', ok n) /\
    (forall r, In r refs -> in_order options K (st' r)).
Proof.
  intros Hord (r0 & Hr0 & Hv0).
  destruct (tally_total st refs K Hord) as (t & Ht & Hincl).
  destruct (tally_nonempty st refs t r0 Ht Hr0 Hv0)
    as (dom & max_count & rest & ->).
  unfold flip_pass, bind, lift, read_all. unfold ok at 1. cbv beta iota.
  rewrite Ht. unfold ok at 1. cbv beta iota.
  rewrite dominant_head. unfold ok at 1. cbv beta iota.
  destruct (negb (str_mem dom other_category_ids)).
  - destruct (for_each_good
                (flip_body options ((dom, max_count) :: rest) dom max_count)
                (in_order options (dict_keys ((dom, max_count) :: rest))) refs)
      with (refs := refs) (s := 0) (st := st) as (st' & n & Hrun & Hord').
    + intros d s. apply flip_body_total. now left.
    + apply incl_refl.
    + now apply in_order_of_tally.
    + exists st', n. split; [exact Hrun |].
      intros r Hr. eapply in_order_incl; [exact Hincl | now apply Hord'].
  - exists st, 0. split; [reflexivity | exact Hord].
Qed.

Lemma taxonomy_pass_total (descriptions_clean : option (dict string))
    (refs : list nat) (st : store) (K : list string) :
  (forall r, In r refs -> in_order options K (st r)) ->
  (descriptions_clean <> None ->
   forall r, In r refs -> comparable options (st r) = true) ->
  (exists r, In r refs /\ visible options (st r) = true) ->
  (forall ds k, descriptions_clean = Some ds -> In k K ->
                dict_find ds k <> None) ->
  exists st' n,
    taxonomy_pass options descriptions_clean refs st = (st', ok n).
Proof.
  intros Hord Hcmp (r0 & Hr0 & Hv0) Hcov.
  destruct (tally_total st refs K Hord) as (t & Ht & Hincl).
  destruct (tally_nonempty st refs t r0 Ht Hr0 Hv0)
    as (dom & max_count & rest & ->).
  unfold taxonomy_pass, bind, lift, read_all. unfold ok at 1. cbv beta iota.
  rewrite Ht. unfold ok at 1. cbv beta iota.
  rewrite dominant_head. unfold ok at 1. cbv beta iota.
  destruct descriptions_clean as [ds |]; [| now exists st, 0].
  destruct (_ && _); [| now exists st, 0].
  destruct (for_each_good
              (taxonomy_body options ds ((dom, max_count) :: rest))
              (fun d =>
                 in_order options (dict_keys ((dom, max_count) :: rest)) d
                 /\ comparable options d = true) refs)
    with (refs := refs) (s := 0) (st := st) as (st' & n & Hrun & _).
  - intros d s. apply taxonomy_body_total.
    intros k Hk. apply (Hcov ds k eq_refl). now apply Hincl.
  - apply incl_refl.
  - intros r Hr. split; [| now apply Hcmp].
    now apply (in_order_of_tally st refs _ Ht).
  - now exists st', n.
Qed.

End Totality.

(** ** The sentinel *)

Section Sentinel.

Variable options : ClassificationSmoothingOptions.
Variable other_category_ids : list string.
Variable descriptions_clean : option (dict string).

Lemma smooth_cases (refs : list nat) (st : store) :
  _smooth_classifications_for_list_of_detections options other_category_ids
    descriptions_clean refs st
  = match _count_detections_by_category (view st refs) options with
    | inl e => (st, inl e)
    | inr t => if (List.length t <=? 1)%nat then (st, ok None)
               else three_passes options other_category_ids descriptions_clean refs t st
    end.
Proof.
  unfold _smooth_classifications_for_list_of_detections, three_passes.
  unfold bind at 1, read_all. unfold ok at 1. cbv beta iota.
  unfold bind at 1, lift.
  destruct (_count_detections_by_category (view st refs) options)
    as [e | t]; [reflexivity |].
  destruct (List.length t <=? 1)%nat; reflexivity.
Qed.

Lemma three_passes_not_sentinel (refs : list nat) (t : dict nat)
    (st : store) :
  snd (three_passes options other_category_ids descriptions_clean refs t st) <> ok None.
Proof.
  unfold three_passes, bind, ret.
  destruct (other_pass options other_category_ids refs t st)
    as [st1 [e | n1]]; [discriminate |].
  destruct (flip_pass options other_category_ids refs st1)
    as [st2 [e | n2]]; [discriminate |].
  destruct (taxonomy_pass options descriptions_clean refs st2)
    as [st3 [e | n3]]; discriminate.
Qed.

Lemma three_passes_total (refs : list nat) (t : dict nat) (st : store) :
  _count_detections_by_category (view st refs) options = ok t ->
  2 <= List.length t ->
  (forall ds k, descriptions_clean = Some ds -> In k (dict_keys t) ->
                dict_find ds k <> None) ->
  (descriptions_clean <> None ->
   forall r, In r refs -> comparable options (st r) = true) ->
  exists st' s, three_passes options other_category_ids descriptions_clean refs t st = (st', ok (Some s)).
Proof.
  intros Ht Hlen Hcov Hcmp.
  assert (Hrel : forall m : M nat,
             keeps relabel_of m ->
             forall sta r, visible options (sta r) = true ->
                           visible options (fst (m sta) r) = true).
  { intros m Hm sta r Hv.
    now rewrite (relabel_of_visible options _ _ (Hm sta r)). }
  assert (Hrel' : forall m : M nat,
             keeps relabel_of m ->
             forall sta r, comparable options (sta r) = true ->
                           comparable options (fst (m sta) r) = true).
  { intros m Hm sta r Hv.
    now rewrite (relabel_of_comparable options _ _ (Hm sta r)). }
  destruct (tally_visible options st refs t Ht) as (r0 & Hr0 & Hv0).
  { destruct t; [simpl in Hlen; lia | discriminate]. }
  destruct (other_pass_total options other_category_ids refs st t Ht Hlen)
    as (st1 & n1 & Hrun1 & Hord1).
  assert (Hv1 : visible options (st1 r0) = true).
  { specialize (Hrel (other_pass options other_category_ids refs t)).
    specialize (Hrel (other_pass_keeps options other_category_ids relabel_of
                        relabel_of_refl relabel_of_trans
                        (other_body_relabel options other_category_ids)
                        refs t) st r0 Hv0).
    now rewrite Hrun1 in Hrel. }
  destruct (flip_pass_total options other_category_ids refs st1 (dict_keys t)
              Hord1 (ex_intro _ r0 (conj Hr0 Hv1)))
    as (st2 & n2 & Hrun2 & Hord2).
  assert (Hv2 : visible options (st2 r0) = true).
  { specialize (Hrel (flip_pass options other_category_ids refs)).
    specialize (Hrel (flip_pass_keeps options other_category_ids relabel_of
                        relabel_of_refl relabel_of_trans
                        (flip_body_relabel options) refs) st1 r0 Hv1).
    now rewrite Hrun2 in Hrel. }
  assert (Hcmp2 : descriptions_clean <> None ->
                  forall r, In r refs -> comparable options (st2 r) = true).
  { intros Hds r Hr.
    pose proof (Hrel' _ (flip_pass_keeps options other_category_ids
                           relabel_of relabel_of_refl relabel_of_trans
                           (flip_body_relabel options) refs) st1 r) as H2.
    rewrite Hrun2 in H2. apply H2.
    pose proof (Hrel' _ (other_pass_keeps options other_category_ids
                           relabel_of relabel_of_refl relabel_of_trans
                           (other_body_relabel options other_category_ids)
                           refs t) st r) as H1.
    rewrite Hrun1 in H1. apply H1. now apply Hcmp. }
  destruct (taxonomy_pass_total options descriptions_clean refs st2
              (dict_keys t) Hord2 Hcmp2 (ex_intro _ r0 (conj Hr0 Hv2)) Hcov)
    as (st3 & n3 & Hrun3).
  unfold three_passes, bind, ret. rewrite Hrun1. unfold ok at 1.
  cbv beta iota. rewrite Hrun2. unfold ok at 1. cbv beta iota.
  rewrite Hrun3. unfold ok at 1. cbv beta iota. eauto.
Qed.

End Sentinel.

(** None is returned exactly when the first tally has fewer than two
    categories, and then nothing has been written. *)
Lemma smooth_sentinel :
  forall options other_category_ids descriptions_clean
         (refs : list nat) (st : store),
    let run := _smooth_classifications_for_list_of_detections options
                 other_category_ids descriptions_clean refs st in
    (snd run = ok None <->
     exists t, _count_detections_by_category (view st refs) options = ok t /\
               List.length t < 2) /\
    (snd run = ok None -> fst run = st).
Proof.
  intros options other_category_ids descriptions_clean refs st run.
  subst run. rewrite smooth_cases.
  destruct (_count_detections_by_category (view st refs) options)
    as [e | t] eqn:Ht.
  - repeat split; try discriminate.
    intros (t & Habs & _). discriminate.
  - destruct (Nat.leb_spec (List.length t) 1) as [Hlen | Hlen].
    + repeat split. intros _. exists t. split; [reflexivity | lia].
    + repeat split.
      * intros Habs. now apply three_passes_not_sentinel in Habs.
      * intros (t' & [= <-] & Hlen'). lia.
      * intros Habs. now apply three_passes_not_sentinel in Habs.
Qed.

(** C6, as the code has it.  The Group Smoother returns None if and only if
    the first tally of the unit has fewer than two categories, and then no
    detection has been touched; if the tally itself raises, the exception is
    passed on and no detection has been touched either.  When the tally has
    two or more categories the smoother returns a summary dict, provided
    that, if cleaned descriptions are given, every tallied category has one
    and every classification confidence of the unit compares with the
    threshold (none is NaN). *)
Theorem sentinel_iff_fewer_than_two_categories :
  forall options other_category_ids descriptions_clean
         (refs : list nat) (st : store),
    let run := _smooth_classifications_for_list_of_detections options
                 other_category_ids descriptions_clean refs st in
    (snd run = ok None <->
     exists t, _count_detections_by_category (view st refs) options = ok t /\
               List.length t < 2) /\
    (snd run = ok None -> fst run = st) /\
    (forall e, _count_detections_by_category (view st refs) options = inl e ->
               run = (st, inl e)) /\
    (forall t,
        _count_detections_by_category (view st refs) options = ok t ->
        2 <= List.length t ->
        (forall ds k, descriptions_clean = Some ds -> In k (dict_keys t) ->
                      dict_find ds k <> None) ->
        (descriptions_clean <> None ->
         forall r, In r refs -> comparable options (st r) = true) ->
        exists st' s, run = (st', ok (Some s))).
Proof.
  intros options other_category_ids descriptions_clean refs st run.
  destruct (smooth_sentinel options other_category_ids descriptions_clean
              refs st) as [Hiff Hsame].
  fold run in Hiff, Hsame.
  split; [exact Hiff |]. split; [exact Hsame |].
  subst run. rewrite smooth_cases. split.
  - intros e He. now rewrite He.
  - intros t Ht Hlen Hcov Hcmp. rewrite Ht. unfold ok at 1. cbv beta iota.
    assert ((List.length t <=? 1)%nat = false) as -> by (apply Nat.leb_gt; lia).
    now apply three_passes_total.
Qed.

(** C6, as stated, fails.  On [orphan_unit] - a, b, b, c with cleaned
    descriptions for "a" and "b" only - the first tally has three
    categories, yet the run returns neither None nor a summary: pass 3
    relabels the "a" detection to its more common child "b" and then raises
    KeyError at the candidate "c", which has no cleaned description. *)
Lemma summary_is_not_always_returned :
  let refs := addresses orphan_unit in
  let st := store_of orphan_unit in
  let run := _smooth_classifications_for_list_of_detections default_options
               [] (Some orphan_descriptions) refs st in
  _count_detections_by_category (view st refs) default_options
  = ok [("b", 2); ("a", 1); ("c", 1)] /\
  snd run = throw KeyError /\
  fst run 0 = sure "b" /\
  ~ ((snd run = ok None <->
      exists t, _count_detections_by_category (view st refs) default_options
                = ok t /\ List.length t < 2) /\
     (snd run <> ok None -> exists s, snd run = ok (Some s))).
Proof.
  repeat split; try (vm_compute; reflexivity).
  intros [_ Hsummary]. destruct Hsummary as [s Hs].
  - vm_compute. discriminate.
  - vm_compute in Hs. discriminate.
Qed.

(** Nor is a summary returned when a classification confidence is NaN and
    descriptions are given: the detection is not counted, but pass 3, which
    skips what is below the threshold, does not skip it and trips the
    assertion that its category has been tallied.  Without descriptions
    pass 3 does not run and the summary is returned. *)
Example nan_trips_the_assertion :
  comparable default_options (unsure "z") = false /\
  smooth_list default_options [] (Some fox_descriptions) nan_unit
  = (nan_unit, throw AssertionError) /\
  smooth_list default_options [] None nan_unit
  = (nan_unit, ok (Some no_changes)).
Proof. repeat split. Qed.

(** ** Normalization *)

Lemma is_list_sorted_descending (L : list number) :
  is_list_sorted L true = true <->
  forall i, S i < List.length L ->
            num_ge (nth i L NaN) (nth (S i) L NaN) = true.
Proof.
  induction L as [| x [| y L] IH].
  - simpl. split; [intros _ i Hi; lia | reflexivity].
  - simpl. split; [intros _ i Hi; lia | reflexivity].
  - change (is_list_sorted (x :: y :: L) true)
      with (num_ge x y && is_list_sorted (y :: L) true).
    rewrite andb_true_iff, IH. split.
    + intros [Hxy Hrest] [| i] Hi; [exact Hxy |].
      apply (Hrest i). simpl in *. lia.
    + intros Hall. split.
      * apply (Hall 0). simpl. lia.
      * intros i Hi. apply (Hall (S i)). simpl in *. lia.
Qed.

Lemma normalize_detection_sorted (d : detection) :
  unsorted d = false -> normalize_detection d = (top_only d, ok tt).
Proof.
  unfold unsorted, normalize_detection, top_only.
  destruct d as [cf [[| c cs] |]]; cbn [classifications conf];
    try reflexivity.
  intros Hs. apply negb_false_iff in Hs. now rewrite Hs.
Qed.

Lemma normalize_detection_unsorted (d : detection) :
  unsorted d = true -> normalize_detection d = (d, throw AssertionError).
Proof.
  unfold unsorted, normalize_detection.
  destruct (classifications d) as [[| c cs] |]; try discriminate.
  intros Hs. apply negb_true_iff in Hs. now rewrite Hs.
Qed.

Lemma normalize_detections_sorted (dets : list detection) :
  forallb (fun d => negb (unsorted d)) dets = true ->
  normalize_detections dets = (map top_only dets, ok tt).
Proof.
  induction dets as [| d dets IH]; cbn [normalize_detections forallb map];
    [reflexivity |].
  intros H. apply andb_true_iff in H as [Hd Hrest].
  apply negb_true_iff in Hd.
  rewrite (normalize_detection_sorted d Hd). unfold ok at 1.
  now rewrite (IH Hrest).
Qed.

(** At the first unsorted detection the loop stops: the detections before it
    are normalized, it and the ones after it are as they were. *)
Lemma normalize_detections_unsorted (dets : list detection) :
  forallb (fun d => negb (unsorted d)) dets = false ->
  exists before d after,
    dets = before ++ d :: after /\
    forallb (fun d => negb (unsorted d)) before = true /\
    unsorted d = true /\
    normalize_detections dets
    = (map top_only before ++ d :: after, throw AssertionError).
Proof.
  induction dets as [| d dets IH]; cbn [normalize_detections forallb];
    [discriminate |].
  destruct (unsorted d) eqn:Hd; cbn [negb andb].
  - intros _. exists [], d, dets.
    split; [reflexivity |]. split; [reflexivity |]. split; [exact Hd |].
    now rewrite (normalize_detection_unsorted d Hd).
  - intros Hrest. destruct (IH Hrest) as (before & d0 & after & -> & Hb & Hd0
                                          & Hrun).
    exists (d :: before), d0, after.
    split; [reflexivity |]. split; [| split; [exact Hd0 |]].
    + cbn [forallb]. now rewrite Hd.
    + rewrite (normalize_detection_sorted d Hd). unfold ok at 1.
      now rewrite Hrun.
Qed.

Lemma normalize_images_sorted (ims : list image) :
  all_sorted ims = true ->
  normalize_images ims = (map top_only_image ims, ok tt).
Proof.
  unfold all_sorted.
  induction ims as [| im ims IH]; cbn [forallb map normalize_images];
    [reflexivity |].
  intros H. apply andb_true_iff in H as [Him Hrest].
  unfold top_only_image at 1. unfold image_dets in Him.
  destruct (im_detections im) as [[| d dets] |].
  - now rewrite (IH Hrest).
  - rewrite (normalize_detections_sorted _ Him). unfold ok at 1.
    now rewrite (IH Hrest).
  - now rewrite (IH Hrest).
Qed.

Lemma normalize_images_unsorted (ims : list image) :
  all_sorted ims = false ->
  snd (normalize_images ims) = throw AssertionError.
Proof.
  unfold all_sorted.
  induction ims as [| im ims IH]; cbn [forallb normalize_images];
    [discriminate |].
  intros H. apply andb_false_iff in H.
  unfold image_dets in H.
  destruct (im_detections im) as [[| d dets] |] eqn:Hdets.
  - destruct H as [H | H]; [discriminate |].
    specialize (IH H). now destruct (normalize_images ims).
  - destruct (forallb (fun d0 => negb (unsorted d0)) (d :: dets)) eqn:Him.
    + destruct H as [H | H]; [discriminate |].
      rewrite (normalize_detections_sorted _ Him). unfold ok at 1.
      specialize (IH H). now destruct (normalize_images ims).
    + destruct (normalize_detections_unsorted _ Him)
        as (before & d0 & after & _ & _ & _ & ->).
      reflexivity.
  - destruct H as [H | H]; [discriminate |].
    specialize (IH H). now destruct (normalize_images ims).
Qed.

Lemma prepare_body_unsorted (clean : string -> result string)
    (options : ClassificationSmoothingOptions) (loc : nat) (d : results) :
  all_sorted (images d) = false ->
  snd (prepare_body clean options loc d) = throw AssertionError.
Proof.
  intros H. apply normalize_images_unsorted in H. unfold prepare_body.
  destruct (normalize_images (images d)) as [ims [e | u]]; simpl in *.
  - unfold throw in *. now inversion H.
  - discriminate.
Qed.

Lemma prepare_unsorted (clean : string -> result string)
    (options : ClassificationSmoothingOptions) (loc : nat) (h : heap) :
  all_sorted (images (objects h loc)) = false ->
  snd (_prepare_results_for_smoothing clean loc options h)
  = throw AssertionError.
Proof.
  intros H. unfold _prepare_results_for_smoothing, hbind, hret, deepcopy,
    at_loc.
  destruct (modify_in_place options); unfold ok; cbv beta iota.
  - pose proof (prepare_body_unsorted clean options loc _ H) as Hp.
    now destruct (prepare_body clean options loc (objects h loc)).
  - simpl objects. rewrite Nat.eqb_refl.
    pose proof (prepare_body_unsorted clean options (next_loc h) _ H) as Hp.
    now destruct (prepare_body clean options (next_loc h) (objects h loc)).
Qed.

(** C7.  Normalization of the images of a results dict.  If the
    classification confidences of every detection are in descending order,
    the loop succeeds and every image that has detections gets each of them
    reduced to its top classification: an empty 'classifications' list is
    removed, a longer one is cut to its first entry.  If some detection's
    confidences are not in descending order, the loop raises AssertionError
    at the first such detection, leaving it and everything after it as it
    was, and both drivers end with that exception: nothing is smoothed. *)
Theorem normalization_keeps_top_or_fails :
  forall (clean_taxonomy_string : string -> result string)
         (options : option ClassificationSmoothingOptions)
         (cct_sequence_information : list cct_image)
         (input_file : nat) (h : heap),
    let ims := images (objects h input_file) in
    (all_sorted ims = true ->
     normalize_images ims = (map top_only_image ims, ok tt)) /\
    (all_sorted ims = false ->
     snd (normalize_images ims) = throw AssertionError /\
     snd (smooth_classification_results_image_level clean_taxonomy_string
            input_file options h) = throw AssertionError /\
     snd (smooth_classification_results_sequence_level clean_taxonomy_string
            input_file cct_sequence_information options h)
     = throw AssertionError) /\
    (forall dets,
        forallb (fun d => negb (unsorted d)) dets = false ->
        exists before d after,
          dets = before ++ d :: after /\
          forallb (fun d => negb (unsorted d)) before = true /\
          unsorted d = true /\
          normalize_detections dets
          = (map top_only before ++ d :: after, throw AssertionError)) /\
    (forall d,
        unsorted d = true <->
        exists c cs, classifications d = Some (c :: cs) /\
                     ~ (forall i, S i < List.length (c :: cs) ->
                          num_ge (nth i (map snd (c :: cs)) NaN)
                                 (nth (S i) (map snd (c :: cs)) NaN)
                          = true)).
Proof.
  intros clean options info input_file h ims.
  split; [apply normalize_images_sorted |].
  split; [| split; [apply normalize_detections_unsorted |]].
  - intros H. split; [now apply normalize_images_unsorted |].
    split.
    + unfold smooth_classification_results_image_level, hbind.
      pose proof (prepare_unsorted clean
                    (match options with
                     | Some o => o
                     | None => default_options
                     end) input_file h H) as Hp.
      destruct (_prepare_results_for_smoothing clean input_file _ h)
        as [h' [e | r]]; simpl in *;
        [unfold throw in *; now inversion Hp | discriminate].
    + unfold smooth_classification_results_sequence_level, hbind.
      pose proof (prepare_unsorted clean
                    (match options with
                     | Some o => o
                     | None => default_options
                     end) input_file h H) as Hp.
      destruct (_prepare_results_for_smoothing clean input_file _ h)
        as [h' [e | r]]; simpl in *;
        [unfold throw in *; now inversion Hp | discriminate].
  - intros d. unfold unsorted.
    destruct (classifications d) as [[| c cs] |].
    + split; [discriminate | intros (? & ? & ? & _); discriminate].
    + rewrite negb_true_iff, <- not_true_iff_false, is_list_sorted_descending.
      rewrite length_map. split.
      * intros Hn. now exists c, cs.
      * intros (c' & cs' & [= <- <-] & Hn). exact Hn.
    + split; [discriminate | intros (? & ? & ? & _); discriminate].
Qed.

(** ** Option objects that agree *)

(** What the code does after it has chosen the working dict depends on the
    options only through the fields [same_settings] compares. *)
Ltac open_settings o o' H :=
  destruct o, o'; unfold same_settings in H;
  cbn [min_detections_to_overwrite_secondary max_detections_nondominant_class
       min_detections_to_overwrite_other other_category_names
       classification_confidence_threshold detection_confidence_threshold
       add_pre_smoothing_description] in H;
  destruct H as (? & ? & ? & ? & ? & ? & ?); subst.

Lemma with_propagate_same (b : bool)
    (options : ClassificationSmoothingOptions) :
  same_settings (with_propagate b options) options.
Proof. repeat split. Qed.

Lemma with_modify_in_place_same (b : bool)
    (options : ClassificationSmoothingOptions) :
  same_settings options (with_modify_in_place b options).
Proof. repeat split. Qed.

Lemma count_loop_same (o o' : ClassificationSmoothingOptions)
    (dets : list detection) :
  same_settings o o' ->
  forall acc, count_loop o dets acc = count_loop o' dets acc.
Proof.
  intros H. open_settings o o' H.
  induction dets as [| d dets IH]; intros acc; cbn [count_loop];
    [reflexivity |].
  cbn [detection_confidence_threshold classification_confidence_threshold].
  destruct (classifications d) as [cs |]; [| apply IH].
  destruct (num_ge _ _); [| apply IH].
  destruct cs as [| c [| c' cs]]; try reflexivity.
  destruct (num_ge _ _); apply IH.
Qed.

Lemma tally_same (o o' : ClassificationSmoothingOptions)
    (dets : list detection) :
  same_settings o o' ->
  _count_detections_by_category dets o = _count_detections_by_category dets o'.
Proof.
  intros H. unfold _count_detections_by_category.
  now rewrite (count_loop_same o o' dets H).
Qed.

Lemma bind_ext {A B : Type} (m m' : M A) (f f' : A -> M B) (st : store) :
  m st = m' st -> (forall x st1, f x st1 = f' x st1) ->
  bind m f st = bind m' f' st.
Proof.
  intros Hm Hf. unfold bind. rewrite Hm.
  destruct (m' st) as [st1 [e | x]]; [reflexivity | apply Hf].
Qed.

Lemma other_pass_same (o o' : ClassificationSmoothingOptions)
    (other_category_ids : list string) (refs : list nat) (t : dict nat)
    (st : store) :
  same_settings o o' ->
  other_pass o other_category_ids refs t st
  = other_pass o' other_category_ids refs t st.
Proof. intros H. open_settings o o' H. reflexivity. Qed.

Lemma flip_pass_same (o o' : ClassificationSmoothingOptions)
    (other_category_ids : list string) (refs : list nat) (st : store) :
  same_settings o o' ->
  flip_pass o other_category_ids refs st
  = flip_pass o' other_category_ids refs st.
Proof.
  intros H. unfold flip_pass. apply bind_ext; [reflexivity |].
  intros dets st1. cbv beta. rewrite (tally_same o o' dets H).
  open_settings o o' H. reflexivity.
Qed.

Lemma taxonomy_pass_same (o o' : ClassificationSmoothingOptions)
    (descriptions_clean : option (dict string)) (refs : list nat)
    (st : store) :
  same_settings o o' ->
  taxonomy_pass o descriptions_clean refs st
  = taxonomy_pass o' descriptions_clean refs st.
Proof.
  intros H. unfold taxonomy_pass. apply bind_ext; [reflexivity |].
  intros dets st1. cbv beta. rewrite (tally_same o o' dets H).
  open_settings o o' H. reflexivity.
Qed.

Lemma smooth_same (o o' : ClassificationSmoothingOptions)
    (other_category_ids : list string)
    (descriptions_clean : option (dict string)) (refs : list nat)
    (st : store) :
  same_settings o o' ->
  _smooth_classifications_for_list_of_detections o other_category_ids
    descriptions_clean refs st
  = _smooth_classifications_for_list_of_detections o' other_category_ids
      descriptions_clean refs st.
Proof.
  intros H. rewrite !smooth_cases, (tally_same o o' _ H).
  destruct (_count_detections_by_category (view st refs) o')
    as [e | t]; [reflexivity |].
  destruct (List.length t <=? 1)%nat; [reflexivity |].
  unfold three_passes.
  apply bind_ext; [now apply other_pass_same |]. intros n1 st1.
  apply bind_ext; [now apply flip_pass_same |]. intros n2 st2.
  apply bind_ext; [now apply taxonomy_pass_same |]. reflexivity.
Qed.

Lemma smooth_images_same (o o' : ClassificationSmoothingOptions)
    (other_category_ids : list string)
    (descriptions_clean : option (dict string)) (ims : list image) :
  same_settings o o' ->
  smooth_images o other_category_ids descriptions_clean ims
  = smooth_images o' other_category_ids descriptions_clean ims.
Proof.
  intros H. induction ims as [| im ims IH]; cbn [smooth_images];
    [reflexivity |].
  rewrite IH.
  assert (_smooth_single_image im o other_category_ids descriptions_clean
          = _smooth_single_image im o' other_category_ids
              descriptions_clean) as ->; [| reflexivity].
  unfold _smooth_single_image, smooth_list.
  destruct (im_detections im) as [[| d dets] |]; try reflexivity.
  now rewrite (smooth_same o o' _ _ _ _ H).
Qed.

Lemma smooth_sequences_same (o o' : ClassificationSmoothingOptions)
    (other_category_ids : list string)
    (descriptions_clean : option (dict string))
    (idx : dict (option (list nat))) (sequences : dict (list string)) :
  same_settings o o' ->
  forall st,
    smooth_sequences o other_category_ids descriptions_clean idx sequences st
    = smooth_sequences o' other_category_ids descriptions_clean idx
        sequences st.
Proof.
  intros H. induction sequences as [| [s files] sequences IH]; intros st;
    cbn [smooth_sequences]; [reflexivity |].
  apply bind_ext; [reflexivity |]. intros refs st1.
  destruct (List.length refs =? 0)%nat; [apply IH |].
  apply bind_ext; [now apply smooth_same |]. intros r st2. apply IH.
Qed.

Lemma describe_images_same (o o' : ClassificationSmoothingOptions)
    (descriptions : option (dict string)) (ims : list image) :
  same_settings o o' ->
  describe_images o descriptions ims = describe_images o' descriptions ims.
Proof.
  intros H. induction ims as [| im ims IH]; cbn [describe_images];
    [reflexivity |].
  rewrite IH.
  destruct (im_detections im) as [[| d dets] |]; try reflexivity.
  now rewrite (tally_same o o' _ H).
Qed.

Lemma prepare_body_same (clean : string -> result string)
    (o o' : ClassificationSmoothingOptions) (loc : nat) (d : results) :
  same_settings o o' ->
  prepare_body clean o loc d = prepare_body clean o' loc d.
Proof.
  intros H. unfold prepare_body.
  assert (Hother : other_ids o d = other_ids o' d).
  { unfold other_ids. destruct H as (_ & _ & _ & -> & _). reflexivity. }
  assert (Hadd : add_pre_smoothing_description o
                 = add_pre_smoothing_description o')
    by now destruct H as (_ & _ & _ & _ & _ & _ & ->).
  rewrite Hother, Hadd.
  destruct (normalize_images (images d)) as [ims [e | u]]; [reflexivity |].
  cbv zeta.
  destruct (clean_descriptions clean _) as [e | cd]; [reflexivity |].
  destruct (add_pre_smoothing_description o'); [| reflexivity].
  now rewrite (describe_images_same o o' _ _ H).
Qed.

(** Where the working dict lives only shows in the address that
    preparation returns. *)
Lemma prepare_body_at (clean : string -> result string)
    (options : ClassificationSmoothingOptions) (loc loc' : nat)
    (d : results) :
  prepare_body clean options loc d
  = (fst (prepare_body clean options loc' d),
     match snd (prepare_body clean options loc' d) with
     | inl e => inl e
     | inr r =>
         ok {| prep_d := loc;
               prep_other_category_ids := prep_other_category_ids r;
               prep_classification_descriptions_clean :=
                 prep_classification_descriptions_clean r;
               prep_classification_descriptions :=
                 prep_classification_descriptions r |}
     end).
Proof.
  unfold prepare_body.
  destruct (normalize_images (images d)) as [ims [e | u]]; [reflexivity |].
  cbv zeta.
  destruct (clean_descriptions clean _) as [e | cd]; [reflexivity |].
  destruct (add_pre_smoothing_description options); [| reflexivity].
  destruct (describe_images options _ _) as [ims' [e | u']]; reflexivity.
Qed.

(** ** Copy or in place *)

Lemma at_loc_frame {A : Type} (loc : nat) (w : W A) (h : heap) :
  next_loc (fst (at_loc loc w h)) = next_loc h /\
  forall l, l <> loc -> objects (fst (at_loc loc w h)) l = objects h l.
Proof.
  unfold at_loc. destruct (w (objects h loc)) as [d' r]. simpl.
  split; [reflexivity |]. intros l Hl.
  now apply Nat.eqb_neq in Hl as ->.
Qed.

Lemma prepare_body_d (clean : string -> result string)
    (options : ClassificationSmoothingOptions) (loc : nat) (d : results)
    (r : prepared) :
  snd (prepare_body clean options loc d) = ok r -> prep_d r = loc.
Proof.
  unfold prepare_body.
  destruct (normalize_images (images d)) as [ims [e | u]]; simpl;
    [discriminate |].
  destruct (clean_descriptions clean _) as [e | cd]; simpl; [discriminate |].
  destruct (add_pre_smoothing_description options).
  - destruct (describe_images options _ _) as [ims' [e | u']]; simpl;
      [discriminate |].
    now intros [= <-].
  - simpl. now intros [= <-].
Qed.

(** With [modify_in_place = False], preparation works on a fresh copy: every
    dict that existed before is as it was, and the working dict is the new
    one. *)
Lemma prepare_copies (clean : string -> result string)
    (options : ClassificationSmoothingOptions) (input_file : nat) (h : heap) :
  modify_in_place options = false ->
  let '(h', r) := _prepare_results_for_smoothing clean input_file options h in
  (forall l, l < next_loc h -> objects h' l = objects h l) /\
  next_loc h' = S (next_loc h) /\
  (forall p, r = ok p -> prep_d p = next_loc h).
Proof.
  intros Hcopy. unfold _prepare_results_for_smoothing, hbind, deepcopy.
  rewrite Hcopy. unfold ok at 1. cbv beta iota.
  set (h0 := {| next_loc := S (next_loc h); objects := _ |}).
  pose proof (at_loc_frame (next_loc h)
                (prepare_body clean options (next_loc h)) h0) as [Hn Hf].
  pose proof (prepare_body_d clean options (next_loc h)
                (objects h0 (next_loc h))) as Hd.
  unfold at_loc in *.
  destruct (prepare_body clean options (next_loc h) (objects h0 (next_loc h)))
    as [d' r]. simpl in *.
  split; [| split; [reflexivity | intros p ->; now apply Hd]].
  intros l Hl. assert (Hne : l <> next_loc h) by lia.
  apply Nat.eqb_neq in Hne. now rewrite Hne.
Qed.

(** Preparation on the heap: the working dict is the caller's or a fresh
    copy of it, and what is done to it is [prepare_body]. *)
Lemma prepare_run (clean : string -> result string)
    (options : ClassificationSmoothingOptions) (input_file : nat) (h : heap) :
  let w := if modify_in_place options then input_file else next_loc h in
  exists h1,
    _prepare_results_for_smoothing clean input_file options h
    = (h1, snd (prepare_body clean options w (objects h input_file))) /\
    objects h1 w = fst (prepare_body clean options w (objects h input_file)).
Proof.
  unfold _prepare_results_for_smoothing, hbind, hret, deepcopy, at_loc.
  destruct (modify_in_place options); unfold ok; cbv beta iota zeta.
  - destruct (prepare_body clean options input_file (objects h input_file))
      as [d1 r]. eexists. split; [reflexivity |].
    simpl. now rewrite Nat.eqb_refl.
  - simpl objects. rewrite Nat.eqb_refl.
    destruct (prepare_body clean options (next_loc h) (objects h input_file))
      as [d1 r]. eexists. split; [reflexivity |].
    simpl. now rewrite Nat.eqb_refl.
Qed.

(** With [modify_in_place = False] preparation leaves in the new dict what
    it would have left in the caller's dict with [modify_in_place = True],
    and returns or raises alike. *)
Lemma prepare_copy (clean : string -> result string)
    (o : ClassificationSmoothingOptions) (input_file : nat) (h : heap) :
  modify_in_place o = false ->
  let copy_run := _prepare_results_for_smoothing clean input_file o h in
  let place_run :=
    _prepare_results_for_smoothing clean input_file
      (with_modify_in_place true o) h in
  objects (fst copy_run) (next_loc h) = objects (fst place_run) input_file /\
  snd copy_run
  = match snd place_run with
    | inl e => inl e
    | inr r =>
        ok {| prep_d := next_loc h;
              prep_other_category_ids := prep_other_category_ids r;
              prep_classification_descriptions_clean :=
                prep_classification_descriptions_clean r;
              prep_classification_descriptions :=
                prep_classification_descriptions r |}
    end.
Proof.
  intros Hcopy. cbv zeta.
  destruct (prepare_run clean o input_file h) as (h0 & -> & Hobj0).
  destruct (prepare_run clean (with_modify_in_place true o) input_file h)
    as (h1 & -> & Hobj1).
  rewrite Hcopy in *. cbn [modify_in_place with_modify_in_place] in *.
  cbn [fst snd]. rewrite Hobj0, Hobj1.
  rewrite (prepare_body_at clean o (next_loc h) input_file).
  rewrite (prepare_body_same clean o (with_modify_in_place true o)
             input_file _ (with_modify_in_place_same true o)).
  now split.
Qed.

Lemma image_level_copy (clean : string -> result string)
    (o : ClassificationSmoothingOptions) (input_file : nat) (h : heap) :
  modify_in_place o = false ->
  let copy_run :=
    smooth_classification_results_image_level clean input_file (Some o) h in
  let place_run :=
    smooth_classification_results_image_level clean input_file
      (Some (with_modify_in_place true o)) h in
  objects (fst copy_run) (next_loc h) = objects (fst place_run) input_file /\
  snd copy_run = match snd place_run with
                 | inl e => inl e
                 | inr _ => ok (next_loc h)
                 end.
Proof.
  intros Hcopy. cbv zeta.
  destruct (prepare_copy clean o input_file h Hcopy) as [Hobj Hres].
  destruct (prepare_run clean (with_modify_in_place true o) input_file h)
    as (h1 & Hp1 & Hobj1).
  cbn [modify_in_place with_modify_in_place] in Hp1, Hobj1.
  pose proof (prepare_body_d clean (with_modify_in_place true o) input_file
                (objects h input_file)) as Hd.
  unfold smooth_classification_results_image_level, hbind.
  rewrite Hp1 in *. cbn [fst snd] in Hobj, Hres.
  destruct (_prepare_results_for_smoothing clean input_file o h)
    as [h0 [e0 | r0]]; cbn [fst snd] in *;
    destruct (snd (prepare_body clean (with_modify_in_place true o)
                     input_file (objects h input_file))) as [e1 | r1];
    try discriminate;
    [cbn [fst snd]; injection Hres as ->; now split |].
  injection Hres as ->. rewrite (Hd r1 eq_refl).
  unfold at_loc, hret.
  cbn [prep_d prep_other_category_ids
       prep_classification_descriptions_clean].
  rewrite Hobj.
  rewrite (smooth_images_same o (with_modify_in_place true o) _ _ _
             (with_modify_in_place_same true o)).
  destruct (smooth_images (with_modify_in_place true o) _ _ _)
    as [ims [e | u]]; cbn [fst snd set_object objects];
    rewrite !Nat.eqb_refl; now split.
Qed.

Lemma sequence_level_copy (clean : string -> result string)
    (o : ClassificationSmoothingOptions) (info : list cct_image)
    (input_file : nat) (h : heap) :
  modify_in_place o = false ->
  let copy_run :=
    smooth_classification_results_sequence_level clean input_file info
      (Some o) h in
  let place_run :=
    smooth_classification_results_sequence_level clean input_file info
      (Some (with_modify_in_place true o)) h in
  objects (fst copy_run) (next_loc h) = objects (fst place_run) input_file /\
  snd copy_run = match snd place_run with
                 | inl e => inl e
                 | inr _ => ok (next_loc h)
                 end.
Proof.
  intros Hcopy. cbv zeta.
  destruct (prepare_copy clean o input_file h Hcopy) as [Hobj Hres].
  destruct (prepare_run clean (with_modify_in_place true o) input_file h)
    as (h1 & Hp1 & Hobj1).
  cbn [modify_in_place with_modify_in_place] in Hp1, Hobj1.
  pose proof (prepare_body_d clean (with_modify_in_place true o) input_file
                (objects h input_file)) as Hd.
  unfold smooth_classification_results_sequence_level, hbind.
  rewrite Hp1 in *. cbn [fst snd] in Hobj, Hres.
  destruct (_prepare_results_for_smoothing clean input_file o h)
    as [h0 [e0 | r0]]; cbn [fst snd] in *;
    destruct (snd (prepare_body clean (with_modify_in_place true o)
                     input_file (objects h input_file))) as [e1 | r1];
    try discriminate;
    [cbn [fst snd]; injection Hres as ->; now split |].
  injection Hres as ->. rewrite (Hd r1 eq_refl).
  unfold at_loc, hret.
  cbn [prep_d prep_other_category_ids
       prep_classification_descriptions_clean].
  rewrite Hobj.
  destruct (index_images (images (objects h1 input_file)) 0 [])
    as [e | idx];
    [cbn [fst snd set_object objects]; rewrite !Nat.eqb_refl; now split |].
  rewrite (smooth_sequences_same o (with_modify_in_place true o) _ _ _ _
             (with_modify_in_place_same true o)).
  destruct (smooth_sequences (with_modify_in_place true o) _ _ _ _ _)
    as [st [e | u]]; cbn [fst snd set_object objects];
    rewrite !Nat.eqb_refl; now split.
Qed.

(** C10.  For an already-loaded results dict at an allocated address, and
    options with [modify_in_place = False] - the default, also used when no
    options are passed - both drivers leave the caller's dict, and every
    other dict that existed, exactly as it was, whether they return or raise;
    what they return is the address of a new dict, and that dict is the
    modified copy: it holds exactly what the same driver leaves in the
    caller's dict when it is run with [modify_in_place = True], and the
    driver returns or raises as that run does.  With
    [modify_in_place = True] the caller's dict is the one that is modified. *)
Theorem drivers_copy_by_default :
  forall (clean_taxonomy_string : string -> result string)
         (options : option ClassificationSmoothingOptions)
         (cct_sequence_information : list cct_image)
         (input_file : nat) (h : heap),
    input_file < next_loc h ->
    modify_in_place (options_or_default options) = false ->
    let image_run :=
      smooth_classification_results_image_level clean_taxonomy_string
        input_file options h in
    let sequence_run :=
      smooth_classification_results_sequence_level clean_taxonomy_string
        input_file cct_sequence_information options h in
    objects (fst image_run) input_file = objects h input_file /\
    objects (fst sequence_run) input_file = objects h input_file /\
    (forall l, l < next_loc h ->
       objects (fst image_run) l = objects h l /\
       objects (fst sequence_run) l = objects h l) /\
    (forall d, snd image_run = ok d \/ snd sequence_run = ok d ->
       d = next_loc h /\ d <> input_file) /\
    (let in_place :=
       Some (with_modify_in_place true (options_or_default options)) in
     let image_in_place :=
       smooth_classification_results_image_level clean_taxonomy_string
         input_file in_place h in
     let sequence_in_place :=
       smooth_classification_results_sequence_level clean_taxonomy_string
         input_file cct_sequence_information in_place h in
     objects (fst image_run) (next_loc h)
     = objects (fst image_in_place) input_file /\
     objects (fst sequence_run) (next_loc h)
     = objects (fst sequence_in_place) input_file /\
     snd image_run = match snd image_in_place with
                     | inl e => inl e
                     | inr _ => ok (next_loc h)
                     end /\
     snd sequence_run = match snd sequence_in_place with
                        | inl e => inl e
                        | inr _ => ok (next_loc h)
                        end) /\
    modify_in_place (options_or_default None) = false /\
    objects (fst (smooth_classification_results_image_level
                    (fun s => ok s) 0 (Some in_place_options) cow_heap)) 0
    <> objects cow_heap 0.
Proof.
  intros clean options info input_file h Halloc Hcopy image_run sequence_run.
  assert (Himage : (forall l, l < next_loc h ->
                      objects (fst image_run) l = objects h l) /\
                   (forall d, snd image_run = ok d -> d = next_loc h)).
  { subst image_run.
    unfold smooth_classification_results_image_level, hbind.
    fold (options_or_default options).
    pose proof (prepare_copies clean (options_or_default options) input_file h
                  Hcopy) as Hp.
    destruct (_prepare_results_for_smoothing clean input_file
                (options_or_default options) h) as [h1 [e | p]].
    - destruct Hp as (Hf & _). now split.
    - destruct Hp as (Hf & Hn & Hd). specialize (Hd p eq_refl).
      match goal with
      | |- context [at_loc ?loc ?w h1] =>
          pose proof (at_loc_frame loc w h1) as [_ Hf2];
          destruct (at_loc loc w h1) as [h2 [e | u]]
      end; simpl in *.
      + split; [| discriminate]. intros l Hl.
        rewrite Hf2 by lia. now apply Hf.
      + split; [| unfold hret; simpl; now intros d [= <-]].
        intros l Hl. unfold hret. simpl. rewrite Hf2 by lia. now apply Hf. }
  assert (Hseq : (forall l, l < next_loc h ->
                    objects (fst sequence_run) l = objects h l) /\
                 (forall d, snd sequence_run = ok d -> d = next_loc h)).
  { subst sequence_run.
    unfold smooth_classification_results_sequence_level, hbind.
    fold (options_or_default options).
    pose proof (prepare_copies clean (options_or_default options) input_file h
                  Hcopy) as Hp.
    destruct (_prepare_results_for_smoothing clean input_file
                (options_or_default options) h) as [h1 [e | p]].
    - destruct Hp as (Hf & _). now split.
    - destruct Hp as (Hf & Hn & Hd). specialize (Hd p eq_refl).
      match goal with
      | |- context [at_loc ?loc ?w h1] =>
          pose proof (at_loc_frame loc w h1) as [_ Hf2];
          destruct (at_loc loc w h1) as [h2 [e | u]]
      end; simpl in *.
      + split; [| discriminate]. intros l Hl.
        rewrite Hf2 by lia. now apply Hf.
      + split; [| unfold hret; simpl; now intros d [= <-]].
        intros l Hl. unfold hret. simpl. rewrite Hf2 by lia. now apply Hf. }
  destruct Himage as [Hi1 Hi2]. destruct Hseq as [Hs1 Hs2].
  split; [now apply Hi1 |]. split; [now apply Hs1 |].
  split; [intros l Hl; split; auto |].
  split; [| split; [| split; [reflexivity |]]].
  - intros d [H | H]; [apply Hi2 in H | apply Hs2 in H]; split; lia.
  - cbv zeta.
    assert (Himage_run :
              image_run
              = smooth_classification_results_image_level clean input_file
                  (Some (options_or_default options)) h)
      by (subst image_run; now destruct options).
    assert (Hsequence_run :
              sequence_run
              = smooth_classification_results_sequence_level clean input_file
                  info (Some (options_or_default options)) h)
      by (subst sequence_run; now destruct options).
    rewrite Himage_run, Hsequence_run.
    destruct (image_level_copy clean (options_or_default options)
                input_file h Hcopy) as [Hio Hir].
    destruct (sequence_level_copy clean (options_or_default options) info
                input_file h Hcopy) as [Hso Hsr].
    repeat split; assumption.
  - intros Habs. apply (f_equal images) in Habs. vm_compute in Habs.
    discriminate.
Qed.

(** ** Running the smoother twice *)

Lemma extensional_ret {A : Type} (x : A) : extensional (ret x).
Proof. intros st st' H. now split. Qed.

Lemma extensional_lift {A : Type} (r : result A) : extensional (lift r).
Proof. intros st st' H. now split. Qed.

Lemma extensional_bind {A B : Type} (m : M A) (f : A -> M B) :
  extensional m -> (forall x, extensional (f x)) -> extensional (bind m f).
Proof.
  intros Hm Hf st st' H. unfold bind.
  destruct (Hm st st' H) as [Hr Hs].
  destruct (m st) as [st1 r1], (m st') as [st1' r1']. simpl in *. subst r1'.
  destruct r1 as [e | x]; [now split |]. now apply Hf.
Qed.

Lemma extensional_for_each {S : Type}
    (body : detection -> S -> detection * result S) (refs : list nat) :
  forall s, extensional (for_each body refs s).
Proof.
  induction refs as [| r rest IH]; intros s st st' H; simpl; [now split |].
  rewrite <- (H r).
  assert (Hupd : forall d a, upd st r d a = upd st' r d a).
  { intros d a. unfold upd. now destruct (Nat.eqb a r). }
  destruct (body (st r) s) as [d' [e | s']]; simpl.
  - split; [reflexivity | apply Hupd].
  - apply IH. apply Hupd.
Qed.

Lemma view_ext (st st' : store) (refs : list nat) :
  (forall a, st a = st' a) -> view st refs = view st' refs.
Proof. intros H. unfold view. apply map_ext. exact H. Qed.

(** Binding what was read from the store. *)
Lemma extensional_read {A : Type} (refs : list nat)
    (f : list detection -> M A) :
  (forall dets, extensional (f dets)) ->
  extensional (bind (read_all refs) f).
Proof.
  intros Hf st st' H. unfold bind, read_all. unfold ok. cbv beta iota.
  rewrite (view_ext st st' refs H). now apply Hf.
Qed.

Lemma smooth_extensional (options : ClassificationSmoothingOptions)
    (other_category_ids : list string)
    (descriptions_clean : option (dict string)) (refs : list nat) :
  extensional (_smooth_classifications_for_list_of_detections options
                 other_category_ids descriptions_clean refs).
Proof.
  unfold _smooth_classifications_for_list_of_detections, other_pass,
    flip_pass, taxonomy_pass.
  repeat first
    [ apply extensional_read; intros ?
    | apply extensional_bind; [| intros ?]
    | apply extensional_lift
    | apply extensional_ret
    | apply extensional_for_each
    | match goal with
      | |- extensional (if ?b then _ else _) => destruct b
      | |- extensional (let '(_, _) := ?p in _) => destruct p
      | |- extensional (match ?o with Some _ => _ | None => _ end) =>
          destruct o
      end ].
Qed.

Lemma for_each_counting
    (body : detection -> nat -> detection * result nat) :
  counting body ->
  forall refs n st st' n',
    for_each body refs n st = (st', ok n') ->
    n <= n' /\ (n' = n -> forall a, st' a = st a).
Proof.
  intros Hbody. induction refs as [| r rest IH]; intros n st st' n'; simpl.
  - unfold ok. intros [= <- <-]. now split.
  - destruct (body (st r) n) as [d1 [e | n1]] eqn:Eb; [discriminate |].
    intros Hrun. destruct (Hbody _ _ _ _ Eb) as [Hle Hsame].
    destruct (IH _ _ _ _ Hrun) as [Hle' Hsame']. split; [lia |].
    intros ->. assert (n1 = n) by lia. subst n1.
    intros a. rewrite Hsame' by reflexivity.
    rewrite (Hsame eq_refl). unfold upd.
    destruct (Nat.eqb a r) eqn:E; [| reflexivity].
    apply Nat.eqb_eq in E. now subst.
Qed.

Section Counting.

Variable options : ClassificationSmoothingOptions.
Variable other_category_ids : list string.

Ltac counting_body d :=
  intros d n d' n'; case_detection d; by_cases;
  unfold ok, throw; intros [= <- <-];
  try (split; [lia | reflexivity]);
  try (split; [lia | intros; lia]).

Lemma other_body_counting (dom : string) :
  counting (other_body options other_category_ids dom).
Proof. unfold counting, other_body. counting_body d. Qed.

Lemma flip_body_counting (t : dict nat) (dom : string) (max_count : nat) :
  counting (flip_body options t dom max_count).
Proof. unfold counting, flip_body. counting_body d. Qed.

Lemma child_step_counting (ds : dict string) (t : dict nat)
    (this desc : string) (cnt : nat) (cand : string) :
  counting (child_step ds t this desc cnt cand).
Proof.
  unfold counting, child_step. intros d n d' n'. by_cases;
    unfold ok, throw; intros [= <- <-];
    try (split; [lia | reflexivity]);
    try (split; [lia | intros; lia]).
Qed.

Lemma scan_children_counting (ds : dict string) (t : dict nat)
    (this desc : string) (cnt : nat) (cands : list string) :
  counting (scan_children ds t this desc cnt cands).
Proof.
  unfold counting. induction cands as [| cand rest IH]; intros d n d' n';
    simpl.
  - unfold ok. intros [= <- <-]. now split.
  - destruct (child_step ds t this desc cnt cand d n) as [d1 [e | n1]] eqn:Es;
      [discriminate |].
    intros Hrun. destruct (child_step_counting _ _ _ _ _ _ _ _ _ _ Es)
      as [Hle Hsame].
    destruct (IH _ _ _ _ Hrun) as [Hle' Hsame']. split; [lia |].
    intros ->. assert (n1 = n) by lia. subst n1.
    rewrite Hsame' by reflexivity. now apply Hsame.
Qed.

Lemma taxonomy_body_counting (ds : dict string) (t : dict nat) :
  counting (taxonomy_body options ds t).
Proof.
  unfold counting, taxonomy_body. intros d n d' n'.
  case_detection d;
    repeat match goal with
           | |- context [if ?b then _ else _] => destruct b eqn:?
           | |- context [match dict_get ?x ?y with inl _ => _ | inr _ => _ end]
             => destruct (dict_get x y) eqn:?
           end;
    try (unfold ok, throw; intros [= <- <-]; split; [lia | reflexivity]);
    try (unfold ok, throw; intros [= <- <-]; split; [lia | intros; lia]);
    try (unfold ok, throw; discriminate).
  apply scan_children_counting.
Qed.

End Counting.

Section Unchanged.

Variable options : ClassificationSmoothingOptions.
Variable other_category_ids : list string.
Variable descriptions_clean : option (dict string).

Lemma other_pass_zero (refs : list nat) (t : dict nat) (st st' : store) :
  other_pass options other_category_ids refs t st = (st', ok 0) ->
  forall a, st' a = st a.
Proof.
  unfold other_pass, bind, lift.
  destruct (tie_break other_category_ids t (dict_keys t)) as [e | keys];
    [discriminate |].
  destruct (dominant t keys) as [e | [dom max_count]]; [discriminate |].
  destruct (_ && _).
  - intros Hrun.
    destruct (for_each_counting _ (other_body_counting options
                                     other_category_ids dom)
                _ _ _ _ _ Hrun) as [_ Hs].
    now apply Hs.
  - unfold ret, ok. now intros [= <-].
Qed.

Lemma flip_pass_zero (refs : list nat) (st st' : store) :
  flip_pass options other_category_ids refs st = (st', ok 0) ->
  forall a, st' a = st a.
Proof.
  unfold flip_pass, bind, lift, read_all. unfold ok at 1. cbv beta iota.
  destruct (_count_detections_by_category (view st refs) options)
    as [e | t]; [discriminate |].
  destruct (dominant t (dict_keys t)) as [e | [dom max_count]];
    [discriminate |].
  destruct (negb _).
  - intros Hrun.
    destruct (for_each_counting _ (flip_body_counting options t dom
                                     max_count)
                _ _ _ _ _ Hrun) as [_ Hs].
    now apply Hs.
  - unfold ret, ok. now intros [= <-].
Qed.

Lemma taxonomy_pass_zero (refs : list nat) (st st' : store) :
  taxonomy_pass options descriptions_clean refs st = (st', ok 0) ->
  forall a, st' a = st a.
Proof.
  unfold taxonomy_pass, bind, lift, read_all. unfold ok at 1. cbv beta iota.
  destruct (_count_detections_by_category (view st refs) options)
    as [e | t]; [discriminate |].
  destruct (dominant t (dict_keys t)) as [e | dom]; [discriminate |].
  destruct descriptions_clean as [ds |];
    [| unfold ret, ok; now intros [= <-]].
  destruct (_ && _).
  - intros Hrun.
    destruct (for_each_counting _ (taxonomy_body_counting options ds t)
                _ _ _ _ _ Hrun) as [_ Hs].
    now apply Hs.
  - unfold ret, ok. now intros [= <-].
Qed.

Lemma three_passes_zero (refs : list nat) (t : dict nat) (st st' : store) :
  three_passes options other_category_ids descriptions_clean refs t st
  = (st', ok (Some no_changes)) ->
  forall a, st' a = st a.
Proof.
  unfold three_passes, bind, ret.
  destruct (other_pass options other_category_ids refs t st)
    as [st1 [e | n1]] eqn:E1; [discriminate |].
  destruct (flip_pass options other_category_ids refs st1)
    as [st2 [e | n2]] eqn:E2; [discriminate |].
  destruct (taxonomy_pass options descriptions_clean refs st2)
    as [st3 [e | n3]] eqn:E3; [discriminate |].
  unfold ok, no_changes. intros [= <- -> -> ->] a.
  rewrite (taxonomy_pass_zero _ _ _ E3), (flip_pass_zero _ _ _ E2).
  apply (other_pass_zero _ _ _ _ E1).
Qed.

(** A run that returns None or reports no change has left every address as
    it was. *)
Lemma smooth_unchanged (refs : list nat) (st : store) :
  let run := _smooth_classifications_for_list_of_detections options
               other_category_ids descriptions_clean refs st in
  snd run = ok None \/ snd run = ok (Some no_changes) ->
  forall a, fst run a = st a.
Proof.
  intros run. subst run. rewrite smooth_cases.
  destruct (_count_detections_by_category (view st refs) options)
    as [e | t]; [reflexivity |].
  destruct (List.length t <=? 1)%nat; [reflexivity |].
  intros [Habs | Hzero].
  - now apply three_passes_not_sentinel in Habs.
  - apply (three_passes_zero refs t).
    destruct (three_passes _ _ _ _ _ _) as [st' r]. simpl in *. now subst.
Qed.

End Unchanged.

(** A run that made no change is repeated identically. *)
Lemma rerun_unchanged :
  forall options other_category_ids descriptions_clean
         (refs : list nat) (st : store),
    let run1 := _smooth_classifications_for_list_of_detections options
                  other_category_ids descriptions_clean refs st in
    let run2 := _smooth_classifications_for_list_of_detections options
                  other_category_ids descriptions_clean refs (fst run1) in
    snd run1 = ok None \/ snd run1 = ok (Some no_changes) ->
    snd run2 = snd run1 /\ forall a, fst run2 a = fst run1 a.
Proof.
  intros options other_category_ids descriptions_clean refs st run1 run2 H1.
  pose proof (smooth_unchanged options other_category_ids
                descriptions_clean refs st H1) as Hst.
  fold run1 in Hst.
  destruct (smooth_extensional options other_category_ids
              descriptions_clean refs (fst run1) st Hst) as [Hr Hs].
  fold run1 run2 in Hr, Hs. split; [exact Hr | exact Hs].
Qed.

(** ** A second run after a first one *)

Lemma view_map (F : detection -> detection) (st st' : store)
    (refs : list nat) :
  (forall r, In r refs -> st' r = F (st r)) ->
  view st' refs = map F (view st refs).
Proof.
  intros H. unfold view. rewrite map_map. now apply map_ext_in.
Qed.

Lemma occurrences_map_ge (g : string -> string) (c : string)
    (ks : list string) :
  g c = c -> occurrences c ks <= occurrences c (map g ks).
Proof.
  intros Hg. unfold occurrences.
  induction ks as [| k ks IH]; simpl; [lia |].
  destruct (String.eqb c k) eqn:E.
  - apply String.eqb_eq in E. subst k. rewrite Hg, String.eqb_refl.
    simpl. lia.
  - destruct (String.eqb c (g k)); simpl; lia.
Qed.

Section SecondRun.

Variable options : ClassificationSmoothingOptions.
Variable other_category_ids : list string.

Lemma tally_after (st st' : store) (refs : list nat) (t : dict nat) :
  _count_detections_by_category (view st refs) options = ok t ->
  t <> [] ->
  (forall a, relabel_of (st a) (st' a)) ->
  exists dom max_count rest,
    _count_detections_by_category (view st' refs) options
    = ok ((dom, max_count) :: rest).
Proof.
  intros Ht Hne Hrel.
  destruct (tally_visible options st refs t Ht Hne) as (r0 & Hr0 & Hv0).
  assert (Hok : exists t', _count_detections_by_category (view st' refs)
                             options = ok t').
  { rewrite tally_closed.
    assert (forallb (well_formed options) (view st' refs) = true) as ->.
    { apply forallb_forall. intros d Hd. unfold view in Hd.
      apply in_map_iff in Hd as (r & <- & Hr).
      rewrite (relabel_of_well_formed options _ _ (Hrel r)).
      now apply (view_well_formed options st refs t r Ht). }
    eauto. }
  destruct Hok as (t' & Ht').
  destruct (tally_nonempty options st' refs t' r0 Ht' Hr0)
    as (dom & max_count & rest & ->).
  - now rewrite (relabel_of_visible options _ _ (Hrel r0)).
  - now exists dom, max_count, rest.
Qed.

Lemma taxonomy_pass_None (st : store) (refs : list nat) (dom : string)
    (max_count : nat) (rest : dict nat) :
  _count_detections_by_category (view st refs) options
  = ok ((dom, max_count) :: rest) ->
  taxonomy_pass options None refs st = (st, ok 0).
Proof.
  intros Ht. unfold taxonomy_pass, bind, lift, read_all. unfold ok at 1.
  cbv beta iota. rewrite Ht. unfold ok at 1. cbv beta iota.
  rewrite dominant_head. reflexivity.
Qed.

Lemma flip_to_relabel (t : dict nat) (dom : string) (max_count : nat)
    (d : detection) :
  relabel_of d (flip_to options other_category_ids t dom max_count d).
Proof.
  unfold flip_to. destruct (_ && _) eqn:E; [| apply relabel_of_refl].
  apply andb_true_iff in E as [_ E]. unfold flips in E.
  apply andb_true_iff in E as [Hv _].
  destruct (visible_inv options d Hv) as (c & Hc & _).
  now apply relabel_of_set_category with (c := c).
Qed.

Lemma counted_flip_to (t : dict nat) (dom : string) (max_count : nat)
    (L : list detection) :
  counted options
    (map (flip_to options other_category_ids t dom max_count) L)
  = map (flip_key options other_category_ids t dom max_count)
        (counted options L).
Proof.
  induction L as [| d L IH]; [reflexivity |].
  unfold counted in *. cbn [map flat_map]. rewrite map_app, IH. f_equal.
  rewrite (relabel_of_visible options _ _ (flip_to_relabel t dom max_count d)).
  destruct (visible options d) eqn:Hv; [| reflexivity].
  destruct (visible_inv options d Hv) as (c & Hc & _ & _ & Hk).
  unfold flip_to, flips, flip_key. rewrite Hv, Hk. cbn [andb map].
  rewrite <- andb_assoc.
  destruct (_ && _).
  - now rewrite (category_id_set_category options d dom Hv).
  - now rewrite Hk.
Qed.

Lemma flips_low (t : dict nat) (dom : string) (max_count : nat)
    (d : detection) :
  (Z.of_nat max_count <= min_detections_to_overwrite_secondary options)%Z ->
  flips options t dom max_count d = false.
Proof.
  intros Hlow. unfold flips, flip_counts.
  assert ((min_detections_to_overwrite_secondary options
             <? Z.of_nat max_count)%Z = false) as -> by now apply Z.ltb_ge.
  destruct (visible options d); [| reflexivity].
  destruct (category_id d) as [k |]; [| reflexivity].
  destruct (dict_find t k); simpl; rewrite ?andb_false_r; reflexivity.
Qed.

Hypothesis thresholds_other :
  (min_detections_to_overwrite_other options
   <= min_detections_to_overwrite_secondary options + 1)%Z.
Hypothesis thresholds_nondominant :
  (max_detections_nondominant_class options
   <= min_detections_to_overwrite_secondary options)%Z.

(** After pass 2, pass 2 with the new tally flips nothing. *)
Lemma no_second_flip (L : list detection) (dom : string) (max_count : nat)
    (rest : dict nat) (dom' : string) (max_count' : nat) (rest' : dict nat) :
  let t := (dom, max_count) :: rest in
  let t' := (dom', max_count') :: rest' in
  _count_detections_by_category L options = ok t ->
  _count_detections_by_category
    (map (flip_to options other_category_ids t dom max_count) L) options
  = ok t' ->
  forall d,
    In d (map (flip_to options other_category_ids t dom max_count) L) ->
    negb (str_mem dom' other_category_ids)
    && flips options t' dom' max_count' d = false.
Proof.
  intros t t' Ht Ht' d Hd.
  destruct (Z.ltb_spec (min_detections_to_overwrite_secondary options)
              (Z.of_nat max_count)) as [Hhigh | Hlow].
  2:{ (* pass 2 could not fire: nothing moved, the tally is the same *)
      assert (Hid : map (flip_to options other_category_ids t dom max_count) L
                    = L).
      { rewrite <- (map_id L) at 2. apply map_ext. intros d0.
        unfold flip_to. rewrite (flips_low t dom max_count d0 Hlow).
        now rewrite andb_false_r. }
      rewrite Hid in Ht'. rewrite Ht in Ht'. unfold ok in Ht'.
      injection Ht' as E1 E2 E3. subst dom' max_count' rest'.
      rewrite (flips_low _ dom max_count d Hlow). apply andb_false_r. }
  destruct (str_mem dom other_category_ids) eqn:Hdom.
  { (* pass 2 was skipped: nothing moved, the dominant one is "other" *)
    assert (Hid : map (flip_to options other_category_ids t dom max_count) L
                  = L).
    { rewrite <- (map_id L) at 2. apply map_ext. intros d0.
      unfold flip_to. now rewrite Hdom. }
    rewrite Hid in Ht'. rewrite Ht in Ht'. unfold ok in Ht'.
    injection Ht' as E1 E2 E3. subst dom' max_count' rest'.
    now rewrite Hdom. }
  destruct (negb (str_mem dom' other_category_ids)
            && flips options t' dom' max_count' d) eqn:Habs; [| reflexivity].
  exfalso.
  apply andb_true_iff in Habs as [_ Hflip]. unfold flips in Hflip.
  apply andb_true_iff in Hflip as [Hv Hflip].
  destruct (category_id d) as [c |] eqn:Hc; [| discriminate].
  apply andb_true_iff in Hflip as [_ Hflip].
  destruct (dict_find t' c) as [cnt2 |] eqn:Hcnt2; [| discriminate].
  unfold flip_counts in Hflip.
  apply andb_true_iff in Hflip as [Hflip H3].
  apply andb_true_iff in Hflip as [_ _].
  apply Z.leb_le in H3.
  apply (tally_find options _ t' c cnt2 Ht') in Hcnt2 as [Hcnt2 _].
  rewrite counted_flip_to in Hcnt2.
  assert (Hmax : max_count = occurrences dom (counted options L)).
  { apply (tally_find options L t dom max_count Ht). unfold t. simpl.
    now rewrite String.eqb_refl. }
  assert (Hge : forall k,
             flip_key options other_category_ids t dom max_count k = k ->
             c = k -> False).
  { intros k Hkey ->.
    pose proof (occurrences_map_ge _ k (counted options L) Hkey) as Hmono.
    rewrite <- Hcnt2 in Hmono.
    (* the count of [k] did not shrink, and it was too large to flip *)
    destruct (String.eqb k dom) eqn:Ek.
    - apply String.eqb_eq in Ek. subst k. lia.
    - unfold flip_key in Hkey. rewrite Hdom, Ek in Hkey.
      cbn [negb andb] in Hkey.
      destruct (dict_find t k) as [cnt1 |] eqn:Hcnt1.
      + pose proof Hcnt1 as Hcnt1'.
        apply (tally_find options L t k cnt1 Ht) in Hcnt1' as [Hcnt1' _].
        destruct (flip_counts options max_count cnt1) eqn:Hfc.
        * subst k. now rewrite String.eqb_refl in Ek.
        * unfold flip_counts in Hfc.
          destruct (Nat.ltb_spec cnt1 max_count);
            destruct (Z.ltb_spec
                        (min_detections_to_overwrite_secondary options)
                        (Z.of_nat max_count));
            destruct (Z.leb_spec (Z.of_nat cnt1)
                        (max_detections_nondominant_class options));
            simpl in Hfc; try discriminate; lia.
      + (* [k] is tallied, since [d] comes from a qualifying detection *)
        assert (Hk2 : In k (map (flip_key options other_category_ids t dom
                                   max_count) (counted options L))).
        { rewrite <- counted_flip_to. apply counted_In. exists d.
          repeat split; assumption. }
        apply in_map_iff in Hk2 as (k' & Hk' & Hin').
        assert (Hkk : k' = k).
        { unfold flip_key in Hk'.
          destruct (negb (str_mem dom other_category_ids)
                    && negb (String.eqb k' dom) && _); [| exact Hk'].
          subst k. now rewrite String.eqb_refl in Ek. }
        subst k'.
        assert (dict_find t k
                = Some (occurrences k (counted options L))) as Hsome
            by now apply (tally_find options L t k _ Ht).
        congruence. }
  apply (Hge c); [| reflexivity].
  (* the category of [d] is one that pass 2 maps to itself *)
  apply in_map_iff in Hd as (d0 & Hd0 & Hin0).
  assert (Hv0 : visible options d0 = true).
  { rewrite <- Hd0 in Hv.
    now rewrite (relabel_of_visible options _ _
                   (flip_to_relabel t dom max_count d0)) in Hv. }
  destruct (visible_inv options d0 Hv0) as (c0 & _ & _ & _ & Hc0).
  unfold flip_to in Hd0. unfold flip_key. rewrite Hdom in *. simpl in *.
  unfold flips in Hd0. rewrite Hv0, Hc0 in Hd0. simpl in Hd0.
  destruct (negb (String.eqb (fst c0) dom) && _) eqn:E.
  - subst d. rewrite (category_id_set_category options d0 dom Hv0) in Hc.
    injection Hc as <-. now rewrite String.eqb_refl.
  - subst d. rewrite Hc0 in Hc. injection Hc as <-. now rewrite E.
Qed.

Lemma in_other_set_category (d : detection) (k : string) :
  visible options d = true ->
  in_other options other_category_ids (set_category d k)
  = str_mem k other_category_ids.
Proof.
  intros Hv. unfold in_other.
  rewrite (category_id_set_category options d k Hv).
  destruct (visible_inv options d Hv) as (c & Hc & _).
  now rewrite (relabel_of_visible options _ _
                 (relabel_of_set_category d c k Hc)), Hv.
Qed.

(** A run without cleaned descriptions on a unit of distinct detections with
    two or more tallied categories, step by step. *)
Lemma run_shape (refs : list nat) (st : store) (k0 k1 : string)
    (n0 n1 : nat) (rest : dict nat) :
  NoDup refs ->
  _count_detections_by_category (view st refs) options
  = ok ((k0, n0) :: (k1, n1) :: rest) ->
  let tied := str_mem k0 other_category_ids
              && negb (str_mem k1 other_category_ids)
              && (n0 =? n1)%nat in
  let dom := if tied then k1 else k0 in
  let max_count := if tied then n1 else n0 in
  let fires :=
    (min_detections_to_overwrite_other options <=? Z.of_nat max_count)%Z
    && negb (str_mem dom other_category_ids) in
  let hit d := fires && in_other options other_category_ids d in
  exists st1 st2 dom1 max1 rest1,
    (forall r, In r refs ->
       st1 r = if hit (st r) then set_category (st r) dom else st r) /\
    (forall a, ~ In a refs -> st1 a = st a) /\
    _count_detections_by_category (view st1 refs) options
    = ok ((dom1, max1) :: rest1) /\
    (forall r, In r refs ->
       st2 r = flip_to options other_category_ids ((dom1, max1) :: rest1)
                 dom1 max1 (st1 r)) /\
    (forall a, ~ In a refs -> st2 a = st1 a) /\
    _smooth_classifications_for_list_of_detections options other_category_ids
      None refs st
    = (st2,
       ok (Some
             {| n_other_classifications_changed_this_image :=
                  List.length (filter hit (view st refs));
                n_detections_flipped_this_image :=
                  List.length
                    (filter (fun d =>
                               negb (str_mem dom1 other_category_ids)
                               && flips options ((dom1, max1) :: rest1)
                                    dom1 max1 d)
                            (view st1 refs));
                n_taxonomic_changes_this_image := 0 |})).
Proof.
  intros Hnd Ht tied dom max_count fires hit.
  destruct (other_pass_spec options other_category_ids refs st k0 k1 n0 n1
              rest Hnd Ht) as (st1 & Hrun1 & Hin1 & Hout1).
  fold tied in Hrun1, Hin1. fold dom max_count in Hrun1, Hin1.
  fold fires in Hrun1, Hin1. fold hit in Hrun1, Hin1.
  assert (Hrel1 : forall a, relabel_of (st a) (st1 a)).
  { intros a.
    pose proof (other_pass_keeps options other_category_ids relabel_of
                  relabel_of_refl relabel_of_trans
                  (other_body_relabel options other_category_ids)
                  refs ((k0, n0) :: (k1, n1) :: rest) st a) as H.
    now rewrite Hrun1 in H. }
  destruct (tally_after st st1 refs _ Ht ltac:(discriminate) Hrel1)
    as (dom1 & max1 & rest1 & Ht1).
  destruct (flip_pass_spec options other_category_ids refs st1 dom1 max1
              rest1 Hnd Ht1) as (st2 & Hrun2 & Hin2 & Hout2).
  assert (Hrel2 : forall a, relabel_of (st1 a) (st2 a)).
  { intros a.
    pose proof (flip_pass_keeps options other_category_ids relabel_of
                  relabel_of_refl relabel_of_trans
                  (flip_body_relabel options) refs st1 a) as H.
    now rewrite Hrun2 in H. }
  destruct (tally_after st1 st2 refs _ Ht1 ltac:(discriminate) Hrel2)
    as (dom2 & max2 & rest2 & Ht2).
  exists st1, st2, dom1, max1, rest1.
  split; [exact Hin1 |]. split; [exact Hout1 |]. split; [exact Ht1 |].
  split; [exact Hin2 |]. split; [exact Hout2 |].
  rewrite smooth_cases, Ht. unfold ok at 1. cbv beta iota.
  cbn [List.length Nat.leb].
  unfold three_passes, bind. rewrite Hrun1. unfold ok at 1. cbv beta iota.
  rewrite Hrun2. unfold ok at 1. cbv beta iota.
  rewrite (taxonomy_pass_None st2 refs dom2 max2 rest2 Ht2).
  reflexivity.
Qed.

(** Without cleaned descriptions, and with thresholds ordered as the default
    ones are, a second run on a unit of distinct detections changes
    nothing. *)
Lemma second_run_quiet (refs : list nat) (st : store)
    (r1 : option summary) :
  NoDup refs ->
  let run1 := _smooth_classifications_for_list_of_detections options
                other_category_ids None refs st in
  let run2 := _smooth_classifications_for_list_of_detections options
                other_category_ids None refs (fst run1) in
  snd run1 = ok r1 ->
  (snd run2 = ok None \/ snd run2 = ok (Some no_changes)) /\
  forall a, fst run2 a = fst run1 a.
Proof.
  intros Hnd run1 run2 Hok.
  assert (Hquiet : snd run1 = ok None \/ snd run1 = ok (Some no_changes) ->
                   (snd run2 = ok None \/ snd run2 = ok (Some no_changes)) /\
                   forall a, fst run2 a = fst run1 a).
  { intros H.
    destruct (rerun_unchanged options other_category_ids None refs st H)
      as [Hr Hs].
    fold run1 in Hr, Hs. fold run2 in Hr, Hs.
    split; [| exact Hs]. destruct H as [H | H]; [left | right]; congruence. }
  destruct (_count_detections_by_category (view st refs) options)
    as [e | t0] eqn:Ht.
  { subst run1. rewrite smooth_cases, Ht in Hok. discriminate. }
  destruct t0 as [| [k0 n0] [| [k1 n1] rest]].
  { apply Hquiet. left. subst run1. now rewrite smooth_cases, Ht. }
  { apply Hquiet. left. subst run1. now rewrite smooth_cases, Ht. }
  destruct (run_shape refs st k0 k1 n0 n1 rest Hnd Ht)
    as (st1 & st2 & dom1 & max1 & rest1 & Hin1 & Hout1 & Ht1 & Hin2 & Hout2
        & Hrun).
  set (tied := str_mem k0 other_category_ids
               && negb (str_mem k1 other_category_ids)
               && (n0 =? n1)%nat) in *.
  set (dom := if tied then k1 else k0) in *.
  set (max_count := if tied then n1 else n0) in *.
  set (fires := (min_detections_to_overwrite_other options
                   <=? Z.of_nat max_count)%Z
                && negb (str_mem dom other_category_ids)) in *.
  assert (Hfires : fires
                   = (min_detections_to_overwrite_other options
                        <=? Z.of_nat max_count)%Z
                     && negb (str_mem dom other_category_ids))
    by reflexivity.
  clearbody fires. symmetry in Hfires. destruct fires.
  2:{ (* pass 1 did not fire: neither does pass 2 *)
      apply Hquiet. right. subst run1. rewrite Hrun. simpl. do 2 f_equal.
      assert (Hst1 : forall a, st1 a = st a).
      { intros a. destruct (in_dec Nat.eq_dec a refs) as [Ha | Ha];
          [now rewrite (Hin1 a Ha) | now apply Hout1]. }
      rewrite (view_ext st1 st refs Hst1) in Ht1. rewrite Ht in Ht1.
      unfold ok in Ht1. injection Ht1 as E1 E2 E3. subst dom1 max1 rest1.
      unfold no_changes. f_equal.
      - now rewrite filter_none.
      - rewrite filter_none; [reflexivity |]. intros d _.
        destruct (str_mem k0 other_category_ids) eqn:Hk0; [reflexivity |].
        simpl.
        assert (Htied : tied = false)
          by (unfold tied; try rewrite Hk0; reflexivity).
        unfold dom, max_count in Hfires. rewrite Htied in Hfires.
        cbv iota in Hfires. try rewrite Hk0 in Hfires. cbn [negb] in Hfires.
        rewrite andb_true_r in Hfires. apply Z.leb_gt in Hfires.
        apply flips_low. lia. }
  (* pass 1 fired: no qualifying detection is left in an "other" category *)
  apply andb_true_iff in Hfires as [_ Hdom]. apply negb_true_iff in Hdom.
  assert (Ha : forall r, In r refs ->
                 in_other options other_category_ids (st1 r) = false).
  { intros r Hr. rewrite (Hin1 r Hr). simpl.
    destruct (in_other options other_category_ids (st r)) eqn:E;
      [| exact E].
    rewrite in_other_set_category; [exact Hdom |].
    unfold in_other in E. now apply andb_true_iff in E as [E _]. }
  assert (Hdom1 : str_mem dom1 other_category_ids = false).
  { assert (Hk : In dom1 (counted options (view st1 refs))).
    { apply (tally_keys options _ _ dom1 Ht1). now left. }
    apply counted_In in Hk as (d & Hd & Hv & Hk).
    unfold view in Hd. apply in_map_iff in Hd as (r & <- & Hr).
    specialize (Ha r Hr). unfold in_other in Ha. now rewrite Hv, Hk in Ha. }
  assert (Hc : forall r, In r refs ->
                 in_other options other_category_ids (st2 r) = false).
  { intros r Hr. rewrite (Hin2 r Hr). unfold flip_to.
    destruct (negb (str_mem dom1 other_category_ids)
              && flips options ((dom1, max1) :: rest1) dom1 max1 (st1 r))
      eqn:E; [| now apply Ha].
    rewrite in_other_set_category; [exact Hdom1 |].
    apply andb_true_iff in E as [_ E]. unfold flips in E.
    now apply andb_true_iff in E as [E _]. }
  assert (Hview2 : view st2 refs
                   = map (flip_to options other_category_ids
                            ((dom1, max1) :: rest1) dom1 max1)
                         (view st1 refs))
    by now apply view_map.
  assert (Hrel2 : forall a, relabel_of (st1 a) (st2 a)).
  { intros a. destruct (in_dec Nat.eq_dec a refs) as [Hin | Hnin].
    - rewrite (Hin2 a Hin). apply flip_to_relabel.
    - rewrite (Hout2 a Hnin). apply relabel_of_refl. }
  destruct (tally_after st1 st2 refs _ Ht1 ltac:(discriminate) Hrel2)
    as (a0 & m0 & restA & Ht2).
  assert (Hfst : fst run1 = st2) by (subst run1; now rewrite Hrun).
  subst run2. rewrite Hfst. clear Hquiet Hok.
  destruct restA as [| [a1 m1] rest2].
  { rewrite smooth_cases, Ht2. simpl. split; [now left | reflexivity]. }
  destruct (run_shape refs st2 a0 a1 m0 m1 rest2 Hnd Ht2)
    as (st3 & st4 & dom3 & max3 & rest3 & Hin3 & Hout3 & Ht3 & Hin4 & Hout4
        & Hrun').
  assert (Hst3 : forall a, st3 a = st2 a).
  { intros a. destruct (in_dec Nat.eq_dec a refs) as [Hin | Hnin];
      [| now apply Hout3].
    rewrite (Hin3 a Hin), (Hc a Hin). now rewrite andb_false_r. }
  rewrite (view_ext st3 st2 refs Hst3) in Ht3, Hrun'.
  assert (Hno : forall d, In d (view st2 refs) ->
                  negb (str_mem dom3 other_category_ids)
                  && flips options ((dom3, max3) :: rest3) dom3 max3 d
                  = false).
  { intros d Hd. rewrite Hview2 in Hd.
    apply (no_second_flip (view st1 refs) dom1 max1 rest1 dom3 max3 rest3
             Ht1); [| exact Hd].
    now rewrite <- Hview2. }
  assert (Hst4 : forall a, st4 a = st2 a).
  { intros a. rewrite <- Hst3.
    destruct (in_dec Nat.eq_dec a refs) as [Hin | Hnin]; [| now apply Hout4].
    rewrite (Hin4 a Hin). unfold flip_to. rewrite (Hst3 a).
    rewrite Hno; [reflexivity |]. unfold view. now apply in_map. }
  rewrite Hrun'. simpl. split; [| exact Hst4].
  right. do 2 f_equal. unfold no_changes. f_equal.
  - rewrite filter_none; [reflexivity |]. intros d Hd.
    unfold view in Hd. apply in_map_iff in Hd as (r & <- & Hr).
    rewrite (Hc r Hr). apply andb_false_r.
  - now rewrite filter_none.
Qed.

End SecondRun.

(** C1, as the code has it.  A second run is a no-op - it returns None or a
    summary of three zeros and leaves every detection as the first run left
    it - in each of these cases: the first run made no change (it returned
    None or three zeros); the first run left fewer than two tallied
    categories; or no cleaned taxonomy descriptions are given, the unit
    consists of distinct detections, the first run returned normally, and the
    thresholds are ordered as the default ones are:
    min_detections_to_overwrite_other <=
    min_detections_to_overwrite_secondary + 1 and
    max_detections_nondominant_class <=
    min_detections_to_overwrite_secondary.  (With taxonomy descriptions, or
    with thresholds in another order, a second run can relabel more.) *)
Theorem second_run_changes_nothing :
  forall options other_category_ids descriptions_clean
         (refs : list nat) (st : store),
    let run1 := _smooth_classifications_for_list_of_detections options
                  other_category_ids descriptions_clean refs st in
    let run2 := _smooth_classifications_for_list_of_detections options
                  other_category_ids descriptions_clean refs (fst run1) in
    (snd run1 = ok None \/
     snd run1 = ok (Some no_changes) \/
     (exists t, _count_detections_by_category (view (fst run1) refs) options
                = ok t /\ List.length t < 2) \/
     (descriptions_clean = None /\
      NoDup refs /\
      (exists r1, snd run1 = ok r1) /\
      (min_detections_to_overwrite_other options
       <= min_detections_to_overwrite_secondary options + 1)%Z /\
      (max_detections_nondominant_class options
       <= min_detections_to_overwrite_secondary options)%Z)) ->
    (snd run2 = ok None \/ snd run2 = ok (Some no_changes)) /\
    forall a, fst run2 a = fst run1 a.
Proof.
  intros options other_category_ids descriptions_clean refs st run1 run2 H.
  pose proof (rerun_unchanged options other_category_ids descriptions_clean
                refs st) as Hsame.
  cbv zeta in Hsame. fold run1 in Hsame. fold run2 in Hsame.
  destruct H as [H | [H | [H | H]]].
  - destruct (Hsame (or_introl H)) as [Hr Hs]. split; [| exact Hs].
    left. congruence.
  - destruct (Hsame (or_intror H)) as [Hr Hs]. split; [| exact Hs].
    right. congruence.
  - destruct (smooth_sentinel options
                other_category_ids descriptions_clean refs (fst run1))
      as (Hiff & Hst).
    fold run2 in Hiff, Hst.
    apply Hiff in H. split; [now left |].
    intros a. now rewrite (Hst H).
  - destruct H as (-> & Hnd & (r1 & Hr1) & Hother & Hnondom).
    exact (second_run_quiet options other_category_ids Hother Hnondom refs st
             r1 Hnd Hr1).
Qed.

(** C1, as stated, fails.  On [deer_unit] with the default options the first
    run relabels the two "a" detections to their more common child "b"
    (pass 3) and leaves "c" alone, because the dominant count 3 does not
    exceed min_detections_to_overwrite_secondary = 4 when pass 2 runs.  The
    second run finds "b" five times and flips "c": it reports one change and
    rewrites the category id at address 5. *)
Lemma second_run_relabels_again :
  let refs := addresses deer_unit in
  let run1 := _smooth_classifications_for_list_of_detections default_options
                [] (Some deer_descriptions) refs (store_of deer_unit) in
  let run2 := _smooth_classifications_for_list_of_detections default_options
                [] (Some deer_descriptions) refs (fst run1) in
  snd run1 = ok (Some {| n_other_classifications_changed_this_image := 0;
                         n_detections_flipped_this_image := 0;
                         n_taxonomic_changes_this_image := 2 |}) /\
  snd run2 = ok (Some {| n_other_classifications_changed_this_image := 0;
                         n_detections_flipped_this_image := 1;
                         n_taxonomic_changes_this_image := 0 |}) /\
  fst run1 5 = sure "c" /\
  fst run2 5 = sure "b" /\
  ~ ((snd run2 = ok None \/ snd run2 = ok (Some no_changes)) /\
     forall a, category_id (fst run2 a) = category_id (fst run1 a)).
Proof.
  repeat split; try (vm_compute; reflexivity).
  intros [_ Hsame]. specialize (Hsame 5). vm_compute in Hsame. discriminate.
Qed.

(** The two conditions on the thresholds cannot be dropped.  With
    max_detections_nondominant_class = 2 above
    min_detections_to_overwrite_secondary = 1, a first run on a,a,b,b,c flips
    only c, after which a second run flips the two b. *)
Example nondominant_above_secondary :
  let options := with_thresholds 1 2 2 in
  let unit := [sure "a"; sure "a"; sure "b"; sure "b"; sure "c"] in
  let run1 := smooth_list options [] None unit in
  fst run1 = [sure "a"; sure "a"; sure "b"; sure "b"; sure "a"] /\
  smooth_list options [] None (fst run1)
  = ([sure "a"; sure "a"; sure "a"; sure "a"; sure "a"],
     ok (Some {| n_other_classifications_changed_this_image := 0;
                 n_detections_flipped_this_image := 2;
                 n_taxonomic_changes_this_image := 0 |})).
Proof. split; reflexivity. Qed.

(** With min_detections_to_overwrite_other = 4 above
    min_detections_to_overwrite_secondary + 1 = 1, a first run on
    a,a,a,b,o,o (o an "other" category) flips only b; the dominant count is
    then 4 and a second run overrides the two o. *)
Example other_above_secondary :
  let options := with_thresholds 0 1 4 in
  let unit := [sure "a"; sure "a"; sure "a"; sure "b"; sure "o"; sure "o"] in
  let run1 := smooth_list options ["o"] None unit in
  fst run1
  = [sure "a"; sure "a"; sure "a"; sure "a"; sure "o"; sure "o"] /\
  smooth_list options ["o"] None (fst run1)
  = ([sure "a"; sure "a"; sure "a"; sure "a"; sure "a"; sure "a"],
     ok (Some {| n_other_classifications_changed_this_image := 2;
                 n_detections_flipped_this_image := 0;
                 n_taxonomic_changes_this_image := 0 |})).
Proof. split; reflexivity. Qed.

(** ** The theorems at concrete units *)

Lemma second_run_changes_nothing_witness :
  let refs := addresses deer_elk_unit in
  let run1 := _smooth_classifications_for_list_of_detections default_options
                [] None refs (store_of deer_elk_unit) in
  let run2 := _smooth_classifications_for_list_of_detections default_options
                [] None refs (fst run1) in
  (snd run2 = ok None \/ snd run2 = ok (Some no_changes)) /\
  forall a, fst run2 a = fst run1 a.
Proof.
  apply (second_run_changes_nothing default_options [] None
           (addresses deer_elk_unit) (store_of deer_elk_unit)).
  right. right. right.
  split; [reflexivity |]. split; [apply seq_NoDup |].
  split; [eexists; reflexivity |].
  split; simpl; lia.
Defined.

Lemma pass2_dominant_flip_witness :
  exists st',
    flip_pass default_options [] (addresses deer_elk_unit)
      (store_of deer_elk_unit)
    = (st', ok 1) /\ st' 3 = sure "deer".
Proof.
  destruct (pass2_dominant_flip default_options [] (addresses deer_elk_unit)
              (store_of deer_elk_unit) "deer" 5 [("elk", 1)])
    as (st' & Hrun & Hin & _).
  - apply seq_NoDup.
  - reflexivity.
  - exists st'. split; [exact Hrun |].
    rewrite (Hin 3) by (simpl; auto). reflexivity.
Defined.

Lemma pass1_other_override_witness :
  exists st',
    other_pass default_options ["other"] (addresses cow_unit)
      [("cow", 2); ("other", 1)] (store_of cow_unit)
    = (st', ok 1) /\ st' 2 = sure "cow".
Proof.
  destruct (pass1_other_override default_options ["other"]
              (addresses cow_unit) (store_of cow_unit)
              "cow" "other" 2 1 [])
    as (st' & Hrun & Hin & _).
  - apply seq_NoDup.
  - reflexivity.
  - exists st'. split; [exact Hrun |].
    rewrite (Hin 2) by (simpl; auto). reflexivity.
Defined.

Lemma fox_tally :
  _count_detections_by_category
    (view (store_of fox_unit) (addresses fox_unit)) default_options
  = ok [("b", 2); ("c", 2); ("a", 1)].
Proof. reflexivity. Defined.

Lemma fox_covered (k : string) :
  In k (dict_keys [("b", 2); ("c", 2); ("a", 1)]) ->
  dict_find fox_descriptions k <> None.
Proof.
  intros [<- | [<- | [<- | []]]]; discriminate.
Defined.

Lemma fox_comparable (r : nat) :
  In r (addresses fox_unit) ->
  comparable default_options (store_of fox_unit r) = true.
Proof.
  intros [<- | [<- | [<- | [<- | [<- | []]]]]]; reflexivity.
Defined.


(** On [faint_other_unit] pass 1 fires and relabels the "other" detection
    at address 3, while the "other" detection at address 0, which is below
    the detection threshold, is neither counted nor relabeled. *)
Lemma below_threshold_never_counted_never_rewritten_witness :
  let refs := addresses faint_other_unit in
  let st := store_of faint_other_unit in
  let run := _smooth_classifications_for_list_of_detections default_options
               ["other"] None refs st in
  below_threshold default_options (st 0) = true /\
  _count_detections_by_category
    (filter (fun d => negb (below_threshold default_options d))
            faint_other_unit)
    default_options
  = ok [("cow", 2); ("other", 1)] /\
  fst (other_pass default_options ["other"] refs
         [("cow", 2); ("other", 1)] st) 0 = st 0 /\
  fst run 0 = st 0 /\
  category_id (st 3) = Some "other" /\
  fst run 3 = sure "cow" /\
  snd run = ok (Some {| n_other_classifications_changed_this_image := 1;
                        n_detections_flipped_this_image := 0;
                        n_taxonomic_changes_this_image := 0 |}).
Proof.
  destruct (below_threshold_never_counted_never_rewritten default_options
              ["other"] None faint_other_unit [("cow", 2); ("other", 1)]
              (addresses faint_other_unit) (store_of faint_other_unit) 0
              [("cow", 2); ("other", 1)])
    as (Htally & _ & Hother & _ & _ & Hrun).
  - reflexivity.
  - reflexivity.
  - split; [reflexivity |]. split; [exact Htally |].
    split; [exact Hother |]. split; [exact Hrun |].
    repeat split.
Defined.

Lemma sentinel_iff_fewer_than_two_categories_witness :
  exists st' s,
    _smooth_classifications_for_list_of_detections default_options
      [] (Some fox_descriptions) (addresses fox_unit) (store_of fox_unit)
    = (st', ok (Some s)).
Proof.
  destruct (sentinel_iff_fewer_than_two_categories default_options []
              (Some fox_descriptions) (addresses fox_unit)
              (store_of fox_unit))
    as (_ & _ & _ & Hsome).
  apply (Hsome [("b", 2); ("c", 2); ("a", 1)]).
  - exact fox_tally.
  - simpl. lia.
  - intros ds k [= <-]. exact (fox_covered k).
  - intros _. exact fox_comparable.
Defined.

(** On [mixed_results] the empty list is removed and the list of two
    entries is cut to its first; on [unsorted_results] the loop raises at
    the second detection, having removed the empty list of the first, and
    both drivers raise. *)
Lemma normalization_keeps_top_or_fails_witness :
  normalize_images (images mixed_results)
  = ([ {| im_file := "a.jpg";
          im_detections :=
            Some [ {| conf := Num (9 # 10); classifications := None |};
                   {| conf := Num (9 # 10);
                      classifications := Some [("1", Num (8 # 10))] |};
                   sure "1";
                   {| conf := Num (9 # 10); classifications := None |} ];
          im_pre_smoothing_description := None |} ], ok tt) /\
  normalize_images (images unsorted_results)
  = ([ {| im_file := "a.jpg";
          im_detections :=
            Some [ {| conf := Num (9 # 10); classifications := None |};
                   {| conf := Num (9 # 10);
                      classifications :=
                        Some [("2", Num (1 # 10)); ("1", Num (8 # 10))] |};
                   sure "1" ];
          im_pre_smoothing_description := None |} ],
     throw AssertionError) /\
  snd (smooth_classification_results_image_level (fun s => ok s) 0 None
         unsorted_heap) = throw AssertionError /\
  snd (smooth_classification_results_sequence_level (fun s => ok s) 0
         [ {| file_name := "a.jpg"; seq_id := "s" |} ] None unsorted_heap)
  = throw AssertionError.
Proof.
  destruct (normalization_keeps_top_or_fails (fun s => ok s) None [] 0
              mixed_heap) as (Hsorted & _).
  destruct (normalization_keeps_top_or_fails (fun s => ok s) None
              [ {| file_name := "a.jpg"; seq_id := "s" |} ] 0 unsorted_heap)
    as (_ & Hunsorted & _).
  destruct (Hunsorted eq_refl) as (Hloop & Himage & Hsequence).
  split; [exact (Hsorted eq_refl) |].
  split; [reflexivity |].
  split; [exact Himage | exact Hsequence].
Defined.


(** On [described_results] with the default options both drivers return
    the new dict at address 1.  The sequence-level driver has relabeled the
    "other" detection of the first image in it, and both have described the
    images; the caller's dict at address 0 is as it was, its "other"
    detection included.  The new dict is what the run in place leaves at
    address 0. *)
Lemma drivers_copy_by_default_witness :
  let image_run :=
    smooth_classification_results_image_level (fun s => ok s) 0 None
      described_heap in
  let sequence_run :=
    smooth_classification_results_sequence_level (fun s => ok s) 0
      herd_sequence None described_heap in
  let sequence_in_place :=
    smooth_classification_results_sequence_level (fun s => ok s) 0
      herd_sequence (Some (with_modify_in_place true default_options))
      described_heap in
  objects (fst image_run) 0 = described_results /\
  objects (fst sequence_run) 0 = described_results /\
  snd image_run = ok 1 /\
  snd sequence_run = ok 1 /\
  objects (fst sequence_run) 1 = objects (fst sequence_in_place) 0 /\
  map im_detections (images (objects (fst sequence_run) 0))
  = [Some [sure "1"; sure "2"]; Some [sure "1"]] /\
  map im_detections (images (objects (fst sequence_run) 1))
  = [Some [sure "1"; sure "1"]; Some [sure "1"]] /\
  map im_pre_smoothing_description (images (objects (fst image_run) 1))
  = [Some "cow (1), other (1)"; Some "cow (1)"].
Proof.
  destruct (drivers_copy_by_default (fun s => ok s) None herd_sequence 0
              described_heap)
    as (Himage & Hseq & _ & _ & (_ & Hcopy & _ & _) & _).
  - simpl. lia.
  - reflexivity.
  - split; [exact Himage |]. split; [exact Hseq |].
    split; [reflexivity |]. split; [reflexivity |].
    split; [exact Hcopy |]. repeat split.
Defined.

(** ** The scenarios of the specification *)

(** Scenario B: two cows and one "other", which becomes a cow. *)
Example scenario_B :
  smooth_list default_options ["other"] None cow_unit
  = ([sure "cow"; sure "cow"; sure "cow"],
     ok (Some {| n_other_classifications_changed_this_image := 1;
                 n_detections_flipped_this_image := 0;
                 n_taxonomic_changes_this_image := 0 |})).
Proof. reflexivity. Qed.

(** Scenario C: deer, deer, deer, elk, deer, deer, deer, deer. *)
Example scenario_C :
  fst (smooth_list default_options [] None
         [sure "deer"; sure "deer"; sure "deer"; sure "elk";
          sure "deer"; sure "deer"; sure "deer"; sure "deer"])
  = [sure "deer"; sure "deer"; sure "deer"; sure "deer";
     sure "deer"; sure "deer"; sure "deer"; sure "deer"].
Proof. reflexivity. Qed.

(** Scenario D: an "other" category met first and tied at 3 with a category
    that is not "other". *)
Example scenario_D :
  smooth_list default_options ["other"] None
    [sure "other"; sure "cow"; sure "other"; sure "cow"; sure "other";
     sure "cow"]
  = ([sure "cow"; sure "cow"; sure "cow"; sure "cow"; sure "cow"; sure "cow"],
     ok (Some {| n_other_classifications_changed_this_image := 3;
                 n_detections_flipped_this_image := 0;
                 n_taxonomic_changes_this_image := 0 |})).
Proof. reflexivity. Qed.

(** Scenario E: "fox" collapses to the more common "fox;red fox", and does
    not when the counts are equal. *)
Example scenario_E :
  fst (smooth_list default_options []
         (Some [("f", "fox"); ("r", "fox;red fox")])
         [sure "f"; sure "r"; sure "r"])
  = [sure "r"; sure "r"; sure "r"] /\
  fst (smooth_list default_options []
         (Some [("f", "fox"); ("r", "fox;red fox")])
         [sure "f"; sure "r"])
  = [sure "f"; sure "r"].
Proof. split; reflexivity. Qed.

(** * Further properties of the code *)

(** ** The tally is a ranking *)

Lemma descending_head (x : string * nat) (l : dict nat) :
  descending (x :: l) -> forall y, In y l -> snd y <= snd x.
Proof.
  revert x. induction l as [| z l IH]; intros x Hd y Hy; [contradiction |].
  destruct Hd as [Hzx Hd]. destruct Hy as [<- | Hy]; [exact Hzx |].
  specialize (IH z Hd y Hy). lia.
Qed.

Lemma descending_tail (x : string * nat) (l : dict nat) :
  descending (x :: l) -> descending l.
Proof. destruct l; simpl; [trivial | now intros [_ H]]. Qed.

Lemma descending_nth (l : dict nat) :
  descending l ->
  forall i j kv kv',
    i <= j -> nth_error l i = Some kv -> nth_error l j = Some kv' ->
    snd kv' <= snd kv.
Proof.
  induction l as [| x l IH]; intros Hd i j kv kv' Hij Hi Hj.
  - destruct i; discriminate.
  - destruct i as [| i]; simpl in Hi.
    + injection Hi as <-. destruct j as [| j]; simpl in Hj.
      * injection Hj as <-. lia.
      * apply (descending_head x l Hd). eapply nth_error_In; eauto.
    + destruct j as [| j]; [lia |]. simpl in Hj.
      apply (IH (descending_tail _ _ Hd) i j); auto; lia.
Qed.

(** X1.  When _count_detections_by_category returns, the dict it returns has
    one entry for each category of a qualifying detection (a detection with
    exactly one classification entry that passes both thresholds) and no
    other entry, every count is at least 1, and the entries are in
    descending order of count. *)
Theorem tally_is_a_ranking :
  forall options (dets : list detection) (t : dict nat),
    _count_detections_by_category dets options = ok t ->
    NoDup (dict_keys t) /\
    (forall k, In k (dict_keys t) <->
               exists d, In d dets /\ visible options d = true /\
                         category_id d = Some k) /\
    (forall k n, In (k, n) t -> 1 <= n) /\
    (forall i j kv kv',
        i <= j -> nth_error t i = Some kv -> nth_error t j = Some kv' ->
        snd kv' <= snd kv).
Proof.
  intros options dets t Ht.
  pose proof (tally_NoDup options dets t Ht) as Hnd.
  split; [exact Hnd |]. split; [| split].
  - intros k. rewrite (tally_keys options dets t k Ht). apply counted_In.
  - intros k n Hin. apply (In_dict_find t k n Hnd) in Hin.
    apply (tally_find options dets t k n Ht) in Hin as [-> Hk].
    apply occurrences_In in Hk. lia.
  - apply descending_nth. apply tally_ok_inv in Ht as [_ ->].
    apply sort_desc_descending.
Qed.

Lemma tally_is_a_ranking_witness :
  NoDup (dict_keys [("b", 2); ("c", 2); ("a", 1)]) /\
  forall k n, In (k, n) [("b", 2); ("c", 2); ("a", 1)] -> 1 <= n.
Proof.
  destruct (tally_is_a_ranking default_options fox_unit
              [("b", 2); ("c", 2); ("a", 1)])
    as (Hnd & _ & Hpos & _).
  - reflexivity.
  - split; [exact Hnd | exact Hpos].
Defined.

Lemma list_sum_perm (l l' : list nat) :
  Permutation l l' -> list_sum l = list_sum l'.
Proof. induction 1; simpl; lia. Qed.

Lemma total_count_incr (k : string) (d : dict nat) :
  total_count (incr_count k d) = S (total_count d).
Proof.
  unfold total_count. induction d as [| [k' n] d IH]; simpl; [reflexivity |].
  destruct (String.eqb k' k); simpl; [reflexivity | rewrite IH; lia].
Qed.

Lemma total_count_tally_of (ks : list string) :
  forall acc, total_count (tally_of ks acc) = total_count acc + List.length ks.
Proof.
  induction ks as [| k ks IH]; intros acc; simpl; [lia |].
  rewrite IH, total_count_incr. lia.
Qed.

Lemma counted_length (options : ClassificationSmoothingOptions)
    (dets : list detection) :
  List.length (counted options dets)
  = List.length (filter (visible options) dets).
Proof.
  unfold counted. induction dets as [| d dets IH]; simpl; [reflexivity |].
  rewrite length_app, IH. destruct (visible options d) eqn:Hv; [| reflexivity].
  destruct (visible_inv options d Hv) as (c & _ & _ & _ & ->). reflexivity.
Qed.

(** X2.  The counts of the dict _count_detections_by_category returns add up
    to the number of qualifying detections, and the dict is empty exactly
    when no detection qualifies. *)
Theorem tally_counts_every_qualifying_detection :
  forall options (dets : list detection) (t : dict nat),
    _count_detections_by_category dets options = ok t ->
    total_count t = List.length (filter (visible options) dets) /\
    (t = [] <-> forall d, In d dets -> visible options d = false).
Proof.
  intros options dets t Ht.
  assert (Htotal : total_count t
                   = List.length (filter (visible options) dets)).
  { destruct (tally_ok_inv options dets t Ht) as [_ ->].
    unfold total_count.
    rewrite (list_sum_perm _ _ (Permutation_map snd (sort_desc_perm _))).
    fold (total_count (tally_of (counted options dets) [])).
    rewrite total_count_tally_of. simpl. apply counted_length. }
  split; [exact Htotal |]. split.
  - intros -> d Hd. destruct (visible options d) eqn:Hv; [| reflexivity].
    assert (Hin : In d (filter (visible options) dets))
      by (apply filter_In; now split).
    destruct (filter (visible options) dets); [contradiction | discriminate].
  - intros Hnone. destruct t as [| [k n] t]; [reflexivity |].
    assert (Hk : In k (counted options dets)).
    { apply (tally_keys options dets _ k Ht). now left. }
    apply counted_In in Hk as (d & Hd & Hv & _).
    rewrite (Hnone d Hd) in Hv. discriminate.
Qed.

Lemma tally_counts_every_qualifying_detection_witness :
  total_count [("b", 2); ("c", 2); ("a", 1)]
  = List.length (filter (visible default_options) fox_unit).
Proof.
  apply (tally_counts_every_qualifying_detection default_options fox_unit
           [("b", 2); ("c", 2); ("a", 1)]).
  reflexivity.
Defined.

(** ** Ties in the tally *)

Lemma with_count_insert_desc (n : nat) (x : string * nat) (l : dict nat) :
  with_count n (insert_desc x l) = with_count n (x :: l).
Proof.
  unfold with_count. induction l as [| y l IH]; simpl; [reflexivity |].
  destruct (Nat.leb_spec (snd y) (snd x)) as [Hle | Hlt]; [reflexivity |].
  simpl. rewrite IH. simpl.
  destruct (Nat.eqb_spec (snd x) n) as [Hx | Hx];
    destruct (Nat.eqb_spec (snd y) n) as [Hy | Hy]; try reflexivity.
  lia.
Qed.

Lemma with_count_sort_desc (n : nat) (l : dict nat) :
  with_count n (sort_desc l) = with_count n l.
Proof.
  induction l as [| x l IH]; simpl; [reflexivity |].
  rewrite with_count_insert_desc. unfold with_count in *. simpl.
  now rewrite IH.
Qed.

Lemma dict_mem_str_mem {V : Type} (d : dict V) (k : string) :
  dict_mem d k = str_mem k (dict_keys d).
Proof.
  unfold dict_mem, str_mem. induction d as [| [k' v] d IH]; simpl;
    [reflexivity |].
  rewrite (String.eqb_sym k k').
  destruct (String.eqb k' k); simpl; [reflexivity | exact IH].
Qed.

Lemma tally_of_keys (ks : list string) :
  forall acc,
    dict_keys (tally_of ks acc)
    = fold_left (fun seen k => if str_mem k seen then seen else seen ++ [k])
                ks (dict_keys acc).
Proof.
  induction ks as [| k ks IH]; intros acc; simpl; [reflexivity |].
  rewrite IH, incr_count_keys, dict_mem_str_mem. reflexivity.
Qed.

Lemma keys_with_count (f : string -> nat) (n : nat) (t : dict nat) :
  (forall kv, In kv t -> snd kv = f (fst kv)) ->
  dict_keys (with_count n t)
  = filter (fun k => (f k =? n)%nat) (dict_keys t).
Proof.
  unfold with_count, dict_keys.
  induction t as [| kv t IH]; intros Hf; simpl; [reflexivity |].
  rewrite <- (Hf kv (or_introl eq_refl)).
  destruct (snd kv =? n)%nat; simpl; rewrite IH; auto;
    intros kv' Hkv'; apply Hf; now right.
Qed.

(** X3.  The sort of _count_detections_by_category is stable: the
    categories that end up with the same count [n] stand in the returned
    dict in the order in which the loop first met them. *)
Theorem tally_ties_keep_encounter_order :
  forall options (dets : list detection) (t : dict nat) (n : nat),
    _count_detections_by_category dets options = ok t ->
    dict_keys (with_count n t)
    = filter (fun k => (occurrences k (counted options dets) =? n)%nat)
             (encounter_order (counted options dets)).
Proof.
  intros options dets t n Ht.
  destruct (tally_ok_inv options dets t Ht) as [_ ->].
  rewrite with_count_sort_desc.
  rewrite (keys_with_count
             (fun k => occurrences k (counted options dets))).
  - now rewrite tally_of_keys.
  - intros [k m] Hin. simpl.
    apply In_dict_find in Hin; [| apply tally_of_NoDup; constructor].
    now apply tally_of_spec in Hin.
Qed.

Lemma tally_ties_keep_encounter_order_witness :
  dict_keys (with_count 2 [("b", 2); ("c", 2); ("a", 1)]) = ["b"; "c"].
Proof.
  rewrite (tally_ties_keep_encounter_order default_options fox_unit
             [("b", 2); ("c", 2); ("a", 1)] 2).
  - reflexivity.
  - reflexivity.
Defined.

(** X4.  _count_detections_by_category raises nothing but AssertionError,
    and raises it exactly when some detection of the list - wherever it
    stands, and whatever its classification confidences - has a
    'classifications' field, a confidence at or above the detection
    threshold, and a number of classification entries other than one. *)
Theorem tally_raises_iff_malformed :
  forall options (dets : list detection),
    (forall e, _count_detections_by_category dets options = inl e ->
               e = AssertionError) /\
    (_count_detections_by_category dets options = throw AssertionError <->
     exists d cs,
       In d dets /\ classifications d = Some cs /\
       num_ge (conf d) (detection_confidence_threshold options) = true /\
       List.length cs <> 1).
Proof.
  intros options dets. rewrite tally_closed.
  destruct (forallb (well_formed options) dets) eqn:Hwf.
  - split; [discriminate |]. split; [discriminate |].
    intros (d & cs & Hd & Hcs & Hconf & Hlen). exfalso.
    rewrite forallb_forall in Hwf. specialize (Hwf d Hd).
    unfold well_formed in Hwf. rewrite Hcs, Hconf in Hwf. simpl in Hwf.
    now apply Nat.eqb_eq in Hwf.
  - split; [now intros e [= <-] |]. split; [| reflexivity]. intros _.
    assert (Hex : exists d, In d dets /\ well_formed options d = false).
    { clear - Hwf. induction dets as [| d dets IH]; [discriminate |].
      simpl in Hwf. destruct (well_formed options d) eqn:E.
      - destruct (IH Hwf) as (d' & Hd' & Hf). exists d'. split; auto.
        now right.
      - exists d. split; [now left | exact E]. }
    destruct Hex as (d & Hd & Hf). unfold well_formed in Hf.
    destruct (classifications d) as [cs |] eqn:Hcs; [| discriminate].
    apply orb_false_iff in Hf as [Hconf Hlen].
    apply negb_false_iff in Hconf. apply Nat.eqb_neq in Hlen.
    now exists d, cs.
Qed.

(** ** The categories of a unit only get fewer *)

(** A loop whose body keeps [P], whether it returns or raises, keeps [P] on
    every address of a set that contains the unit. *)
Lemma for_each_invariant {S : Type}
    (body : detection -> S -> detection * result S)
    (P : detection -> Prop) (scope : list nat) :
  (forall d s, P d -> P (fst (body d s))) ->
  forall refs s st,
    incl refs scope ->
    (forall r, In r scope -> P (st r)) ->
    forall r, In r scope -> P (fst (for_each body refs s st) r).
Proof.
  intros Hbody. induction refs as [| r0 rest IH]; intros s st Hincl HP r Hr;
    simpl.
  - now apply HP.
  - assert (Hr0 : In r0 scope) by (apply Hincl; now left).
    pose proof (Hbody (st r0) s (HP r0 Hr0)) as Hd.
    assert (HP' : forall r', In r' scope ->
                    P (upd st r0 (fst (body (st r0) s)) r')).
    { intros r' Hr'. unfold upd. destruct (Nat.eqb r' r0); auto. }
    destruct (body (st r0) s) as [d' [e | s']]; simpl in *.
    + now apply HP'.
    + apply IH; auto. intros x Hx. apply Hincl. now right.
Qed.

Section InOrder.

Variable options : ClassificationSmoothingOptions.
Variable other_category_ids : list string.
Variable K : list string.

Lemma other_body_in_order (dom : string) (d : detection) (n : nat) :
  In dom K -> in_order options K d ->
  in_order options K (fst (other_body options other_category_ids dom d n)).
Proof.
  intros Hdom Hord. unfold other_body.
  destruct (classifications d) as [cs |]; [| exact Hord].
  destruct (num_ge _ _); [| exact Hord].
  destruct cs as [| c [| c' cs]]; try exact Hord.
  destruct (_ && _); simpl; [now apply in_order_relabel | exact Hord].
Qed.

Lemma flip_body_in_order (t : dict nat) (dom : string) (max_count : nat)
    (d : detection) (n : nat) :
  In dom K -> in_order options K d ->
  in_order options K (fst (flip_body options t dom max_count d n)).
Proof.
  intros Hdom Hord. unfold flip_body.
  destruct (classifications d) as [cs |]; [| exact Hord].
  destruct (num_ge _ _); [| exact Hord].
  destruct cs as [| c [| c' cs]]; try exact Hord.
  destruct (_ && _); [| exact Hord].
  destruct (dict_get t (fst c)) as [e | count_c]; [exact Hord |].
  destruct (_ && _); simpl; [now apply in_order_relabel | exact Hord].
Qed.

Lemma child_step_in_order (ds : dict string) (t : dict nat)
    (this desc : string) (cnt : nat) (cand : string) (d : detection)
    (n : nat) :
  In cand K -> in_order options K d ->
  in_order options K (fst (child_step ds t this desc cnt cand d n)).
Proof.
  intros Hc Hord. unfold child_step.
  destruct (String.eqb cand this); [exact Hord |].
  destruct (dict_get ds cand) as [e | dc]; [exact Hord |].
  destruct (_ =? 0)%nat; [exact Hord |].
  destruct (negb _); [exact Hord |].
  destruct (dict_get t cand) as [e | cc]; [exact Hord |].
  destruct (_ <? _)%nat; simpl; [now apply in_order_relabel | exact Hord].
Qed.

Lemma scan_children_in_order (ds : dict string) (t : dict nat)
    (this desc : string) (cnt : nat) :
  forall cands d n,
    incl cands K -> in_order options K d ->
    in_order options K (fst (scan_children ds t this desc cnt cands d n)).
Proof.
  induction cands as [| c cands IH]; intros d n Hincl Hord; simpl;
    [exact Hord |].
  pose proof (child_step_in_order ds t this desc cnt c d n
                (Hincl c (or_introl eq_refl)) Hord) as H1.
  destruct (child_step ds t this desc cnt c d n) as [d' [e | n']];
    simpl in *; [exact H1 |].
  apply IH; [| exact H1]. intros x Hx. apply Hincl. now right.
Qed.

Lemma taxonomy_body_in_order (ds : dict string) (t : dict nat)
    (d : detection) (n : nat) :
  incl (dict_keys t) K -> in_order options K d ->
  in_order options K (fst (taxonomy_body options ds t d n)).
Proof.
  intros Hincl Hord. unfold taxonomy_body.
  destruct (classifications d) as [cs |]; [| exact Hord].
  destruct (num_ge _ _); [| exact Hord].
  destruct cs as [| c [| c' cs]]; try exact Hord.
  destruct (num_lt _ _); [exact Hord |].
  cbv zeta. destruct (negb (dict_mem _ _)); [exact Hord |].
  destruct (dict_get ds (fst c)) as [e | desc]; [exact Hord |].
  destruct (dict_get t (fst c)) as [e | cnt]; [exact Hord |].
  now apply scan_children_in_order.
Qed.

Lemma dominant_In (t : dict nat) (keys : list string) (dom : string)
    (max_count : nat) :
  dominant t keys = ok (dom, max_count) -> In dom keys.
Proof.
  unfold dominant, list_get. destruct keys as [| k keys]; [discriminate |].
  simpl. destruct (dict_get t k) as [e | m]; [discriminate |].
  simpl. unfold ok. intros [= <- _]. now left.
Qed.

Lemma tie_break_incl (t : dict nat) (keys keys' : list string) :
  tie_break other_category_ids t keys = ok keys' -> incl keys' keys.
Proof.
  unfold tie_break.
  destruct (1 <? List.length keys)%nat; [| intros [= <-]; apply incl_refl].
  destruct keys as [| k0 [| k1 rest]]; try discriminate.
  - simpl. destruct (str_mem k0 other_category_ids); [discriminate |].
    intros [= <-]. apply incl_refl.
  - unfold list_get. simpl.
    destruct (str_mem k0 other_category_ids);
      [| intros [= <-]; apply incl_refl].
    destruct (negb (str_mem k1 other_category_ids));
      [| intros [= <-]; apply incl_refl].
    destruct (dict_get t k0) as [e | n0]; [discriminate |]. simpl.
    destruct (dict_get t k1) as [e | n1]; [discriminate |]. simpl.
    destruct (n0 =? n1)%nat; intros [= <-]; [| apply incl_refl].
    intros x [<- | [<- | Hx]]; simpl; auto.
Qed.

Lemma other_pass_in_order (refs : list nat) (t : dict nat) (st : store) :
  incl (dict_keys t) K ->
  (forall r, In r refs -> in_order options K (st r)) ->
  forall r, In r refs ->
    in_order options K
      (fst (other_pass options other_category_ids refs t st) r).
Proof.
  intros Hincl Hord. unfold other_pass, bind, lift.
  destruct (tie_break other_category_ids t (dict_keys t)) as [e | keys]
    eqn:Hkeys; [exact Hord |].
  destruct (dominant t keys) as [e | [dom max_count]] eqn:Hdom;
    [exact Hord |].
  destruct (_ && _); [| exact Hord].
  apply for_each_invariant; [| apply incl_refl | exact Hord].
  intros d s. apply other_body_in_order.
  apply Hincl. apply (tie_break_incl t _ keys Hkeys).
  now apply dominant_In in Hdom.
Qed.

Lemma flip_pass_in_order (refs : list nat) (st : store) :
  (forall r, In r refs -> in_order options K (st r)) ->
  forall r, In r refs ->
    in_order options K (fst (flip_pass options other_category_ids refs st) r).
Proof.
  intros Hord.
  destruct (tally_total options st refs K Hord) as (t & Ht & Hincl).
  unfold flip_pass, bind, lift, read_all. unfold ok at 1. cbv beta iota.
  rewrite Ht. unfold ok at 1. cbv beta iota.
  destruct (dominant t (dict_keys t)) as [e | [dom max_count]] eqn:Hdom;
    [exact Hord |].
  destruct (negb _); [| exact Hord].
  apply for_each_invariant; [| apply incl_refl | exact Hord].
  intros d s. apply flip_body_in_order.
  apply Hincl. now apply dominant_In in Hdom.
Qed.

Lemma taxonomy_pass_in_order (descriptions_clean : option (dict string))
    (refs : list nat) (st : store) :
  (forall r, In r refs -> in_order options K (st r)) ->
  forall r, In r refs ->
    in_order options K
      (fst (taxonomy_pass options descriptions_clean refs st) r).
Proof.
  intros Hord.
  destruct (tally_total options st refs K Hord) as (t & Ht & Hincl).
  unfold taxonomy_pass, bind, lift, read_all. unfold ok at 1.
  cbv beta iota. rewrite Ht. unfold ok at 1. cbv beta iota.
  destruct (dominant t (dict_keys t)) as [e | dom]; [exact Hord |].
  destruct descriptions_clean as [ds |]; [| exact Hord].
  destruct (_ && _); [| exact Hord].
  apply for_each_invariant; [| apply incl_refl | exact Hord].
  intros d s. now apply taxonomy_body_in_order.
Qed.

Lemma three_passes_in_order (descriptions_clean : option (dict string))
    (refs : list nat) (t : dict nat) (st : store) :
  incl (dict_keys t) K ->
  (forall r, In r refs -> in_order options K (st r)) ->
  forall r, In r refs ->
    in_order options K
      (fst (three_passes options other_category_ids descriptions_clean
              refs t st) r).
Proof.
  intros Hincl Hord. unfold three_passes, bind, ret.
  pose proof (other_pass_in_order refs t st Hincl Hord) as H1.
  destruct (other_pass options other_category_ids refs t st)
    as [st1 [e | n1]]; [exact H1 |]. simpl in H1.
  pose proof (flip_pass_in_order refs st1 H1) as H2.
  destruct (flip_pass options other_category_ids refs st1)
    as [st2 [e | n2]]; [exact H2 |]. simpl in H2.
  pose proof (taxonomy_pass_in_order descriptions_clean refs st2 H2) as H3.
  destruct (taxonomy_pass options descriptions_clean refs st2)
    as [st3 [e | n3]]; exact H3.
Qed.

End InOrder.

(** X5.  The Group Smoother never gives a detection a category that the unit
    did not already have: whether the run returns or raises, and whether or
    not detection objects are shared, every qualifying detection of the unit
    ends with the category that some qualifying detection of the unit had
    when the run started. *)
Theorem smoother_never_invents_a_category :
  forall options other_category_ids descriptions_clean
         (refs : list nat) (st : store),
    let st' := fst (_smooth_classifications_for_list_of_detections options
                      other_category_ids descriptions_clean refs st) in
    forall r,
      In r refs -> visible options (st' r) = true ->
      exists r0, In r0 refs /\ visible options (st r0) = true /\
                 category_id (st' r) = category_id (st r0).
Proof.
  intros options other_category_ids descriptions_clean refs st st' r Hr Hv.
  subst st'. rewrite smooth_cases in *.
  destruct (_count_detections_by_category (view st refs) options)
    as [e | t] eqn:Ht; [now exists r |].
  destruct (List.length t <=? 1)%nat; [now exists r |].
  pose proof (three_passes_in_order options other_category_ids (dict_keys t)
                descriptions_clean refs t st (incl_refl _)
                (in_order_of_tally options st refs t Ht) r Hr) as [_ Hcat].
  destruct (Hcat Hv) as (k & Hk & Hin).
  apply (tally_keys options _ _ k Ht) in Hin.
  apply counted_In in Hin as (d & Hd & Hvd & Hkd).
  unfold view in Hd. apply in_map_iff in Hd as (r0 & <- & Hr0).
  exists r0. repeat split; auto. congruence.
Qed.

Lemma smoother_never_invents_a_category_witness :
  exists r0,
    In r0 (addresses cow_unit) /\
    visible default_options (store_of cow_unit r0) = true /\
    category_id
      (fst (_smooth_classifications_for_list_of_detections default_options
              ["other"] None (addresses cow_unit) (store_of cow_unit)) 2)
    = category_id (store_of cow_unit r0).
Proof.
  apply (smoother_never_invents_a_category default_options ["other"] None
           (addresses cow_unit) (store_of cow_unit) 2).
  - simpl. auto.
  - reflexivity.
Defined.

(** ** Units that share no detection *)

Lemma frames_ret {A : Type} (refs : list nat) (x : A) : frames refs (ret x).
Proof. now intros st a _. Qed.

Lemma frames_lift {A : Type} (refs : list nat) (r : result A) :
  frames refs (lift r).
Proof. now intros st a _. Qed.

Lemma frames_bind {A B : Type} (refs : list nat) (m : M A) (f : A -> M B) :
  frames refs m -> (forall x, frames refs (f x)) -> frames refs (bind m f).
Proof.
  intros Hm Hf st a Ha. unfold bind. specialize (Hm st a Ha).
  destruct (m st) as [st1 [e | x]]; simpl in *; [exact Hm |].
  now rewrite Hf.
Qed.

Lemma frames_read {A : Type} (refs refs' : list nat)
    (f : list detection -> M A) :
  (forall dets, frames refs (f dets)) -> frames refs (bind (read_all refs') f).
Proof.
  intros Hf. apply frames_bind; [now intros st a _ | exact Hf].
Qed.

Lemma frames_for_each {S : Type}
    (body : detection -> S -> detection * result S) (refs : list nat)
    (s : S) :
  frames refs (for_each body refs s).
Proof. intros st a Ha. now apply for_each_frame. Qed.

Lemma smooth_frames (options : ClassificationSmoothingOptions)
    (other_category_ids : list string)
    (descriptions_clean : option (dict string)) (refs : list nat) :
  frames refs (_smooth_classifications_for_list_of_detections options
                 other_category_ids descriptions_clean refs).
Proof.
  unfold _smooth_classifications_for_list_of_detections, other_pass,
    flip_pass, taxonomy_pass.
  repeat first
    [ apply frames_read; intros ?
    | apply frames_bind; [| intros ?]
    | apply frames_lift
    | apply frames_ret
    | apply frames_for_each
    | match goal with
      | |- frames _ (if ?b then _ else _) => destruct b
      | |- frames _ (let '(_, _) := ?p in _) => destruct p
      | |- frames _ (match ?o with Some _ => _ | None => _ end) =>
          destruct o
      end ].
Qed.

Lemma reads_only_ret {A : Type} (refs : list nat) (x : A) :
  reads_only refs (ret x).
Proof. intros st st' H. now split. Qed.

Lemma reads_only_lift {A : Type} (refs : list nat) (r : result A) :
  reads_only refs (lift r).
Proof. intros st st' H. now split. Qed.

Lemma reads_only_bind {A B : Type} (refs : list nat) (m : M A)
    (f : A -> M B) :
  reads_only refs m -> (forall x, reads_only refs (f x)) ->
  reads_only refs (bind m f).
Proof.
  intros Hm Hf st st' H. unfold bind.
  destruct (Hm st st' H) as [Hr Hs].
  destruct (m st) as [st1 r1], (m st') as [st1' r1']. simpl in *. subst r1'.
  destruct r1 as [e | x]; [now split |]. now apply Hf.
Qed.

Lemma reads_only_for_each {S : Type}
    (body : detection -> S -> detection * result S) (scope : list nat) :
  forall refs s, incl refs scope -> reads_only scope (for_each body refs s).
Proof.
  induction refs as [| r rest IH]; intros s Hincl st st' H; simpl;
    [now split |].
  rewrite <- (H r) by (apply Hincl; now left).
  assert (Hupd : forall d a, In a scope -> upd st r d a = upd st' r d a).
  { intros d a Ha. unfold upd. destruct (Nat.eqb a r); auto. }
  destruct (body (st r) s) as [d' [e | s']]; simpl.
  - split; [reflexivity | apply Hupd].
  - apply IH; [| apply Hupd]. intros x Hx. apply Hincl. now right.
Qed.

Lemma reads_only_read {A : Type} (refs : list nat)
    (f : list detection -> M A) :
  (forall dets, reads_only refs (f dets)) ->
  reads_only refs (bind (read_all refs) f).
Proof.
  intros Hf st st' H. unfold bind, read_all. unfold ok. cbv beta iota.
  assert (view st refs = view st' refs) as <-
    by (unfold view; now apply map_ext_in).
  now apply Hf.
Qed.

Lemma smooth_reads_only (options : ClassificationSmoothingOptions)
    (other_category_ids : list string)
    (descriptions_clean : option (dict string)) (refs : list nat) :
  reads_only refs (_smooth_classifications_for_list_of_detections options
                     other_category_ids descriptions_clean refs).
Proof.
  unfold _smooth_classifications_for_list_of_detections, other_pass,
    flip_pass, taxonomy_pass.
  repeat first
    [ apply reads_only_read; intros ?
    | apply reads_only_bind; [| intros ?]
    | apply reads_only_lift
    | apply reads_only_ret
    | apply reads_only_for_each; apply incl_refl
    | match goal with
      | |- reads_only _ (if ?b then _ else _) => destruct b
      | |- reads_only _ (let '(_, _) := ?p in _) => destruct p
      | |- reads_only _ (match ?o with Some _ => _ | None => _ end) =>
          destruct o
      end ].
Qed.

(** X6.  A Group Smoother run writes no detection outside its unit, and two
    units that share no detection object do not interact: what the smoother
    returns or raises for one of them is the same whether or not the other
    was smoothed before, and smoothing them in either order leaves the same
    detections. *)
Theorem disjoint_units_do_not_interact :
  forall options other_category_ids descriptions_clean
         (refs1 refs2 : list nat) (st : store),
    (forall a, In a refs1 -> ~ In a refs2) ->
    let run1 := _smooth_classifications_for_list_of_detections options
                  other_category_ids descriptions_clean refs1 in
    let run2 := _smooth_classifications_for_list_of_detections options
                  other_category_ids descriptions_clean refs2 in
    (forall a, ~ In a refs1 -> fst (run1 st) a = st a) /\
    snd (run2 (fst (run1 st))) = snd (run2 st) /\
    snd (run1 (fst (run2 st))) = snd (run1 st) /\
    (forall a, fst (run2 (fst (run1 st))) a = fst (run1 (fst (run2 st))) a).
Proof.
  intros options other_category_ids descriptions_clean refs1 refs2 st Hdisj
         run1 run2.
  pose proof (smooth_frames options other_category_ids descriptions_clean
                refs1) as Hf1.
  pose proof (smooth_frames options other_category_ids descriptions_clean
                refs2) as Hf2.
  pose proof (smooth_reads_only options other_category_ids descriptions_clean
                refs1) as Hr1.
  pose proof (smooth_reads_only options other_category_ids descriptions_clean
                refs2) as Hr2.
  fold run1 in Hf1, Hr1. fold run2 in Hf2, Hr2.
  assert (H12 : forall a, In a refs2 -> fst (run1 st) a = st a).
  { intros a Ha. apply Hf1. intros Ha1. now apply (Hdisj a). }
  assert (H21 : forall a, In a refs1 -> fst (run2 st) a = st a).
  { intros a Ha. apply Hf2. now apply Hdisj. }
  destruct (Hr2 (fst (run1 st)) st H12) as [Hres2 Hst2].
  destruct (Hr1 (fst (run2 st)) st H21) as [Hres1 Hst1].
  split; [exact (Hf1 st) |]. split; [exact Hres2 |]. split; [exact Hres1 |].
  intros a.
  destruct (in_dec Nat.eq_dec a refs1) as [Ha1 | Ha1].
  - rewrite (Hf2 (fst (run1 st)) a (Hdisj a Ha1)). symmetry. now apply Hst1.
  - rewrite (Hf1 (fst (run2 st)) a Ha1).
    destruct (in_dec Nat.eq_dec a refs2) as [Ha2 | Ha2].
    + now apply Hst2.
    + rewrite (Hf2 (fst (run1 st)) a Ha2), (Hf2 st a Ha2). now apply Hf1.
Qed.

Lemma disjoint_units_do_not_interact_witness :
  snd (_smooth_classifications_for_list_of_detections default_options
         ["other"] None [3; 4; 5]
         (fst (_smooth_classifications_for_list_of_detections default_options
                 ["other"] None [0; 1; 2]
                 (store_of (cow_unit ++ cow_unit)))))
  = snd (_smooth_classifications_for_list_of_detections default_options
           ["other"] None [3; 4; 5] (store_of (cow_unit ++ cow_unit))).
Proof.
  apply (disjoint_units_do_not_interact default_options ["other"] None
           [0; 1; 2] [3; 4; 5] (store_of (cow_unit ++ cow_unit))).
  intros a [<- | [<- | [<- | []]]] [H | [H | [H | []]]]; discriminate.
Defined.

(** ** The description string *)

Lemma split_on_length (sep : ascii) (s : string) :
  List.length (split_on sep s) = S (count_char sep s).
Proof.
  induction s as [| c s IH]; simpl; [reflexivity |].
  destruct (Ascii.eqb c sep); simpl; [now rewrite IH |].
  destruct (split_on sep s) as [| t ts]; [discriminate | exact IH].
Qed.

Lemma seven_fields_tokens (description : string) :
  negb (List.length (split_on ";"%char description) =? 7)%nat
  = negb (seven_fields description).
Proof. unfold seven_fields. now rewrite split_on_length. Qed.

Lemma description_strings_ok (t : dict nat) (ds : dict string)
    (keys : list string) :
  (exists l, description_strings t (Some ds) keys = ok l) <->
  (forall k, In k keys ->
     (exists desc, dict_find ds k = Some desc /\ seven_fields desc = true) /\
     dict_find t k <> None).
Proof.
  induction keys as [| k keys IH].
  - simpl. split; [intros _ k [] | intros _; now exists []].
  - cbn [description_strings]. unfold dict_get.
    destruct (dict_find ds k) as [desc |] eqn:Hdesc.
    + unfold ok at 1, rbind at 1. cbv zeta. rewrite seven_fields_tokens.
      destruct (seven_fields desc) eqn:H7; cbn [negb].
      * destruct (dict_find t k) as [count |] eqn:Hcount.
        -- unfold ok at 1, rbind at 1.
           destruct (description_strings t (Some ds) keys) as [e | l] eqn:Hl.
           ++ split; [intros (l' & Habs); discriminate |].
              intros Hall. exfalso.
              assert (Hex : exists l, @inl exn (list string) e = ok l).
              { apply IH. intros k' Hk'. apply Hall. now right. }
              destruct Hex as (l' & Habs). discriminate.
           ++ split; [| intros _; eexists; reflexivity].
              intros _ k' [<- | Hk'].
              ** split; [now exists desc | congruence].
              ** destruct IH as [IH _]. apply IH; [now exists l | exact Hk'].
        -- split; [intros (l' & Habs); discriminate |].
           intros Hall. destruct (Hall k (or_introl eq_refl)) as [_ Hne].
           congruence.
      * split; [intros (l' & Habs); discriminate |].
        intros Hall.
        destruct (Hall k (or_introl eq_refl)) as [(desc' & Hd & H7') _].
        congruence.
    + split; [intros (l' & Habs); discriminate |].
      intros Hall.
      destruct (Hall k (or_introl eq_refl)) as [(desc' & Hd & _) _].
      congruence.
Qed.

(** X7.  _get_description_string returns the empty string for an empty
    tally, whatever the descriptions are.  For a tally that is not empty it
    raises TypeError when there are no descriptions (None), and with
    descriptions it returns a string exactly when every tallied category has
    a description and that description has seven semicolon-separated
    fields. *)
Theorem description_string_outcomes :
  forall (t : dict nat) (descriptions : option (dict string)),
    _get_description_string [] descriptions = ok "" /\
    (t <> [] -> _get_description_string t None = throw TypeError) /\
    (forall ds,
        (exists s, _get_description_string t (Some ds) = ok s) <->
        (forall k, In k (dict_keys t) ->
           exists desc, dict_find ds k = Some desc /\
                        seven_fields desc = true)).
Proof.
  intros t descriptions. split; [reflexivity |]. split.
  - intros Hne. destruct t as [| [k n] t]; [congruence | reflexivity].
  - intros ds. unfold _get_description_string.
    pose proof (description_strings_ok t ds (dict_keys t)) as Hok.
    destruct (description_strings t (Some ds) (dict_keys t)) as [e | l].
    + split; [intros (s & Habs); discriminate |].
      intros Hall. exfalso.
      assert (Hex : exists l, @inl exn (list string) e = ok l).
      { apply Hok. intros k Hk. split; [now apply Hall |].
        now apply dict_find_keys. }
      destruct Hex as (l & Habs). discriminate.
    + split; [| intros _; eexists; reflexivity].
      intros _ k Hk. destruct Hok as [Hok _].
      now apply Hok; [exists l |].
Qed.

(** ** What normalization establishes *)

Lemma normalize_images_ok_inv (ims ims' : list image) :
  normalize_images ims = (ims', ok tt) ->
  all_sorted ims = true /\ ims' = map top_only_image ims.
Proof.
  intros Hrun. destruct (all_sorted ims) eqn:Hs.
  - rewrite (normalize_images_sorted ims Hs) in Hrun. split; congruence.
  - apply normalize_images_unsorted in Hs. rewrite Hrun in Hs. discriminate.
Qed.

Lemma top_only_well_formed (options : ClassificationSmoothingOptions)
    (d : detection) :
  well_formed options (top_only d) = true.
Proof.
  unfold well_formed, top_only. simpl.
  destruct (classifications d) as [[| c cs] |]; try reflexivity.
  simpl. apply orb_true_r.
Qed.

Lemma top_only_twice (d : detection) : top_only (top_only d) = top_only d.
Proof.
  unfold top_only. simpl. now destruct (classifications d) as [[| c cs] |].
Qed.

Lemma top_only_sorted (d : detection) : unsorted (top_only d) = false.
Proof.
  unfold unsorted, top_only. simpl.
  now destruct (classifications d) as [[| c cs] |].
Qed.

Lemma image_dets_top_only (im : image) :
  image_dets (top_only_image im) = map top_only (image_dets im).
Proof.
  unfold top_only_image, image_dets.
  destruct (im_detections im) as [[| d dets] |] eqn:Hd;
    try rewrite Hd; reflexivity.
Qed.

Lemma top_only_image_twice (im : image) :
  top_only_image (top_only_image im) = top_only_image im.
Proof.
  unfold top_only_image at 2 3.
  destruct (im_detections im) as [[| d dets] |] eqn:Hd;
    try (unfold top_only_image; now rewrite Hd).
  unfold top_only_image, set_detections. simpl. f_equal. f_equal.
  f_equal; [apply top_only_twice |].
  rewrite map_map. apply map_ext. intros x. apply top_only_twice.
Qed.

(** X8.  Normalization establishes what tallying assumes.  Once the
    normalization loop of _prepare_results_for_smoothing has run to its end,
    every detection of every image is well formed for whatever thresholds,
    so that _count_detections_by_category returns - its assertion does not
    fire - on the detections of any image and on any list made of
    detections of the images, as the sequence driver builds them. *)
Theorem normalization_establishes_the_tally_precondition :
  forall (ims ims' : list image),
    normalize_images ims = (ims', ok tt) ->
    forall options (dets : list detection),
      (forall d, In d dets -> exists im, In im ims' /\ In d (image_dets im)) ->
      Forall (fun d => well_formed options d = true) dets /\
      exists t, _count_detections_by_category dets options = ok t.
Proof.
  intros ims ims' Hrun options dets Hfrom.
  apply normalize_images_ok_inv in Hrun as [_ ->].
  assert (Hwf : forall d, In d dets -> well_formed options d = true).
  { intros d Hd. destruct (Hfrom d Hd) as (im' & Him' & Hin).
    apply in_map_iff in Him' as (im & <- & _).
    rewrite image_dets_top_only in Hin.
    apply in_map_iff in Hin as (d0 & <- & _). apply top_only_well_formed. }
  split; [now apply Forall_forall |].
  rewrite tally_closed.
  assert (forallb (well_formed options) dets = true) as ->
    by now apply forallb_forall.
  eexists. reflexivity.
Qed.

Lemma normalization_establishes_the_tally_precondition_witness :
  exists t,
    _count_detections_by_category
      (image_dets (top_only_image
                     {| im_file := "a.jpg";
                        im_detections := Some [sure "1"; sure "1"; sure "2"];
                        im_pre_smoothing_description := None |}))
      default_options = ok t.
Proof.
  apply (normalization_establishes_the_tally_precondition
           (images cow_results) (map top_only_image (images cow_results))).
  - reflexivity.
  - intros d Hd. eexists. split; [left; reflexivity | exact Hd].
Defined.

(** X9.  Normalization is idempotent: run on images it has already
    normalized, the normalization loop succeeds and changes nothing. *)
Theorem normalization_is_idempotent :
  forall (ims ims' : list image),
    normalize_images ims = (ims', ok tt) ->
    normalize_images ims' = (ims', ok tt).
Proof.
  intros ims ims' Hrun.
  apply normalize_images_ok_inv in Hrun as [_ ->].
  rewrite normalize_images_sorted.
  - f_equal. rewrite map_map. apply map_ext. apply top_only_image_twice.
  - unfold all_sorted. apply forallb_forall. intros im' Him'.
    apply in_map_iff in Him' as (im & <- & _).
    rewrite image_dets_top_only. apply forallb_forall. intros d Hd.
    apply in_map_iff in Hd as (d0 & <- & _). now rewrite top_only_sorted.
Qed.

Lemma normalization_is_idempotent_witness :
  normalize_images (map top_only_image (images cow_results))
  = (map top_only_image (images cow_results), ok tt).
Proof.
  apply (normalization_is_idempotent (images cow_results)). reflexivity.
Defined.

(** ** What a run on normalized detections can raise *)

Lemma for_each_raises {S : Type}
    (body : detection -> S -> detection * result S)
    (P : detection -> Prop) (Q : exn -> Prop) (scope : list nat) :
  (forall d s, P d -> P (fst (body d s))) ->
  (forall d s e, P d -> snd (body d s) = inl e -> Q e) ->
  forall refs s st,
    incl refs scope ->
    (forall r, In r scope -> P (st r)) ->
    forall e, snd (for_each body refs s st) = inl e -> Q e.
Proof.
  intros Hkeep Hraise.
  induction refs as [| r0 rest IH]; intros s st Hincl HP e; simpl;
    [discriminate |].
  assert (Hr0 : In r0 scope) by (apply Hincl; now left).
  pose proof (Hkeep (st r0) s (HP r0 Hr0)) as Hd.
  pose proof (Hraise (st r0) s) as He.
  destruct (body (st r0) s) as [d' [e' | s']]; simpl in *.
  - intros [= <-]. now apply He; [apply HP |].
  - apply IH.
    + intros x Hx. apply Hincl. now right.
    + intros r' Hr'. unfold upd. destruct (Nat.eqb r' r0); auto.
Qed.

Section Raises.

Variable options : ClassificationSmoothingOptions.
Variable other_category_ids : list string.

Lemma child_step_raises (ds : dict string) (t : dict nat)
    (this desc : string) (cnt : nat) (cand : string) (d : detection)
    (n : nat) (e : exn) :
  In cand (dict_keys t) ->
  snd (child_step ds t this desc cnt cand d n) = inl e ->
  missing_description ds t e.
Proof.
  intros Hc. unfold child_step.
  destruct (String.eqb cand this); [discriminate |].
  unfold dict_get at 1.
  destruct (dict_find ds cand) as [dc |] eqn:Hdc.
  - unfold ok at 1. cbv beta iota.
    destruct (_ =? 0)%nat; [discriminate |].
    destruct (negb _); [discriminate |].
    destruct (dict_get_keys t cand Hc) as (cc & -> & _).
    unfold ok at 1. cbv beta iota.
    destruct (_ <? _)%nat; discriminate.
  - simpl. intros [= <-]. split; [reflexivity |]. now exists cand.
Qed.

Lemma scan_children_raises (ds : dict string) (t : dict nat)
    (this desc : string) (cnt : nat) :
  forall cands d n e,
    incl cands (dict_keys t) ->
    snd (scan_children ds t this desc cnt cands d n) = inl e ->
    missing_description ds t e.
Proof.
  induction cands as [| c cands IH]; intros d n e Hincl; simpl;
    [discriminate |].
  pose proof (child_step_raises ds t this desc cnt c d n) as H1.
  destruct (child_step ds t this desc cnt c d n) as [d' [e' | n']];
    simpl in *.
  - intros [= <-]. apply H1; [| reflexivity]. apply Hincl. now left.
  - apply IH. intros x Hx. apply Hincl. now right.
Qed.

Lemma taxonomy_body_raises (ds : dict string) (t : dict nat)
    (d : detection) (n : nat) (e : exn) :
  in_order options (dict_keys t) d /\ comparable options d = true ->
  snd (taxonomy_body options ds t d n) = inl e ->
  missing_description ds t e.
Proof.
  intros [[Hwf Hcat] Hcmp].
  unfold taxonomy_body, well_formed, visible, comparable in *.
  destruct (classifications d) as [cs |] eqn:Hcs; [| discriminate].
  destruct (num_ge (conf d) (detection_confidence_threshold options));
    [| discriminate].
  simpl in Hwf.
  destruct cs as [| c [| c' cs]]; try discriminate.
  destruct (num_ge (snd c) (classification_confidence_threshold options))
    eqn:Hge; [rewrite (num_ge_not_lt _ _ Hge) | simpl in Hcmp; rewrite Hcmp;
                                                discriminate].
  cbv zeta.
  destruct (Hcat eq_refl) as (k & Hk & Hin). unfold category_id in Hk.
  rewrite Hcs in Hk. injection Hk as <-.
  unfold dict_mem. destruct (dict_get_keys t (fst c) Hin) as (cnt & Hg & ->).
  cbn [negb]. unfold dict_get at 1.
  destruct (dict_find ds (fst c)) as [desc |] eqn:Hdesc.
  - unfold ok at 1. cbv beta iota. rewrite Hg. unfold ok at 1.
    cbv beta iota. apply scan_children_raises. apply incl_refl.
  - simpl. intros [= <-]. split; [reflexivity |]. now exists (fst c).
Qed.

Lemma taxonomy_pass_raises (descriptions_clean : option (dict string))
    (refs : list nat) (st : store) (K : list string) (e : exn) :
  (forall r, In r refs -> in_order options K (st r)) ->
  (descriptions_clean <> None ->
   forall r, In r refs -> comparable options (st r) = true) ->
  (exists r, In r refs /\ visible options (st r) = true) ->
  snd (taxonomy_pass options descriptions_clean refs st) = inl e ->
  e = KeyError /\
  exists ds k, descriptions_clean = Some ds /\ In k K /\
               dict_find ds k = None.
Proof.
  intros Hord Hcmp (r0 & Hr0 & Hv0).
  destruct (tally_total options st refs K Hord) as (t & Ht & Hincl).
  destruct (tally_nonempty options st refs t r0 Ht Hr0 Hv0)
    as (dom & max_count & rest & ->).
  unfold taxonomy_pass, bind, lift, read_all. unfold ok at 1. cbv beta iota.
  rewrite Ht. unfold ok at 1. cbv beta iota.
  rewrite dominant_head. unfold ok at 1. cbv beta iota.
  destruct descriptions_clean as [ds |]; [| discriminate].
  destruct (_ && _); [| discriminate].
  intros Hrun.
  destruct (for_each_raises
              (taxonomy_body options ds ((dom, max_count) :: rest))
              (fun d =>
                 in_order options (dict_keys ((dom, max_count) :: rest)) d
                 /\ comparable options d = true)
              (missing_description ds ((dom, max_count) :: rest)) refs)
    with (refs := refs) (s := 0) (st := st) (e := e)
    as (He & k & Hk & Hnone).
  - intros d s [Hd Hc]. split.
    + apply taxonomy_body_in_order; [apply incl_refl | exact Hd].
    + now rewrite (relabel_of_comparable options _ _
                     (taxonomy_body_relabel options ds _ d s)).
  - intros d s e'. apply taxonomy_body_raises.
  - apply incl_refl.
  - intros r Hr. split; [| now apply Hcmp].
    now apply (in_order_of_tally options st refs _ Ht).
  - exact Hrun.
  - split; [exact He |]. exists ds, k. repeat split; auto.
Qed.

Lemma three_passes_raises (descriptions_clean : option (dict string))
    (refs : list nat) (t : dict nat) (st : store) (e : exn) :
  _count_detections_by_category (view st refs) options = ok t ->
  2 <= List.length t ->
  (descriptions_clean <> None ->
   forall r, In r refs -> comparable options (st r) = true) ->
  snd (three_passes options other_category_ids descriptions_clean refs t st)
  = inl e ->
  e = KeyError /\
  exists ds k, descriptions_clean = Some ds /\ In k (dict_keys t) /\
               dict_find ds k = None.
Proof.
  intros Ht Hlen Hcmp.
  assert (Hrel : forall m : M nat,
             keeps relabel_of m ->
             forall sta r, visible options (sta r) = true ->
                           visible options (fst (m sta) r) = true).
  { intros m Hm sta r Hv.
    now rewrite (relabel_of_visible options _ _ (Hm sta r)). }
  assert (Hrel' : forall m : M nat,
             keeps relabel_of m ->
             forall sta r, comparable options (sta r) = true ->
                           comparable options (fst (m sta) r) = true).
  { intros m Hm sta r Hv.
    now rewrite (relabel_of_comparable options _ _ (Hm sta r)). }
  destruct (tally_visible options st refs t Ht) as (r0 & Hr0 & Hv0).
  { destruct t; [simpl in Hlen; lia | discriminate]. }
  destruct (other_pass_total options other_category_ids refs st t Ht Hlen)
    as (st1 & n1 & Hrun1 & Hord1).
  assert (Hv1 : visible options (st1 r0) = true).
  { specialize (Hrel (other_pass options other_category_ids refs t)).
    specialize (Hrel (other_pass_keeps options other_category_ids relabel_of
                        relabel_of_refl relabel_of_trans
                        (other_body_relabel options other_category_ids)
                        refs t) st r0 Hv0).
    now rewrite Hrun1 in Hrel. }
  destruct (flip_pass_total options other_category_ids refs st1 (dict_keys t)
              Hord1 (ex_intro _ r0 (conj Hr0 Hv1)))
    as (st2 & n2 & Hrun2 & Hord2).
  assert (Hv2 : visible options (st2 r0) = true).
  { specialize (Hrel (flip_pass options other_category_ids refs)).
    specialize (Hrel (flip_pass_keeps options other_category_ids relabel_of
                        relabel_of_refl relabel_of_trans
                        (flip_body_relabel options) refs) st1 r0 Hv1).
    now rewrite Hrun2 in Hrel. }
  assert (Hcmp2 : descriptions_clean <> None ->
                  forall r, In r refs -> comparable options (st2 r) = true).
  { intros Hds r Hr.
    pose proof (Hrel' _ (flip_pass_keeps options other_category_ids
                           relabel_of relabel_of_refl relabel_of_trans
                           (flip_body_relabel options) refs) st1 r) as H2.
    rewrite Hrun2 in H2. apply H2.
    pose proof (Hrel' _ (other_pass_keeps options other_category_ids
                           relabel_of relabel_of_refl relabel_of_trans
                           (other_body_relabel options other_category_ids)
                           refs t) st r) as H1.
    rewrite Hrun1 in H1. apply H1. now apply Hcmp. }
  pose proof (taxonomy_pass_raises descriptions_clean refs st2 (dict_keys t)
                e Hord2 Hcmp2 (ex_intro _ r0 (conj Hr0 Hv2))) as H3.
  unfold three_passes, bind, ret. rewrite Hrun1. unfold ok at 1.
  cbv beta iota. rewrite Hrun2. unfold ok at 1. cbv beta iota.
  destruct (taxonomy_pass options descriptions_clean refs st2)
    as [st3 [e' | n3]]; simpl in *; [| discriminate].
  intros [= <-]. now apply H3.
Qed.

End Raises.

(** X10.  On a unit whose detections are well formed - as normalization
    leaves them - and, if cleaned descriptions are given, have classification
    confidences that compare with the threshold (none is NaN), the only
    exception a Group Smoother run can raise is KeyError, and it raises it
    only when cleaned descriptions are given and the category of some
    qualifying detection of the unit has no cleaned description: the
    assertions of the tally and of the passes do not fire, and no lookup in
    the tally fails.  (With a NaN confidence the assertion of pass 3 can
    fire: see [nan_trips_the_assertion].) *)
Theorem smoother_raises_only_for_a_missing_description :
  forall options other_category_ids descriptions_clean
         (refs : list nat) (st : store) (e : exn),
    (forall r, In r refs -> well_formed options (st r) = true) ->
    (descriptions_clean <> None ->
     forall r, In r refs -> comparable options (st r) = true) ->
    snd (_smooth_classifications_for_list_of_detections options
           other_category_ids descriptions_clean refs st) = inl e ->
    e = KeyError /\
    exists ds k r0,
      descriptions_clean = Some ds /\ In r0 refs /\
      visible options (st r0) = true /\ category_id (st r0) = Some k /\
      dict_find ds k = None.
Proof.
  intros options other_category_ids descriptions_clean refs st e Hwf Hcmp.
  rewrite smooth_cases, tally_closed.
  assert (forallb (well_formed options) (view st refs) = true) as ->.
  { apply forallb_forall. intros d Hd. unfold view in Hd.
    apply in_map_iff in Hd as (r & <- & Hr). now apply Hwf. }
  unfold ok at 1. cbv beta iota.
  set (t := sort_desc (tally_of (counted options (view st refs)) [])).
  assert (Ht : _count_detections_by_category (view st refs) options = ok t).
  { rewrite tally_closed.
    assert (forallb (well_formed options) (view st refs) = true) as ->;
      [| reflexivity].
    apply forallb_forall. intros d Hd. unfold view in Hd.
    apply in_map_iff in Hd as (r & <- & Hr). now apply Hwf. }
  destruct (Nat.leb_spec (List.length t) 1) as [Hlen | Hlen];
    [discriminate |].
  intros Hrun.
  destruct (three_passes_raises options other_category_ids descriptions_clean
              refs t st e Ht Hlen Hcmp Hrun)
    as (He & ds & k & Hds & Hk & Hnone).
  split; [exact He |].
  apply (tally_keys options _ _ k Ht) in Hk.
  apply counted_In in Hk as (d & Hd & Hv & Hcat).
  unfold view in Hd. apply in_map_iff in Hd as (r0 & <- & Hr0).
  now exists ds, k, r0.
Qed.

Lemma smoother_raises_only_for_a_missing_description_witness :
  exists ds k r0,
    Some [("a", "fox")] = Some ds /\ In r0 (addresses fox_unit) /\
    visible default_options (store_of fox_unit r0) = true /\
    category_id (store_of fox_unit r0) = Some k /\
    dict_find ds k = None.
Proof.
  apply (smoother_raises_only_for_a_missing_description default_options []
           (Some [("a", "fox")]) (addresses fox_unit) (store_of fox_unit)
           KeyError).
  - intros r [<- | [<- | [<- | [<- | [<- | []]]]]]; reflexivity.
  - intros _. exact fox_comparable.
  - reflexivity.
Defined.

(** ** Results without category descriptions *)

Lemma tally_nil_iff (options : ClassificationSmoothingOptions)
    (dets : list detection) (t : dict nat) :
  _count_detections_by_category dets options = ok t ->
  (t = [] <-> existsb (visible options) dets = false).
Proof.
  intros Ht. split.
  - intros ->. destruct (existsb (visible options) dets) eqn:E;
      [| reflexivity].
    apply existsb_exists in E as (d & Hd & Hv).
    destruct (visible_inv options d Hv) as (c & _ & _ & _ & Hcat).
    assert (Hin : In (fst c) (@dict_keys nat [])).
    { apply (tally_keys options dets [] (fst c) Ht). apply counted_In.
      now exists d. }
    contradiction.
  - intros Hnone. destruct t as [| [k n] t]; [reflexivity |].
    assert (Hk : In k (counted options dets)).
    { apply (tally_keys options dets _ k Ht). now left. }
    apply counted_In in Hk as (d & Hd & Hv & _).
    assert (existsb (visible options) dets = true); [| congruence].
    apply existsb_exists. now exists d.
Qed.

Lemma describe_images_without_descriptions
    (options : ClassificationSmoothingOptions) (ims : list image) :
  (forall im d, In im ims -> In d (image_dets im) ->
                well_formed options d = true) ->
  if some_qualifying options ims
  then snd (describe_images options None ims) = throw TypeError
  else describe_images options None ims = (map (described "") ims, ok tt).
Proof.
  unfold some_qualifying.
  induction ims as [| im ims IH]; intros Hwf; [reflexivity |].
  assert (IH' := IH (fun im' d H => Hwf im' d (or_intror H))). clear IH.
  cbn [existsb describe_images map]. unfold described at 1.
  pose proof (Hwf im) as Him. unfold image_dets in Him |- * at 1.
  destruct (im_detections im) as [[| d dets] |] eqn:Hdets.
  - cbn [existsb orb].
    destruct (existsb _ ims);
      destruct (describe_images options None ims) as [rest r]; simpl in *;
      congruence.
  - assert (Hok : exists t,
               _count_detections_by_category (d :: dets) options = ok t).
    { rewrite tally_closed.
      assert (forallb (well_formed options) (d :: dets) = true) as ->.
      { apply forallb_forall. intros x Hx. apply Him; [now left | exact Hx]. }
      eexists. reflexivity. }
    destruct Hok as (t & Ht). rewrite Ht. unfold ok at 1, rbind at 1.
    pose proof (tally_nil_iff options (d :: dets) t Ht) as Hnil.
    destruct (existsb (visible options) (d :: dets)) eqn:Hq.
    + cbn [orb]. destruct t as [| [k n] t].
      * destruct Hnil as [Hnil _]. specialize (Hnil eq_refl). discriminate.
      * reflexivity.
    + cbn [orb]. destruct Hnil as [_ Hnil]. rewrite (Hnil eq_refl).
      change (_get_description_string [] None) with (@ok string "").
      unfold ok at 1. cbv beta iota.
      destruct (existsb _ ims);
        destruct (describe_images options None ims) as [rest r]; simpl in *;
        congruence.
  - cbn [existsb orb].
    destruct (existsb _ ims);
      destruct (describe_images options None ims) as [rest r]; simpl in *;
      congruence.
Qed.

Lemma prepare_raises (clean : string -> result string)
    (options : ClassificationSmoothingOptions) (input_file : nat) (h : heap)
    (e : exn) :
  (forall loc,
      snd (prepare_body clean options loc (objects h input_file)) = throw e) ->
  snd (_prepare_results_for_smoothing clean input_file options h) = throw e.
Proof.
  intros H. unfold _prepare_results_for_smoothing, hbind, hret, deepcopy,
    at_loc.
  destruct (modify_in_place options); unfold ok; cbv beta iota.
  - pose proof (H input_file) as Hp.
    now destruct (prepare_body clean options input_file
                    (objects h input_file)).
  - simpl objects. rewrite Nat.eqb_refl.
    pose proof (H (next_loc h)) as Hp.
    now destruct (prepare_body clean options (next_loc h)
                    (objects h input_file)).
Qed.

Lemma drivers_raise_with_prepare (clean : string -> result string)
    (options : option ClassificationSmoothingOptions)
    (info : list cct_image) (input_file : nat) (h : heap) (e : exn) :
  snd (_prepare_results_for_smoothing clean input_file
         (options_or_default options) h) = throw e ->
  snd (smooth_classification_results_image_level clean input_file options h)
  = throw e /\
  snd (smooth_classification_results_sequence_level clean input_file info
         options h)
  = throw e.
Proof.
  intros Hp.
  unfold smooth_classification_results_image_level,
    smooth_classification_results_sequence_level, hbind.
  fold (options_or_default options).
  destruct (_prepare_results_for_smoothing clean input_file
              (options_or_default options) h) as [h' [e' | r]];
    simpl in *; [| discriminate].
  unfold throw in *. split; now inversion Hp.
Qed.

(** X11.  Results without 'classification_category_descriptions' whose
    classification confidences are in descending order, prepared with
    [add_pre_smoothing_description] set - as it is by default.  If, once
    reduced to its top classification, some detection of some image
    qualifies, _prepare_results_for_smoothing raises TypeError (the
    description string subscripts None) and so do both drivers.  If no
    detection qualifies, preparation returns, having given every image that
    has detections the empty string as its pre-smoothing description. *)
Theorem missing_descriptions_raise_TypeError :
  forall (clean_taxonomy_string : string -> result string)
         (options : option ClassificationSmoothingOptions)
         (cct_sequence_information : list cct_image)
         (input_file : nat) (h : heap),
    let o := options_or_default options in
    let d := objects h input_file in
    let ims := map top_only_image (images d) in
    add_pre_smoothing_description o = true ->
    classification_category_descriptions d = None ->
    all_sorted (images d) = true ->
    (some_qualifying o ims = true ->
     (forall loc,
         snd (prepare_body clean_taxonomy_string o loc d) = throw TypeError) /\
     snd (smooth_classification_results_image_level clean_taxonomy_string
            input_file options h) = throw TypeError /\
     snd (smooth_classification_results_sequence_level clean_taxonomy_string
            input_file cct_sequence_information options h)
     = throw TypeError) /\
    (some_qualifying o ims = false ->
     forall loc,
       exists r,
         prepare_body clean_taxonomy_string o loc d
         = (set_images d (map (described "") ims), ok r)).
Proof.
  intros clean options info input_file h o d ims Hadd Hnone Hsorted.
  pose proof (describe_images_without_descriptions o ims) as Hdesc.
  assert (Hwf : forall im x, In im ims -> In x (image_dets im) ->
                             well_formed o x = true).
  { intros im x Him Hx. apply in_map_iff in Him as (im0 & <- & _).
    rewrite image_dets_top_only in Hx.
    apply in_map_iff in Hx as (x0 & <- & _). apply top_only_well_formed. }
  specialize (Hdesc Hwf).
  assert (Hbody : forall loc,
             prepare_body clean o loc d
             = (let '(ims', r) := describe_images o None ims in
                (set_images d ims',
                 match r with
                 | inl e => inl e
                 | inr _ =>
                     ok {| prep_d := loc;
                           prep_other_category_ids := other_ids o d;
                           prep_classification_descriptions_clean := None;
                           prep_classification_descriptions := None |}
                 end))).
  { intros loc. unfold prepare_body.
    rewrite (normalize_images_sorted _ Hsorted). unfold ok at 1.
    cbv beta iota zeta. rewrite Hadd. unfold clean_descriptions.
    cbn [set_images classification_category_descriptions images
         classification_categories].
    rewrite Hnone. fold ims.
    destruct (describe_images o None ims) as [ims' [e | u]]; reflexivity. }
  split.
  - intros Hq. rewrite Hq in Hdesc.
    assert (Hall : forall loc, snd (prepare_body clean o loc d)
                               = throw TypeError).
    { intros loc. rewrite Hbody.
      destruct (describe_images o None ims) as [ims' [e | u]]; simpl in *;
        [| discriminate].
      unfold throw in *. now inversion Hdesc. }
    split; [exact Hall |].
    apply drivers_raise_with_prepare. now apply prepare_raises.
  - intros Hq loc. rewrite Hq in Hdesc. rewrite Hbody, Hdesc.
    eexists. reflexivity.
Qed.

Lemma missing_descriptions_raise_TypeError_witness :
  snd (smooth_classification_results_image_level (fun s => ok s) 0 None
         cow_heap) = throw TypeError /\
  snd (smooth_classification_results_sequence_level (fun s => ok s) 0
         [ {| file_name := "a.jpg"; seq_id := "s" |} ] None cow_heap)
  = throw TypeError.
Proof.
  destruct (missing_descriptions_raise_TypeError (fun s => ok s) None
              [ {| file_name := "a.jpg"; seq_id := "s" |} ] 0 cow_heap)
    as [Hraise _].
  - reflexivity.
  - reflexivity.
  - reflexivity.
  - destruct Hraise as (_ & Himage & Hseq); [reflexivity |].
    split; [exact Himage | exact Hseq].
Defined.

(** ** What preparation leaves alone *)

Lemma Forall2_refl_on {A : Type} (R : A -> A -> Prop) (l : list A) :
  (forall x, R x x) -> Forall2 R l l.
Proof. intros HR. induction l; constructor; auto. Qed.

Lemma normalize_detection_shape (d : detection) :
  normalized_or_same d (fst (normalize_detection d)).
Proof.
  unfold normalize_detection, normalized_or_same, top_only.
  destruct d as [cf [[| c cs] |]]; cbn [classifications conf fst]; auto.
  destruct (is_list_sorted _ _); cbn [fst]; auto.
Qed.

Lemma normalize_detections_shape (dets : list detection) :
  Forall2 normalized_or_same dets (fst (normalize_detections dets)).
Proof.
  induction dets as [| d dets IH]; cbn [normalize_detections fst];
    [constructor |].
  pose proof (normalize_detection_shape d) as Hd.
  destruct (normalize_detection d) as [d' [e | u]]; cbn [fst] in *.
  - constructor; [exact Hd |]. apply Forall2_refl_on. now left.
  - destruct (normalize_detections dets) as [rest r]. cbn [fst] in *.
    now constructor.
Qed.

Lemma prepared_image_refl (im : image) : prepared_image im im.
Proof.
  split; [reflexivity |]. split; [reflexivity |].
  apply Forall2_refl_on. now left.
Qed.

Lemma normalize_images_shape (ims : list image) :
  Forall2 prepared_image ims (fst (normalize_images ims)).
Proof.
  induction ims as [| im ims IH]; cbn [normalize_images fst];
    [constructor |].
  destruct (im_detections im) as [[| d dets] |] eqn:Hdets.
  - destruct (normalize_images ims) as [rest r]. cbn [fst] in *.
    constructor; [apply prepared_image_refl | exact IH].
  - pose proof (normalize_detections_shape (d :: dets)) as Hd.
    assert (Him : forall dets',
               Forall2 normalized_or_same (d :: dets) dets' ->
               prepared_image im
                 {| im_file := im_file im;
                    im_detections := Some dets';
                    im_pre_smoothing_description :=
                      im_pre_smoothing_description im |}).
    { intros dets' H'. split; [reflexivity |]. split.
      - simpl. rewrite Hdets. split; discriminate.
      - unfold image_dets. simpl. now rewrite Hdets. }
    destruct (normalize_detections (d :: dets)) as [dets' [e | u]];
      cbn [fst] in *.
    + constructor; [now apply Him |].
      apply Forall2_refl_on. apply prepared_image_refl.
    + destruct (normalize_images ims) as [rest r]. cbn [fst] in *.
      constructor; [now apply Him | exact IH].
  - destruct (normalize_images ims) as [rest r]. cbn [fst] in *.
    constructor; [apply prepared_image_refl | exact IH].
Qed.

Lemma describe_images_shape (options : ClassificationSmoothingOptions)
    (descriptions : option (dict string)) (ims : list image) :
  Forall2 (fun im im' => im_file im' = im_file im /\
                         im_detections im' = im_detections im)
          ims (fst (describe_images options descriptions ims)).
Proof.
  induction ims as [| im ims IH]; cbn [describe_images fst];
    [constructor |].
  destruct (im_detections im) as [[| d dets] |] eqn:Hdets.
  - destruct (describe_images options descriptions ims) as [rest r].
    cbn [fst] in *. constructor; [now split | exact IH].
  - destruct (_ <- _ ;; _) as [e | s]; cbn [fst].
    + constructor; [now split |]. apply Forall2_refl_on. now split.
    + destruct (describe_images options descriptions ims) as [rest r].
      cbn [fst] in *. constructor; [now split | exact IH].
  - destruct (describe_images options descriptions ims) as [rest r].
    cbn [fst] in *. constructor; [now split | exact IH].
Qed.

Lemma Forall2_compose {A : Type} (R1 R2 R3 : A -> A -> Prop) :
  (forall x y z, R1 x y -> R2 y z -> R3 x z) ->
  forall l1 l2 l3, Forall2 R1 l1 l2 -> Forall2 R2 l2 l3 -> Forall2 R3 l1 l3.
Proof.
  intros HR l1 l2 l3 H12. revert l3.
  induction H12 as [| x y l1 l2 Hxy _ IH]; intros l3 H23;
    inversion H23; subst; constructor; eauto.
Qed.

(** X12.  Whether it returns or raises, _prepare_results_for_smoothing
    leaves the category tables as they were and neither drops, adds nor
    reorders images or detections: every image keeps its file name, a
    missing 'detections' field stays missing, and every detection is either
    untouched or reduced to its top classification - its 'conf' is never
    changed. *)
Theorem preparation_keeps_the_structure :
  forall (clean_taxonomy_string : string -> result string)
         (options : ClassificationSmoothingOptions) (loc : nat)
         (d : results),
    let d' := fst (prepare_body clean_taxonomy_string options loc d) in
    classification_categories d' = classification_categories d /\
    classification_category_descriptions d'
    = classification_category_descriptions d /\
    Forall2 prepared_image (images d) (images d') /\
    map im_file (images d') = map im_file (images d) /\
    map (fun im => map conf (image_dets im)) (images d')
    = map (fun im => map conf (image_dets im)) (images d).
Proof.
  intros clean options loc d d'.
  assert (Hshape : classification_categories d' = classification_categories d
                   /\ classification_category_descriptions d'
                      = classification_category_descriptions d
                   /\ Forall2 prepared_image (images d) (images d')).
  { subst d'. unfold prepare_body.
    pose proof (normalize_images_shape (images d)) as Hn.
    destruct (normalize_images (images d)) as [ims [e | u]]; cbn [fst] in *;
      [now repeat split |].
    cbv zeta.
    destruct (clean_descriptions clean (set_images d ims)) as [e | cd];
      [now repeat split |].
    destruct (add_pre_smoothing_description options);
      [| now repeat split].
    pose proof (describe_images_shape options
                  (classification_category_descriptions (set_images d ims))
                  (images (set_images d ims))) as Hd.
    assert (Hgoal : Forall2 prepared_image (images d)
                      (fst (describe_images options
                              (classification_category_descriptions
                                 (set_images d ims))
                              (images (set_images d ims))))).
    { eapply Forall2_compose; [| exact Hn | exact Hd].
      intros x y z (Hf & Hnone & Hdets) (Hf' & Hd').
      unfold prepared_image, image_dets in *. rewrite Hf', Hd'.
      split; [exact Hf | split; [exact Hnone | exact Hdets]]. }
    destruct (describe_images options _ (images (set_images d ims)))
      as [ims' [e | u']]; cbn [fst] in *; now repeat split. }
  destruct Hshape as (Hc & Hds & HF).
  split; [exact Hc |]. split; [exact Hds |]. split; [exact HF |].
  clear Hc Hds. induction HF as [| im im' l l' (Hf & _ & Hdets) _ IH];
    [now split |].
  destruct IH as [IH1 IH2]. cbn [map]. rewrite Hf, IH1, IH2.
  split; [reflexivity |]. f_equal.
  clear - Hdets. induction Hdets as [| x x' t t' Hx _ IH]; [reflexivity |].
  cbn [map]. rewrite IH. f_equal.
  destruct Hx as [-> | ->]; reflexivity.
Qed.

(** ** The image-level driver, image by image *)

Lemma describe_images_ok (options : ClassificationSmoothingOptions)
    (descriptions : option (dict string)) (ims ims' : list image) :
  describe_images options descriptions ims = (ims', ok tt) ->
  ims' = map (describe_image options descriptions) ims /\
  forall im d dets,
    In im ims -> im_detections im = Some (d :: dets) ->
    exists s, description_of options descriptions (d :: dets) = ok s.
Proof.
  revert ims'. induction ims as [| im ims IH]; intros ims';
    cbn [describe_images map].
  - intros [= <-]. split; [reflexivity | intros im d dets []].
  - unfold describe_image at 1.
    destruct (im_detections im) as [[| d dets] |] eqn:Hdets.
    + destruct (describe_images options descriptions ims) as [rest r].
      intros [= <- ->]. destruct (IH rest eq_refl) as [-> Hall].
      split; [reflexivity |].
      intros im' d' dets' [<- | Hin] Hd'; [congruence | eauto].
    + fold (description_of options descriptions (d :: dets)).
      destruct (description_of options descriptions (d :: dets))
        as [e | s] eqn:Hs; [discriminate |].
      destruct (describe_images options descriptions ims) as [rest r].
      intros [= <- ->]. destruct (IH rest eq_refl) as [-> Hall].
      split; [reflexivity |].
      intros im' d' dets' [<- | Hin] Hd'; [| eauto].
      rewrite Hdets in Hd'. injection Hd' as <- <-. now exists s.
    + destruct (describe_images options descriptions ims) as [rest r].
      intros [= <- ->]. destruct (IH rest eq_refl) as [-> Hall].
      split; [reflexivity |].
      intros im' d' dets' [<- | Hin] Hd'; [congruence | eauto].
Qed.

Lemma smooth_images_ok (options : ClassificationSmoothingOptions)
    (other_category_ids : list string)
    (descriptions_clean : option (dict string)) (ims ims' : list image) :
  smooth_images options other_category_ids descriptions_clean ims
  = (ims', ok tt) ->
  ims' = map (fun im => fst (_smooth_single_image im options
                               other_category_ids descriptions_clean)) ims /\
  forall im, In im ims ->
    exists r, snd (_smooth_single_image im options other_category_ids
                     descriptions_clean) = ok r.
Proof.
  revert ims'. induction ims as [| im ims IH]; intros ims';
    cbn [smooth_images map].
  - intros [= <-]. split; [reflexivity | intros im []].
  - destruct (_smooth_single_image im options other_category_ids
                descriptions_clean) as [im1 [e | r]] eqn:Him;
      [discriminate |].
    destruct (smooth_images options other_category_ids descriptions_clean
                ims) as [rest res].
    intros [= <- ->]. destruct (IH rest eq_refl) as [-> Hall].
    split; [reflexivity |].
    intros im' [<- | Hin]; [| eauto]. rewrite Him. now exists r.
Qed.

Lemma prepare_body_ok (clean : string -> result string)
    (options : ClassificationSmoothingOptions) (loc : nat)
    (d d1 : results) (r : prepared) :
  prepare_body clean options loc d = (d1, ok r) ->
  exists cd,
  clean_descriptions clean d = ok cd /\
  r = {| prep_d := loc;
         prep_other_category_ids := other_ids options d;
         prep_classification_descriptions_clean := cd;
         prep_classification_descriptions :=
           classification_category_descriptions d |} /\
  d1 = set_images d
         (if add_pre_smoothing_description options
          then map (describe_image options
                      (classification_category_descriptions d))
                   (map top_only_image (images d))
          else map top_only_image (images d)) /\
  (add_pre_smoothing_description options = true ->
   forall im x dets,
     In im (images d) -> im_detections im = Some (x :: dets) ->
     exists s, description_of options
                 (classification_category_descriptions d)
                 (map top_only (x :: dets)) = ok s).
Proof.
  unfold prepare_body.
  destruct (normalize_images (images d)) as [ims [e | u]] eqn:Hn;
    [discriminate |].
  destruct u. apply normalize_images_ok_inv in Hn as [_ ->].
  cbv zeta.
  change (clean_descriptions clean (set_images d _))
    with (clean_descriptions clean d).
  destruct (clean_descriptions clean d) as [e | cd]; [discriminate |].
  destruct (add_pre_smoothing_description options).
  - cbn [images set_images classification_category_descriptions
         classification_categories].
    destruct (describe_images options (classification_category_descriptions d)
                (map top_only_image (images d))) as [ims' [e | u]] eqn:Hd;
      [discriminate |].
    destruct u. apply describe_images_ok in Hd as [-> Hall].
    intros [= <- <-]. exists cd. split; [reflexivity |].
    split; [reflexivity |]. split; [reflexivity |].
    intros _ im x dets Him Hdets.
    apply (Hall (top_only_image im) (top_only x) (map top_only dets)).
    + now apply in_map.
    + unfold top_only_image. now rewrite Hdets.
  - intros [= <- <-]. exists cd. split; [reflexivity |].
    split; [reflexivity |]. split; [reflexivity |].
    discriminate.
Qed.

Lemma image_level_run (clean : string -> result string)
    (options : option ClassificationSmoothingOptions) (input_file : nat)
    (h : heap) (w : nat) :
  snd (smooth_classification_results_image_level clean input_file options h)
  = ok w ->
  exists d1 r ims,
    prepare_body clean (options_or_default options) w (objects h input_file)
    = (d1, ok r) /\
    smooth_images (options_or_default options) (prep_other_category_ids r)
      (prep_classification_descriptions_clean r) (images d1)
    = (ims, ok tt) /\
    objects (fst (smooth_classification_results_image_level clean input_file
                    options h)) w
    = set_images d1 ims.
Proof.
  unfold smooth_classification_results_image_level, hbind.
  fold (options_or_default options).
  destruct (prepare_run clean (options_or_default options) input_file h)
    as (h1 & -> & Hobj).
  set (w0 := if modify_in_place (options_or_default options)
             then input_file else next_loc h) in *.
  pose proof (prepare_body_d clean (options_or_default options) w0
                (objects h input_file)) as Hd.
  destruct (prepare_body clean (options_or_default options) w0
              (objects h input_file)) as [d1 [e | r]] eqn:Hp;
    cbn [fst snd] in *; [discriminate |].
  specialize (Hd r eq_refl). unfold at_loc, hret.
  destruct r as [pd po pc pdesc].
  cbn [prep_d prep_other_category_ids
       prep_classification_descriptions_clean] in *.
  subst pd. rewrite Hobj.
  destruct (smooth_images (options_or_default options) po pc (images d1))
    as [ims [e | u]] eqn:Hs; cbn [fst snd]; [discriminate |].
  intros [= <-]. exists d1, (mkPrepared w0 po pc pdesc), ims. destruct u.
  split; [exact Hp |]. split; [exact Hs |].
  simpl. now rewrite Nat.eqb_refl.
Qed.

(** X13.  When the image-level driver returns, the dict it returns has the
    category tables and the images of the input, in the same order, and each
    image has been treated on its own: an image without detections is as it
    was; the detections of any other image are what the Group Smoother makes
    of that image's own detections, each reduced to its top classification
    first, and the smoother did not raise on them; and its pre-smoothing
    description, when the options ask for one, describes the tally of those
    detections as they were before smoothing. *)
Theorem image_level_smooths_each_image_alone :
  forall (clean_taxonomy_string : string -> result string)
         (options : option ClassificationSmoothingOptions)
         (input_file : nat) (h : heap) (w : nat),
    let run := smooth_classification_results_image_level
                 clean_taxonomy_string input_file options h in
    snd run = ok w ->
    let o := options_or_default options in
    let d := objects h input_file in
    let d' := objects (fst run) w in
    let other := other_ids o d in
    exists cd,
    clean_descriptions clean_taxonomy_string d = ok cd /\
    classification_categories d' = classification_categories d /\
    classification_category_descriptions d'
    = classification_category_descriptions d /\
    List.length (images d') = List.length (images d) /\
    forall i im,
      nth_error (images d) i = Some im ->
      exists im',
        nth_error (images d') i = Some im' /\
        im_file im' = im_file im /\
        match im_detections im with
        | None | Some [] => im' = im
        | Some dets =>
            im_detections im'
            = Some (fst (smooth_list o other cd (map top_only dets))) /\
            (exists s, snd (smooth_list o other cd (map top_only dets))
                       = ok s) /\
            if add_pre_smoothing_description o
            then exists s,
                description_of o (classification_category_descriptions d)
                  (map top_only dets) = ok s /\
                im_pre_smoothing_description im' = Some s
            else im_pre_smoothing_description im'
                 = im_pre_smoothing_description im
        end.
Proof.
  intros clean options input_file h w run Hrun o d d' other.
  destruct (image_level_run clean options input_file h w Hrun)
    as (d1 & r & ims & Hp & Hs & Hobj).
  fold run in Hobj. fold o in Hp, Hs. fold d in Hp.
  apply prepare_body_ok in Hp as (cd & Hcd & -> & -> & Hdesc).
  exists cd. split; [exact Hcd |].
  cbn [prep_other_category_ids prep_classification_descriptions_clean
       images set_images] in Hs.
  apply smooth_images_ok in Hs as [-> Hok].
  fold other in Hok |- *.
  subst d'. rewrite Hobj. clear Hobj.
  cbn [set_images images classification_categories
       classification_category_descriptions].
  set (pre := fun im => if add_pre_smoothing_description o
                        then describe_image o
                               (classification_category_descriptions d)
                               (top_only_image im)
                        else top_only_image im).
  assert (Hpre : (if add_pre_smoothing_description o
                  then map (describe_image o
                              (classification_category_descriptions d))
                           (map top_only_image (images d))
                  else map top_only_image (images d))
                 = map pre (images d)).
  { unfold pre. destruct (add_pre_smoothing_description o);
      [now rewrite map_map | reflexivity]. }
  rewrite Hpre in *. clear Hpre.
  split; [reflexivity |]. split; [reflexivity |].
  split; [now rewrite !length_map |].
  intros i im Hi.
  set (smooth1 := fun im0 => fst (_smooth_single_image im0 o other cd)).
  exists (smooth1 (pre im)).
  split; [now apply map_nth_error, map_nth_error |].
  assert (Hin : In im (images d)) by (eapply nth_error_In; eauto).
  specialize (Hok (pre im) (in_map pre _ _ Hin)).
  destruct (im_detections im) as [[| x dets] |] eqn:Hdets.
  - assert (Hsame : pre im = im).
    { unfold pre, describe_image, top_only_image. rewrite Hdets.
      destruct (add_pre_smoothing_description o); [now rewrite Hdets |].
      reflexivity. }
    unfold smooth1, _smooth_single_image. rewrite Hsame, Hdets. now split.
  - assert (Htop : top_only_image im
                   = set_detections im (Some (map top_only (x :: dets))))
      by (unfold top_only_image; now rewrite Hdets).
    assert (Hdets' : im_detections (pre im)
                     = Some (map top_only (x :: dets)) /\
                     im_file (pre im) = im_file im).
    { unfold pre, describe_image. rewrite Htop.
      destruct (add_pre_smoothing_description o); [| now split].
      cbn [set_detections im_detections map].
      destruct (description_of _ _ _); now split. }
    destruct Hdets' as [Hdets' Hfile].
    unfold smooth1, _smooth_single_image in Hok |- *. rewrite Hdets' in *.
    cbn [map] in *.
    destruct (smooth_list o other cd (top_only x :: map top_only dets))
      as [dets1 res] eqn:Hsm.
    cbn [fst snd set_detections im_file im_detections
         im_pre_smoothing_description] in *.
    split; [exact Hfile |]. split; [reflexivity |]. split; [exact Hok |].
    unfold pre, describe_image. rewrite Htop.
    destruct (add_pre_smoothing_description o) eqn:Hadd; [| reflexivity].
    destruct (Hdesc eq_refl im x dets Hin Hdets) as (s & Hsd).
    cbn [set_detections im_detections map] in *. rewrite Hsd.
    exists s. now split.
  - assert (Hsame : pre im = im).
    { unfold pre, describe_image, top_only_image. rewrite Hdets.
      destruct (add_pre_smoothing_description o); [now rewrite Hdets |].
      reflexivity. }
    unfold smooth1, _smooth_single_image. rewrite Hsame, Hdets. now split.
Qed.

Lemma image_level_smooths_each_image_alone_witness :
  exists im',
    nth_error
      (images (objects (fst (smooth_classification_results_image_level
                               (fun s => ok s) 0 (Some in_place_options)
                               cow_heap)) 0)) 0 = Some im' /\
    im_file im' = "a.jpg" /\
    im_detections im'
    = Some (fst (smooth_list in_place_options ["2"] None
                   (map top_only [sure "1"; sure "1"; sure "2"]))).
Proof.
  destruct (image_level_smooths_each_image_alone (fun s => ok s)
              (Some in_place_options) 0 cow_heap 0 eq_refl)
    as (cd & [= <-] & _ & _ & _ & Himages).
  destruct (Himages 0 {| im_file := "a.jpg";
                         im_detections := Some [sure "1"; sure "1"; sure "2"];
                         im_pre_smoothing_description := None |} eq_refl)
    as (im' & Hnth & Hfile & Hdets & _).
  exists im'. split; [exact Hnth |]. split; [exact Hfile | exact Hdets].
Defined.

(** ** The sequence-level driver and its index of images *)

Lemma index_images_ok_inv (ims : list image) :
  forall base acc idx,
    index_images ims base acc = ok idx ->
    idx = acc ++ layout ims base /\
    NoDup (map im_file ims) /\
    (forall im, In im ims -> ~ In (im_file im) (dict_keys acc)).
Proof.
  induction ims as [| im ims IH]; intros base acc idx;
    cbn [index_images layout].
  - intros [= <-]. rewrite app_nil_r.
    split; [reflexivity |]. split; [constructor | intros im []].
  - destruct (dict_mem acc (im_file im)) eqn:Hm; [discriminate |].
    intros H. apply IH in H as (-> & Hnd & Hnot).
    split; [now rewrite <- app_assoc |]. split.
    + cbn [map]. constructor; [| exact Hnd]. intros Hin.
      apply in_map_iff in Hin as (im' & Hf & Hin').
      apply (Hnot im' Hin'). unfold dict_keys.
      rewrite map_app, in_app_iff. right. simpl. left. congruence.
    + intros im' [<- | Hin'] Hk.
      * apply dict_find_keys in Hk. unfold dict_mem in Hm.
        destruct (dict_find acc (im_file im)); congruence.
      * apply (Hnot im' Hin'). unfold dict_keys.
        rewrite map_app, in_app_iff. now left.
Qed.

Lemma index_images_raises (ims : list image) :
  forall base acc e,
    index_images ims base acc = inl e -> e = AssertionError.
Proof.
  induction ims as [| im ims IH]; intros base acc e; cbn [index_images];
    [discriminate |].
  destruct (dict_mem acc (im_file im)); [now intros [= <-] | apply IH].
Qed.

Lemma index_images_dup (ims : list image) (base : nat)
    (acc : dict (option (list nat))) :
  ~ NoDup (map im_file ims) ->
  index_images ims base acc = throw AssertionError.
Proof.
  intros Hdup. destruct (index_images ims base acc) as [e | idx] eqn:E.
  - apply index_images_raises in E. now subst.
  - apply index_images_ok_inv in E as (_ & Hnd & _). contradiction.
Qed.

Lemma gather_In (idx : dict (option (list nat))) (files : list string) :
  forall refs a,
    gather idx files = ok refs -> In a refs ->
    exists f l, In f files /\ dict_find idx f = Some (Some l) /\ In a l.
Proof.
  induction files as [| f files IH]; intros refs a; cbn [gather].
  - intros [= <-] [].
  - unfold dict_get. destruct (dict_find idx f) as [o |] eqn:Hf;
      [| discriminate].
    unfold ok at 1, rbind at 1.
    destruct (gather idx files) as [e | rest] eqn:Hg; [discriminate |].
    unfold rbind. intros [= <-] Hin.
    assert (Hrest : In a rest ->
                    exists f' l, In f' (f :: files) /\
                                 dict_find idx f' = Some (Some l) /\ In a l).
    { intros Hr. destruct (IH rest a eq_refl Hr) as (f' & l & H1 & H2 & H3).
      exists f', l. repeat split; auto. now right. }
    destruct o as [l |]; [| now apply Hrest].
    apply in_app_iff in Hin as [Hin | Hin]; [| now apply Hrest].
    exists f, l. repeat split; auto. now left.
Qed.

Lemma gather_missing (idx : dict (option (list nat))) (files : list string)
    (f : string) :
  In f files -> dict_find idx f = None ->
  gather idx files = throw KeyError.
Proof.
  induction files as [| f0 files IH]; intros Hin Hnone; [contradiction |].
  cbn [gather]. unfold dict_get.
  destruct (dict_find idx f0) as [o |] eqn:Hf0.
  - destruct Hin as [-> | Hin]; [congruence |].
    unfold ok at 1, rbind at 1. now rewrite (IH Hin Hnone).
  - reflexivity.
Qed.

Lemma gather_raises (idx : dict (option (list nat))) (files : list string)
    (e : exn) :
  gather idx files = inl e -> e = KeyError.
Proof.
  induction files as [| f files IH]; cbn [gather]; [discriminate |].
  unfold dict_get. destruct (dict_find idx f) as [o |];
    [| now intros [= <-]].
  unfold ok at 1, rbind at 1.
  destruct (gather idx files) as [e' | rest]; [| discriminate].
  intros [= <-]. now apply IH.
Qed.

Lemma layout_find (p : string -> bool) (ims : list image) :
  forall base f l a,
    dict_find (layout ims base) f = Some (Some l) ->
    p f = true -> In a l -> In a (addresses_where p ims base).
Proof.
  induction ims as [| im ims IH]; intros base f l a;
    cbn [layout dict_find addresses_where]; [discriminate |].
  destruct (String.eqb (im_file im) f) eqn:E.
  - apply String.eqb_eq in E. subst f. intros [= Hl] Hp Ha.
    rewrite Hp. apply in_app_iff. left. unfold image_dets.
    destruct (im_detections im) as [dets |]; [| discriminate].
    simpl in Hl. injection Hl as <-. exact Ha.
  - intros Hf Hp Ha. apply in_app_iff. right. eapply IH; eauto.
Qed.

Lemma layout_keys (ims : list image) (base : nat) :
  dict_keys (layout ims base) = map im_file ims.
Proof.
  revert base. induction ims as [| im ims IH]; intros base; simpl;
    [reflexivity |].
  f_equal. apply IH.
Qed.

Lemma addresses_where_ge (p : string -> bool) (ims : list image) :
  forall base a, In a (addresses_where p ims base) -> base <= a.
Proof.
  induction ims as [| im ims IH]; intros base a; cbn [addresses_where];
    [intros [] |].
  intros Hin. apply in_app_iff in Hin as [Hin | Hin].
  - destruct (p (im_file im)); [| contradiction].
    apply in_seq in Hin. lia.
  - apply IH in Hin. lia.
Qed.

Lemma addresses_where_disjoint (p q : string -> bool) (ims : list image) :
  (forall f, p f = true -> q f = true -> False) ->
  forall base a,
    In a (addresses_where p ims base) ->
    In a (addresses_where q ims base) -> False.
Proof.
  intros Hpq. induction ims as [| im ims IH]; intros base a;
    cbn [addresses_where]; [intros [] |].
  intros Hp Hq.
  apply in_app_iff in Hp as [Hp | Hp]; apply in_app_iff in Hq as [Hq | Hq].
  - destruct (p (im_file im)) eqn:Ep; [| contradiction].
    destruct (q (im_file im)) eqn:Eq; [| contradiction].
    exact (Hpq _ Ep Eq).
  - destruct (p (im_file im)); [| contradiction].
    apply in_seq in Hp. apply addresses_where_ge in Hq. lia.
  - destruct (q (im_file im)); [| contradiction].
    apply in_seq in Hq. apply addresses_where_ge in Hp. lia.
  - exact (IH _ _ Hp Hq).
Qed.

Lemma smooth_sequences_frame (options : ClassificationSmoothingOptions)
    (other_category_ids : list string)
    (descriptions_clean : option (dict string))
    (p : string -> bool) (ims : list image)
    (sequences : dict (list string)) :
  (forall f, In f (all_filenames sequences) -> p f = true) ->
  forall st a,
    ~ In a (addresses_where p ims 0) ->
    fst (smooth_sequences options other_category_ids descriptions_clean
           (layout ims 0) sequences st) a = st a.
Proof.
  induction sequences as [| [s files] sequences IH]; intros Hp st a Ha;
    cbn [smooth_sequences]; [reflexivity |].
  assert (Hp' : forall f, In f (all_filenames sequences) -> p f = true).
  { intros f Hf. apply Hp. unfold all_filenames in *. cbn [map List.concat snd].
    apply in_app_iff. now right. }
  unfold bind, lift.
  destruct (gather (layout ims 0) files) as [e | refs] eqn:Hg;
    [reflexivity |].
  destruct (List.length refs =? 0)%nat; [now apply IH |].
  assert (Hout : ~ In a refs).
  { intros Hin. destruct (gather_In _ _ _ _ Hg Hin) as (f & l & H1 & H2 & H3).
    apply Ha. eapply layout_find; eauto. apply Hp.
    unfold all_filenames. cbn [map List.concat snd]. apply in_app_iff. now left. }
  pose proof (smooth_frames options other_category_ids descriptions_clean
                refs st a Hout) as Hf.
  destruct (_smooth_classifications_for_list_of_detections options
              other_category_ids descriptions_clean refs st)
    as [st1 [e | r]]; cbn [fst] in *; [exact Hf |].
  rewrite IH by assumption. exact Hf.
Qed.

Lemma dict_append_filenames (d : dict (list string)) (k v f : string) :
  In f (all_filenames (dict_append d k v)) <->
  In f (all_filenames d) \/ f = v.
Proof.
  unfold all_filenames.
  induction d as [| [k' l] d IH]; cbn [dict_append map List.concat snd].
  - simpl. intuition.
  - destruct (String.eqb k' k); cbn [map List.concat snd];
      rewrite !in_app_iff; [simpl | rewrite IH]; intuition.
Qed.

Lemma sequence_filenames (image_info : list cct_image) (f : string) :
  In f (all_filenames (sequence_to_image_filenames image_info)) <->
  In f (map file_name image_info).
Proof.
  unfold sequence_to_image_filenames.
  assert (H : forall acc,
             In f (all_filenames
                     (fold_left (fun acc im =>
                                   dict_append acc (seq_id im) (file_name im))
                                image_info acc)) <->
             In f (all_filenames acc) \/ In f (map file_name image_info)).
  { induction image_info as [| c info IH]; intros acc; cbn [fold_left map].
    - simpl. intuition.
    - rewrite IH, dict_append_filenames. simpl. intuition. }
  rewrite H. unfold all_filenames. simpl. intuition.
Qed.

Lemma store_of_app_left (l post : list detection) (a : nat) :
  a < List.length l -> store_of (l ++ post) a = store_of l a.
Proof. intros Ha. unfold store_of. now rewrite app_nth1. Qed.

Lemma set_detections_same (im : image) :
  set_detections im (im_detections im) = im.
Proof. now destruct im. Qed.

Lemma read_back_store_of (ims : list image) :
  forall pre,
    read_back ims (List.length pre)
      (store_of (pre ++ flat_map image_dets ims)) = ims.
Proof.
  induction ims as [| im ims IH]; intros pre; cbn [read_back flat_map];
    [reflexivity |].
  f_equal.
  - assert (Hsame :
        option_map
          (fun l => view (store_of (pre ++ image_dets im
                                      ++ flat_map image_dets ims))
                         (seq (List.length pre) (List.length l)))
          (im_detections im)
        = im_detections im).
    { unfold image_dets at 1. destruct (im_detections im) as [dets |];
        [| reflexivity].
      cbn [option_map]. f_equal.
      transitivity (view (store_of (pre ++ dets))
                         (seq (List.length pre) (List.length dets)));
        [| apply view_store_of_shift].
      unfold view. apply map_ext_in. intros a Ha. apply in_seq in Ha.
      rewrite app_assoc. apply store_of_app_left. rewrite length_app. lia. }
    rewrite Hsame. apply set_detections_same.
  - specialize (IH (pre ++ image_dets im)).
    rewrite length_app, <- app_assoc in IH. exact IH.
Qed.

Lemma read_back_agree (q : string -> bool) (ims : list image) :
  forall base st st',
    (forall a, In a (addresses_where q ims base) -> st' a = st a) ->
    Forall2 (fun im im' => im_file im' = im_file im /\
                           (q (im_file im) = true -> im' = im))
            (read_back ims base st) (read_back ims base st').
Proof.
  induction ims as [| im ims IH]; intros base st st' Hagree;
    cbn [read_back]; constructor.
  - split; [reflexivity |]. cbn [set_detections im_file]. intros Hq.
    f_equal. destruct (im_detections im) as [dets |] eqn:Hdets;
      [| reflexivity].
    cbn [option_map]. f_equal. unfold view. apply map_ext_in.
    intros a Ha. apply Hagree. cbn [addresses_where]. rewrite Hq.
    apply in_app_iff. left. unfold image_dets. now rewrite Hdets.
  - apply IH. intros a Ha. apply Hagree. cbn [addresses_where].
    apply in_app_iff. now right.
Qed.

Lemma read_back_files (ims : list image) :
  forall base st, map im_file (read_back ims base st) = map im_file ims.
Proof.
  induction ims as [| im ims IH]; intros base st; cbn [read_back map];
    [reflexivity |].
  now rewrite IH.
Qed.

(** The sequence-level driver once preparation has returned. *)
Lemma sequence_level_run (clean : string -> result string)
    (options : option ClassificationSmoothingOptions)
    (info : list cct_image) (input_file : nat) (h : heap) (r : prepared) :
  let o := options_or_default options in
  let w := if modify_in_place o then input_file else next_loc h in
  let run := smooth_classification_results_sequence_level clean input_file
               info options h in
  snd (_prepare_results_for_smoothing clean input_file o h) = ok r ->
  exists d1,
    prepare_body clean o w (objects h input_file) = (d1, ok r) /\
    match index_images (images d1) 0 [] with
    | inl e => snd run = inl e
    | inr idx =>
        let res :=
          smooth_sequences o (prep_other_category_ids r)
            (prep_classification_descriptions_clean r) idx
            (sequence_to_image_filenames info)
            (store_of (flat_map image_dets (images d1))) in
        match snd res with
        | inl e => snd run = inl e
        | inr _ =>
            snd run = ok w /\
            objects (fst run) w
            = set_images d1 (read_back (images d1) 0 (fst res))
        end
    end.
Proof.
  intros o w run. subst run.
  unfold smooth_classification_results_sequence_level, hbind.
  fold (options_or_default options). fold o.
  destruct (prepare_run clean o input_file h) as (h1 & -> & Hobj).
  fold w in Hobj |- *.
  pose proof (prepare_body_d clean o w (objects h input_file)) as Hd.
  destruct (prepare_body clean o w (objects h input_file))
    as [d1 [e | r']] eqn:Hp; cbn [fst snd] in *; [discriminate |].
  intros [= ->]. specialize (Hd r eq_refl).
  exists d1. split; [reflexivity |].
  unfold at_loc, hret. destruct r as [pd po pc pdesc].
  cbn [prep_d prep_other_category_ids
       prep_classification_descriptions_clean] in *.
  subst pd. rewrite Hobj.
  destruct (index_images (images d1) 0 []) as [e | idx]; [reflexivity |].
  cbv zeta.
  destruct (smooth_sequences o po pc idx (sequence_to_image_filenames info)
              (store_of (flat_map image_dets (images d1))))
    as [st' [e | u]]; cbn [fst snd]; [reflexivity |].
  split; [reflexivity |]. simpl. now rewrite Nat.eqb_refl.
Qed.

Lemma index_images_ok (ims : list image) :
  forall base acc,
    NoDup (dict_keys acc ++ map im_file ims) ->
    index_images ims base acc = ok (acc ++ layout ims base).
Proof.
  induction ims as [| im ims IH]; intros base acc Hnd;
    cbn [index_images layout map] in *.
  - now rewrite app_nil_r.
  - assert (Hnotin : ~ In (im_file im) (dict_keys acc)).
    { intros Hin. apply NoDup_remove_2 in Hnd. apply Hnd.
      apply in_app_iff. now left. }
    unfold dict_mem. destruct (dict_find acc (im_file im)) eqn:Hf.
    + exfalso. apply Hnotin. apply dict_find_keys. congruence.
    + rewrite IH.
      * now rewrite <- app_assoc.
      * unfold dict_keys in *. rewrite map_app, <- app_assoc. exact Hnd.
Qed.

Lemma describe_image_same (options : ClassificationSmoothingOptions)
    (descriptions : option (dict string)) (im : image) :
  im_file (describe_image options descriptions im) = im_file im /\
  im_detections (describe_image options descriptions im) = im_detections im.
Proof.
  unfold describe_image.
  destruct (im_detections im) as [[| x dets] |] eqn:Hd; try now split.
  destruct (description_of options descriptions (x :: dets)); now split.
Qed.

Lemma top_only_image_file (im : image) :
  im_file (top_only_image im) = im_file im.
Proof.
  unfold top_only_image. now destruct (im_detections im) as [[| x dets] |].
Qed.

Lemma prepare_body_images (clean : string -> result string)
    (options : ClassificationSmoothingOptions) (loc : nat)
    (d d1 : results) (r : prepared) :
  prepare_body clean options loc d = (d1, ok r) ->
  Forall2 (fun im im1 =>
             im_file im1 = im_file im /\
             im_detections im1 = im_detections (top_only_image im))
          (images d) (images d1).
Proof.
  intros H. apply prepare_body_ok in H as (cd & _ & _ & -> & _).
  cbn [set_images images].
  induction (images d) as [| im ims IH];
    [destruct (add_pre_smoothing_description options); constructor |].
  destruct (add_pre_smoothing_description options); cbn [map] in *;
    constructor; try exact IH.
  - destruct (describe_image_same options
                (classification_category_descriptions d) (top_only_image im))
      as [-> ->].
    split; [apply top_only_image_file | reflexivity].
  - split; [apply top_only_image_file | reflexivity].
Qed.

Lemma prepared_files (ims ims1 : list image) :
  Forall2 (fun im im1 =>
             im_file im1 = im_file im /\
             im_detections im1 = im_detections (top_only_image im))
          ims ims1 ->
  map im_file ims1 = map im_file ims /\
  forall x, In x (flat_map image_dets ims1) -> exists x0, x = top_only x0.
Proof.
  induction 1 as [| im im1 ims ims1 [Hf Hd] _ [IH1 IH2]];
    [split; [reflexivity | intros x []] |].
  cbn [map flat_map]. split; [now rewrite Hf, IH1 |].
  intros x Hx. apply in_app_iff in Hx as [Hx | Hx]; [| now apply IH2].
  assert (Hdets : image_dets im1 = map top_only (image_dets im)).
  { rewrite <- image_dets_top_only. unfold image_dets. now rewrite Hd. }
  rewrite Hdets in Hx. apply in_map_iff in Hx as (x0 & <- & _).
  now exists x0.
Qed.

Lemma store_of_comparable (options : ClassificationSmoothingOptions)
    (l : list detection) :
  (forall x, In x l -> comparable options x = true) ->
  forall a, comparable options (store_of l a) = true.
Proof.
  intros Hl a. unfold store_of.
  destruct (nth_in_or_default a l empty_detection) as [Hin | ->];
    [now apply Hl | reflexivity].
Qed.

Lemma comparable_top_only (options : ClassificationSmoothingOptions)
    (d : detection) :
  comparable options (top_only d) = comparable options d.
Proof.
  unfold comparable, top_only. cbn [classifications].
  now destruct (classifications d) as [[| c cs] |].
Qed.

Lemma prepared_comparable (options : ClassificationSmoothingOptions)
    (ims ims1 : list image) :
  Forall2 (fun im im1 =>
             im_file im1 = im_file im /\
             im_detections im1 = im_detections (top_only_image im))
          ims ims1 ->
  all_comparable options ims = true ->
  forall x, In x (flat_map image_dets ims1) -> comparable options x = true.
Proof.
  unfold all_comparable.
  induction 1 as [| im im1 ims ims1 [Hf Hd] _ IH]; intros Hall x Hx;
    [contradiction |].
  cbn [forallb flat_map] in *. apply andb_true_iff in Hall as [Him Hall].
  apply in_app_iff in Hx as [Hx | Hx]; [| now apply IH].
  assert (Hdets : image_dets im1 = map top_only (image_dets im)).
  { rewrite <- image_dets_top_only. unfold image_dets. now rewrite Hd. }
  rewrite Hdets in Hx. apply in_map_iff in Hx as (x0 & <- & Hx0).
  rewrite comparable_top_only.
  rewrite forallb_forall in Him. now apply Him.
Qed.

Lemma clean_descriptions_None (clean : string -> result string)
    (d : results) (cd : option (dict string)) :
  clean_descriptions clean d = ok cd -> cd <> None ->
  classification_category_descriptions d <> None.
Proof.
  unfold clean_descriptions. intros Hcd Hne Hnone. rewrite Hnone in Hcd.
  injection Hcd as <-. now apply Hne.
Qed.

Lemma store_of_well_formed (options : ClassificationSmoothingOptions)
    (l : list detection) :
  (forall x, In x l -> exists x0, x = top_only x0) ->
  forall a, well_formed options (store_of l a) = true.
Proof.
  intros Hl a. unfold store_of.
  destruct (nth_in_or_default a l empty_detection) as [Hin | ->];
    [| reflexivity].
  destruct (Hl _ Hin) as (x0 & ->). apply top_only_well_formed.
Qed.

Lemma smooth_relabels (options : ClassificationSmoothingOptions)
    (other_category_ids : list string)
    (descriptions_clean : option (dict string)) (refs : list nat) :
  keeps relabel_of
    (_smooth_classifications_for_list_of_detections options
       other_category_ids descriptions_clean refs).
Proof.
  apply smooth_keeps.
  - apply relabel_of_refl.
  - apply relabel_of_trans.
  - intros. apply other_body_relabel.
  - intros. apply flip_body_relabel.
  - intros. apply taxonomy_body_relabel.
Qed.

Lemma smooth_raises_KeyError (options : ClassificationSmoothingOptions)
    (other_category_ids : list string)
    (descriptions_clean : option (dict string)) (refs : list nat)
    (st : store) (e : exn) :
  (forall r, In r refs -> well_formed options (st r) = true) ->
  (descriptions_clean <> None ->
   forall r, In r refs -> comparable options (st r) = true) ->
  snd (_smooth_classifications_for_list_of_detections options
         other_category_ids descriptions_clean refs st) = inl e ->
  e = KeyError.
Proof.
  intros Hwf Hcmp. rewrite smooth_cases.
  destruct (_count_detections_by_category (view st refs) options)
    as [e' | t] eqn:Ht.
  - rewrite tally_closed in Ht.
    assert (forallb (well_formed options) (view st refs) = true) as Hall.
    { apply forallb_forall. intros d Hd. unfold view in Hd.
      apply in_map_iff in Hd as (r & <- & Hr). now apply Hwf. }
    rewrite Hall in Ht. discriminate.
  - destruct (Nat.leb_spec (List.length t) 1) as [Hlen | Hlen];
      [discriminate |].
    intros Hrun.
    now destruct (three_passes_raises options other_category_ids
                    descriptions_clean refs t st e Ht Hlen Hcmp Hrun).
Qed.

Lemma smooth_sequences_raises (options : ClassificationSmoothingOptions)
    (other_category_ids : list string)
    (descriptions_clean : option (dict string))
    (idx : dict (option (list nat))) (sequences : dict (list string)) :
  forall st e,
    (forall a, well_formed options (st a) = true) ->
    (descriptions_clean <> None ->
     forall a, comparable options (st a) = true) ->
    snd (smooth_sequences options other_category_ids descriptions_clean idx
           sequences st) = inl e ->
    e = KeyError.
Proof.
  induction sequences as [| [s files] sequences IH]; intros st e Hwf Hcmp;
    cbn [smooth_sequences]; [discriminate |].
  unfold bind, lift.
  destruct (gather idx files) as [e' | refs] eqn:Hg.
  - cbn [snd]. intros [= <-]. eapply gather_raises; eauto.
  - destruct (List.length refs =? 0)%nat; [now apply IH |].
    pose proof (smooth_raises_KeyError options other_category_ids
                  descriptions_clean refs st) as Hr.
    pose proof (smooth_relabels options other_category_ids
                  descriptions_clean refs st) as Hk.
    destruct (_smooth_classifications_for_list_of_detections options
                other_category_ids descriptions_clean refs st)
      as [st1 [e' | r]]; cbn [fst snd] in *.
    + intros [= <-]. apply Hr; auto.
    + apply IH.
      * intros a.
        rewrite (relabel_of_well_formed options _ _ (Hk a)). apply Hwf.
      * intros Hds a.
        rewrite (relabel_of_comparable options _ _ (Hk a)). now apply Hcmp.
Qed.

Lemma smooth_sequences_missing (options : ClassificationSmoothingOptions)
    (other_category_ids : list string)
    (descriptions_clean : option (dict string))
    (idx : dict (option (list nat))) (sequences : dict (list string))
    (f : string) :
  forall st,
    In f (all_filenames sequences) -> dict_find idx f = None ->
    exists e,
      snd (smooth_sequences options other_category_ids descriptions_clean
             idx sequences st) = inl e.
Proof.
  induction sequences as [| [s files] sequences IH]; intros st Hin Hnone;
    [contradiction |].
  unfold all_filenames in Hin. cbn [map List.concat snd] in Hin.
  cbn [smooth_sequences]. unfold bind, lift.
  apply in_app_iff in Hin as [Hin | Hin].
  - rewrite (gather_missing idx files f Hin Hnone). now exists KeyError.
  - destruct (gather idx files) as [e' | refs]; [now exists e' |].
    destruct (List.length refs =? 0)%nat; [now apply IH |].
    destruct (_smooth_classifications_for_list_of_detections options
                other_category_ids descriptions_clean refs st)
      as [st1 [e' | r]]; [now exists e' | now apply IH].
Qed.

(** X14.  What the sequence-level driver demands of its inputs, once
    preparation has returned.  If two images of the results share a file
    name, it raises AssertionError.  If the file names are distinct but the
    sequence information lists a file that the results do not have, it
    raises KeyError: the results must cover every image of the sequence
    information.  (The KeyError is shown for results in which, if they have
    category descriptions, no classification confidence is NaN; with a NaN
    confidence pass 3 can raise AssertionError on an earlier sequence.) *)
Theorem sequence_level_input_errors :
  forall (clean_taxonomy_string : string -> result string)
         (options : option ClassificationSmoothingOptions)
         (cct_sequence_information : list cct_image)
         (input_file : nat) (h : heap) (r : prepared),
    let o := options_or_default options in
    let d := objects h input_file in
    let run := smooth_classification_results_sequence_level
                 clean_taxonomy_string input_file cct_sequence_information
                 options h in
    snd (_prepare_results_for_smoothing clean_taxonomy_string input_file o h)
    = ok r ->
    (~ NoDup (map im_file (images d)) -> snd run = throw AssertionError) /\
    (NoDup (map im_file (images d)) ->
     (exists c, In c cct_sequence_information /\
                ~ In (file_name c) (map im_file (images d))) ->
     (classification_category_descriptions d <> None ->
      all_comparable o (images d) = true) ->
     snd run = throw KeyError).
Proof.
  intros clean options info input_file h r o d run Hprep.
  destruct (sequence_level_run clean options info input_file h r Hprep)
    as (d1 & Hp & Hrun).
  fold o in Hp, Hrun. fold run in Hrun. fold d in Hp.
  destruct (prepared_files _ _ (prepare_body_images _ _ _ _ _ _ Hp))
    as [Hfiles Htop].
  pose proof (prepared_comparable o _ _
                (prepare_body_images _ _ _ _ _ _ Hp)) as Hcomparable.
  split.
  - intros Hdup. rewrite <- Hfiles in Hdup.
    now rewrite (index_images_dup _ 0 [] Hdup) in Hrun.
  - intros Hnd (c & Hc & Hmissing) Hcmp.
    rewrite <- Hfiles in Hnd, Hmissing.
    rewrite (index_images_ok _ 0 [] Hnd) in Hrun.
    cbn [app] in Hrun. unfold ok at 1 in Hrun. cbv beta iota zeta in Hrun.
    assert (Hnone : dict_find (layout (images d1) 0) (file_name c) = None).
    { destruct (dict_find (layout (images d1) 0) (file_name c)) eqn:E;
        [| reflexivity].
      exfalso. apply Hmissing. rewrite <- (layout_keys _ 0).
      apply dict_find_keys. congruence. }
    assert (Hlisted : In (file_name c)
                        (all_filenames (sequence_to_image_filenames info))).
    { apply sequence_filenames. now apply in_map. }
    destruct (smooth_sequences_missing o (prep_other_category_ids r)
                (prep_classification_descriptions_clean r)
                (layout (images d1) 0) (sequence_to_image_filenames info)
                (file_name c)
                (store_of (flat_map image_dets (images d1))) Hlisted Hnone)
      as (e & He).
    rewrite He in Hrun. rewrite Hrun. unfold throw. f_equal.
    eapply smooth_sequences_raises; [| | exact He].
    + now apply store_of_well_formed.
    + intros Hds. apply store_of_comparable. apply Hcomparable.
      apply Hcmp.
      apply prepare_body_ok in Hp as (cd & Hcd & -> & _).
      exact (clean_descriptions_None clean d cd Hcd Hds).
Qed.

Lemma sequence_level_input_errors_witness :
  snd (smooth_classification_results_sequence_level (fun s => ok s) 0
         [ {| file_name := "b.jpg"; seq_id := "s" |} ]
         (Some in_place_options) cow_heap)
  = throw KeyError.
Proof.
  destruct (sequence_level_input_errors (fun s => ok s) (Some in_place_options)
              [ {| file_name := "b.jpg"; seq_id := "s" |} ] 0 cow_heap
              {| prep_d := 0;
                 prep_other_category_ids := ["2"];
                 prep_classification_descriptions_clean := None;
                 prep_classification_descriptions := None |})
    as [_ Hkey].
  - reflexivity.
  - apply Hkey.
    + repeat constructor. intros [].
    + eexists. split; [left; reflexivity |].
      intros [H | []]. discriminate.
    + reflexivity.
Defined.

(** X15.  When the sequence-level driver returns, every image keeps its
    place and its file name, and an image whose file name the sequence
    information does not list has not been smoothed: its detections are the
    ones it had, each reduced to its top classification. *)
Theorem sequence_level_skips_unlisted_images :
  forall (clean_taxonomy_string : string -> result string)
         (options : option ClassificationSmoothingOptions)
         (cct_sequence_information : list cct_image)
         (input_file : nat) (h : heap) (w : nat),
    let run := smooth_classification_results_sequence_level
                 clean_taxonomy_string input_file cct_sequence_information
                 options h in
    snd run = ok w ->
    Forall2 (fun im im' =>
               im_file im' = im_file im /\
               (listed cct_sequence_information (im_file im) = false ->
                im_detections im' = im_detections (top_only_image im)))
            (images (objects h input_file)) (images (objects (fst run) w)).
Proof.
  intros clean options info input_file h w run Hrun.
  set (o := options_or_default options).
  destruct (snd (_prepare_results_for_smoothing clean input_file o h))
    as [e | r] eqn:Hprep.
  { exfalso.
    destruct (drivers_raise_with_prepare clean options info input_file h e
                Hprep) as [_ Hseq].
    fold run in Hseq. rewrite Hseq in Hrun. discriminate. }
  destruct (sequence_level_run clean options info input_file h r Hprep)
    as (d1 & Hp & Hcases).
  fold o in Hp, Hcases. fold run in Hcases.
  pose proof (prepare_body_images _ _ _ _ _ _ Hp) as Hprepared.
  destruct (index_images (images d1) 0 []) as [e | idx] eqn:Hidx;
    [rewrite Hcases in Hrun; discriminate |].
  apply index_images_ok_inv in Hidx as (-> & _ & _). cbn [app] in Hcases.
  cbv zeta in Hcases.
  set (seqs := sequence_to_image_filenames info) in *.
  set (st0 := store_of (flat_map image_dets (images d1))) in *.
  assert (Hlisted : forall f, In f (all_filenames seqs) ->
                              listed info f = true).
  { intros f Hf. unfold listed. apply str_mem_In.
    now apply sequence_filenames. }
  pose proof (smooth_sequences_frame o (prep_other_category_ids r)
                (prep_classification_descriptions_clean r) (listed info)
                (images d1) seqs Hlisted st0) as Hframe.
  destruct (smooth_sequences o (prep_other_category_ids r)
              (prep_classification_descriptions_clean r)
              (layout (images d1) 0) seqs st0) as [st' [e | u]];
    cbn [fst snd] in *; [rewrite Hcases in Hrun; discriminate |].
  destruct Hcases as [Hw Hobj]. rewrite Hw in Hrun. injection Hrun as <-.
  rewrite Hobj. cbn [set_images images].
  assert (Hagree : forall a,
             In a (addresses_where (fun f => negb (listed info f))
                     (images d1) 0) ->
             st' a = st0 a).
  { intros a Ha. apply Hframe. intros Hin.
    apply (addresses_where_disjoint (fun f => negb (listed info f))
             (listed info) (images d1)) with (base := 0) (a := a); auto.
    intros f Hn Hl. rewrite Hl in Hn. discriminate. }
  pose proof (read_back_agree (fun f => negb (listed info f)) (images d1) 0
                st0 st' Hagree) as Hback.
  assert (Hsame0 : read_back (images d1) 0 st0 = images d1)
    by exact (read_back_store_of (images d1) []).
  rewrite Hsame0 in Hback.
  eapply Forall2_compose; [| exact Hprepared | exact Hback].
  intros im im1 im' [Hf1 Hd1] [Hf' Hsame]. cbv beta in *.
  split; [congruence |]. intros Hunlisted.
  rewrite Hsame; [exact Hd1 |]. rewrite Hf1, Hunlisted. reflexivity.
Qed.

(** On [stray_results] the sequence of a.jpg and b.jpg is smoothed - the
    "other" detection of a.jpg becomes a cow - while c.jpg, which is not
    listed, keeps its "other" detection, although the image-level driver
    would relabel it. *)
Lemma sequence_level_skips_unlisted_images_witness :
  let after :=
    images (objects
              (fst (smooth_classification_results_sequence_level
                      (fun s => ok s) 0 herd_sequence
                      (Some in_place_options) stray_heap)) 0) in
  Forall2 (fun im im' =>
             im_file im' = im_file im /\
             (listed herd_sequence (im_file im) = false ->
              im_detections im' = im_detections (top_only_image im)))
          (images stray_results) after /\
  map (listed herd_sequence) (map im_file (images stray_results))
  = [true; true; false] /\
  map im_detections after
  = [Some [sure "1"; sure "1"]; Some [sure "1"];
     Some [sure "1"; sure "1"; sure "2"]] /\
  map im_detections
    (images (objects
               (fst (smooth_classification_results_image_level
                       (fun s => ok s) 0 (Some in_place_options)
                       stray_heap)) 0))
  = [Some [sure "1"; sure "2"]; Some [sure "1"];
     Some [sure "1"; sure "1"; sure "1"]].
Proof.
  split; [| repeat split].
  apply (sequence_level_skips_unlisted_images (fun s => ok s)
           (Some in_place_options) herd_sequence 0 stray_heap 0).
  reflexivity.
Defined.

(** ** The "other" category ids *)

Lemma dict_set_find {V : Type} (d : dict V) (k k' : string) (v : V) :
  dict_find (dict_set d k v) k'
  = if String.eqb k k' then Some v else dict_find d k'.
Proof.
  induction d as [| [k0 v0] d IH]; cbn [dict_set dict_find].
  - reflexivity.
  - destruct (String.eqb k0 k) eqn:E0; cbn [dict_find].
    + apply String.eqb_eq in E0. subst k0.
      now destruct (String.eqb k k').
    + destruct (String.eqb k0 k') eqn:E1; [| exact IH].
      apply String.eqb_eq in E1. subst k0.
      rewrite String.eqb_sym in E0. now rewrite E0.
Qed.

Lemma name_to_id_sound (categories : dict string) :
  forall acc s k,
    dict_find (fold_left (fun acc kv => dict_set acc (snd kv) (fst kv))
                         categories acc) s = Some k ->
    In (k, s) categories \/ dict_find acc s = Some k.
Proof.
  induction categories as [| [k0 s0] categories IH]; intros acc s k;
    cbn [fold_left fst snd]; [now right |].
  intros H. apply IH in H as [H | H]; [left; now right |].
  rewrite dict_set_find in H. destruct (String.eqb s0 s) eqn:E; [| now right].
  apply String.eqb_eq in E. subst s0. injection H as <-. left. now left.
Qed.

Lemma name_to_id_skip (categories : dict string) :
  forall acc s,
    ~ In s (map snd categories) ->
    dict_find (fold_left (fun acc kv => dict_set acc (snd kv) (fst kv))
                         categories acc) s = dict_find acc s.
Proof.
  induction categories as [| [k0 s0] categories IH]; intros acc s Hnot;
    cbn [fold_left fst snd map] in *; [reflexivity |].
  rewrite IH by (intros H; apply Hnot; now right).
  rewrite dict_set_find.
  destruct (String.eqb s0 s) eqn:E; [| reflexivity].
  apply String.eqb_eq in E. exfalso. apply Hnot. now left.
Qed.

Lemma name_to_id_complete (categories : dict string) :
  NoDup (map snd categories) ->
  forall acc s k,
    In (k, s) categories ->
    dict_find (fold_left (fun acc kv => dict_set acc (snd kv) (fst kv))
                         categories acc) s = Some k.
Proof.
  induction categories as [| [k0 s0] categories IH]; intros Hnd acc s k Hin;
    [contradiction |].
  cbn [fold_left fst snd map] in *.
  inversion Hnd as [| ? ? Hnotin Hnd']; subst.
  destruct Hin as [Heq | Hin].
  - injection Heq as -> ->. rewrite name_to_id_skip by assumption.
    rewrite dict_set_find. now rewrite String.eqb_refl.
  - now apply IH.
Qed.

(** X16.  The "other" category ids of _prepare_results_for_smoothing are
    found by exact category name.  Every id it returns belongs to a category
    of the results whose name is one of [other_category_names]; a name that
    no category has is passed over without an error; and when no two
    categories share a name, the id of every category so named is
    returned. *)
Theorem other_ids_are_the_categories_so_named :
  forall (options : ClassificationSmoothingOptions) (d : results),
    (forall k, In k (other_ids options d) ->
       exists s, In s (other_category_names options) /\
                 In (k, s) (classification_categories d)) /\
    (NoDup (map snd (classification_categories d)) ->
     forall k s,
       In (k, s) (classification_categories d) ->
       In s (other_category_names options) ->
       In k (other_ids options d)) /\
    List.length (other_ids options d)
    <= List.length (other_category_names options).
Proof.
  intros options d. unfold other_ids.
  set (name_to_id := fold_left (fun acc kv => dict_set acc (snd kv) (fst kv))
                               (classification_categories d) []).
  split; [| split].
  - intros k Hk. apply in_flat_map in Hk as (s & Hs & Hk).
    destruct (dict_find name_to_id s) as [k' |] eqn:Hf; [| contradiction].
    destruct Hk as [<- | []]. exists s. split; [exact Hs |].
    apply name_to_id_sound in Hf as [Hf | Hf]; [exact Hf | discriminate].
  - intros Hnd k s Hin Hs. apply in_flat_map. exists s.
    split; [exact Hs |].
    unfold name_to_id. rewrite (name_to_id_complete _ Hnd [] s k Hin).
    now left.
  - induction (other_category_names options) as [| s names IH];
      [apply le_n |].
    cbn [flat_map]. rewrite length_app.
    destruct (dict_find name_to_id s); simpl in *; lia.
Qed.

(** ** Grouping images into sequences *)

Lemma dict_append_find (d : dict (list string)) (k v k' : string) :
  dict_find (dict_append d k v) k'
  = if String.eqb k k'
    then Some (match dict_find d k' with
               | Some l => l ++ [v]
               | None => [v]
               end)
    else dict_find d k'.
Proof.
  induction d as [| [k0 l0] d IH]; cbn [dict_append dict_find].
  - now destruct (String.eqb k k').
  - destruct (String.eqb k0 k) eqn:E0; cbn [dict_find].
    + apply String.eqb_eq in E0. subst k0.
      now destruct (String.eqb k k').
    + destruct (String.eqb k0 k') eqn:E1; [| exact IH].
      apply String.eqb_eq in E1. subst k0.
      rewrite String.eqb_sym in E0. now rewrite E0.
Qed.

Lemma dict_append_keys (d : dict (list string)) (k v : string) :
  dict_keys (dict_append d k v)
  = if str_mem k (dict_keys d) then dict_keys d else dict_keys d ++ [k].
Proof.
  rewrite <- dict_mem_str_mem. unfold dict_mem.
  induction d as [| [k0 l0] d IH]; cbn [dict_append dict_find dict_keys map];
    [reflexivity |].
  destruct (String.eqb k0 k) eqn:E0; cbn [map fst]; [reflexivity |].
  unfold dict_keys in IH. rewrite IH. now destruct (dict_find d k).
Qed.

Lemma sequences_find (image_info : list cct_image) (s : string) :
  forall acc,
    dict_find (fold_left (fun acc im =>
                            dict_append acc (seq_id im) (file_name im))
                         image_info acc) s
    = match dict_find acc s, files_of s image_info with
      | Some l, fs => Some (l ++ fs)
      | None, [] => None
      | None, fs => Some fs
      end.
Proof.
  unfold files_of.
  induction image_info as [| c info IH]; intros acc;
    cbn [fold_left filter map].
  - destruct (dict_find acc s); [now rewrite app_nil_r | reflexivity].
  - rewrite IH, dict_append_find.
    destruct (String.eqb (seq_id c) s) eqn:E; cbn [map].
    + destruct (dict_find acc s) as [l |].
      * now rewrite <- app_assoc.
      * reflexivity.
    + reflexivity.
Qed.

Lemma sequences_keys (image_info : list cct_image) :
  forall acc,
    dict_keys (fold_left (fun acc im =>
                            dict_append acc (seq_id im) (file_name im))
                         image_info acc)
    = fold_left (fun seen k => if str_mem k seen then seen else seen ++ [k])
                (map seq_id image_info) (dict_keys acc).
Proof.
  induction image_info as [| c info IH]; intros acc; cbn [fold_left map];
    [reflexivity |].
  now rewrite IH, dict_append_keys.
Qed.

Lemma encounter_NoDup (ks : list string) :
  forall seen,
    NoDup seen ->
    NoDup (fold_left (fun seen k => if str_mem k seen then seen
                                    else seen ++ [k]) ks seen).
Proof.
  induction ks as [| k ks IH]; intros seen Hnd; cbn [fold_left];
    [exact Hnd |].
  apply IH. destruct (str_mem k seen) eqn:E; [exact Hnd |].
  apply NoDup_app; [exact Hnd | repeat constructor; intros [] |].
  intros x Hx [<- | []]. apply str_mem_In in Hx. congruence.
Qed.

(** X17.  The sequences of the sequence-level driver: the sequence ids
    stand in the order in which the sequence information first mentions
    them, each once; a sequence holds the file names of all its entries, in
    the order of the sequence information and as often as they are listed;
    and no sequence is empty. *)
Theorem sequences_group_the_listed_files :
  forall (image_info : list cct_image),
    let sequences := sequence_to_image_filenames image_info in
    dict_keys sequences = encounter_order (map seq_id image_info) /\
    NoDup (dict_keys sequences) /\
    (forall s l, dict_find sequences s = Some l <->
                 l = files_of s image_info /\ l <> []) /\
    (forall s l, In (s, l) sequences ->
                 l = files_of s image_info /\ l <> []).
Proof.
  intros info sequences. subst sequences.
  unfold sequence_to_image_filenames.
  assert (Hkeys : dict_keys (fold_left
                               (fun acc im =>
                                  dict_append acc (seq_id im) (file_name im))
                               info [])
                  = encounter_order (map seq_id info))
    by apply (sequences_keys info []).
  assert (Hnd : NoDup (dict_keys (fold_left
                                    (fun acc im =>
                                       dict_append acc (seq_id im)
                                         (file_name im)) info [])))
    by (rewrite Hkeys; apply encounter_NoDup; constructor).
  assert (Hfind : forall s l,
             dict_find (fold_left
                          (fun acc im =>
                             dict_append acc (seq_id im) (file_name im))
                          info []) s = Some l <->
             l = files_of s info /\ l <> []).
  { intros s l. rewrite (sequences_find info s []). cbn [dict_find].
    destruct (files_of s info) as [| f fs].
    - split; [discriminate | intros [-> Hne]; congruence].
    - split; [intros [= <-]; split; [reflexivity | discriminate] |].
      now intros [-> _]. }
  split; [exact Hkeys |]. split; [exact Hnd |]. split; [exact Hfind |].
  intros s l Hin. apply Hfind. now apply In_dict_find.
Qed.

(** ** The utility functions *)

(** X18.  _results_for_sequence returns exactly when the results have an
    entry for the file name of every image of the sequence, and otherwise
    raises KeyError; what it returns has one result per image of the
    sequence, in the order of the sequence, each the entry of that image's
    file name. *)
Theorem results_for_sequence_follow_the_sequence :
  forall (images_this_sequence : list cct_image)
         (filename_to_results : dict image),
    (forall e,
        _results_for_sequence images_this_sequence filename_to_results
        = inl e -> e = KeyError) /\
    ((exists l,
         _results_for_sequence images_this_sequence filename_to_results
         = ok l) <->
     (forall im, In im images_this_sequence ->
                 In (file_name im) (dict_keys filename_to_results))) /\
    (forall l,
        _results_for_sequence images_this_sequence filename_to_results
        = ok l ->
        map Some l
        = map (fun im => dict_find filename_to_results (file_name im))
              images_this_sequence).
Proof.
  intros ims f2r.
  induction ims as [| im ims (IHe & IHok & IHl)];
    cbn [_results_for_sequence].
  - split; [discriminate |]. split.
    + split; [intros _ im [] | intros _; now exists []].
    + now intros l [= <-].
  - unfold dict_get.
    destruct (dict_find f2r (file_name im)) as [res |] eqn:Hf.
    + unfold ok at 1 4 6, rbind at 1 3 5.
      destruct (_results_for_sequence ims f2r) as [e | rest].
      * split; [intros e' [= <-]; now apply IHe |]. split.
        -- split; [intros (l & Habs); discriminate |].
           intros Hall. destruct IHok as [_ IHok].
           destruct IHok as (l & Habs); [| discriminate].
           intros im' Him'. apply Hall. now right.
        -- discriminate.
      * split; [discriminate |]. split.
        -- split; [| intros _; eexists; reflexivity].
           intros _ im' [<- | Him'].
           ++ apply dict_find_keys. congruence.
           ++ destruct IHok as [IHok _]. apply IHok; [now exists rest |].
              exact Him'.
        -- intros l [= <-]. cbn [map]. rewrite Hf. f_equal. now apply IHl.
    + split; [now intros e [= <-] |]. split.
      * split; [intros (l & Habs); discriminate |].
        intros Hall. specialize (Hall im (or_introl eq_refl)).
        apply dict_find_keys in Hall. congruence.
      * discriminate.
Qed.

Lemma leb_of_ltb (a b : string) : String.ltb a b = true -> String.leb a b = true.
Proof.
  unfold String.ltb, String.leb. now destruct (String.compare a b).
Qed.

Lemma leb_of_not_ltb (a b : string) :
  String.ltb b a = false -> String.leb a b = true.
Proof.
  unfold String.ltb, String.leb. rewrite (String.compare_antisym b a).
  now destruct (String.compare a b).
Qed.

Lemma leb_trans (a b c : string) :
  String.leb a b = true -> String.leb b c = true -> String.leb a c = true.
Proof.
  unfold String.leb. intros Hab Hbc.
  destruct (String.compare a b) eqn:Eab; try discriminate;
    destruct (String.compare b c) eqn:Ebc; try discriminate.
  - apply String.compare_eq_iff in Eab. subst. now rewrite Ebc.
  - apply String.compare_eq_iff in Eab. subst. now rewrite Ebc.
  - apply String.compare_eq_iff in Ebc. subst. now rewrite Eab.
  - apply OrderedTypeEx.String_as_OT.cmp_lt in Eab, Ebc.
    pose proof (OrderedTypeEx.String_as_OT.lt_trans _ _ _ Eab Ebc) as Hac.
    apply OrderedTypeEx.String_as_OT.cmp_lt in Hac.
    unfold OrderedTypeEx.String_as_OT.cmp in Hac. now rewrite Hac.
Qed.

Lemma insert_by_time_perm (im : dated_image) (l : list dated_image) :
  Permutation (insert_by_time im l) (im :: l).
Proof.
  induction l as [| y l IH]; cbn [insert_by_time]; [reflexivity |].
  destruct (String.ltb (datetime y) (datetime im)); [| reflexivity].
  rewrite IH. apply perm_swap.
Qed.

Lemma insert_by_time_sorted (im : dated_image) (l : list dated_image) :
  StronglySorted not_later l -> StronglySorted not_later (insert_by_time im l).
Proof.
  induction l as [| y l IH]; intros Hs; cbn [insert_by_time].
  - repeat constructor.
  - inversion Hs as [| ? ? Hl Hy]; subst.
    destruct (String.ltb (datetime y) (datetime im)) eqn:E.
    + constructor; [now apply IH |].
      apply Forall_forall. intros z Hz.
      apply (Permutation_in _ (insert_by_time_perm im l)) in Hz.
      destruct Hz as [<- | Hz].
      * now apply leb_of_ltb.
      * rewrite Forall_forall in Hy. now apply Hy.
    + constructor; [exact Hs |].
      assert (Hxy : not_later im y) by now apply leb_of_not_ltb.
      constructor; [exact Hxy |].
      apply Forall_forall. intros z Hz. rewrite Forall_forall in Hy.
      eapply leb_trans; [exact Hxy | now apply Hy].
Qed.

Lemma taken_at_insert (t : string) (im : dated_image)
    (l : list dated_image) :
  taken_at t (insert_by_time im l) = taken_at t (im :: l).
Proof.
  unfold taken_at. induction l as [| y l IH]; cbn [insert_by_time];
    [reflexivity |].
  destruct (String.ltb (datetime y) (datetime im)) eqn:E; [| reflexivity].
  cbn [filter] in *. rewrite IH.
  destruct (String.eqb (datetime im) t) eqn:Ex;
    destruct (String.eqb (datetime y) t) eqn:Ey; try reflexivity.
  apply String.eqb_eq in Ex, Ey. rewrite Ex, Ey in E.
  unfold String.ltb in E.
  assert (String.compare t t = Eq) as Heq
    by now apply OrderedTypeEx.String_as_OT.cmp_eq.
  rewrite Heq in E. discriminate.
Qed.

(** X19.  _sort_images_by_time returns the images it was given, each as
    often as it was given, ordered so that no image stands before one with
    an earlier 'datetime'; images with the same 'datetime' keep the order
    they had. *)
Theorem sort_images_by_time_is_a_stable_sort :
  forall (images : list dated_image),
    Permutation (_sort_images_by_time images) images /\
    StronglySorted not_later (_sort_images_by_time images) /\
    (forall t, taken_at t (_sort_images_by_time images) = taken_at t images).
Proof.
  intros images. unfold _sort_images_by_time.
  induction images as [| im images (IHp & IHs & IHt)]; cbn [fold_right].
  - repeat split; constructor.
  - split; [| split].
    + rewrite insert_by_time_perm. now constructor.
    + now apply insert_by_time_sorted.
    + intros t. rewrite taken_at_insert. unfold taken_at in *.
      cbn [filter]. now rewrite IHt.
Qed.

(** ** What a run conserves *)

Lemma total_count_visible (options : ClassificationSmoothingOptions)
    (dets : list detection) (t : dict nat) :
  _count_detections_by_category dets options = ok t ->
  total_count t = List.length (filter (visible options) dets).
Proof.
  intros Ht. destruct (tally_ok_inv options dets t Ht) as [_ ->].
  unfold total_count.
  rewrite (list_sum_perm _ _ (Permutation_map snd (sort_desc_perm _))).
  fold (total_count (tally_of (counted options dets) [])).
  rewrite total_count_tally_of. simpl. apply counted_length.
Qed.

Lemma visible_filter_relabel (options : ClassificationSmoothingOptions)
    (st st' : store) (refs : list nat) :
  (forall a, relabel_of (st a) (st' a)) ->
  List.length (filter (visible options) (view st' refs))
  = List.length (filter (visible options) (view st refs)).
Proof.
  intros Hrel. induction refs as [| r refs IH]; [reflexivity |].
  unfold view in *. cbn [map filter].
  rewrite (relabel_of_visible options _ _ (Hrel r)).
  destruct (visible options (st r)); cbn [List.length]; now rewrite IH.
Qed.

(** X20.  A Group Smoother run moves detections between categories and
    does nothing else to the tally: if the unit could be tallied before the
    run, it can be tallied after it - whether the run returned or raised -
    and the new tally has the same total, no category that the old one did
    not have, and so at most as many categories. *)
Theorem smoothing_conserves_the_total_count :
  forall options other_category_ids descriptions_clean
         (refs : list nat) (st : store) (t : dict nat),
    let st' := fst (_smooth_classifications_for_list_of_detections options
                      other_category_ids descriptions_clean refs st) in
    _count_detections_by_category (view st refs) options = ok t ->
    exists t',
      _count_detections_by_category (view st' refs) options = ok t' /\
      total_count t' = total_count t /\
      incl (dict_keys t') (dict_keys t) /\
      List.length t' <= List.length t.
Proof.
  intros options other_category_ids descriptions_clean refs st t st' Ht.
  pose proof (smooth_relabels options other_category_ids descriptions_clean
                refs st) as Hrel. fold st' in Hrel.
  assert (Hord : forall r, In r refs ->
                   in_order options (dict_keys t) (st' r)).
  { subst st'. rewrite smooth_cases, Ht. unfold ok at 1. cbv beta iota.
    destruct (List.length t <=? 1)%nat;
      [now apply in_order_of_tally |].
    apply three_passes_in_order; [apply incl_refl |].
    now apply in_order_of_tally. }
  destruct (tally_total options st' refs (dict_keys t) Hord)
    as (t' & Ht' & Hincl).
  exists t'. split; [exact Ht' |]. split; [| split; [exact Hincl |]].
  - rewrite (total_count_visible options _ _ Ht'),
      (total_count_visible options _ _ Ht).
    now apply visible_filter_relabel.
  - pose proof (NoDup_incl_length (tally_NoDup options _ _ Ht') Hincl) as Hl.
    unfold dict_keys in Hl. now rewrite !length_map in Hl.
Qed.

Lemma smoothing_conserves_the_total_count_witness :
  exists t',
    _count_detections_by_category
      (view (fst (_smooth_classifications_for_list_of_detections
                    default_options ["other"] None (addresses cow_unit)
                    (store_of cow_unit))) (addresses cow_unit))
      default_options = ok t' /\
    total_count t' = total_count [("cow", 2); ("other", 1)].
Proof.
  destruct (smoothing_conserves_the_total_count default_options ["other"]
              None (addresses cow_unit) (store_of cow_unit)
              [("cow", 2); ("other", 1)] eq_refl)
    as (t' & Ht' & Htotal & _).
  exists t'. split; [exact Ht' | exact Htotal].
Defined.

(** ** In place *)

Lemma prepare_in_place (clean : string -> result string)
    (options : ClassificationSmoothingOptions) (input_file : nat) (h : heap) :
  modify_in_place options = true ->
  let '(h', r) := _prepare_results_for_smoothing clean input_file options h in
  next_loc h' = next_loc h /\
  (forall l, l <> input_file -> objects h' l = objects h l) /\
  (forall p, r = ok p -> prep_d p = input_file).
Proof.
  intros Hplace. unfold _prepare_results_for_smoothing, hbind, hret.
  rewrite Hplace. unfold ok at 1. cbv beta iota.
  pose proof (at_loc_frame input_file (prepare_body clean options input_file)
                h) as [Hn Hf].
  pose proof (prepare_body_d clean options input_file
                (objects h input_file)) as Hd.
  unfold at_loc in *.
  destruct (prepare_body clean options input_file (objects h input_file))
    as [d' r]. simpl in *.
  split; [reflexivity |]. split; [exact Hf |]. intros p ->. now apply Hd.
Qed.

(** X21.  With [modify_in_place = True] both drivers work on the caller's
    dict itself: they allocate no dict, leave every other dict as it was,
    whether they return or raise, and what they return is the caller's
    dict. *)
Theorem in_place_drivers_return_the_callers_dict :
  forall (clean_taxonomy_string : string -> result string)
         (options : option ClassificationSmoothingOptions)
         (cct_sequence_information : list cct_image)
         (input_file : nat) (h : heap),
    modify_in_place (options_or_default options) = true ->
    let image_run :=
      smooth_classification_results_image_level clean_taxonomy_string
        input_file options h in
    let sequence_run :=
      smooth_classification_results_sequence_level clean_taxonomy_string
        input_file cct_sequence_information options h in
    next_loc (fst image_run) = next_loc h /\
    next_loc (fst sequence_run) = next_loc h /\
    (forall l, l <> input_file ->
       objects (fst image_run) l = objects h l /\
       objects (fst sequence_run) l = objects h l) /\
    (forall w, snd image_run = ok w \/ snd sequence_run = ok w ->
               w = input_file).
Proof.
  intros clean options info input_file h Hplace image_run sequence_run.
  assert (Himage : next_loc (fst image_run) = next_loc h /\
                   (forall l, l <> input_file ->
                      objects (fst image_run) l = objects h l) /\
                   (forall w, snd image_run = ok w -> w = input_file)).
  { subst image_run.
    unfold smooth_classification_results_image_level, hbind.
    fold (options_or_default options).
    pose proof (prepare_in_place clean (options_or_default options)
                  input_file h Hplace) as Hp.
    destruct (_prepare_results_for_smoothing clean input_file
                (options_or_default options) h) as [h1 [e | p]].
    - destruct Hp as (Hn & Hf & _). split; [exact Hn |].
      split; [exact Hf | discriminate].
    - destruct Hp as (Hn & Hf & Hd). specialize (Hd p eq_refl).
      match goal with
      | |- context [at_loc ?loc ?w h1] =>
          pose proof (at_loc_frame loc w h1) as [Hn2 Hf2];
          destruct (at_loc loc w h1) as [h2 [e | u]]
      end; simpl in *.
      + split; [congruence |]. split; [| discriminate].
        intros l Hl. rewrite Hf2 by congruence. now apply Hf.
      + split; [congruence |].
        split; [| unfold hret; simpl; intros w [= <-]; exact Hd].
        intros l Hl. unfold hret. simpl. rewrite Hf2 by congruence.
        now apply Hf. }
  assert (Hseq : next_loc (fst sequence_run) = next_loc h /\
                 (forall l, l <> input_file ->
                    objects (fst sequence_run) l = objects h l) /\
                 (forall w, snd sequence_run = ok w -> w = input_file)).
  { subst sequence_run.
    unfold smooth_classification_results_sequence_level, hbind.
    fold (options_or_default options).
    pose proof (prepare_in_place clean (options_or_default options)
                  input_file h Hplace) as Hp.
    destruct (_prepare_results_for_smoothing clean input_file
                (options_or_default options) h) as [h1 [e | p]].
    - destruct Hp as (Hn & Hf & _). split; [exact Hn |].
      split; [exact Hf | discriminate].
    - destruct Hp as (Hn & Hf & Hd). specialize (Hd p eq_refl).
      match goal with
      | |- context [at_loc ?loc ?w h1] =>
          pose proof (at_loc_frame loc w h1) as [Hn2 Hf2];
          destruct (at_loc loc w h1) as [h2 [e | u]]
      end; simpl in *.
      + split; [congruence |]. split; [| discriminate].
        intros l Hl. rewrite Hf2 by congruence. now apply Hf.
      + split; [congruence |].
        split; [| unfold hret; simpl; intros w [= <-]; exact Hd].
        intros l Hl. unfold hret. simpl. rewrite Hf2 by congruence.
        now apply Hf. }
  destruct Himage as (Hi1 & Hi2 & Hi3). destruct Hseq as (Hs1 & Hs2 & Hs3).
  split; [exact Hi1 |]. split; [exact Hs1 |].
  split; [intros l Hl; split; auto |].
  intros w [H | H]; auto.
Qed.

Lemma in_place_drivers_return_the_callers_dict_witness :
  next_loc (fst (smooth_classification_results_image_level (fun s => ok s) 0
                   (Some in_place_options) cow_heap)) = 1 /\
  snd (smooth_classification_results_image_level (fun s => ok s) 0
         (Some in_place_options) cow_heap) = ok 0.
Proof.
  destruct (in_place_drivers_return_the_callers_dict (fun s => ok s)
              (Some in_place_options) [] 0 cow_heap eq_refl)
    as (Hn & _ & _ & _).
  split; [exact Hn | reflexivity].
Defined.

(** ** A unit is smoothed as the list of its detections *)

Section Renaming.

Variable phi : nat -> nat.
Variable dom : list nat.
Hypothesis phi_injective :
  forall i j, In i dom -> In j dom -> phi i = phi j -> i = j.

Lemma renamed_ret {A : Type} (x : A) : renamed phi dom (ret x) (ret x).
Proof. intros st st' H. now split. Qed.

Lemma renamed_lift {A : Type} (r : result A) :
  renamed phi dom (lift r) (lift r).
Proof. intros st st' H. now split. Qed.

Lemma renamed_bind {A B : Type} (m m' : M A) (f f' : A -> M B) :
  renamed phi dom m m' -> (forall x, renamed phi dom (f x) (f' x)) ->
  renamed phi dom (bind m f) (bind m' f').
Proof.
  intros Hm Hf st st' H. unfold bind.
  destruct (Hm st st' H) as [Hr Hs].
  destruct (m st) as [st1 r1], (m' st') as [st1' r1']. simpl in *. subst r1'.
  destruct r1 as [e | x]; [now split |]. now apply Hf.
Qed.

Lemma renamed_read {A : Type} (l : list nat)
    (f f' : list detection -> M A) :
  incl l dom ->
  (forall dets, renamed phi dom (f dets) (f' dets)) ->
  renamed phi dom (bind (read_all (map phi l)) f) (bind (read_all l) f').
Proof.
  intros Hincl Hf st st' H. unfold bind, read_all. unfold ok.
  cbv beta iota.
  assert (view st (map phi l) = view st' l) as ->.
  { unfold view. rewrite map_map. apply map_ext_in. intros i Hi.
    symmetry. apply H. now apply Hincl. }
  now apply Hf.
Qed.

Lemma renamed_for_each {S : Type}
    (body : detection -> S -> detection * result S) :
  forall l s,
    incl l dom ->
    renamed phi dom (for_each body (map phi l) s) (for_each body l s).
Proof.
  induction l as [| r l IH]; intros s Hincl st st' H; cbn [map for_each];
    [now split |].
  assert (Hr : In r dom) by (apply Hincl; now left).
  rewrite (H r Hr).
  assert (Hupd : forall d i, In i dom ->
                   upd st' r d i = upd st (phi r) d (phi i)).
  { intros d i Hi. unfold upd.
    destruct (Nat.eqb_spec i r) as [-> | Hne].
    - now rewrite Nat.eqb_refl.
    - destruct (Nat.eqb_spec (phi i) (phi r)) as [Heq | _]; [| now apply H].
      exfalso. apply Hne. now apply phi_injective. }
  destruct (body (st (phi r)) s) as [d' [e | s']]; cbn [fst snd].
  - split; [reflexivity | apply Hupd].
  - apply IH; [| apply Hupd]. intros x Hx. apply Hincl. now right.
Qed.

Lemma smooth_renamed (options : ClassificationSmoothingOptions)
    (other_category_ids : list string)
    (descriptions_clean : option (dict string)) (l : list nat) :
  incl l dom ->
  renamed phi dom
    (_smooth_classifications_for_list_of_detections options
       other_category_ids descriptions_clean (map phi l))
    (_smooth_classifications_for_list_of_detections options
       other_category_ids descriptions_clean l).
Proof.
  intros Hincl.
  unfold _smooth_classifications_for_list_of_detections, other_pass,
    flip_pass, taxonomy_pass.
  repeat first
    [ apply renamed_read; [exact Hincl | intros ?]
    | apply renamed_bind; [| intros ?]
    | apply renamed_lift
    | apply renamed_ret
    | apply renamed_for_each; exact Hincl
    | match goal with
      | |- renamed _ _ (if ?b then _ else _) _ => destruct b
      | |- renamed _ _ (let '(_, _) := ?p in _) _ => destruct p
      | |- renamed _ _ (match ?o with Some _ => _ | None => _ end) _ =>
          destruct o
      end ].
Qed.

End Renaming.

Lemma map_nth_seq {A : Type} (l : list A) (d : A) :
  map (fun i => nth i l d) (seq 0 (List.length l)) = l.
Proof.
  induction l as [| a l IH]; [reflexivity |].
  cbn [List.length seq map nth]. f_equal.
  rewrite <- seq_shift, map_map. exact IH.
Qed.

(** On a unit without shared objects the smoother does what it does on the
    list of the unit's detections. *)
Lemma smooth_unit_as_list (options : ClassificationSmoothingOptions)
    (other_category_ids : list string)
    (descriptions_clean : option (dict string)) (refs : list nat)
    (st : store) :
  NoDup refs ->
  smooth_list options other_category_ids descriptions_clean (view st refs)
  = (view (fst (_smooth_classifications_for_list_of_detections options
                  other_category_ids descriptions_clean refs st)) refs,
     snd (_smooth_classifications_for_list_of_detections options
            other_category_ids descriptions_clean refs st)).
Proof.
  intros Hnd. unfold smooth_list.
  assert (Haddr : addresses (view st refs) = seq 0 (List.length refs)).
  { unfold addresses, view. now rewrite length_map. }
  rewrite Haddr.
  set (phi := fun i => nth i refs 0).
  assert (Hmap : map phi (seq 0 (List.length refs)) = refs)
    by apply map_nth_seq.
  assert (Hinj : forall i j,
             In i (seq 0 (List.length refs)) ->
             In j (seq 0 (List.length refs)) -> phi i = phi j -> i = j).
  { intros i j Hi Hj. apply in_seq in Hi, Hj.
    apply (proj1 (NoDup_nth refs 0) Hnd); lia. }
  assert (Hagree : forall i,
             In i (seq 0 (List.length refs)) ->
             store_of (view st refs) i = st (phi i)).
  { intros i Hi. apply in_seq in Hi. unfold store_of, view, phi.
    rewrite (nth_indep _ empty_detection (st 0))
      by (rewrite length_map; lia).
    apply map_nth. }
  pose proof (smooth_renamed phi (seq 0 (List.length refs)) Hinj options
                other_category_ids descriptions_clean
                (seq 0 (List.length refs)) (incl_refl _) st
                (store_of (view st refs)) Hagree) as [Hres Hst].
  rewrite Hmap in Hres, Hst.
  destruct (_smooth_classifications_for_list_of_detections options
              other_category_ids descriptions_clean
              (seq 0 (List.length refs)) (store_of (view st refs)))
    as [st1 r1].
  destruct (_smooth_classifications_for_list_of_detections options
              other_category_ids descriptions_clean refs st) as [st2 r2].
  cbn [fst snd] in *. f_equal; [| congruence].
  unfold view. rewrite <- Hmap at 2. rewrite map_map.
  apply map_ext_in. exact Hst.
Qed.

Lemma NoDup_app_disjoint {A : Type} (l l' : list A) (x : A) :
  NoDup (l ++ l') -> In x l -> In x l' -> False.
Proof.
  induction l as [| a l IH]; intros Hnd Hl Hl'; [contradiction |].
  cbn [app] in Hnd. inversion Hnd as [| ? ? Hnotin Hnd']; subst.
  destruct Hl as [-> | Hl]; [| now apply IH].
  apply Hnotin. apply in_app_iff. now right.
Qed.

Lemma In_all_filenames (sequences : dict (list string)) (s : string)
    (files : list string) (f : string) :
  In (s, files) sequences -> In f files -> In f (all_filenames sequences).
Proof.
  intros Hin Hf. unfold all_filenames. apply in_concat. exists files.
  split; [| exact Hf]. now apply (in_map snd) in Hin.
Qed.

Lemma smooth_sequences_frame_units
    (options : ClassificationSmoothingOptions)
    (other_category_ids : list string)
    (descriptions_clean : option (dict string))
    (idx : dict (option (list nat))) (sequences : dict (list string)) :
  forall st a,
    (forall s files refs,
        In (s, files) sequences -> gather idx files = ok refs ->
        ~ In a refs) ->
    fst (smooth_sequences options other_category_ids descriptions_clean idx
           sequences st) a = st a.
Proof.
  induction sequences as [| [s files] sequences IH]; intros st a Hout;
    cbn [smooth_sequences]; [reflexivity |].
  assert (Hout' : forall s' files' refs,
             In (s', files') sequences -> gather idx files' = ok refs ->
             ~ In a refs).
  { intros s' files' refs Hin. apply (Hout s'). now right. }
  unfold bind, lift.
  destruct (gather idx files) as [e | refs] eqn:Hg; [reflexivity |].
  destruct (List.length refs =? 0)%nat; [now apply IH |].
  pose proof (smooth_frames options other_category_ids descriptions_clean
                refs st a (Hout s files refs (or_introl eq_refl) Hg)) as Hf.
  destruct (_smooth_classifications_for_list_of_detections options
              other_category_ids descriptions_clean refs st)
    as [st1 [e | r]]; cbn [fst] in *; [exact Hf |].
  rewrite IH by assumption. exact Hf.
Qed.

(** When the units of the sequences are pairwise disjoint, every sequence
    is smoothed as if it were the only one. *)
Lemma smooth_sequences_units (options : ClassificationSmoothingOptions)
    (other_category_ids : list string)
    (descriptions_clean : option (dict string))
    (idx : dict (option (list nat))) :
  (forall f f' l l' a,
      dict_find idx f = Some (Some l) -> dict_find idx f' = Some (Some l') ->
      In a l -> In a l' -> f = f') ->
  forall sequences st st',
    NoDup (all_filenames sequences) ->
    smooth_sequences options other_category_ids descriptions_clean idx
      sequences st = (st', ok tt) ->
    forall s files,
      In (s, files) sequences ->
      exists refs,
        gather idx files = ok refs /\
        view st' refs
        = view (fst (_smooth_classifications_for_list_of_detections options
                       other_category_ids descriptions_clean refs st)) refs /\
        (refs <> [] ->
         exists r,
           snd (_smooth_classifications_for_list_of_detections options
                  other_category_ids descriptions_clean refs st) = ok r).
Proof.
  intros Hidx.
  induction sequences as [| [s1 files1] sequences IH];
    intros st st' Hnd Hrun s files Hin; [contradiction |].
  cbn [smooth_sequences] in Hrun. unfold bind, lift in Hrun.
  destruct (gather idx files1) as [e | r1] eqn:Hg1; [discriminate |].
  unfold all_filenames in Hnd. cbn [map List.concat snd] in Hnd.
  fold (all_filenames sequences) in Hnd.
  assert (Hnd' : NoDup (all_filenames sequences))
    by now apply NoDup_app_remove_l in Hnd.
  assert (Hdisj : forall s2 files2 r2 a,
             In (s2, files2) sequences -> gather idx files2 = ok r2 ->
             In a r1 -> In a r2 -> False).
  { intros s2 files2 r2 a Hin2 Hg2 Ha1 Ha2.
    destruct (gather_In _ _ _ _ Hg1 Ha1) as (f & l & Hf & Hl & Hal).
    destruct (gather_In _ _ _ _ Hg2 Ha2) as (f' & l' & Hf' & Hl' & Hal').
    assert (f = f') by (eapply Hidx; eauto). subst f'.
    apply (NoDup_app_disjoint _ _ f Hnd Hf).
    eapply In_all_filenames; eauto. }
  destruct (List.length r1 =? 0)%nat eqn:Hlen.
  - apply Nat.eqb_eq, length_zero_iff_nil in Hlen. subst r1.
    destruct Hin as [Heq | Hin]; [| exact (IH st st' Hnd' Hrun s files Hin)].
    injection Heq as <- <-. exists []. split; [exact Hg1 |].
    split; [reflexivity | congruence].
  - destruct (_smooth_classifications_for_list_of_detections options
                other_category_ids descriptions_clean r1 st)
      as [st1 [e | res]] eqn:Hr1; [discriminate |].
    destruct Hin as [Heq | Hin].
    + injection Heq as <- <-. exists r1. split; [exact Hg1 |].
      rewrite Hr1. split; [| intros _; now exists res].
      cbn [fst]. unfold view. apply map_ext_in. intros a Ha.
      replace st' with (fst (smooth_sequences options other_category_ids
                               descriptions_clean idx sequences st1))
        by now rewrite Hrun.
      apply smooth_sequences_frame_units.
      intros s2 files2 r2 Hin2 Hg2 Ha2. exact (Hdisj _ _ _ _ Hin2 Hg2 Ha Ha2).
    + destruct (IH st1 st' Hnd' Hrun s files Hin)
        as (refs & Hg & Hview & Hok).
      exists refs. split; [exact Hg |].
      assert (Hagree : forall a, In a refs -> st1 a = st a).
      { intros a Ha.
        pose proof (smooth_frames options other_category_ids
                      descriptions_clean r1 st a) as Hf.
        rewrite Hr1 in Hf. apply Hf.
        intros Ha1. exact (Hdisj _ _ _ _ Hin Hg Ha1 Ha). }
      destruct (smooth_reads_only options other_category_ids
                  descriptions_clean refs st1 st Hagree) as [Hres Hst].
      split.
      * rewrite Hview. unfold view. apply map_ext_in. exact Hst.
      * intros Hne. rewrite <- Hres. now apply Hok.
Qed.

Lemma layout_find_NoDup (ims : list image) :
  forall base f l,
    dict_find (layout ims base) f = Some (Some l) -> NoDup l.
Proof.
  induction ims as [| im ims IH]; intros base f l; cbn [layout dict_find];
    [discriminate |].
  destruct (String.eqb (im_file im) f); [| apply IH].
  destruct (im_detections im) as [dets |]; [| discriminate].
  cbn [option_map]. intros [= <-]. apply seq_NoDup.
Qed.

Lemma layout_disjoint (ims : list image) (base : nat) (f f' : string)
    (l l' : list nat) (a : nat) :
  dict_find (layout ims base) f = Some (Some l) ->
  dict_find (layout ims base) f' = Some (Some l') ->
  In a l -> In a l' -> f = f'.
Proof.
  intros Hl Hl' Ha Ha'. destruct (string_dec f f') as [| Hne];
    [assumption |].
  exfalso.
  apply (addresses_where_disjoint (String.eqb f) (String.eqb f') ims)
    with (base := base) (a := a).
  - intros g Hg Hg'. apply String.eqb_eq in Hg, Hg'. congruence.
  - exact (layout_find (String.eqb f) ims base f l a Hl
             (String.eqb_refl f) Ha).
  - exact (layout_find (String.eqb f') ims base f' l' a Hl'
             (String.eqb_refl f') Ha').
Qed.

Lemma gather_NoDup (ims : list image) (base : nat) (files : list string) :
  forall refs,
    NoDup files -> gather (layout ims base) files = ok refs -> NoDup refs.
Proof.
  induction files as [| f files IH]; intros refs Hnd; cbn [gather].
  - intros [= <-]. constructor.
  - unfold dict_get.
    destruct (dict_find (layout ims base) f) as [o |] eqn:Hf;
      [| discriminate].
    unfold ok at 1, rbind at 1.
    destruct (gather (layout ims base) files) as [e | rest] eqn:Hg;
      [discriminate |].
    unfold rbind. intros [= <-].
    inversion Hnd as [| ? ? Hnotin Hnd']; subst.
    specialize (IH rest Hnd' eq_refl).
    destruct o as [l |]; [| exact IH].
    apply NoDup_app; [eapply layout_find_NoDup; eauto | exact IH |].
    intros a Ha Ha'.
    destruct (gather_In _ _ _ _ Hg Ha') as (f' & l' & Hf' & Hl' & Hal').
    assert (f = f') by (eapply layout_disjoint; eauto). now subst.
Qed.

Lemma dict_append_perm (d : dict (list string)) (k v : string) :
  Permutation (all_filenames (dict_append d k v)) (v :: all_filenames d).
Proof.
  unfold all_filenames.
  induction d as [| [k' l] d IH]; cbn [dict_append map List.concat snd].
  - reflexivity.
  - destruct (String.eqb k' k); cbn [map List.concat snd].
    + rewrite <- app_assoc. symmetry. apply Permutation_middle.
    + etransitivity; [apply Permutation_app_head; exact IH |].
      symmetry. apply Permutation_middle.
Qed.

Lemma sequence_filenames_perm (image_info : list cct_image) :
  Permutation (all_filenames (sequence_to_image_filenames image_info))
              (map file_name image_info).
Proof.
  unfold sequence_to_image_filenames.
  assert (H : forall acc,
             Permutation
               (all_filenames
                  (fold_left (fun acc im =>
                                dict_append acc (seq_id im) (file_name im))
                             image_info acc))
               (all_filenames acc ++ map file_name image_info)).
  { induction image_info as [| c info IH]; intros acc;
      cbn [fold_left map].
    - now rewrite app_nil_r.
    - etransitivity; [apply IH |].
      etransitivity;
        [apply Permutation_app_tail; apply dict_append_perm |].
      cbn [app]. apply Permutation_middle. }
  exact (H []).
Qed.

Lemma NoDup_concat_In {A : Type} (ll : list (list A)) (l : list A) :
  NoDup (List.concat ll) -> In l ll -> NoDup l.
Proof.
  induction ll as [| l0 ll IH]; intros Hnd Hin; [contradiction |].
  cbn [List.concat] in Hnd. destruct Hin as [-> | Hin].
  - now apply NoDup_app_remove_r in Hnd.
  - apply IH; [| exact Hin]. now apply NoDup_app_remove_l in Hnd.
Qed.

Lemma layout_read_back (ims : list image) :
  forall base st f o,
    dict_find (layout ims base) f = Some o ->
    detections_of (read_back ims base st) f
    = match o with
      | Some l => view st l
      | None => []
      end.
Proof.
  induction ims as [| im ims IH]; intros base st f o;
    cbn [layout dict_find read_back]; [discriminate |].
  unfold detections_of. cbn [find set_detections im_file].
  destruct (String.eqb (im_file im) f).
  - intros [= <-]. unfold image_dets. cbn [im_detections].
    now destruct (im_detections im).
  - apply IH.
Qed.

Lemma gather_view (ims : list image) (base : nat) (st : store)
    (files : list string) :
  forall refs,
    gather (layout ims base) files = ok refs ->
    view st refs = flat_map (detections_of (read_back ims base st)) files.
Proof.
  induction files as [| f files IH]; intros refs; cbn [gather flat_map].
  - now intros [= <-].
  - unfold dict_get.
    destruct (dict_find (layout ims base) f) as [o |] eqn:Hf;
      [| discriminate].
    unfold ok at 1, rbind at 1.
    destruct (gather (layout ims base) files) as [e | rest]; [discriminate |].
    unfold rbind. intros [= <-].
    rewrite (layout_read_back ims base st f o Hf), <- (IH rest eq_refl).
    destruct o as [l |]; [| reflexivity].
    unfold view. now rewrite map_app.
Qed.

Lemma detections_of_ext (ims1 ims2 : list image) (f : string) :
  Forall2 (fun a b => im_file b = im_file a /\
                      im_detections b = im_detections a) ims1 ims2 ->
  detections_of ims2 f = detections_of ims1 f.
Proof.
  unfold detections_of.
  induction 1 as [| a b l1 l2 [Hf Hd] _ IH]; [reflexivity |].
  cbn [find]. rewrite Hf. destruct (String.eqb (im_file a) f); [| exact IH].
  unfold image_dets. now rewrite Hd.
Qed.

(** X22.  When the sequence information lists every file once and the
    sequence-level driver returns, every sequence has been smoothed as one
    unit: the detections of the images of the sequence, taken in the order
    in which the sequence information lists the images, are after the run
    what the Group Smoother makes of the list of those detections, each
    reduced to its top classification first - whatever the other sequences
    hold - and the smoother did not raise on a sequence that has
    detections. *)
Theorem sequence_level_smooths_each_sequence_as_one_unit :
  forall (clean_taxonomy_string : string -> result string)
         (options : option ClassificationSmoothingOptions)
         (cct_sequence_information : list cct_image)
         (input_file : nat) (h : heap) (w : nat),
    let run := smooth_classification_results_sequence_level
                 clean_taxonomy_string input_file cct_sequence_information
                 options h in
    snd run = ok w ->
    NoDup (map file_name cct_sequence_information) ->
    let o := options_or_default options in
    let d := objects h input_file in
    let d' := objects (fst run) w in
    exists cd,
    clean_descriptions clean_taxonomy_string d = ok cd /\
    forall s files,
      In (s, files) (sequence_to_image_filenames cct_sequence_information) ->
      let before :=
        flat_map (detections_of (map top_only_image (images d))) files in
      let smoothed := smooth_list o (other_ids o d) cd before in
      flat_map (detections_of (images d')) files = fst smoothed /\
      (before <> [] -> exists r, snd smoothed = ok r).
Proof.
  intros clean options info input_file h w run Hrun Hnd o d d'.
  destruct (snd (_prepare_results_for_smoothing clean input_file o h))
    as [e | r] eqn:Hprep.
  { exfalso.
    destruct (drivers_raise_with_prepare clean options info input_file h e
                Hprep) as [_ Hseq].
    fold run in Hseq. rewrite Hseq in Hrun. discriminate. }
  destruct (sequence_level_run clean options info input_file h r Hprep)
    as (d1 & Hp & Hcases).
  fold o in Hp, Hcases. fold run in Hcases. fold d in Hp.
  pose proof (prepare_body_images _ _ _ _ _ _ Hp) as Hprepared.
  apply prepare_body_ok in Hp as (cd & Hcd & -> & _ & _).
  exists cd. split; [exact Hcd |].
  intros s files Hin before smoothed.
  cbn [prep_other_category_ids prep_classification_descriptions_clean]
    in Hcases.
  destruct (index_images (images d1) 0 []) as [e | idx] eqn:Hidx;
    [rewrite Hcases in Hrun; discriminate |].
  apply index_images_ok_inv in Hidx as (-> & _ & _). cbn [app] in Hcases.
  cbv zeta in Hcases.
  set (seqs := sequence_to_image_filenames info) in *.
  set (st0 := store_of (flat_map image_dets (images d1))) in *.
  destruct (smooth_sequences o (other_ids o d) cd
              (layout (images d1) 0) seqs st0) as [st' [e | u]] eqn:Hseqs;
    cbn [fst snd] in *; [rewrite Hcases in Hrun; discriminate |].
  destruct Hcases as [Hw Hobj]. rewrite Hw in Hrun. injection Hrun as <-.
  destruct u.
  assert (Hall : NoDup (all_filenames seqs)).
  { eapply Permutation_NoDup; [| exact Hnd]. symmetry.
    apply sequence_filenames_perm. }
  destruct (smooth_sequences_units o (other_ids o d)
              cd (layout (images d1) 0)
              (layout_disjoint (images d1) 0) seqs st0 st' Hall Hseqs
              s files Hin) as (refs & Hg & Hview & Hok).
  assert (Hfiles : NoDup files).
  { apply (NoDup_concat_In (map snd seqs)); [exact Hall |].
    now apply (in_map snd) in Hin. }
  pose proof (gather_NoDup (images d1) 0 files refs Hfiles Hg) as Hrefs.
  pose proof (smooth_unit_as_list o (other_ids o d)
                cd refs st0 Hrefs) as Hlist.
  assert (Hbefore : view st0 refs = before).
  { rewrite (gather_view (images d1) 0 st0 files refs Hg).
    assert (Hsame0 : read_back (images d1) 0 st0 = images d1)
      by exact (read_back_store_of (images d1) []).
    rewrite Hsame0. subst before. apply flat_map_ext. intros f.
    apply detections_of_ext.
    clear - Hprepared. revert Hprepared.
    generalize (images d1). induction (images d) as [| im ims IH];
      intros l HF; inversion HF as [| ? im1 ? l1 [Hf Hd] HF']; subst;
      cbn [map]; constructor.
    - split; [now rewrite top_only_image_file | exact Hd].
    - now apply IH. }
  assert (Hafter : view st' refs = flat_map (detections_of (images d')) files).
  { rewrite (gather_view (images d1) 0 st' files refs Hg).
    subst d'. now rewrite Hobj. }
  subst smoothed. rewrite <- Hbefore, Hlist. cbn [fst snd].
  split; [now rewrite <- Hafter, Hview |].
  intros Hne. apply Hok. intros ->. apply Hne. reflexivity.
Qed.

Lemma sequence_level_smooths_each_sequence_as_one_unit_witness :
  flat_map
    (detections_of
       (images (objects
                  (fst (smooth_classification_results_sequence_level
                          (fun s => ok s) 0 herd_sequence
                          (Some in_place_options) herd_heap)) 0)))
    ["a.jpg"; "b.jpg"]
  = fst (smooth_list in_place_options ["2"] None
           [sure "1"; sure "2"; sure "1"]).
Proof.
  destruct (sequence_level_smooths_each_sequence_as_one_unit (fun s => ok s)
              (Some in_place_options) herd_sequence 0 herd_heap 0)
    as (cd & [= <-] & Hunits).
  - reflexivity.
  - repeat constructor; simpl; intuition discriminate.
  - destruct (Hunits "s" ["a.jpg"; "b.jpg"]) as [Hunit _].
    + left. reflexivity.
    + exact Hunit.
Defined.

(** The sequence of the example is smoothed as one unit: the "other" of the
    first image becomes a cow, which it would not on its own. *)
Example herd_sequence_level :
  map im_detections
    (images (objects (fst (smooth_classification_results_sequence_level
                             (fun s => ok s) 0 herd_sequence
                             (Some in_place_options) herd_heap)) 0))
  = [Some [sure "1"; sure "1"]; Some [sure "1"]] /\
  map im_detections
    (images (objects (fst (smooth_classification_results_image_level
                             (fun s => ok s) 0 (Some in_place_options)
                             herd_heap)) 0))
  = [Some [sure "1"; sure "2"]; Some [sure "1"]].
Proof. split; reflexivity. Qed.

(** ** Once pass 1 has relabeled *)

(** A loop whose body, on detections satisfying [P], returns, keeps [P] and
    establishes [Q]: every address of the unit ends up satisfying [Q], and
    so does every address that satisfied it before. *)
Lemma for_each_settles {S : Type}
    (body : detection -> S -> detection * result S)
    (P Q : detection -> Prop) (scope : list nat) :
  (forall d s, P d ->
     exists d' s', body d s = (d', ok s') /\ P d' /\ Q d') ->
  forall refs s st,
    incl refs scope ->
    (forall r, In r scope -> P (st r)) ->
    exists st' s',
      for_each body refs s st = (st', ok s') /\
      (forall r, In r scope -> P (st' r)) /\
      (forall r, Q (st r) \/ In r refs -> Q (st' r)).
Proof.
  intros Hbody. induction refs as [| r0 rest IH]; intros s st Hincl HP;
    cbn [for_each].
  - exists st, s. split; [reflexivity |]. split; [exact HP |].
    intros r [H | []]. exact H.
  - assert (Hr0 : In r0 scope) by (apply Hincl; now left).
    destruct (Hbody (st r0) s (HP r0 Hr0)) as (d' & s' & -> & Hd' & Hq').
    destruct (IH s' (upd st r0 d')) as (st' & s'' & Hrun & HP' & HQ').
    + intros x Hx. apply Hincl. now right.
    + intros r Hr. unfold upd. destruct (Nat.eqb r r0); auto.
    + exists st', s''. split; [exact Hrun |]. split; [exact HP' |].
      intros r Hr. apply HQ'.
      destruct (Nat.eqb_spec r r0) as [-> | Hne].
      * left. now rewrite upd_same.
      * destruct Hr as [Hq | [Heq | Hin]]; [| congruence | now right].
        left. now rewrite upd_other.
Qed.

Lemma other_pass_reports (options : ClassificationSmoothingOptions)
    (other_category_ids : list string) (refs : list nat) (t : dict nat)
    (st st1 : store) (n1 : nat) :
  _count_detections_by_category (view st refs) options = ok t ->
  2 <= List.length t ->
  other_pass options other_category_ids refs t st = (st1, ok n1) ->
  0 < n1 ->
  forall r, In r refs ->
    in_order options
      (filter (fun k => negb (str_mem k other_category_ids)) (dict_keys t))
      (st1 r).
Proof.
  intros Ht Hlen Hrun Hpos.
  destruct t as [| [k0 n0] [| [k1 n1'] rest]]; simpl in Hlen; try lia.
  destruct (tie_break_dominant other_category_ids k0 k1 n0 n1' rest
              (tally_NoDup options _ _ Ht)) as (keys & Hkeys & Hdom).
  set (t := (k0, n0) :: (k1, n1') :: rest) in *.
  unfold other_pass, bind, lift in Hrun. rewrite Hkeys in Hrun.
  unfold ok at 1 in Hrun. cbv beta iota in Hrun. rewrite Hdom in Hrun.
  unfold ok at 1 in Hrun. cbv beta iota in Hrun.
  set (dom := if str_mem k0 other_category_ids
                 && negb (str_mem k1 other_category_ids) && (n0 =? n1')%nat
              then k1 else k0) in *.
  assert (Hdomin : In dom (dict_keys t)).
  { subst dom. destruct (_ && _ && _); simpl; auto. }
  match type of Hrun with
  | (if ?b then _ else _) _ = _ => destruct b eqn:Hfires
  end; [| unfold ret in Hrun; injection Hrun as _ <-; lia].
  apply andb_true_iff in Hfires as [_ Hnot].
  apply negb_true_iff in Hnot.
  destruct (for_each_settles (other_body options other_category_ids dom)
              (in_order options (dict_keys t))
              (fun d => in_other options other_category_ids d = false) refs)
    with (refs := refs) (s := 0) (st := st)
    as (st' & s' & Hloop & HP & HQ).
  - intros d s Hord. rewrite other_body_pure by apply Hord.
    do 2 eexists. split; [reflexivity |].
    destruct (in_other options other_category_ids d) eqn:Hin.
    + split; [now apply in_order_relabel |].
      rewrite in_other_set_category; [exact Hnot |].
      unfold in_other in Hin. now apply andb_true_iff in Hin as [Hv _].
    + now split.
  - apply incl_refl.
  - now apply in_order_of_tally.
  - rewrite Hloop in Hrun. injection Hrun as <- <-.
    intros r Hr. destruct (HP r Hr) as [Hwf Hcat]. split; [exact Hwf |].
    intros Hv. destruct (Hcat Hv) as (k & Hk & Hin). exists k.
    split; [exact Hk |]. apply filter_In. split; [exact Hin |].
    specialize (HQ r (or_intror Hr)). cbv beta in HQ.
    unfold in_other in HQ. rewrite Hv, Hk in HQ. simpl in HQ.
    now rewrite HQ.
Qed.

(** X23.  When the summary of a Group Smoother run reports that pass 1
    changed at least one classification, the run has left no qualifying
    detection of the unit in an "other" category: neither pass 2 nor pass 3
    brings one back, with or without shared detection objects. *)
Theorem reported_other_changes_leave_no_other :
  forall options other_category_ids descriptions_clean
         (refs : list nat) (st st' : store) (s : summary),
    _smooth_classifications_for_list_of_detections options
      other_category_ids descriptions_clean refs st = (st', ok (Some s)) ->
    0 < n_other_classifications_changed_this_image s ->
    forall r, In r refs ->
      in_other options other_category_ids (st' r) = false.
Proof.
  intros options other_category_ids descriptions_clean refs st st' s Hrun
         Hpos r Hr.
  rewrite smooth_cases in Hrun.
  destruct (_count_detections_by_category (view st refs) options)
    as [e | t] eqn:Ht; [discriminate |].
  destruct (Nat.leb_spec (List.length t) 1) as [Hlen | Hlen];
    [discriminate |].
  unfold three_passes, bind, ret in Hrun.
  destruct (other_pass options other_category_ids refs t st)
    as [st1 [e | n1]] eqn:H1; [discriminate |].
  pose proof (flip_pass_in_order options other_category_ids
                (filter (fun k => negb (str_mem k other_category_ids))
                        (dict_keys t)) refs st1) as H2.
  destruct (flip_pass options other_category_ids refs st1)
    as [st2 [e | n2]]; [discriminate |].
  pose proof (taxonomy_pass_in_order options
                (filter (fun k => negb (str_mem k other_category_ids))
                        (dict_keys t)) descriptions_clean refs st2) as H3.
  destruct (taxonomy_pass options descriptions_clean refs st2)
    as [st3 [e | n3]]; [discriminate |].
  injection Hrun as <- <-. cbn [n_other_classifications_changed_this_image]
    in Hpos. cbn [fst] in *.
  assert (Hord : in_order options
                   (filter (fun k => negb (str_mem k other_category_ids))
                           (dict_keys t)) (st3 r)).
  { apply H3; [| exact Hr]. apply H2.
    now apply (other_pass_reports options other_category_ids refs t st st1
                 n1 Ht). }
  destruct Hord as [_ Hcat]. unfold in_other.
  destruct (visible options (st3 r)) eqn:Hv; [| reflexivity].
  destruct (Hcat eq_refl) as (k & -> & Hin).
  apply filter_In in Hin as [_ Hin]. simpl. now apply negb_true_iff in Hin.
Qed.

Lemma reported_other_changes_leave_no_other_witness :
  in_other default_options ["other"]
    (fst (_smooth_classifications_for_list_of_detections default_options
            ["other"] None (addresses cow_unit) (store_of cow_unit)) 2)
  = false.
Proof.
  apply (reported_other_changes_leave_no_other default_options ["other"]
           None (addresses cow_unit) (store_of cow_unit) _
           {| n_other_classifications_changed_this_image := 1;
              n_detections_flipped_this_image := 0;
              n_taxonomic_changes_this_image := 0 |}).
  - reflexivity.
  - simpl. lia.
  - simpl. auto.
Defined.

(** ** Results on which the drivers return *)

Lemma smooth_total (options : ClassificationSmoothingOptions)
    (other_category_ids : list string)
    (descriptions_clean : option (dict string)) (K : list string)
    (refs : list nat) (st : store) :
  (forall r, In r refs -> in_order options K (st r)) ->
  (forall ds k, descriptions_clean = Some ds -> In k K ->
                dict_find ds k <> None) ->
  (descriptions_clean <> None ->
   forall r, In r refs -> comparable options (st r) = true) ->
  exists st' res,
    _smooth_classifications_for_list_of_detections options
      other_category_ids descriptions_clean refs st = (st', ok res) /\
    (forall r, In r refs -> in_order options K (st' r)).
Proof.
  intros Hord Hcov Hcmp.
  destruct (tally_total options st refs K Hord) as (t & Ht & Hincl).
  pose proof (three_passes_in_order options other_category_ids K
                descriptions_clean refs t st Hincl Hord) as Hafter.
  rewrite smooth_cases, Ht. unfold ok at 1. cbv beta iota.
  destruct (Nat.leb_spec (List.length t) 1) as [Hlen | Hlen].
  - exists st, None. now split.
  - destruct (three_passes_total options other_category_ids
                descriptions_clean refs t st Ht) as (st' & s & Hrun).
    + lia.
    + intros ds k Hds Hk. apply (Hcov ds k Hds). now apply Hincl.
    + exact Hcmp.
    + rewrite Hrun in Hafter |- *. exists st', (Some s). now split.
Qed.

Lemma in_order_empty (options : ClassificationSmoothingOptions)
    (K : list string) :
  in_order options K empty_detection.
Proof. split; [reflexivity | discriminate]. Qed.

Lemma store_of_in_order (options : ClassificationSmoothingOptions)
    (K : list string) (l : list detection) :
  (forall d, In d l -> in_order options K d) ->
  forall a, in_order options K (store_of l a).
Proof.
  intros Hl a. unfold store_of.
  destruct (nth_in_or_default a l empty_detection) as [Hin | ->];
    [now apply Hl | apply in_order_empty].
Qed.

Lemma smooth_images_total (options : ClassificationSmoothingOptions)
    (other_category_ids : list string)
    (descriptions_clean : option (dict string)) (K : list string)
    (ims : list image) :
  (forall im d, In im ims -> In d (image_dets im) -> in_order options K d) ->
  (forall ds k, descriptions_clean = Some ds -> In k K ->
                dict_find ds k <> None) ->
  (descriptions_clean <> None ->
   forall im d, In im ims -> In d (image_dets im) ->
                comparable options d = true) ->
  exists ims',
    smooth_images options other_category_ids descriptions_clean ims
    = (ims', ok tt).
Proof.
  intros Hord Hcov Hcmp. induction ims as [| im ims IH]; cbn [smooth_images];
    [now exists [] |].
  destruct IH as (rest & Hrest).
  { intros im' d Him'. apply Hord. now right. }
  { intros Hds im' d Him'. apply (Hcmp Hds). now right. }
  assert (Hone : exists im1 res,
             _smooth_single_image im options other_category_ids
               descriptions_clean = (im1, ok res)).
  { unfold _smooth_single_image.
    pose proof (Hord im) as Him. unfold image_dets in Him.
    pose proof (fun Hds => Hcmp Hds im) as Hcm. unfold image_dets in Hcm.
    destruct (im_detections im) as [[| d dets] |]; try (eexists; eexists;
      reflexivity).
    unfold smooth_list.
    destruct (smooth_total options other_category_ids descriptions_clean K
                (addresses (d :: dets)) (store_of (d :: dets)))
      as (st' & res & Hrun & _).
    - intros r _. apply store_of_in_order. intros x Hx.
      apply Him; [now left | exact Hx].
    - exact Hcov.
    - intros Hds r _. apply store_of_comparable. intros x Hx.
      apply (Hcm Hds); [now left | exact Hx].
    - rewrite Hrun. eexists. eexists. reflexivity. }
  destruct Hone as (im1 & res & ->). rewrite Hrest. now exists (im1 :: rest).
Qed.

Lemma gather_total (idx : dict (option (list nat))) (files : list string) :
  (forall f, In f files -> dict_find idx f <> None) ->
  exists refs, gather idx files = ok refs.
Proof.
  induction files as [| f files IH]; intros Hall; cbn [gather];
    [now exists [] |].
  destruct IH as (rest & ->); [intros f' Hf'; apply Hall; now right |].
  unfold dict_get.
  destruct (dict_find idx f) as [o |] eqn:Hf.
  - eexists. reflexivity.
  - exfalso. now apply (Hall f (or_introl eq_refl)).
Qed.

Lemma smooth_sequences_total (options : ClassificationSmoothingOptions)
    (other_category_ids : list string)
    (descriptions_clean : option (dict string)) (K : list string)
    (idx : dict (option (list nat))) (sequences : dict (list string)) :
  (forall ds k, descriptions_clean = Some ds -> In k K ->
                dict_find ds k <> None) ->
  (forall f, In f (all_filenames sequences) -> dict_find idx f <> None) ->
  forall st,
    (forall a, in_order options K (st a)) ->
    (descriptions_clean <> None ->
     forall a, comparable options (st a) = true) ->
    exists st',
      smooth_sequences options other_category_ids descriptions_clean idx
        sequences st = (st', ok tt).
Proof.
  intros Hcov. induction sequences as [| [s files] sequences IH];
    intros Hfiles st Hord Hcmp; cbn [smooth_sequences]; [now exists st |].
  assert (Hfiles' : forall f, In f (all_filenames sequences) ->
                              dict_find idx f <> None).
  { intros f Hf. apply Hfiles. unfold all_filenames in *.
    cbn [map List.concat snd]. apply in_app_iff. now right. }
  destruct (gather_total idx files) as (refs & Hg).
  { intros f Hf. apply Hfiles. unfold all_filenames.
    cbn [map List.concat snd]. apply in_app_iff. now left. }
  unfold bind, lift. rewrite Hg. unfold ok at 1. cbv beta iota.
  destruct (List.length refs =? 0)%nat; [now apply IH |].
  destruct (smooth_total options other_category_ids descriptions_clean K
              refs st (fun r _ => Hord r) Hcov
              (fun Hds r _ => Hcmp Hds r))
    as (st1 & res & Hrun & Hord1).
  pose proof (smooth_frames options other_category_ids descriptions_clean
                refs st) as Hframe.
  pose proof (smooth_relabels options other_category_ids descriptions_clean
                refs st) as Hkeep.
  rewrite Hrun in Hframe, Hkeep |- *. cbn [fst] in Hframe, Hkeep.
  apply IH; [exact Hfiles' | |].
  - intros a.
    destruct (in_dec Nat.eq_dec a refs) as [Ha | Ha]; [now apply Hord1 |].
    rewrite (Hframe a Ha). apply Hord.
  - intros Hds a.
    rewrite (relabel_of_comparable options _ _ (Hkeep a)). now apply Hcmp.
Qed.

(** The cleaning loop keeps every key. *)
Lemma clean_loop_found (clean : string -> result string) (ds : dict string)
    (k : string) :
  forall acc cds,
    clean_loop clean ds acc = ok cds ->
    In k (dict_keys ds) \/ dict_find acc k <> None ->
    dict_find cds k <> None.
Proof.
  induction ds as [| [k0 v0] ds IH]; intros acc cds; cbn [clean_loop].
  - intros [= <-] [[] | Hin]. exact Hin.
  - destruct (clean v0) as [e | cleaned]; [discriminate |].
    unfold rbind. intros Hrun Hin. apply (IH _ _ Hrun).
    rewrite dict_set_find.
    destruct (String.eqb k0 k) eqn:E; [right; discriminate |].
    destruct Hin as [[Heq | Hin] | Hin]; [| now left | now right].
    simpl in Heq. subst k0. rewrite String.eqb_refl in E. discriminate.
Qed.

(** It returns when clean_taxonomy_string returns on every description. *)
Lemma clean_loop_total (clean : string -> result string) (ds : dict string) :
  (forall k description, In (k, description) ds ->
                         exists s, clean description = ok s) ->
  forall acc, exists cds, clean_loop clean ds acc = ok cds.
Proof.
  induction ds as [| [k0 v0] ds IH]; intros Hall acc; cbn [clean_loop].
  - now exists acc.
  - destruct (Hall k0 v0 (or_introl eq_refl)) as (cleaned & ->).
    unfold ok at 1, rbind. apply IH. intros k description Hin.
    apply (Hall k description). now right.
Qed.

Lemma clean_descriptions_found (clean : string -> result string) (d : results)
    (ds cds : dict string) (k : string) :
  classification_category_descriptions d = Some ds ->
  clean_descriptions clean d = ok (Some cds) ->
  dict_find ds k <> None ->
  dict_find cds k <> None.
Proof.
  intros Hds. unfold clean_descriptions. rewrite Hds.
  destruct (clean_loop clean ds []) as [e | cds'] eqn:Hloop;
    [discriminate |].
  unfold rbind, ok. intros [= <-] Hk.
  apply (clean_loop_found clean ds k [] cds' Hloop). left.
  now apply dict_find_keys.
Qed.

Lemma clean_descriptions_total (clean : string -> result string)
    (d : results) :
  cleanable clean d -> exists cd, clean_descriptions clean d = ok cd.
Proof.
  intros Hclean. unfold clean_descriptions.
  destruct (classification_category_descriptions d) as [ds |] eqn:Hds;
    [| now exists None].
  destruct (clean_loop_total clean ds (fun k v => Hclean ds k v Hds) [])
    as (cds & ->).
  now exists (Some cds).
Qed.

Lemma describe_images_total (options : ClassificationSmoothingOptions)
    (ds : dict string) (ims : list image) :
  (forall im d, In im ims -> In d (image_dets im) ->
                well_formed options d = true /\ covered ds d = true) ->
  exists ims', describe_images options (Some ds) ims = (ims', ok tt).
Proof.
  induction ims as [| im ims IH]; intros Hall; cbn [describe_images];
    [now exists [] |].
  destruct IH as (rest & Hrest).
  { intros im' d Him'. apply Hall. now right. }
  rewrite Hrest. pose proof (fun x => Hall im x (or_introl eq_refl)) as Him.
  unfold image_dets in Him.
  destruct (im_detections im) as [[| d dets] |];
    [eexists; reflexivity | | eexists; reflexivity].
  assert (Ht : exists t,
             _count_detections_by_category (d :: dets) options = ok t).
  { rewrite tally_closed.
    assert (forallb (well_formed options) (d :: dets) = true) as ->.
    { apply forallb_forall. intros x Hx. now apply Him. }
    eexists. reflexivity. }
  destruct Ht as (t & Ht). rewrite Ht. unfold ok at 1, rbind at 1.
  unfold _get_description_string.
  destruct (proj2 (description_strings_ok t ds (dict_keys t)))
    as (l & ->).
  - intros k Hk. split; [| now apply dict_find_keys].
    apply (tally_keys options _ _ k Ht) in Hk.
    apply counted_In in Hk as (x & Hx & _ & Hcat).
    destruct (Him x Hx) as [_ Hcov]. unfold covered in Hcov.
    rewrite Hcat in Hcov.
    destruct (dict_find ds k) as [desc |]; [now exists desc | discriminate].
  - unfold ok at 1, rbind at 1. eexists. reflexivity.
Qed.

Lemma category_id_top_only (d : detection) :
  category_id (top_only d) = category_id d.
Proof.
  unfold category_id, top_only. simpl.
  now destruct (classifications d) as [[| c cs] |].
Qed.

Lemma prepare_body_total (clean : string -> result string)
    (options : ClassificationSmoothingOptions) (loc : nat) (d : results) :
  all_sorted (images d) = true ->
  describable options d = true ->
  cleanable clean d ->
  exists d1 r, prepare_body clean options loc d = (d1, ok r).
Proof.
  intros Hsorted Hdesc Hclean. unfold prepare_body.
  rewrite (normalize_images_sorted _ Hsorted). unfold ok at 1.
  cbv beta iota zeta.
  change (clean_descriptions clean (set_images d _))
    with (clean_descriptions clean d).
  destruct (clean_descriptions_total clean d Hclean) as (cd & ->).
  unfold ok at 1. cbv beta iota.
  destruct (add_pre_smoothing_description options) eqn:Hadd;
    [| eexists; eexists; reflexivity].
  cbn [images set_images classification_category_descriptions].
  unfold describable in Hdesc. rewrite Hadd in Hdesc.
  destruct (classification_category_descriptions d) as [ds |];
    [| discriminate].
  destruct (describe_images_total options ds
              (map top_only_image (images d))) as (ims' & ->).
  - intros im' x Him' Hx. apply in_map_iff in Him' as (im & <- & Him).
    rewrite image_dets_top_only in Hx.
    apply in_map_iff in Hx as (x0 & <- & Hx0).
    split; [apply top_only_well_formed |].
    unfold covered. rewrite category_id_top_only.
    rewrite forallb_forall in Hdesc. specialize (Hdesc im Him).
    rewrite forallb_forall in Hdesc. exact (Hdesc x0 Hx0).
  - eexists. eexists. reflexivity.
Qed.

Lemma prepared_detections (ims ims1 : list image) :
  Forall2 (fun im im1 =>
             im_file im1 = im_file im /\
             im_detections im1 = im_detections (top_only_image im))
          ims ims1 ->
  forall im1 x,
    In im1 ims1 -> In x (image_dets im1) ->
    exists im x0, In im ims /\ In x0 (image_dets im) /\ x = top_only x0.
Proof.
  induction 1 as [| im im1 ims ims1 [Hf Hd] _ IH]; intros im' x Him' Hx;
    [contradiction |].
  destruct Him' as [<- | Him'].
  - assert (Hdets : image_dets im1 = map top_only (image_dets im)).
    { rewrite <- image_dets_top_only. unfold image_dets. now rewrite Hd. }
    rewrite Hdets in Hx. apply in_map_iff in Hx as (x0 & <- & Hx0).
    exists im, x0. repeat split; auto. now left.
  - destruct (IH im' x Him' Hx) as (im0 & x0 & H1 & H2 & H3).
    exists im0, x0. repeat split; auto. now right.
Qed.

(** The detections of prepared results are in order for the categories they
    carry, and these have cleaned descriptions if the results can be
    described. *)
Lemma prepared_in_order (clean : string -> result string)
    (options : ClassificationSmoothingOptions) (d : results)
    (ims1 : list image) :
  describable options d = true ->
  Forall2 (fun im im1 =>
             im_file im1 = im_file im /\
             im_detections im1 = im_detections (top_only_image im))
          (images d) ims1 ->
  let K := categories_of (flat_map image_dets ims1) in
  (forall im1 x, In im1 ims1 -> In x (image_dets im1) ->
                 in_order options K x) /\
  (forall cds k, clean_descriptions clean d = ok (Some cds) -> In k K ->
                 dict_find cds k <> None).
Proof.
  intros Hdesc HF K. split.
  - intros im1 x Him1 Hx.
    destruct (prepared_detections _ _ HF im1 x Him1 Hx)
      as (im & x0 & _ & _ & ->).
    split; [apply top_only_well_formed |].
    intros Hv. destruct (visible_inv options _ Hv) as (c & _ & _ & _ & Hk).
    exists (fst c). split; [exact Hk |].
    subst K. unfold categories_of. apply in_flat_map.
    exists (top_only x0). split; [| rewrite Hk; now left].
    apply in_flat_map. now exists im1.
  - intros cds k Hcds Hk. subst K. unfold categories_of in Hk.
    apply in_flat_map in Hk as (x & Hx & Hk).
    apply in_flat_map in Hx as (im1 & Him1 & Hx).
    destruct (prepared_detections _ _ HF im1 x Him1 Hx)
      as (im & x0 & Him & Hx0 & ->).
    rewrite category_id_top_only in Hk.
    destruct (category_id x0) as [k' |] eqn:Hcat; [| contradiction].
    destruct Hk as [<- | []].
    unfold describable in Hdesc.
    destruct (classification_category_descriptions d) as [ds |] eqn:Hds;
      [| unfold clean_descriptions in Hcds; rewrite Hds in Hcds;
         discriminate].
    rewrite forallb_forall in Hdesc. specialize (Hdesc im Him).
    rewrite forallb_forall in Hdesc. specialize (Hdesc x0 Hx0).
    unfold covered in Hdesc. rewrite Hcat in Hdesc.
    apply (clean_descriptions_found clean d ds cds k' Hds Hcds).
    destruct (dict_find ds k'); discriminate.
Qed.

(** The image-level driver once preparation has returned. *)
Lemma image_level_cases (clean : string -> result string)
    (options : option ClassificationSmoothingOptions) (input_file : nat)
    (h : heap) (r : prepared) :
  let o := options_or_default options in
  let w := if modify_in_place o then input_file else next_loc h in
  let run := smooth_classification_results_image_level clean input_file
               options h in
  snd (_prepare_results_for_smoothing clean input_file o h) = ok r ->
  exists d1,
    prepare_body clean o w (objects h input_file) = (d1, ok r) /\
    match snd (smooth_images o (prep_other_category_ids r)
                 (prep_classification_descriptions_clean r) (images d1)) with
    | inl e => snd run = inl e
    | inr _ => snd run = ok w
    end.
Proof.
  intros o w run. subst run.
  unfold smooth_classification_results_image_level, hbind.
  fold (options_or_default options). fold o.
  destruct (prepare_run clean o input_file h) as (h1 & -> & Hobj).
  fold w in Hobj |- *.
  pose proof (prepare_body_d clean o w (objects h input_file)) as Hd.
  destruct (prepare_body clean o w (objects h input_file))
    as [d1 [e | r']] eqn:Hp; cbn [fst snd] in *; [discriminate |].
  intros [= ->]. specialize (Hd r eq_refl).
  exists d1. split; [reflexivity |].
  unfold at_loc, hret. destruct r as [pd po pc pdesc].
  cbn [prep_d prep_other_category_ids
       prep_classification_descriptions_clean] in *.
  subst pd. rewrite Hobj.
  destruct (smooth_images o po pc (images d1)) as [ims [e | u]];
    reflexivity.
Qed.

(** X24.  Results whose classification confidences are in descending order
    and that can be described - the category of every top classification
    has a description of seven fields or, if the results have no
    descriptions, no pre-smoothing description is asked for - such that
    clean_taxonomy_string returns on every category description and, if the
    results have descriptions, no top classification confidence is NaN.  On
    such results the image-level driver returns; and the sequence-level
    driver returns exactly when no two images of the results share a file
    name and the results have every file that the sequence information
    lists. *)
Theorem drivers_return_on_describable_results :
  forall (clean_taxonomy_string : string -> result string)
         (options : option ClassificationSmoothingOptions)
         (cct_sequence_information : list cct_image)
         (input_file : nat) (h : heap),
    let o := options_or_default options in
    let d := objects h input_file in
    all_sorted (images d) = true ->
    describable o d = true ->
    cleanable clean_taxonomy_string d ->
    (classification_category_descriptions d <> None ->
     all_comparable o (images d) = true) ->
    (exists w,
        snd (smooth_classification_results_image_level clean_taxonomy_string
               input_file options h) = ok w) /\
    ((exists w,
         snd (smooth_classification_results_sequence_level
                clean_taxonomy_string input_file cct_sequence_information
                options h) = ok w) <->
     NoDup (map im_file (images d)) /\
     forall c, In c cct_sequence_information ->
               In (file_name c) (map im_file (images d))).
Proof.
  intros clean options info input_file h o d Hsorted Hdesc Hcleanable Hnan.
  set (w := if modify_in_place o then input_file else next_loc h).
  destruct (prepare_body_total clean o w d Hsorted Hdesc Hcleanable)
    as (d1 & r & Hp).
  assert (Hprep : snd (_prepare_results_for_smoothing clean input_file o h)
                  = ok r).
  { destruct (prepare_run clean o input_file h) as (h1 & -> & _).
    fold w. fold d. now rewrite Hp. }
  pose proof (prepare_body_images _ _ _ _ _ _ Hp) as HF.
  destruct (prepared_in_order clean o d (images d1) Hdesc HF)
    as [Hord Hcov].
  destruct (prepared_files _ _ HF) as [Hfiles _].
  assert (Hclean : clean_descriptions clean d
                   = ok (prep_classification_descriptions_clean r)).
  { apply prepare_body_ok in Hp as (cd & Hcd & -> & _). exact Hcd. }
  assert (Hcmp : prep_classification_descriptions_clean r <> None ->
                 forall x, In x (flat_map image_dets (images d1)) ->
                           comparable o x = true).
  { intros Hds. apply (prepared_comparable o _ _ HF). apply Hnan.
    exact (clean_descriptions_None clean d _ Hclean Hds). }
  split.
  - destruct (image_level_cases clean options input_file h r Hprep)
      as (d1' & Hp' & Hcases).
    fold o w d in Hp', Hcases. rewrite Hp in Hp'. injection Hp' as <-.
    destruct (smooth_images_total o (prep_other_category_ids r)
                (prep_classification_descriptions_clean r)
                (categories_of (flat_map image_dets (images d1)))
                (images d1) Hord) as (ims' & Hs).
    { intros ds k Hds. apply Hcov. now rewrite Hclean, Hds. }
    { intros Hds im1 x Him1 Hx. apply (Hcmp Hds). apply in_flat_map.
      now exists im1. }
    rewrite Hs in Hcases. now exists w.
  - destruct (sequence_level_run clean options info input_file h r Hprep)
      as (d1' & Hp' & Hcases).
    fold o w d in Hp', Hcases. rewrite Hp in Hp'. injection Hp' as <-.
    split.
    + intros (w' & Hrun).
      destruct (index_images (images d1) 0 []) as [e | idx] eqn:Hidx;
        [rewrite Hcases in Hrun; discriminate |].
      apply index_images_ok_inv in Hidx as (-> & Hnd & _).
      cbn [app] in Hcases. cbv zeta in Hcases.
      rewrite <- Hfiles. split; [exact Hnd |].
      intros c Hc.
      destruct (dict_find (layout (images d1) 0) (file_name c)) eqn:Hfind.
      * rewrite <- (layout_keys _ 0). apply dict_find_keys. congruence.
      * exfalso.
        destruct (smooth_sequences_missing o (prep_other_category_ids r)
                    (prep_classification_descriptions_clean r)
                    (layout (images d1) 0)
                    (sequence_to_image_filenames info) (file_name c)
                    (store_of (flat_map image_dets (images d1))))
          as (e & He); [| exact Hfind |].
        -- apply sequence_filenames. now apply in_map.
        -- rewrite He in Hcases. rewrite Hcases in Hrun. discriminate.
    + intros [Hnd Hlisted]. rewrite <- Hfiles in Hnd, Hlisted.
      rewrite (index_images_ok _ 0 [] Hnd) in Hcases.
      cbn [app] in Hcases. unfold ok at 1 in Hcases.
      cbv beta iota zeta in Hcases.
      destruct (smooth_sequences_total o (prep_other_category_ids r)
                  (prep_classification_descriptions_clean r)
                  (categories_of (flat_map image_dets (images d1)))
                  (layout (images d1) 0) (sequence_to_image_filenames info))
        with (st := store_of (flat_map image_dets (images d1)))
        as (st' & Hs).
      * intros ds k Hds. apply Hcov. now rewrite Hclean, Hds.
      * intros f Hf. apply sequence_filenames in Hf.
        apply in_map_iff in Hf as (c & <- & Hc).
        apply dict_find_keys. rewrite layout_keys. now apply Hlisted.
      * apply store_of_in_order. intros x Hx.
        apply in_flat_map in Hx as (im1 & Him1 & Hx). now apply (Hord im1).
      * intros Hds. apply store_of_comparable. now apply Hcmp.
      * rewrite Hs in Hcases. cbn [snd] in Hcases.
        exists w. now destruct Hcases.
Qed.

Lemma drivers_return_on_describable_results_witness :
  (exists w,
      snd (smooth_classification_results_image_level (fun s => ok s) 0
             None described_heap) = ok w) /\
  (exists w,
      snd (smooth_classification_results_sequence_level (fun s => ok s) 0
             herd_sequence None described_heap) = ok w).
Proof.
  destruct (drivers_return_on_describable_results (fun s => ok s)
              None herd_sequence 0 described_heap)
    as [Himage [_ Hseq]].
  - reflexivity.
  - reflexivity.
  - intros ds k description _ _. now exists description.
  - reflexivity.
  - split; [exact Himage |]. apply Hseq. split.
    + repeat constructor; simpl; intuition discriminate.
    + intros c [<- | [<- | []]]; simpl; auto.
Defined.

(** ** An option that is never read *)

(** X25.  The option propagate_classifications_through_taxonomy is never
    read: whatever it is set to, the Group Smoother and both drivers do the
    same - they leave the same detections and dicts and return or raise the
    same.  In particular, setting it to False does not switch the taxonomic
    pass off. *)
Theorem propagate_option_is_never_read :
  forall (b : bool) (options : ClassificationSmoothingOptions),
    (forall other_category_ids descriptions_clean refs st,
        _smooth_classifications_for_list_of_detections
          (with_propagate b options) other_category_ids descriptions_clean
          refs st
        = _smooth_classifications_for_list_of_detections options
            other_category_ids descriptions_clean refs st) /\
    (forall clean_taxonomy_string input_file h,
        smooth_classification_results_image_level clean_taxonomy_string
          input_file (Some (with_propagate b options)) h
        = smooth_classification_results_image_level clean_taxonomy_string
            input_file (Some options) h) /\
    (forall clean_taxonomy_string input_file cct_sequence_information h,
        smooth_classification_results_sequence_level clean_taxonomy_string
          input_file cct_sequence_information
          (Some (with_propagate b options)) h
        = smooth_classification_results_sequence_level clean_taxonomy_string
            input_file cct_sequence_information (Some options) h).
Proof.
  intros b options.
  pose proof (with_propagate_same b options) as Hsame.
  assert (Hprepare : forall clean input_file h,
             _prepare_results_for_smoothing clean input_file
               (with_propagate b options) h
             = _prepare_results_for_smoothing clean input_file options h).
  { intros clean input_file h.
    unfold _prepare_results_for_smoothing, hbind, at_loc.
    cbn [with_propagate modify_in_place].
    destruct ((if modify_in_place options then hret input_file
               else deepcopy input_file) h) as [h1 [e | loc]];
      [reflexivity |].
    now rewrite (prepare_body_same clean _ _ loc _ Hsame). }
  split; [| split].
  - intros. now apply smooth_same.
  - intros clean input_file h.
    unfold smooth_classification_results_image_level, hbind.
    rewrite Hprepare.
    destruct (_prepare_results_for_smoothing clean input_file options h)
      as [h1 [e | r]]; [reflexivity |].
    unfold at_loc. now rewrite (smooth_images_same _ _ _ _ _ Hsame).
  - intros clean input_file info h.
    unfold smooth_classification_results_sequence_level, hbind.
    rewrite Hprepare.
    destruct (_prepare_results_for_smoothing clean input_file options h)
      as [h1 [e | r]]; [reflexivity |].
    unfold at_loc.
    destruct (index_images (images (objects h1 (prep_d r))) 0 [])
      as [e | idx]; [reflexivity |].
    now rewrite (smooth_sequences_same _ _ _ _ _ _ Hsame).
Qed.

(** With the option set to False, pass 3 still relabels the fox of the
    example. *)
Example propagate_off_still_collapses :
  fst (smooth_list (with_propagate false default_options) []
         (Some [("f", "fox"); ("r", "fox;red fox")])
         [sure "f"; sure "r"; sure "r"])
  = [sure "r"; sure "r"; sure "r"].
Proof. reflexivity. Qed.
